(** * Transaction construction engine of satorilib: a shallow embedding

    The development follows the Python sources
      - [satorilib/wallet/utils/transaction.py]      ([TxUtils])
      - [satorilib/wallet/concepts/transaction.py]   ([AssetTransaction])
      - [satorilib/wallet/evrmore/scripts.py]        ([P2SHRedeemScripts])
      - [satorilib/wallet/wallet.py]                 ([Wallet])
      - [satorilib/wallet/evrmore/wallet.py]         ([EvrmoreWallet])

    Python integers are [Z]; [bytes] are lists of [Byte.byte]; [str]
    values are lists of characters (code points below 256); a function
    that can raise returns a [pyres]; a method that assigns to the
    transaction it is given returns the transaction after the call next
    to its outcome.  What the wallet takes from the evrmore library, the
    identity and the chain connection (signature hashes, signing, script
    verification, address and transaction encodings, broadcast) is a
    record of functions, [Collaborators].

    Part I is the embedding, Part II the vocabulary of the statements and
    the concrete inputs the code is evaluated on, Part III the
    properties. *)

From Stdlib Require Import ZArith NArith String Ascii Lia Bool.
From Stdlib.Strings Require Import Byte.
From Stdlib Require Import List Permutation Sorting.Sorted.
From Stdlib Require QArith.
Import ListNotations.

Local Open Scope Z_scope.

(* ===================================================================== *)
(** * Part I: the embedding                                               *)
(* ===================================================================== *)

(** ** Python values and exceptions *)

Definition pystr := list ascii.
Definition bytes := list byte.

(** [s] written as a Rocq string literal. *)
Definition lit (s : string) : pystr := list_ascii_of_string s.

Inductive exn : Type :=
| TransactionFailure (msg : string)
| ValueError (msg : string)
| IndexError
| AttributeError
| EvalScriptError (msg : string)
| PyException (msg : string).

Inductive pyres (A : Type) : Type :=
| Ret (a : A)
| Raise (e : exn).
Arguments Ret {A} a.
Arguments Raise {A} e.

Definition bind {A B : Type} (m : pyres A) (k : A -> pyres B) : pyres B :=
  match m with
  | Ret a => k a
  | Raise e => Raise e
  end.

Notation "x <- m ;; k" := (bind m (fun x => k))
  (at level 61, m at next level, right associativity).

Definition byte_of_N (n : N) : byte :=
  match Byte.of_N n with
  | Some b => b
  | None => x00
  end.

Definition byte_of_Z (z : Z) : byte := byte_of_N (Z.to_N z).

Fixpoint list_eqb {A : Type} (eqb : A -> A -> bool) (l1 l2 : list A) : bool :=
  match l1, l2 with
  | [], [] => true
  | a :: r1, b :: r2 => eqb a b && list_eqb eqb r1 r2
  | _, _ => false
  end.

Definition str_eqb : pystr -> pystr -> bool := list_eqb Ascii.eqb.
Definition bytes_eqb : bytes -> bytes -> bool := list_eqb Byte.eqb.

(** ** Positional numerals: [hex(n)], [str(n)], [int(s)] *)

(** Digits of [n] in base [base], most significant first, no leading zero
    ([0] is the single digit 0).  The fuel is the bit length of [n]. *)
Fixpoint digits_fuel (base : N) (fuel : nat) (n : N) : list N :=
  match fuel with
  | O => [n]
  | S f =>
      if (n <? base)%N then [n]
      else digits_fuel base f (n / base) ++ [(n mod base)%N]
  end.

Definition digits (base n : N) : list N :=
  digits_fuel base (N.to_nat (N.size n)) n.

(** The number a digit list stands for. *)
Definition undigits (base : N) (ds : list N) : N :=
  fold_left (fun acc d => (acc * base + d)%N) ds 0%N.

(** Character of a digit, lower case as [hex] and [format(.., 'x')] print. *)
Definition digit_char (d : N) : ascii :=
  if (d <? 10)%N then ascii_of_N (48 + d) else ascii_of_N (87 + d).

(** Value of a hexadecimal character, either case. *)
Definition hex_value (c : ascii) : option N :=
  let n := N_of_ascii c in
  if ((48 <=? n) && (n <=? 57))%N then Some (n - 48)%N
  else if ((97 <=? n) && (n <=? 102))%N then Some (n - 87)%N
  else if ((65 <=? n) && (n <=? 70))%N then Some (n - 55)%N
  else None.

Definition dec_value (c : ascii) : option N :=
  let n := N_of_ascii c in
  if ((48 <=? n) && (n <=? 57))%N then Some (n - 48)%N else None.

(** [str(i)] for an integer. *)
Definition str_of_int (i : Z) : pystr :=
  if i <? 0 then lit "-" ++ map digit_char (digits 10 (Z.to_N (- i)))
  else map digit_char (digits 10 (Z.to_N i)).

(** [hex(i)[2:]]: for a negative [i], [hex] prints ['-0x..'] and the slice
    keeps the ['x']. *)
Definition hex_from_2 (i : Z) : pystr :=
  if i <? 0 then lit "x" ++ map digit_char (digits 16 (Z.to_N (- i)))
  else map digit_char (digits 16 (Z.to_N i)).

Fixpoint parse_dec (s : pystr) (acc : N) : option N :=
  match s with
  | [] => Some acc
  | c :: r =>
      match dec_value c with
      | Some d => parse_dec r (acc * 10 + d)%N
      | None => None
      end
  end.

(** [int(s)] on the strings this code builds: an optional minus sign and
    at least one decimal digit; anything else is a [ValueError]. *)
Definition int_of_str (s : pystr) : pyres Z :=
  let bad := Raise (ValueError "invalid literal for int() with base 10") in
  match s with
  | [] => bad
  | c :: r =>
      if Ascii.eqb c "-"%char then
        match r with
        | [] => bad
        | _ => match parse_dec r 0%N with
               | Some n => Ret (- Z.of_N n)
               | None => bad
               end
        end
      else match parse_dec s 0%N with
           | Some n => Ret (Z.of_N n)
           | None => bad
           end
  end.

(** [s.endswith(suffix)] *)
Definition endswith (s suffix : pystr) : bool :=
  (length suffix <=? length s)%nat
  && str_eqb (skipn (length s - length suffix) s) suffix.

(** [s.startswith(prefix)] on bytes *)
Definition startswith (s prefix : bytes) : bool :=
  bytes_eqb (firstn (length prefix) s) prefix
  && (length prefix <=? length s)%nat.

(** [c * n] for a one-character string [c]: empty when [n <= 0]. *)
Definition str_times (c : ascii) (n : Z) : pystr := repeat c (Z.to_nat n).

(** [s[0:-k]] for [k >= 0]: [s[0:-0]] is [s[0:0]], the empty string. *)
Definition slice_0_neg (s : pystr) (k : nat) : pystr :=
  match k with
  | O => []
  | _ => firstn (length s - k) s
  end.

(** [s.ljust(width, fill)] *)
Definition ljust (s : pystr) (width : nat) (fill : ascii) : pystr :=
  s ++ repeat fill (width - length s).

(** [[s[i:i+2] for i in range(0, len(s), 2)]] *)
Fixpoint chunks2 (s : pystr) : list pystr :=
  match s with
  | [] => []
  | [a] => [[a]]
  | a :: b :: r => [a; b] :: chunks2 r
  end.

(** Two lower-case hexadecimal characters of one byte. *)
Definition hex2 (b : byte) : pystr :=
  let n := Byte.to_N b in [digit_char (n / 16); digit_char (n mod 16)].

(** [b.hex()] *)
Definition bytes_hex (b : bytes) : pystr := concat (map hex2 b).

Definition is_space (c : ascii) : bool :=
  let n := N_of_ascii c in
  ((n =? 32) || ((9 <=? n) && (n <=? 13)))%N.

(** The index of the first character from [pos] on that is not ASCII. *)
Fixpoint first_non_ascii (pos : nat) (s : pystr) : option nat :=
  match s with
  | [] => None
  | c :: r =>
      if (N_of_ascii c <? 128)%N then first_non_ascii (S pos) r else Some pos
  end.

(** The [ValueError] of [bytes.fromhex] for the character at [pos]. *)
Definition fromhex_error (pos : nat) : exn :=
  ValueError ("non-hexadecimal number found in fromhex() arg at position "
              ++ string_of_list_ascii (str_of_int (Z.of_nat pos))).

(** The scan of [bytes.fromhex] over ASCII text: ASCII whitespace is
    skipped between bytes, the two digits of a byte are adjacent; the
    error names the character that is not a digit, a digit that the text
    ends after has the position of the end. *)
Fixpoint fromhex_from (pos : nat) (s : pystr) : pyres bytes :=
  match s with
  | [] => Ret []
  | c :: r =>
      if is_space c then fromhex_from (S pos) r
      else match hex_value c with
           | None => Raise (fromhex_error pos)
           | Some h =>
               match r with
               | d :: r' =>
                   match hex_value d with
                   | Some l =>
                       rest <- fromhex_from (S (S pos)) r' ;;
                       Ret (byte_of_N (16 * h + l) :: rest)
                   | None => Raise (fromhex_error (S pos))
                   end
               | [] => Raise (fromhex_error (S pos))
               end
           end
  end.

(** [bytes.fromhex(s)]: text that is not ASCII is refused at its first
    such character before anything is read. *)
Definition fromhex (s : pystr) : pyres bytes :=
  match first_non_ascii 0 s with
  | Some pos => Raise (fromhex_error pos)
  | None => fromhex_from 0 s
  end.

(** [s.encode('utf-8')] for code points below 256. *)
Definition utf8_char (c : ascii) : bytes :=
  let n := N_of_ascii c in
  if (n <? 128)%N then [byte_of_N n]
  else [byte_of_N (N.lor 192 (N.shiftr n 6)); byte_of_N (N.lor 128 (N.land n 63))].

Definition encode_utf8 (s : pystr) : bytes := flat_map utf8_char s.

(** [s.lower()] for code points below 256. *)
Definition lower_char (c : ascii) : ascii :=
  let n := N_of_ascii c in
  if ((65 <=? n) && (n <=? 90))%N then ascii_of_N (n + 32)
  else if ((192 <=? n) && (n <=? 222) && negb (n =? 215))%N then ascii_of_N (n + 32)
  else c.

Definition lower (s : pystr) : pystr := map lower_char s.

(** [b[-4:]], [b[:-4]] and [b[1:-4]] on bytes: a negative bound counts
    from the end and stops at the start of a shorter string. *)
Definition slice_neg4_end (b : bytes) : bytes := skipn (length b - 4) b.
Definition slice_to_neg4 (b : bytes) : bytes := firstn (length b - 4) b.
Definition slice_1_neg4 (b : bytes) : bytes := skipn 1 (firstn (length b - 4) b).

(** The hash and the text encoding that the address functions call:
    [hashlib.sha256(b).digest()], [base58.b58encode(b).decode()] and
    [base58.b58decode(s)], which raises on text that is not base 58. *)
Record Codecs : Type :=
  { sha256 : bytes -> bytes;
    b58encode : bytes -> pystr;
    b58decode : pystr -> pyres bytes }.

(** ** [TxUtils] (wallet/utils/transaction.py) *)

Module TxUtils.

(** [feeRate]'s default value in [estimatedFee]. *)
Definition defaultFeeRate : Z := 150000.

Definition estimatedFee (inputCount outputCount feeRate : Z) : Z :=
  (inputCount + outputCount) * feeRate.

Definition estimateTransactionSize (inputCount outputCount signatureCount : Z) : Z :=
  let baseSize := 10 in
  let inputSize := 32 + 4 + 1 + (signatureCount * 72) + 33 + 4 in
  let outputSize := 8 + 1 + 25 in
  baseSize + (inputCount * inputSize) + (outputCount * outputSize).

Definition isSatsDivisibilityValid (sats divisibility : Z) : bool :=
  endswith (str_of_int sats) (str_times "0" (8 - divisibility)).

Definition roundSatsDownToDivisibility (sats divisibility : Z) : pyres Z :=
  if isSatsDivisibilityValid sats divisibility then Ret sats
  else
    let ending := str_times "0" (8 - divisibility) in
    int_of_str (slice_0_neg (str_of_int sats) (length ending) ++ ending).

Definition intToLittleEndianHex (number : Z) : pystr :=
  let hexNumber := hex_from_2 number in
  let hexNumber :=
    if Nat.eqb (Nat.modulo (length hexNumber) 2) 0 then hexNumber
    else lit "0" ++ hexNumber in
  concat (rev (chunks2 hexNumber)).

Definition padHexStringTo8Bytes (hexString : pystr) : pystr :=
  let targetLength := 16%nat in
  ljust hexString targetLength "0".

(** [int(sats * (10 ** 10))] on an integer. *)
Definition satsToWei (sats : Z) : Z := sats * (10 ^ 10).

(** [int(wei // (10 ** 10))]: floor division. *)
Definition weiToSats (wei : Z) : Z := wei / (10 ^ 10).

(** [hash160ToAddress]: [pubKeyHash] is given as bytes or as hexadecimal
    text, [networkByte] is a byte string. *)
Definition hash160ToAddress (K : Codecs) (pubKeyHash : bytes + pystr)
    (networkByte : bytes) : pyres pystr :=
  pubKeyHash <- match pubKeyHash with
                | inl b => Ret b
                | inr s => fromhex s
                end ;;
  let step1 := networkByte ++ pubKeyHash in
  let sha256_1 := sha256 K step1 in
  let sha256_2 := sha256 K sha256_1 in
  let checksum := firstn 4 sha256_2 in
  let step4 := step1 ++ checksum in
  let address := b58encode K step4 in
  Ret address.

(** [addressToH160Bytes]: [decoded[1:-4]]. *)
Definition addressToH160Bytes (K : Codecs) (address : pystr) : pyres bytes :=
  decoded <- b58decode K address ;;
  let h160 := slice_1_neg4 decoded in
  Ret h160.

End TxUtils.

(** ** [AssetTransaction] (wallet/concepts/transaction.py) *)

(** [f"{n:02x}"] for [n >= 0]: lower-case hexadecimal, zero-padded on the
    left to at least two characters. *)
Definition format_02x (n : Z) : pystr :=
  let h := map digit_char (digits 16 (Z.to_N n)) in
  repeat "0"%char (2 - length h) ++ h.

Module AssetTransaction.

Definition evr : pystr := lit "657672".
Definition rvn : pystr := lit "72766e".
Definition t : pystr := lit "74".
Definition satoriLen : pystr := lit "06".
Definition satori : pystr := lit "5341544f5249".

(** [asset]'s default value in [satoriHex]. *)
Definition defaultAsset : pystr := lit "SATORI".

Definition satoriHex (currency asset : pystr) : pyres pystr :=
  symbol <- (if str_eqb (lower currency) (lit "rvn") then Ret rvn
             else if str_eqb (lower currency) (lit "evr") then Ret evr
             else Raise (PyException "invalid currency")) ;;
  let asset_length_hex := format_02x (Z.of_nat (length asset)) in
  let asset_hex := bytes_hex (encode_utf8 asset) in
  Ret (symbol ++ t ++ asset_length_hex ++ asset_hex).

Definition memoHex (memo : pystr) : pystr := bytes_hex (encode_utf8 memo).

End AssetTransaction.

(** The data element of an asset-tagged script, the expression
    [bytes.fromhex(AssetTransaction.satoriHex(currency, asset) +
     TxUtils.padHexStringTo8Bytes(TxUtils.intToLittleEndianHex(sats)))]
    of [_compileSatoriOutputs], [_compileSatoriChangeOutput],
    [_compileInputs], [_checkSatoriValue] and [compileOutputs]. *)
Definition encodeAssetTag (currency asset : pystr) (amountSats : Z) : pyres bytes :=
  h <- AssetTransaction.satoriHex currency asset ;;
  fromhex (h ++ TxUtils.padHexStringTo8Bytes (TxUtils.intToLittleEndianHex amountSats)).



(** ** Text: prefixes, upper case, fields, patterns *)

(** [s.startswith(prefix)] on text *)
Definition str_startswith (s prefix : pystr) : bool :=
  str_eqb (firstn (length prefix) s) prefix.

(** [s.upper()] on ASCII text. *)
Definition upper_char (c : ascii) : ascii :=
  let n := N_of_ascii c in
  if ((97 <=? n) && (n <=? 122))%N then ascii_of_N (n - 32) else c.

Definition upper (s : pystr) : pystr := map upper_char s.

(** [s.split(sep)] for a one-character separator: the fields between the
    separators, at least one, empty fields kept. *)
Fixpoint split (sep : ascii) (s : pystr) : list pystr :=
  match s with
  | [] => [[]]
  | c :: r =>
      if Ascii.eqb c sep then [] :: split sep r
      else match split sep r with
           | f :: fs => (c :: f) :: fs
           | [] => [[c]]
           end
  end.

(** [sep in s] for a one-character [sep] *)
Definition contains (sep : ascii) (s : pystr) : bool := existsb (Ascii.eqb sep) s.

(** The character classes [[a-zA-Z0-9]] and [[a-fA-F0-9]] of the patterns. *)
Definition is_alnum (c : ascii) : bool :=
  let n := N_of_ascii c in
  (((48 <=? n) && (n <=? 57)) || ((65 <=? n) && (n <=? 90))
   || ((97 <=? n) && (n <=? 122)))%N.

Definition is_hex_char (c : ascii) : bool :=
  let n := N_of_ascii c in
  (((48 <=? n) && (n <=? 57)) || ((65 <=? n) && (n <=? 70))
   || ((97 <=? n) && (n <=? 102)))%N.

Definition newline : ascii := ascii_of_N 10.

(** The tail [C{k}$] of a pattern given to [re.match]: exactly [k]
    characters of the class [C], then the end of the text; [$] also
    matches just before a newline that ends the text. *)
Fixpoint match_class_end (C : ascii -> bool) (k : nat) (s : pystr) : bool :=
  match k with
  | O =>
      match s with
      | [] => true
      | [c] => Ascii.eqb c newline
      | _ => false
      end
  | S k' =>
      match s with
      | c :: r => C c && match_class_end C k' r
      | [] => false
      end
  end.

(** ** [Validate] (wallet/utils/validate.py) *)

Module Validate.

Definition address (address currency : pystr) : bool :=
  (str_eqb (lower currency) (lit "rvn")
   && (str_startswith address (lit "R") || str_startswith address (lit "r"))
   && Nat.eqb (length address) 34)
  || (str_eqb (lower currency) (lit "evr")
      && (str_startswith address (lit "E") || str_startswith address (lit "e"))
      && Nat.eqb (length address) 34).

Definition ethAddress (address : pystr) : bool :=
  str_startswith address (lit "0x") && Nat.eqb (length address) 42.

End Validate.

(** ** Address validation (wallet/evrmore/valid.py, wallet/ethereum/valid.py) *)

Module Valid.

(** [re.match(r'^[E][a-zA-Z0-9]{33}$', address)] *)
Definition isValidEvrmoreAddressBasic (address : pystr) : bool :=
  match address with
  | c :: r => Ascii.eqb c "E" && match_class_end is_alnum 33 r
  | [] => false
  end.

(** [base58_check_decode]: every exception of the body is caught. *)
Definition base58_check_decode (K : Codecs) (address : pystr) : bool * option Z :=
  let body :=
    decoded <- b58decode K address ;;
    version <- match decoded with
               | v :: _ => Ret (Z.of_N (Byte.to_N v))
               | [] => Raise IndexError
               end ;;
    let checksum := slice_neg4_end decoded in
    let payload := slice_to_neg4 decoded in
    let checksum_check := firstn 4 (sha256 K (sha256 K payload)) in
    if negb (bytes_eqb checksum checksum_check) then Ret (false, None)
    else Ret (true, Some version) in
  match body with
  | Ret r => r
  | Raise _ => (false, None)
  end.

(** [isValidEvrmoreAddress]; [CEvrmoreAddress] is the constructor of the
    evrmore library, which raises on an address it does not accept. *)
Definition isValidEvrmoreAddress (K : Codecs)
    (CEvrmoreAddress : pystr -> pyres unit) (address : option pystr) : bool :=
  match address with
  | None => false
  | Some address =>
      if negb (Nat.eqb (length address) 34)
         || negb (str_startswith address (lit "E")) then false
      else
        let body :=
          _ <- CEvrmoreAddress address ;;
          if negb (isValidEvrmoreAddressBasic address) then Ret false
          else
            let '(is_valid, version) := base58_check_decode K address in
            if negb is_valid then Ret false
            else
              match version with
              | Some 33 => Ret true
              | Some 90 => Ret true
              | _ => Ret false
              end in
        match body with
        | Ret b => b
        | Raise _ => false
        end
  end.

Definition validEvrmoreAddress (K : Codecs)
    (CEvrmoreAddress : pystr -> pyres unit) (address : option pystr)
  : option pystr :=
  if negb (isValidEvrmoreAddress K CEvrmoreAddress address) then None
  else address.

(** [isValidEthereumAddress]; [is_checksum_address] is the function of
    [eth_utils]. *)
Definition isValidEthereumAddress (is_checksum_address : pystr -> bool)
    (address : pystr) : bool :=
  if match address with
     | a :: b :: r =>
         Ascii.eqb a "0" && Ascii.eqb b "x" && match_class_end is_hex_char 40 r
     | _ => false
     end
  then
    if str_eqb address (lower address) || str_eqb address (upper address)
    then true
    else is_checksum_address address
  else false.

End Valid.

(** ** [TransactionStruct] (wallet/concepts/transaction.py) *)

(** An entry of [raw['vout']] as [getMemo] reads it: the text
    [vout['scriptPubKey']['asm']] and the number [vout['value']], each
    absent when its key is. *)
Record vout_json : Type :=
  { scriptPubKey_asm : option pystr;
    vout_value : option QArith_base.Q }.

(** The decoded transaction [raw]: its ['vout'] list, absent when the key
    is. *)
Record raw_transaction : Type := { raw_vout : option (list vout_json) }.

Module TransactionStruct.

(** [vout.get('scriptPubKey', {}).get('asm', '')] *)
Definition op_return_of (vout : vout_json) : pystr :=
  match scriptPubKey_asm vout with
  | Some a => a
  | None => []
  end.

(** The test of the loop of [getMemo] on one output:
    [op_return.startswith('OP_RETURN ') and vout.get('value', 0) == 0]. *)
Definition is_memo (vout : vout_json) : bool :=
  str_startswith (op_return_of vout) (lit "OP_RETURN ")
  && match vout_value vout with
     | Some v => QArith_base.Qeq_bool v (QArith_base.Qmake 0 1)
     | None => true
     end.

Fixpoint getMemo_loop (vouts : list vout_json) : option pystr :=
  match vouts with
  | [] => None
  | vout :: rest =>
      if is_memo vout then Some (skipn 10 (op_return_of vout))
      else getMemo_loop rest
  end.

(** [getMemo]: [vouts.reverse()] reverses the list held by [raw] in
    place, so the call returns [raw] changed together with the memo; the
    default list of a missing key is not stored. *)
Definition getMemo (raw : raw_transaction) : raw_transaction * option pystr :=
  match raw_vout raw with
  | Some vouts =>
      let vouts := rev vouts in
      ({| raw_vout := Some vouts |}, getMemo_loop vouts)
  | None => (raw, getMemo_loop (rev []))
  end.

(** [bytesMemo] on the memo held by the object. *)
Definition bytesMemo (memo : option pystr) : pyres (option bytes) :=
  match memo with
  | None => Ret None
  | Some m => b <- fromhex m ;; Ret (Some b)
  end.

(** The second field [strMemo.split(':')[1]]; the guard [':' in strMemo]
    makes it exist. *)
Definition chainAddressFromMemo (strMemo : option pystr)
  : pyres (option (pystr * pystr)) :=
  match strMemo with
  | None => Ret None
  | Some strMemo =>
      if contains ":" strMemo then
        second <- match split ":" strMemo with
                  | _ :: f :: _ => Ret f
                  | _ => Raise IndexError
                  end ;;
        if (1 <? length second)%nat then
          first <- match split ":" strMemo with
                   | f :: _ => Ret f
                   | [] => Raise IndexError
                   end ;;
          Ret (Some (first, second))
        else Ret None
      else Ret None
  end.

End TransactionStruct.

(** ** Scripts and transactions (the types of the evrmore library)

    A script is the sequence of elements given to [CScript([...])], which
    is also what iterating a [CScript] yields: opcodes, data pushes
    ([bytes]) and integers. *)

Inductive opcode : Type :=
| OP_DUP | OP_HASH160 | OP_EQUAL | OP_EQUALVERIFY | OP_CHECKSIG
| OP_EVR_ASSET | OP_DROP | OP_RETURN | OP_IF | OP_ELSE | OP_ENDIF
| OP_CHECKMULTISIG | OP_CHECKLOCKTIMEVERIFY | OP_CHECKSEQUENCEVERIFY.

Inductive script_elem : Type :=
| Op (o : opcode)
| Data (b : bytes)
| Int (n : Z).

Definition CScript := list script_elem.

Definition opcode_eqb (a b : opcode) : bool :=
  match a, b with
  | OP_DUP, OP_DUP | OP_HASH160, OP_HASH160 | OP_EQUAL, OP_EQUAL
  | OP_EQUALVERIFY, OP_EQUALVERIFY | OP_CHECKSIG, OP_CHECKSIG
  | OP_EVR_ASSET, OP_EVR_ASSET | OP_DROP, OP_DROP | OP_RETURN, OP_RETURN
  | OP_IF, OP_IF | OP_ELSE, OP_ELSE | OP_ENDIF, OP_ENDIF
  | OP_CHECKMULTISIG, OP_CHECKMULTISIG
  | OP_CHECKLOCKTIMEVERIFY, OP_CHECKLOCKTIMEVERIFY
  | OP_CHECKSEQUENCEVERIFY, OP_CHECKSEQUENCEVERIFY => true
  | _, _ => false
  end.

(** [x == OP_EVR_ASSET] for a script element [x]. *)
Definition is_op (o : opcode) (x : script_elem) : bool :=
  match x with
  | Op o' => opcode_eqb o' o
  | _ => false
  end.

Definition SIGHASH_ALL : Z := 1.
Definition SIGHASH_ANYONECANPAY : Z := 128.

Record COutPoint : Type := { hash : pystr; n : Z }.
Record CMutableTxIn : Type := { prevout : COutPoint; scriptSig : CScript }.
Record CMutableTxOut : Type := { nValue : Z; scriptPubKey : CScript }.
Record CMutableTransaction : Type :=
  { vin : list CMutableTxIn; vout : list CMutableTxOut }.

(** [binascii.unhexlify(h.encode('utf8'))]: an even number of
    hexadecimal digits and nothing else, no white space; its error,
    [binascii.Error], is a [ValueError]. *)
Fixpoint unhexlify_digits (s : pystr) : pyres bytes :=
  match s with
  | c :: d :: r =>
      match hex_value c, hex_value d with
      | Some h, Some l =>
          rest <- unhexlify_digits r ;; Ret (byte_of_N (16 * h + l) :: rest)
      | _, _ => Raise (ValueError "Non-hexadecimal digit found")
      end
  | _ => Ret []
  end.

Definition unhexlify (h : pystr) : pyres bytes :=
  let raw := map ascii_of_byte (encode_utf8 h) in
  if Nat.odd (length raw) then Raise (ValueError "Odd-length string")
  else unhexlify_digits raw.

(** [lx(h)] of the evrmore library: the bytes of the text, reversed. *)
Definition lx (h : pystr) : pyres bytes :=
  b <- unhexlify h ;; Ret (rev b).

(** ['%x' % i] *)
Definition format_x (i : Z) : pystr :=
  if i <? 0 then lit "-" ++ map digit_char (digits 16 (Z.to_N (- i)))
  else map digit_char (digits 16 (Z.to_N i)).

(** [COutPoint(lx(tx_hash), n)]: the constructor of the evrmore library
    takes a hash of 32 bytes and an index in [0, 0xffffffff] and raises
    [ValueError] for anything else, so the outpoint is built exactly from
    a [tx_hash] of 64 hexadecimal digits and an index in that range.  The
    record keeps the hash as the text it was built from. *)
Definition COutPoint_lx (tx_hash : pystr) (n : Z) : pyres COutPoint :=
  h <- lx tx_hash ;;
  if negb (Nat.eqb (length h) 32) then
    Raise (ValueError
             ("COutPoint: hash must be exactly 32 bytes; got "
              ++ string_of_list_ascii (str_of_int (Z.of_nat (length h)))
              ++ " bytes"))
  else if negb ((0 <=? n) && (n <=? 4294967295)) then
    Raise (ValueError
             ("COutPoint: n must be in range 0x0 to 0xffffffff; got "
              ++ string_of_list_ascii (format_x n)))
  else Ret {| hash := tx_hash; n := n |}.

(** [l[-k]] for [k >= 1]. *)
Definition nth_from_end {A : Type} (l : list A) (k : nat) : pyres A :=
  match nth_error (rev l) (k - 1) with
  | Some a => Ret a
  | None => Raise IndexError
  end.

(** [l[i] = x] (the callers only write inside the list). *)
Fixpoint update_nth {A : Type} (i : nat) (x : A) (l : list A) : list A :=
  match l, i with
  | [], _ => []
  | _ :: r, O => x :: r
  | a :: r, S j => a :: update_nth j x r
  end.

(** ** [P2SHRedeemScripts] (wallet/evrmore/scripts.py) *)

Module P2SHRedeemScripts.

(** A public key argument, [Union[bytes, str]]. *)
Inductive pubkey_arg : Type :=
| KeyBytes (b : bytes)
| KeyHex (s : pystr).

(** [k if isinstance(k, bytes) else bytes.fromhex(k)] *)
Definition key_bytes (k : pubkey_arg) : pyres bytes :=
  match k with
  | KeyBytes b => Ret b
  | KeyHex s => fromhex s
  end.

(** The timestamp argument, [Union[int, dt.datetime]]; for a datetime
    the field is [int(timestamp.timestamp())]. *)
Inductive timestamp_arg : Type :=
| TsInt (t : Z)
| TsDatetime (seconds : Z).

(** [basicMultisig]: the bounds are checked before any key is converted. *)
Fixpoint byteKeys (pubkeys : list pubkey_arg) : pyres (list bytes) :=
  match pubkeys with
  | [] => Ret []
  | key :: rest =>
      b <- key_bytes key ;;
      bs <- byteKeys rest ;;
      Ret (b :: bs)
  end.

Definition basicMultisig (pubkeys : list pubkey_arg) (signatures : Z)
  : pyres CScript :=
  if negb ((1 <=? signatures) && (signatures <=? Z.of_nat (length pubkeys))) then
    Raise (ValueError "Required signatures must be between 1 and number of public keys")
  else
    byteKeys <- byteKeys pubkeys ;;
    Ret ([Int signatures] ++ map Data byteKeys
         ++ [Int (Z.of_nat (length byteKeys)); Op OP_CHECKMULTISIG]).

Definition channelScript (senderBytes receiverBytes : bytes)
    (timeoutValue : Z) (lock : opcode) : CScript :=
  [ Op OP_IF;
      Int 2; Data senderBytes; Data receiverBytes; Int 2; Op OP_CHECKMULTISIG;
    Op OP_ELSE;
      Int timeoutValue; Op lock; Op OP_DROP;
      Data senderBytes; Op OP_CHECKSIG;
    Op OP_ENDIF ].

Definition renewableLightChannel (sender receiver : pubkey_arg)
    (blocks minutes : option Z) : pyres CScript :=
  match blocks, minutes with
  | None, None =>
      Raise (ValueError "Either blocks or minutes must be specified")
  | Some _, Some _ =>
      Raise (ValueError "Only one of blocks or minutes can be specified")
  | Some blocks, None =>
      senderBytes <- key_bytes sender ;;
      receiverBytes <- key_bytes receiver ;;
      timeoutValue <-
        (if negb ((1 <=? blocks) && (blocks <=? 65535))
         then Raise (ValueError "blocks must be between 1 and 65535")
         else Ret blocks) ;;
      Ret (channelScript senderBytes receiverBytes timeoutValue
             OP_CHECKSEQUENCEVERIFY)
  | None, Some minutes =>
      senderBytes <- key_bytes sender ;;
      receiverBytes <- key_bytes receiver ;;
      timeoutValue <-
        ((* minutes <= 65535 * 8.5, compared exactly *)
         if negb ((1 <=? minutes) && (2 * minutes <=? 65535 * 17))
         then Raise (ValueError "minutes must be between 1 and 557047 minutes")
         else
           let timeUnits := (minutes * 60) / 512 in
           let timeUnits := if timeUnits <? 1 then 1 else timeUnits in
           Ret (Z.lor 4194304 (Z.land timeUnits 65535))) ;;
      Ret (channelScript senderBytes receiverBytes timeoutValue
             OP_CHECKSEQUENCEVERIFY)
  end.

(** [timestamp] after the [isinstance(timestamp, datetime.datetime)]
    conversion. *)
Definition timestamp_int (timestamp : timestamp_arg) : Z :=
  match timestamp with
  | TsDatetime seconds => seconds
  | TsInt t => t
  end.

Definition nonrenewableLightChannel (sender receiver : pubkey_arg)
    (blocks : option Z) (timestamp : option timestamp_arg) : pyres CScript :=
  match blocks, timestamp with
  | None, None =>
      Raise (ValueError "Either blocks or timestamp must be specified")
  | Some _, Some _ =>
      Raise (ValueError "Only one of blocks or timestamp can be specified")
  | Some blocks, None =>
      senderBytes <- key_bytes sender ;;
      receiverBytes <- key_bytes receiver ;;
      timeoutValue <-
        (if blocks <=? 0
         then Raise (ValueError "blocks must be positive")
         else Ret blocks) ;;
      Ret (channelScript senderBytes receiverBytes timeoutValue
             OP_CHECKLOCKTIMEVERIFY)
  | None, Some timestamp =>
      senderBytes <- key_bytes sender ;;
      receiverBytes <- key_bytes receiver ;;
      timeoutValue <-
        (let timestamp := timestamp_int timestamp in
         if timestamp <=? 0
         then Raise (ValueError "timestamp must be positive")
         else
           let timeoutValue := timestamp in
           if timeoutValue <? 500000000
           then Raise (ValueError "Timestamp value is too small to be a valid timestamp (must be > 500,000,000)")
           else Ret timeoutValue) ;;
      Ret (channelScript senderBytes receiverBytes timeoutValue
             OP_CHECKLOCKTIMEVERIFY)
  end.

End P2SHRedeemScripts.

(** ** [Wallet] (wallet/wallet.py): unspent outputs and coin selection *)

(** An entry of [unspentCurrency] / [unspentAssets], a dict with the keys
    ['tx_hash'], ['tx_pos'], ['value'] and, once resolved, ['scriptPubKey']
    (hex). *)
Record unspent : Type :=
  { tx_hash : pystr;
    tx_pos : Z;
    value : Z;
    utxo_scriptPubKey : option pystr }.

(** The fields of the wallet object that the modelled methods read.  The
    fees are kept in sats: [mundoFee] is [TxUtils.asSats(self.mundoFee)],
    [bridgeFee] is [TxUtils.asSats(self.bridgeFee)], [reserve] is
    [self.reserve], already in sats in the source. *)
Record Wallet : Type :=
  { unspentCurrency : list unspent;
    unspentAssets : list unspent;
    reserve : Z;
    mundoFee : Z;
    bridgeFee : Z;
    address : pystr;
    symbol : pystr }.

(** [sum([x.get('value') for x in l])] *)
Definition sum_values (l : list unspent) : Z :=
  fold_right (fun x acc => value x + acc) 0 l.

(** [sorted(l, key=lambda x: x['value'])]: ascending and stable. *)
Fixpoint insert_by_value (x : unspent) (l : list unspent) : list unspent :=
  match l with
  | [] => [x]
  | y :: r =>
      if value x <=? value y then x :: l else y :: insert_by_value x r
  end.

Definition sorted_by_value (l : list unspent) : list unspent :=
  fold_right insert_by_value [] l.

(** [l.pop(i)] for [i < len(l)]: the element and the remaining list. *)
Fixpoint pop_nth (i : nat) (l : list unspent) : option (unspent * list unspent) :=
  match l, i with
  | [], _ => None
  | x :: r, O => Some (x, r)
  | x :: r, S j =>
      match pop_nth j r with
      | Some (y, r') => Some (y, x :: r')
      | None => None
      end
  end.

(** An entry of [unspentAssets]: an output together with its keys
    ['name'] and ['asset'], each absent when the entry has no such key. *)
Record asset_unspent : Type :=
  { asset_name : option pystr;
    asset_asset : option pystr;
    asset_utxo : unspent }.

(** [x.get('value')] of an asset entry *)
Definition asset_value (x : asset_unspent) : Z := value (asset_utxo x).

(** [sum([x.get('value') for x in l])] *)
Definition sum_asset_values (l : list asset_unspent) : Z :=
  fold_right (fun x acc => asset_value x + acc) 0 l.

(** [sorted(l, key=lambda x: x['value'])] on asset entries. *)
Fixpoint insert_asset_by_value (x : asset_unspent) (l : list asset_unspent)
  : list asset_unspent :=
  match l with
  | [] => [x]
  | y :: r =>
      if asset_value x <=? asset_value y then x :: l
      else y :: insert_asset_by_value x r
  end.

Definition sorted_assets_by_value (l : list asset_unspent) : list asset_unspent :=
  fold_right insert_asset_by_value [] l.

(** [l.pop(i)] for [i < len(l)] on asset entries. *)
Fixpoint pop_asset_nth (i : nat) (l : list asset_unspent)
  : option (asset_unspent * list asset_unspent) :=
  match l, i with
  | [], _ => None
  | x :: r, O => Some (x, r)
  | x :: r, S j =>
      match pop_asset_nth j r with
      | Some (y, r') => Some (y, x :: r')
      | None => None
      end
  end.

Module Selection.

(** The loop condition
    [gatheredCurrencySats < sats + TxUtils.estimatedFee(
       inputCount=inputCount + len(gatheredCurrencyUnspents),
       outputCount=outputCount)], at the fee rate [feeRate]. *)
Definition below (feeRate sats inputCount outputCount : Z)
    (gatheredCurrencySats : Z) (gatheredCurrencyUnspents : list unspent) : bool :=
  gatheredCurrencySats <?
    sats + TxUtils.estimatedFee
             (inputCount + Z.of_nat (length gatheredCurrencyUnspents))
             outputCount feeRate.

(** The first loop with [randomly] false: [unspentCurrency.pop(0)] until
    the threshold is met; the [IndexError] of an empty pool sets
    [encounteredDust]. *)
Fixpoint gather_smallest (feeRate sats inputCount outputCount : Z)
    (unspentCurrency : list unspent)
    (gatheredCurrencySats : Z) (gatheredCurrencyUnspents : list unspent)
  : list unspent * Z * bool :=
  if below feeRate sats inputCount outputCount
       gatheredCurrencySats gatheredCurrencyUnspents then
    match unspentCurrency with
    | smallestUnspent :: rest =>
        gather_smallest feeRate sats inputCount outputCount rest
          (gatheredCurrencySats + value smallestUnspent)
          (gatheredCurrencyUnspents ++ [smallestUnspent])
    | [] => (gatheredCurrencyUnspents, gatheredCurrencySats, true)
    end
  else (gatheredCurrencyUnspents, gatheredCurrencySats, false).

(** The second loop with [randomly] false: [unspentCurrency.pop()] takes
    the last element; [reversed] is the pool read from its end.  The
    [IndexError] of an empty pool ends the loop. *)
Fixpoint gather_largest (feeRate sats inputCount outputCount : Z)
    (reversed : list unspent)
    (gatheredCurrencySats : Z) (gatheredCurrencyUnspents : list unspent)
  : list unspent * Z :=
  if below feeRate sats inputCount outputCount
       gatheredCurrencySats gatheredCurrencyUnspents then
    match reversed with
    | largestUnspent :: rest =>
        gather_largest feeRate sats inputCount outputCount rest
          (gatheredCurrencySats + value largestUnspent)
          (gatheredCurrencyUnspents ++ [largestUnspent])
    | [] => (gatheredCurrencyUnspents, gatheredCurrencySats)
    end
  else (gatheredCurrencyUnspents, gatheredCurrencySats).

(** Either loop with [randomly] true:
    [unspentCurrency.pop(randrange(len(unspentCurrency)))].  [rand k b]
    is the [k]-th draw of [randrange(b)]; [len] is the length of the
    pool, [randrange(0)] raises [ValueError], which no handler of the
    loop catches. *)
Fixpoint gather_random (rand : nat -> nat -> nat) (draw : nat)
    (feeRate sats inputCount outputCount : Z)
    (len : nat) (unspentCurrency : list unspent)
    (gatheredCurrencySats : Z) (gatheredCurrencyUnspents : list unspent)
  : pyres (list unspent * Z * nat) :=
  if below feeRate sats inputCount outputCount
       gatheredCurrencySats gatheredCurrencyUnspents then
    match len with
    | O => Raise (ValueError "empty range for randrange()")
    | S len' =>
        match pop_nth (Nat.modulo (rand draw len) len) unspentCurrency with
        | Some (randomUnspent, rest) =>
            gather_random rand (S draw) feeRate sats inputCount outputCount
              len' rest
              (gatheredCurrencySats + value randomUnspent)
              (gatheredCurrencyUnspents ++ [randomUnspent])
        | None => Raise IndexError
        end
    end
  else Ret (gatheredCurrencyUnspents, gatheredCurrencySats, draw).

(** [Wallet._gatherCurrencyUnspents] with the fee rate of
    [TxUtils.estimatedFee] as a parameter. *)
Definition gatherCurrencyUnspentsAt (feeRate : Z) (w : Wallet)
    (sats inputCount outputCount : Z) (randomly : bool)
    (rand : nat -> nat -> nat) : pyres (list unspent * Z) :=
  let unspentCurrency := filter (fun x => 0 <? value x) (unspentCurrency w) in
  let unspentCurrency := sorted_by_value unspentCurrency in
  let haveCurrency := sum_values unspentCurrency in
  if haveCurrency <? sats + reserve w then
    Raise (TransactionFailure "tx: must retain a reserve of currency to cover fees")
  else
    let gatheredCurrencySats := 0 in
    let gatheredCurrencyUnspents := [] in
    r <- (if randomly then
            r <- gather_random rand 0 feeRate sats inputCount outputCount
                   (length unspentCurrency) unspentCurrency
                   gatheredCurrencySats gatheredCurrencyUnspents ;;
            let '(us, s, draw) := r in Ret (us, s, false, draw)
          else
            let '(us, s, encounteredDust) :=
              gather_smallest feeRate sats inputCount outputCount
                unspentCurrency gatheredCurrencySats gatheredCurrencyUnspents in
            Ret (us, s, encounteredDust, O)) ;;
    let '(gatheredCurrencyUnspents, gatheredCurrencySats, encounteredDust, draw) := r in
    if encounteredDust then
      let unspentCurrency := gatheredCurrencyUnspents in
      let gatheredCurrencySats := 0 in
      let gatheredCurrencyUnspents := [] in
      if randomly then
        r <- gather_random rand draw feeRate sats inputCount outputCount
               (length unspentCurrency) unspentCurrency
               gatheredCurrencySats gatheredCurrencyUnspents ;;
        let '(us, s, _) := r in Ret (us, s)
      else
        Ret (gather_largest feeRate sats inputCount outputCount
               (rev unspentCurrency) gatheredCurrencySats gatheredCurrencyUnspents)
    else Ret (gatheredCurrencyUnspents, gatheredCurrencySats).

(** [Wallet._gatherCurrencyUnspents]: [TxUtils.estimatedFee] is called
    without [feeRate], hence at its default. *)
Definition _gatherCurrencyUnspents (w : Wallet)
    (sats inputCount outputCount : Z) (randomly : bool)
    (rand : nat -> nat -> nat) : pyres (list unspent * Z) :=
  gatherCurrencyUnspentsAt TxUtils.defaultFeeRate w
    sats inputCount outputCount randomly rand.

(** [Wallet._gatherReservedCurrencyUnspent] *)
Definition _gatherReservedCurrencyUnspent (w : Wallet) (exactSats : Z)
  : option unspent :=
  let unspentCurrency :=
    filter (fun x => value x =? exactSats) (unspentCurrency w) in
  match unspentCurrency with
  | [] => None
  | first :: _ => Some first
  end.

(** [Wallet._gatherOneCurrencyUnspent]; [claimed] is the dict, of which
    only the keys are read, [None] standing for no key. *)
Fixpoint _gatherOneCurrencyUnspent_loop (atleastSats : Z) (claimed : list pystr)
    (len : Z) (l : list unspent) : option unspent * Z * Z :=
  match l with
  | [] => (None, 0, 0)
  | unspentCurrency :: rest =>
      if (atleastSats <=? value unspentCurrency)
         && negb (existsb (str_eqb (tx_hash unspentCurrency)) claimed)
      then (Some unspentCurrency, value unspentCurrency, len)
      else _gatherOneCurrencyUnspent_loop atleastSats claimed len rest
  end.

Definition _gatherOneCurrencyUnspent (w : Wallet) (atleastSats : Z)
    (claimed : option (list pystr)) : option unspent * Z * Z :=
  let claimed := match claimed with
                 | Some c => c
                 | None => []
                 end in
  _gatherOneCurrencyUnspent_loop atleastSats claimed
    (Z.of_nat (length (unspentCurrency w))) (unspentCurrency w).

(** [x.get('name', x.get('asset')) == 'SATORI'] *)
Definition is_satori (x : asset_unspent) : bool :=
  match asset_name x with
  | Some name => str_eqb name (lit "SATORI")
  | None =>
      match asset_asset x with
      | Some asset => str_eqb asset (lit "SATORI")
      | None => false
      end
  end.

(** The loop of [_gatherSatoriUnspents] with [randomly] false:
    [unspentSatori.pop(0)], whose [IndexError] on an empty list nothing
    catches. *)
Fixpoint gatherSatori_smallest (sats : Z) (unspentSatori : list asset_unspent)
    (gatheredSatoriSats : Z) (gatheredSatoriUnspents : list asset_unspent)
  : pyres (list asset_unspent * Z) :=
  if gatheredSatoriSats <? sats then
    match unspentSatori with
    | smallestUnspent :: rest =>
        gatherSatori_smallest sats rest
          (gatheredSatoriSats + asset_value smallestUnspent)
          (gatheredSatoriUnspents ++ [smallestUnspent])
    | [] => Raise IndexError
    end
  else Ret (gatheredSatoriUnspents, gatheredSatoriSats).

(** The loop with [randomly] true; [rand k b] is the [k]-th draw of
    [randrange(b)], [len] the length of the pool. *)
Fixpoint gatherSatori_random (rand : nat -> nat -> nat) (draw : nat) (sats : Z)
    (len : nat) (unspentSatori : list asset_unspent)
    (gatheredSatoriSats : Z) (gatheredSatoriUnspents : list asset_unspent)
  : pyres (list asset_unspent * Z) :=
  if gatheredSatoriSats <? sats then
    match len with
    | O => Raise (ValueError "empty range for randrange()")
    | S len' =>
        match pop_asset_nth (Nat.modulo (rand draw len) len) unspentSatori with
        | Some (randomUnspent, rest) =>
            gatherSatori_random rand (S draw) sats len' rest
              (gatheredSatoriSats + asset_value randomUnspent)
              (gatheredSatoriUnspents ++ [randomUnspent])
        | None => Raise IndexError
        end
    end
  else Ret (gatheredSatoriUnspents, gatheredSatoriSats).

(** [Wallet._gatherSatoriUnspents]; [unspentAssets] is [self.unspentAssets]
    with the name keys of its entries. *)
Definition _gatherSatoriUnspents (unspentAssets : list asset_unspent)
    (sats : Z) (randomly : bool) (rand : nat -> nat -> nat)
  : pyres (list asset_unspent * Z) :=
  let unspentSatori :=
    filter (fun x => is_satori x && (0 <? asset_value x)) unspentAssets in
  let unspentSatori := sorted_assets_by_value unspentSatori in
  let haveSatori := sum_asset_values unspentSatori in
  if negb ((sats <=? haveSatori) && (0 <? sats)) then
    Raise (TransactionFailure "tx: not enough satori to send")
  else
    let gatheredSatoriSats := 0 in
    let gatheredSatoriUnspents := [] in
    if randomly then
      gatherSatori_random rand 0 sats (length unspentSatori) unspentSatori
        gatheredSatoriSats gatheredSatoriUnspents
    else
      gatherSatori_smallest sats unspentSatori
        gatheredSatoriSats gatheredSatoriUnspents.

End Selection.

(** ** Collaborators

    What the wallet consumes from the evrmore library, the identity and the
    chain connection; none of it is computed by the modelled code. *)
Record Collaborators : Type :=
  { (** [SignatureHash(script, tx, i, flag)] *)
    SignatureHash : CScript -> CMutableTransaction -> nat -> Z -> bytes;
    (** [identity._privateKeyObj.sign] and [.pub] *)
    privateKey_sign : bytes -> bytes;
    privateKey_pub : bytes;
    (** [VerifyScript(scriptSig, script, tx, i, (SCRIPT_VERIFY_P2SH,))] *)
    VerifyScript : CScript -> CScript -> CMutableTransaction -> nat -> pyres unit;
    Hash160 : bytes -> bytes;
    hash160ToAddress : bytes -> pystr;
    (** the serialization of a script, and [CScript(b)] for raw bytes *)
    script_to_bytes : CScript -> bytes;
    script_from_bytes : bytes -> CScript;
    (** [CEvrmoreAddress(address).to_scriptPubKey()] *)
    address_to_scriptPubKey : pystr -> pyres CScript;
    (** [CMutableTransaction.deserialize], [b2x(tx.serialize())] *)
    tx_deserialize : bytes -> pyres CMutableTransaction;
    tx_to_hex : CMutableTransaction -> pystr;
    (** [str] of an output inside a message *)
    txout_str : CMutableTxOut -> string;
    (** [electrumx.api.broadcast] *)
    electrumx_broadcast : pystr -> pyres pystr }.

(** What the change output, the signing of a whole transaction and the
    originator of a partial transaction consume besides. *)
Record AddressLib : Type :=
  { (** [str(CEvrmoreAddress(address))] *)
    address_str : pystr -> pyres pystr;
    (** [identity._addressObj.to_scriptPubKey()] *)
    identity_scriptPubKey : CScript;
    (** [b2x(txin.prevout.hash)] for the outpoint built from [tx_hash] *)
    b2x_prevout_hash : pystr -> pystr;
    (** [tx.serialize()] *)
    tx_serialize : CMutableTransaction -> bytes }.

(** [P2SHEvrmoreAddress.from_redeemScript(redeem_script).to_scriptPubKey()] *)
Definition p2sh_scriptPubKey (C : Collaborators) (redeem_script : CScript) : CScript :=
  [Op OP_HASH160; Data (Hash160 C (script_to_bytes C redeem_script)); Op OP_EQUAL].

(** [str(i)] inside a message. *)
Definition show (i : Z) : string := string_of_list_ascii (str_of_int i).

(** ** Sorting byte strings: [list.sort()] on [bytes] *)

Fixpoint bytes_leb (a b : bytes) : bool :=
  match a, b with
  | [], _ => true
  | _ :: _, [] => false
  | x :: a', y :: b' =>
      if (Byte.to_N x <? Byte.to_N y)%N then true
      else if (Byte.to_N y <? Byte.to_N x)%N then false
      else bytes_leb a' b'
  end.

Fixpoint insert_bytes (x : bytes) (l : list bytes) : list bytes :=
  match l with
  | [] => [x]
  | y :: r => if bytes_leb x y then x :: l else y :: insert_bytes x r
  end.

Definition sort_bytes (l : list bytes) : list bytes :=
  fold_right insert_bytes [] l.

(** ** [EvrmoreWallet] (wallet/evrmore/wallet.py) *)

Module EvrmoreWallet.

(** [TxUtils.asSats(amount or self.mundoFee)].  The argument [amount] is
    a float or [None]; [or] is applied to it before the conversion to
    sats.  It is given as [None] when it is [None] or zero, and as
    [Some s] for any other amount, [s] being [TxUtils.asSats(amount)]
    (which is 0 for an amount below 1e-8). *)
Definition amount_or_mundoFee (w : Wallet) (amount : option Z) : Z :=
  match amount with
  | Some a => a
  | None => mundoFee w
  end.

(** A fee of the wallet, [self.mundoFee] or [self.bridgeFee], as the
    argument [amount]: the fees are kept in sats here (the source sets
    them to 0.0001 and 0.01 coin), a fee of 0 sats standing for the
    float 0.0. *)
Definition fee_amount (fee : Z) : option Z :=
  if fee =? 0 then None else Some fee.

(** The loop of [_checkSatoriValue] over the elements of the script:
    the element after the first asset marker decides; [x.startswith] on
    an element that is not a byte string is an [AttributeError]. *)
Fixpoint _checkSatoriValue_loop (w : Wallet) (amount : option Z)
    (nextOne : bool) (script : CScript) : pyres bool :=
  match script with
  | [] => Ret false
  | x :: rest =>
      if nextOne then
        match x with
        | Data b =>
            tag <- encodeAssetTag (symbol w) AssetTransaction.defaultAsset
                     (amount_or_mundoFee w amount) ;;
            if negb (startswith b tag) then Ret false else Ret true
        | _ => Raise AttributeError
        end
      else if is_op OP_EVR_ASSET x
           then _checkSatoriValue_loop w amount true rest
           else _checkSatoriValue_loop w amount nextOne rest
  end.

Definition _checkSatoriValue (w : Wallet) (output : CMutableTxOut)
    (amount : option Z) : pyres bool :=
  _checkSatoriValue_loop w amount false (scriptPubKey output).

Definition p2pkh (C : Collaborators) : CScript :=
  [Op OP_DUP; Op OP_HASH160; Data (Hash160 C (privateKey_pub C));
   Op OP_EQUALVERIFY; Op OP_CHECKSIG].

(** The key [f"{tx_hash}:{tx_pos}"] of [redeem_scripts]. *)
Definition utxo_key (u : unspent) : pystr :=
  tx_hash u ++ lit ":" ++ str_of_int (tx_pos u).

Fixpoint lookup_script (key : pystr) (d : list (pystr * CScript)) : option CScript :=
  match d with
  | [] => None
  | (k, s) :: r => if str_eqb k key then Some s else lookup_script key r
  end.

(** The input [CMutableTxIn(COutPoint(lx(tx_hash), tx_pos))] of an entry,
    as it is when the outpoint can be built, and the construction
    itself, which raises the [ValueError] of the outpoint otherwise. *)
Definition new_txin (u : unspent) : CMutableTxIn :=
  {| prevout := {| hash := tx_hash u; n := tx_pos u |}; scriptSig := [] |}.

Definition txin_of (u : unspent) : pyres CMutableTxIn :=
  prevout <- COutPoint_lx (tx_hash u) (tx_pos u) ;;
  Ret {| prevout := prevout; scriptSig := [] |}.

(** One pass of the first loop of [_compileInputs]. *)
Definition currency_input_script (C : Collaborators)
    (redeem_scripts : list (pystr * CScript)) (u : unspent) : pyres CScript :=
  match utxo_scriptPubKey u with
  | Some h => b <- fromhex h ;; Ret (script_from_bytes C b)
  | None =>
      match lookup_script (utxo_key u) redeem_scripts with
      | Some redeem_script => Ret (p2sh_scriptPubKey C redeem_script)
      | None => Ret (p2pkh C)
      end
  end.

(** One pass of the second loop of [_compileInputs]. *)
Definition satori_input_script (C : Collaborators) (w : Wallet)
    (redeem_scripts : list (pystr * CScript)) (u : unspent) : pyres CScript :=
  match utxo_scriptPubKey u with
  | Some h => b <- fromhex h ;; Ret (script_from_bytes C b)
  | None =>
      let base :=
        match lookup_script (utxo_key u) redeem_scripts with
        | Some redeem_script => p2sh_scriptPubKey C redeem_script
        | None => p2pkh C
        end in
      tag <- encodeAssetTag (symbol w) AssetTransaction.defaultAsset (value u) ;;
      Ret (base ++ [Op OP_EVR_ASSET; Data tag; Op OP_DROP])
  end.

Fixpoint compile_loop (f : unspent -> pyres CScript) (us : list unspent)
  : pyres (list CMutableTxIn * list CScript) :=
  match us with
  | [] => Ret ([], [])
  | u :: r =>
      txin <- txin_of u ;;
      s <- f u ;;
      rest <- compile_loop f r ;;
      Ret (txin :: fst rest, s :: snd rest)
  end.

(** [_compileInputs]; the outpoint keeps [tx_hash] as text, [redeem_scripts]
    is the dict as a list of entries. *)
Definition _compileInputs (C : Collaborators) (w : Wallet)
    (gatheredCurrencyUnspents gatheredSatoriUnspents : list unspent)
    (redeem_scripts : list (pystr * CScript))
  : pyres (list CMutableTxIn * list CScript) :=
  cur <- compile_loop (currency_input_script C redeem_scripts)
           gatheredCurrencyUnspents ;;
  sat <- compile_loop (satori_input_script C w redeem_scripts)
           gatheredSatoriUnspents ;;
  Ret (fst cur ++ fst sat, snd cur ++ snd sat).

(** One entry [address: sats] of [_compileSatoriOutputs]. *)
Definition _compileSatoriOutput (C : Collaborators) (w : Wallet)
    (address : pystr) (sats : Z) : pyres CMutableTxOut :=
  base <- address_to_scriptPubKey C address ;;
  tag <- encodeAssetTag (symbol w) AssetTransaction.defaultAsset sats ;;
  Ret {| nValue := 0;
         scriptPubKey := base ++ [Op OP_EVR_ASSET; Data tag; Op OP_DROP] |}.

Definition _compileMemoOutput (memo : option pystr) : pyres (option CMutableTxOut) :=
  match memo with
  | Some memo =>
      if negb (str_eqb memo []) && (4 <? length memo)%nat && (length memo <? 80)%nat
      then Ret (Some {| nValue := 0;
                        scriptPubKey := [Op OP_RETURN; Data (encode_utf8 memo)] |})
      else Ret None
  | None => Ret None
  end.

(** [txin.scriptSig = s] where [txin] is [tx.vin[i]], as in every caller. *)
Definition set_scriptSig (i : nat) (s : CScript) (tx : CMutableTransaction)
  : CMutableTransaction :=
  match nth_error (vin tx) i with
  | Some txin =>
      {| vin := update_nth i {| prevout := prevout txin; scriptSig := s |} (vin tx);
         vout := vout tx |}
  | None => tx
  end.

(** [if redeem_script:] holds for a script that is neither [None] nor
    empty. *)
Definition truthy_script (redeem_script : option CScript) : option CScript :=
  match redeem_script with
  | Some (e :: r) => Some (e :: r)
  | _ => None
  end.

(** The signature [sign(sighash) + bytes([sighashFlag])]. *)
Definition signature (C : Collaborators) (script : CScript)
    (tx : CMutableTransaction) (i : nat) (sighashFlag : Z) : bytes :=
  privateKey_sign C (SignatureHash C script tx i sighashFlag)
  ++ [byte_of_Z sighashFlag].

(** [_signInput]: the transaction after the call and the outcome.  The
    assignment to [txin.scriptSig] precedes the verification, so the
    transaction is updated also when the verification raises. *)
Definition _signInput (C : Collaborators) (i : nat)
    (txinScriptPubKey : CScript) (sighashFlag : Z)
    (redeem_script : option CScript) (signatures : option (list bytes))
    (tx : CMutableTransaction) : CMutableTransaction * pyres unit :=
  let newScriptSig :=
    match truthy_script redeem_script with
    | Some redeem_script =>
        let sig := signature C redeem_script tx i sighashFlag in
        match signatures with
        | Some (s :: ss) =>
            let all_sigs := (s :: ss) ++ [sig] in
            let all_sigs := sort_bytes all_sigs in
            map Data all_sigs ++ [Data (script_to_bytes C redeem_script)]
        | _ => [Data sig; Data (script_to_bytes C redeem_script)]
        end
    | None =>
        let sig := signature C txinScriptPubKey tx i sighashFlag in
        [Data sig; Data (privateKey_pub C)]
    end in
  let tx := set_scriptSig i newScriptSig tx in
  let script_to_verify :=
    match truthy_script redeem_script with
    | Some redeem_script => redeem_script
    | None => txinScriptPubKey
    end in
  match VerifyScript C newScriptSig script_to_verify tx i with
  | Raise (EvalScriptError e) =>
      if String.eqb e "EvalScript: unsupported opcode 0xc0"
      then (tx, Ret tt)
      else (tx, Raise (EvalScriptError e))
  | r => (tx, r)
  end.

(** [for i, (txin, txinScriptPubKey) in enumerate(zip(txins, txinScripts), start=i)]
    with [count] inputs left, each signed without redeem script. *)
Fixpoint sign_inputs (C : Collaborators) (sighashFlag : Z) (i count : nat)
    (txinScripts : list CScript) (tx : CMutableTransaction)
  : CMutableTransaction * pyres unit :=
  match count, txinScripts with
  | S count', txinScriptPubKey :: rest =>
      match _signInput C i txinScriptPubKey sighashFlag None None tx with
      | (tx, Ret _) => sign_inputs C sighashFlag (S i) count' rest tx
      | (tx, Raise e) => (tx, Raise e)
      end
  | _, _ => (tx, Ret tt)
  end.

Definition _createPartialOriginatorSimple (C : Collaborators)
    (txins : list CMutableTxIn) (txinScripts : list CScript)
    (txouts : list CMutableTxOut) : CMutableTransaction * pyres unit :=
  let tx := {| vin := txins; vout := txouts |} in
  sign_inputs C (Z.lor SIGHASH_ANYONECANPAY SIGHASH_ALL) 0 (length txins)
    txinScripts tx.

Definition _createPartialCompleterSimple (C : Collaborators)
    (txins : list CMutableTxIn) (txinScripts : list CScript)
    (tx : CMutableTransaction) : CMutableTransaction * pyres unit :=
  let tx := {| vin := vin tx ++ txins; vout := vout tx |} in
  let startIndex := (length (vin tx) - length txins)%nat in
  sign_inputs C (Z.lor SIGHASH_ANYONECANPAY SIGHASH_ALL) startIndex
    (length (skipn startIndex (vin tx))) txinScripts tx.

(** The transaction of [generateCommitmentTx] after Alice's signing, and
    the outcome of the signing. *)
Definition commitmentTx (C : Collaborators)
    (funding_txid : pystr) (vout : Z) (funding_value : Z)
    (redeem_script : CScript) (pay_to_receiver_sats : Z)
    (receiver_addr : pystr) (tx_fee_sats dust_threshold_multiple : Z)
    (respect_dust_zone : bool) : pyres (CMutableTransaction * pyres unit) :=
  if tx_fee_sats <=? 0 then
    Raise (ValueError "Transaction fee must be positive")
  else if negb ((0 <? pay_to_receiver_sats) && (pay_to_receiver_sats <=? funding_value)) then
    Raise (ValueError "Payment amount must be positive and not exceed the funding value")
  else
    let remainder := funding_value - pay_to_receiver_sats in
    let dust_threshold := (tx_fee_sats * 3) * dust_threshold_multiple in
    prevout <- COutPoint_lx funding_txid vout ;;
    let txin := {| prevout := prevout; scriptSig := [] |} in
    let script_pub := p2sh_scriptPubKey C redeem_script in
    txouts <-
      (if (remainder =? 0) || (remainder <? dust_threshold) then
         if (0 <? remainder) && respect_dust_zone then
           Raise (ValueError "In Dust Zone.")
         else
           let tx_fee_sats := tx_fee_sats * 2 in
           let actual_receiver_amount := funding_value - tx_fee_sats in
           if actual_receiver_amount <=? 0 then
             Raise (ValueError ("Fee (" ++ show tx_fee_sats
                                ++ " sats) exceeds available funds ("
                                ++ show funding_value ++ " sats)"))
           else
             receiver_script <- address_to_scriptPubKey C receiver_addr ;;
             Ret [ {| nValue := actual_receiver_amount;
                      scriptPubKey := receiver_script |} ]
       else
         let tx_fee_sats := tx_fee_sats * 3 in
         receiver_script <- address_to_scriptPubKey C receiver_addr ;;
         let change_amount := remainder - tx_fee_sats in
         if change_amount <=? 0 then
           Raise (ValueError ("Fee (" ++ show tx_fee_sats
                              ++ " sats) exceeds remainder ("
                              ++ show remainder ++ " sats)"))
         else
           Ret [ {| nValue := pay_to_receiver_sats;
                    scriptPubKey := receiver_script |};
                 {| nValue := change_amount; scriptPubKey := script_pub |} ]) ;;
    match txouts with
    | [] => Raise (ValueError "Transaction must have at least one output after fee deduction")
    | _ => Ret (_createPartialOriginatorSimple C [txin] [script_pub] txouts)
    end.

(** The outcome of a signing step as the result of the enclosing call. *)
Definition signed_hex (C : Collaborators)
    (st : CMutableTransaction * pyres unit) : pyres pystr :=
  match st with
  | (tx, Ret _) => Ret (tx_to_hex C tx)
  | (_, Raise e) => Raise e
  end.

Definition generateCommitmentTx (C : Collaborators)
    (funding_txid : pystr) (vout : Z) (funding_value : Z)
    (redeem_script : CScript) (pay_to_receiver_sats : Z)
    (receiver_addr : pystr) (tx_fee_sats dust_threshold_multiple : Z)
    (respect_dust_zone : bool) : pyres pystr :=
  st <- commitmentTx C funding_txid vout funding_value redeem_script
          pay_to_receiver_sats receiver_addr tx_fee_sats
          dust_threshold_multiple respect_dust_zone ;;
  signed_hex C st.

(** [[e for e in txin.scriptSig if isinstance(e, bytes)]]: iterating a
    script yields the integer 0 for an empty push, a byte string for any
    other push. *)
Fixpoint bytes_elements (s : CScript) : list bytes :=
  match s with
  | [] => []
  | Data (x :: b) :: r => (x :: b) :: bytes_elements r
  | _ :: r => bytes_elements r
  end.

(** [signatures=old_sigs]: an empty list is as good as [None]. *)
Definition finalisedTx (C : Collaborators) (partial_tx_hex : pystr)
    (redeem_script : CScript) : pyres (CMutableTransaction * pyres unit) :=
  raw <- fromhex partial_tx_hex ;;
  tx <- tx_deserialize C raw ;;
  txin <- match vin tx with
          | txin :: _ => Ret txin
          | [] => Raise IndexError
          end ;;
  let script_pub := p2sh_scriptPubKey C redeem_script in
  let old_sigs := bytes_elements (scriptSig txin) in
  Ret (_signInput C 0 script_pub SIGHASH_ALL (Some redeem_script)
         (Some old_sigs) tx).

Definition finaliseCommitmentTx (C : Collaborators) (partial_tx_hex : pystr)
    (redeem_script : CScript) : pyres pystr :=
  st <- finalisedTx C partial_tx_hex redeem_script ;;
  signed_hex C st.

(** [_compileSatoriOutputs]: one output per item of the dict, in its
    order. *)
Fixpoint _compileSatoriOutputs (C : Collaborators) (w : Wallet)
    (satsByAddress : list (pystr * Z)) : pyres (list CMutableTxOut) :=
  match satsByAddress with
  | [] => Ret []
  | (address, sats) :: rest =>
      txout <- _compileSatoriOutput C w address sats ;;
      txouts <- _compileSatoriOutputs C w rest ;;
      Ret (txout :: txouts)
  end.

Definition _compileCurrencyOutputs (C : Collaborators)
    (currencySats : Z) (address : pystr) : pyres (list CMutableTxOut) :=
  script <- address_to_scriptPubKey C address ;;
  Ret [ {| nValue := currencySats; scriptPubKey := script |} ].

Definition _compileSatoriChangeOutput (C : Collaborators) (w : Wallet)
    (satoriSats gatheredSatoriSats : Z) : pyres (option CMutableTxOut) :=
  let satoriChange := gatheredSatoriSats - satoriSats in
  if 0 <? satoriChange then
    txout <- _compileSatoriOutput C w (address w) satoriChange ;;
    Ret (Some txout)
  else if satoriChange <? 0 then
    Raise (TransactionFailure "tx: not enough satori to send")
  else Ret None.

(** [a != b] on scripts compares their bytes. *)
Definition script_neb (C : Collaborators) (a b : CScript) : bool :=
  negb (bytes_eqb (script_to_bytes C a) (script_to_bytes C b)).

(** [_compileCurrencyChangeOutput]: the output together with
    [currencyChange], the pair returned for [returnSats=True]; a caller
    that leaves [returnSats] false receives the output alone. *)
Definition _compileCurrencyChangeOutput (C : Collaborators) (L : AddressLib)
    (w : Wallet) (currencySats gatheredCurrencySats inputCount outputCount : Z)
    (scriptPubKey : option CScript) : pyres (option (CMutableTxOut * Z)) :=
  let currencyChange :=
    gatheredCurrencySats - currencySats
    - TxUtils.estimatedFee inputCount outputCount TxUtils.defaultFeeRate in
  if 0 <? currencyChange then
    shown <- address_str L (address w) ;;
    if negb (str_eqb shown (address w)) then
      Raise (TransactionFailure "tx: address mismatch")
    else
      own <- address_to_scriptPubKey C (address w) ;;
      if script_neb C own (identity_scriptPubKey L) then
        Raise (TransactionFailure "tx: scriptPubKey mismatch")
      else
        script <- match truthy_script scriptPubKey with
                  | Some s => Ret s
                  | None => address_to_scriptPubKey C (address w)
                  end ;;
        Ret (Some ({| nValue := currencyChange; scriptPubKey := script |},
                   currencyChange))
  else if currencyChange <? 0 then
    Raise (TransactionFailure "tx: not enough currency to send")
  else Ret None.

Fixpoint lookup_signatures (key : pystr) (d : list (pystr * list bytes))
  : option (list bytes) :=
  match d with
  | [] => None
  | (k, s) :: r => if str_eqb k key then Some s else lookup_signatures key r
  end.

(** The loop of [_createTransaction]: every input is signed with
    [SIGHASH_ALL], with the redeem script and the signatures found under
    [f"{b2x(txin.prevout.hash)}:{txin.prevout.n}"]. *)
Fixpoint _createTransaction_loop (C : Collaborators) (L : AddressLib)
    (redeem_scripts : option (list (pystr * CScript)))
    (signatures : option (list (pystr * list bytes)))
    (i : nat) (txins : list CMutableTxIn) (txinScripts : list CScript)
    (tx : CMutableTransaction) : CMutableTransaction * pyres unit :=
  match txins, txinScripts with
  | txin :: txins', txinScriptPubKey :: txinScripts' =>
      let utxo_key :=
        b2x_prevout_hash L (hash (prevout txin)) ++ lit ":"
        ++ str_of_int (n (prevout txin)) in
      let redeem_script :=
        match redeem_scripts with
        | Some d => lookup_script utxo_key d
        | None => None
        end in
      let other_sigs :=
        match signatures with
        | Some d => lookup_signatures utxo_key d
        | None => None
        end in
      match _signInput C i txinScriptPubKey SIGHASH_ALL redeem_script
              other_sigs tx with
      | (tx, Ret _) =>
          _createTransaction_loop C L redeem_scripts signatures (S i)
            txins' txinScripts' tx
      | (tx, Raise e) => (tx, Raise e)
      end
  | _, _ => (tx, Ret tt)
  end.

Definition _createTransaction (C : Collaborators) (L : AddressLib)
    (txins : list CMutableTxIn) (txinScripts : list CScript)
    (txouts : list CMutableTxOut)
    (redeem_scripts : option (list (pystr * CScript)))
    (signatures : option (list (pystr * list bytes)))
  : CMutableTransaction * pyres unit :=
  let tx := {| vin := txins; vout := txouts |} in
  _createTransaction_loop C L redeem_scripts signatures 0 txins txinScripts tx.

End EvrmoreWallet.

(** ** [Wallet.satoriOnlyCompleterSimple] (wallet/wallet.py) *)

(** The calls of the completer that touch funds, in the order made: the
    log a run returns next to its result. *)
Inductive call : Type :=
| CallGatherReserved (exactSats : Z)
| CallSign (tx : CMutableTransaction)
| CallBroadcast (txHex : pystr).

Module WalletOps.

Import EvrmoreWallet.

(** [a or self.address] *)
Definition or_address (w : Wallet) (a : option pystr) : pystr :=
  match a with
  | Some (c :: r) => c :: r
  | _ => address w
  end.

(** The loop
    [for i, x in enumerate(script): if i == 2 and isinstance(x, bytes):
       return addr == self.hash160ToAddress(x)] followed by
    [return False]. *)
Definition script_pays (C : Collaborators) (addr : pystr) (script : CScript) : bool :=
  match nth_error script 2 with
  | Some (Data x) => str_eqb addr (hash160ToAddress C x)
  | _ => false
  end.

Definition _verifyFee (tx : CMutableTransaction)
    (feeSatsReserved reportedFeeSats : Z) (bridgeTransaction : bool) : pyres bool :=
  if (reportedFeeSats <? 100000000) && (reportedFeeSats <? feeSatsReserved) then
    out <- nth_from_end (vout tx) (if bridgeTransaction then 2 else 1) ;;
    Ret (nValue out =? feeSatsReserved - reportedFeeSats)
  else Ret false.

Fixpoint _verifyClaim_bridge (w : Wallet) (vouts : list CMutableTxOut)
    (bridgePaid mundoPaid : bool) : pyres bool :=
  match vouts with
  | [] => Ret (bridgePaid && mundoPaid)
  | x :: r =>
      b <- _checkSatoriValue w x (fee_amount (bridgeFee w)) ;;
      m <- _checkSatoriValue w x (fee_amount (mundoFee w)) ;;
      _verifyClaim_bridge w r (if b then true else bridgePaid)
        (if m then true else mundoPaid)
  end.

Fixpoint _verifyClaim_simple (w : Wallet) (vouts : list CMutableTxOut)
    (mundoPaid : bool) : pyres bool :=
  match vouts with
  | [] => Ret mundoPaid
  | x :: r =>
      m <- _checkSatoriValue w x (fee_amount (mundoFee w)) ;;
      _verifyClaim_simple w r (if m then true else mundoPaid)
  end.

Definition _verifyClaim (w : Wallet) (tx : CMutableTransaction)
    (bridgeTransaction : bool) : pyres bool :=
  if bridgeTransaction then _verifyClaim_bridge w (vout tx) false false
  else _verifyClaim_simple w (vout tx) false.

Definition _verifyClaimAddress (C : Collaborators) (tx : CMutableTransaction)
    (completerAddress : pystr) (bridgeTransaction : bool) : pyres bool :=
  out <- nth_from_end (vout tx) (if bridgeTransaction then 4 else 2) ;;
  Ret (script_pays C completerAddress (scriptPubKey out)).

Definition _verifyChangeAddress (C : Collaborators) (tx : CMutableTransaction)
    (changeAddress : pystr) (bridgeTransaction : bool) : pyres bool :=
  out <- nth_from_end (vout tx) (if bridgeTransaction then 2 else 1) ;;
  Ret (script_pays C changeAddress (scriptPubKey out)).

(** The part of the completer up to and including its four checks: the
    deserialized transaction, or the exception raised. *)
Definition completerChecks (C : Collaborators) (w : Wallet)
    (serialTx : bytes) (feeSatsReserved reportedFeeSats : Z)
    (changeAddress completerAddress : option pystr)
    (bridgeTransaction : bool) : pyres CMutableTransaction :=
  let completerAddress := or_address w completerAddress in
  let changeAddress := or_address w changeAddress in
  tx <- tx_deserialize C serialTx ;;
  feeOk <- _verifyFee tx feeSatsReserved reportedFeeSats bridgeTransaction ;;
  if negb feeOk then
    Raise (TransactionFailure
             ("fee mismatch, " ++ show reportedFeeSats ++ ", "
              ++ show feeSatsReserved))
  else
    claimOk <- _verifyClaim w tx bridgeTransaction ;;
    if negb claimOk then
      if bridgeTransaction then
        o4 <- nth_from_end (vout tx) 4 ;;
        o3 <- nth_from_end (vout tx) 3 ;;
        Raise (TransactionFailure
                 ("bridge claim mismatch, " ++ txout_str C o4 ++ ", "
                  ++ txout_str C o3))
      else
        o2 <- nth_from_end (vout tx) 2 ;;
        Raise (TransactionFailure ("claim mismatch, " ++ txout_str C o2))
    else
      claimAddressOk <- _verifyClaimAddress C tx completerAddress bridgeTransaction ;;
      if negb claimAddressOk then
        Raise (TransactionFailure "claim mismatch, _verifyClaimAddress")
      else
        changeAddressOk <- _verifyChangeAddress C tx changeAddress bridgeTransaction ;;
        if negb changeAddressOk then
          Raise (TransactionFailure "claim mismatch, _verifyChangeAddress")
        else Ret tx.

(** The rest of the completer, from [# add rvn fee input] on. *)
Definition completerFinish (C : Collaborators) (w : Wallet)
    (tx : CMutableTransaction) (feeSatsReserved : Z) : list call * pyres pystr :=
  let gatheredCurrencyUnspent :=
    Selection._gatherReservedCurrencyUnspent w feeSatsReserved in
  match gatheredCurrencyUnspent with
  | None =>
      ([CallGatherReserved feeSatsReserved],
       Raise (TransactionFailure ("unable to find sats " ++ show feeSatsReserved)))
  | Some u =>
      match _compileInputs C w [u] [] [] with
      | Raise e => ([CallGatherReserved feeSatsReserved], Raise e)
      | Ret (txins, txinScripts) =>
          match _createPartialCompleterSimple C txins txinScripts tx with
          | (tx', Raise e) =>
              ([CallGatherReserved feeSatsReserved; CallSign tx'], Raise e)
          | (tx', Ret _) =>
              ([CallGatherReserved feeSatsReserved; CallSign tx';
                CallBroadcast (tx_to_hex C tx')],
               electrumx_broadcast C (tx_to_hex C tx'))
          end
      end
  end.

Definition satoriOnlyCompleterSimple (C : Collaborators) (w : Wallet)
    (serialTx : bytes) (feeSatsReserved reportedFeeSats : Z)
    (changeAddress completerAddress : option pystr)
    (bridgeTransaction : bool) : list call * pyres pystr :=
  match completerChecks C w serialTx feeSatsReserved reportedFeeSats
          changeAddress completerAddress bridgeTransaction with
  | Raise e => ([], Raise e)
  | Ret tx => completerFinish C w tx feeSatsReserved
  end.

(** [[x for x in l if x is not None]] *)
Fixpoint not_None {A : Type} (l : list (option A)) : list A :=
  match l with
  | [] => []
  | Some x :: r => x :: not_None r
  | None :: r => not_None r
  end.

(** [Wallet.currencyTransaction] up to the signed transaction.  The
    amount is a float: [amount_le_0] is the test [amount <= 0] and
    [amountSats] the value [TxUtils.asSats(amount)]. *)
Definition currencyTransactionTx (C : Collaborators) (L : AddressLib) (w : Wallet)
    (amount_le_0 : bool) (amountSats : Z) (address : pystr)
  : pyres (CMutableTransaction * pyres unit) :=
  if amount_le_0 || negb (Validate.address address (symbol w)) then
    Raise (TransactionFailure "bad params for currencyTransaction")
  else
    currencySats <- TxUtils.roundSatsDownToDivisibility amountSats 8 ;;
    gatheredCurrency <-
      Selection._gatherCurrencyUnspents w currencySats 0 1 false (fun _ _ => O) ;;
    let '(gatheredCurrencyUnspents, gatheredCurrencySats) := gatheredCurrency in
    compiled <- _compileInputs C w gatheredCurrencyUnspents [] [] ;;
    let '(txins, txinScripts) := compiled in
    currencyOuts <- _compileCurrencyOutputs C currencySats address ;;
    currencyChange <-
      _compileCurrencyChangeOutput C L w currencySats gatheredCurrencySats
        (Z.of_nat (length txins)) 2 None ;;
    let currencyChangeOut := option_map fst currencyChange in
    Ret (_createTransaction C L txins txinScripts
           (currencyOuts ++ not_None [currencyChangeOut])
           None None).

Definition currencyTransaction (C : Collaborators) (L : AddressLib) (w : Wallet)
    (amount_le_0 : bool) (amountSats : Z) (address : pystr) : pyres pystr :=
  st <- currencyTransactionTx C L w amount_le_0 amountSats address ;;
  txHex <- signed_hex C st ;;
  electrumx_broadcast C txHex.

(** [Wallet.satoriTransaction] up to the signed transaction.  The amount
    is a float: [amount_le_0] is the test [amount <= 0] and [amountSats]
    the value [TxUtils.asSats(amount)]; [divisibility] is
    [self.divisibility], [unspentAssets] is [self.unspentAssets]. *)
Definition satoriTransactionTx (C : Collaborators) (L : AddressLib) (w : Wallet)
    (unspentAssets : list asset_unspent) (divisibility : Z)
    (amount_le_0 : bool) (amountSats : Z) (address : pystr)
  : pyres (CMutableTransaction * pyres unit) :=
  if amount_le_0 || negb (Validate.address address (symbol w)) then
    Raise (TransactionFailure "satoriTransaction bad params")
  else
    satoriSats <- TxUtils.roundSatsDownToDivisibility amountSats divisibility ;;
    gatheredSatori <-
      Selection._gatherSatoriUnspents unspentAssets satoriSats false
        (fun _ _ => O) ;;
    let '(gatheredSatoriUnspents, gatheredSatoriSats) := gatheredSatori in
    gatheredCurrency <-
      Selection._gatherCurrencyUnspents w 0
        (Z.of_nat (length gatheredSatoriUnspents)) 3 false (fun _ _ => O) ;;
    let '(gatheredCurrencyUnspents, gatheredCurrencySats) := gatheredCurrency in
    compiled <- _compileInputs C w gatheredCurrencyUnspents
                  (map asset_utxo gatheredSatoriUnspents) [] ;;
    let '(txins, txinScripts) := compiled in
    satoriOuts <- _compileSatoriOutputs C w [(address, satoriSats)] ;;
    satoriChangeOut <-
      _compileSatoriChangeOutput C w satoriSats gatheredSatoriSats ;;
    currencyChange <-
      _compileCurrencyChangeOutput C L w 0 gatheredCurrencySats
        (Z.of_nat (length txins)) 3 None ;;
    let currencyChangeOut := option_map fst currencyChange in
    Ret (_createTransaction C L txins txinScripts
           (satoriOuts ++ not_None [satoriChangeOut; currencyChangeOut])
           None None).

Definition satoriTransaction (C : Collaborators) (L : AddressLib) (w : Wallet)
    (unspentAssets : list asset_unspent) (divisibility : Z)
    (amount_le_0 : bool) (amountSats : Z) (address : pystr) : pyres pystr :=
  st <- satoriTransactionTx C L w unspentAssets divisibility
          amount_le_0 amountSats address ;;
  txHex <- signed_hex C st ;;
  electrumx_broadcast C txHex.

(** [Wallet.satoriOnlyPartialSimple] up to the signed partial transaction
    and [reportedFeeSats].  [amount_le_0] is the test [amount <= 0] on the
    amount given, [amountSats] the value [TxUtils.asSats(amount)] taken
    after [amount -= self.mundoFee] when [pullFeeFromAmount] is set.
    Unpacking the [None] that [_compileCurrencyChangeOutput] returns for a
    change of zero into two names is a [TypeError]. *)
Definition satoriOnlyPartialSimpleTx (C : Collaborators) (L : AddressLib)
    (w : Wallet) (unspentAssets : list asset_unspent) (divisibility : Z)
    (amount_le_0 : bool) (amountSats : Z) (address : pystr)
    (feeSatsReserved : Z) (completerAddress changeAddress : option pystr)
  : pyres (CMutableTransaction * pyres unit * Z) :=
  match completerAddress, changeAddress with
  | Some completerAddress, Some changeAddress =>
      if feeSatsReserved =? 0 then
        Raise (TransactionFailure "need completer details")
      else if amount_le_0 || negb (Validate.address address (symbol w)) then
        Raise (TransactionFailure "satoriTransaction bad params")
      else
        let mundoFeeSats := mundoFee w in
        satoriSats <- TxUtils.roundSatsDownToDivisibility amountSats divisibility ;;
        let satoriTotalSats := satoriSats + mundoFeeSats in
        gatheredSatori <-
          Selection._gatherSatoriUnspents unspentAssets satoriTotalSats false
            (fun _ _ => O) ;;
        let '(gatheredSatoriUnspents, gatheredSatoriSats) := gatheredSatori in
        compiled <- _compileInputs C w []
                      (map asset_utxo gatheredSatoriUnspents) [] ;;
        let '(txins, txinScripts) := compiled in
        satoriOuts <- _compileSatoriOutputs C w [(address, satoriSats)] ;;
        satoriChangeOut <-
          _compileSatoriChangeOutput C w satoriSats
            (gatheredSatoriSats - mundoFeeSats) ;;
        mundoFeeOuts <- _compileSatoriOutputs C w
                          [(completerAddress, mundoFeeSats)] ;;
        mundoFeeOut <- match mundoFeeOuts with
                       | x :: _ => Ret x
                       | [] => Raise IndexError
                       end ;;
        changeScript <- address_to_scriptPubKey C changeAddress ;;
        currencyChange <-
          _compileCurrencyChangeOutput C L w 0 feeSatsReserved
            (Z.of_nat (length gatheredSatoriUnspents))
            (Z.of_nat (length satoriOuts) + 2
             + (match satoriChangeOut with
                | Some _ => 1
                | None => 0
                end))
            (Some changeScript) ;;
        match currencyChange with
        | None =>
            Raise (PyException
                     "TypeError: cannot unpack non-iterable NoneType object")
        | Some (currencyChangeOut, currencyChange) =>
            let st :=
              _createPartialOriginatorSimple C txins txinScripts
                (satoriOuts ++ not_None [satoriChangeOut]
                 ++ [mundoFeeOut; currencyChangeOut]) in
            let reportedFeeSats := feeSatsReserved - currencyChange in
            Ret (st, reportedFeeSats)
        end
  | _, _ => Raise (TransactionFailure "need completer details")
  end.

Definition satoriOnlyPartialSimple (C : Collaborators) (L : AddressLib)
    (w : Wallet) (unspentAssets : list asset_unspent) (divisibility : Z)
    (amount_le_0 : bool) (amountSats : Z) (address : pystr)
    (feeSatsReserved : Z) (completerAddress changeAddress : option pystr)
  : pyres (bytes * Z * pystr) :=
  r <- satoriOnlyPartialSimpleTx C L w unspentAssets divisibility
         amount_le_0 amountSats address feeSatsReserved
         completerAddress changeAddress ;;
  let '(st, reportedFeeSats) := r in
  match st with
  | (tx, Ret _) => Ret (tx_serialize L tx, reportedFeeSats, tx_to_hex C tx)
  | (_, Raise e) => Raise e
  end.

End WalletOps.

(** ** [EvrmoreP2SHWallet] (wallet/evrmore/walletsh.py) *)

(** An entry of [recipients]: [recipient['address']], [recipient['amount']]
    in satoshis and [recipient.get('asset')], absent when the key is. *)
Record recipient : Type :=
  { recipient_address : pystr;
    recipient_amount : Z;
    recipient_asset : option pystr }.

Module EvrmoreP2SHWallet.

(** A dict with text keys as the list of its items in insertion order:
    [key in d], [d.get(key)] and [d[key] = v]. *)
Definition dict_has {V : Type} (key : pystr) (d : list (pystr * V)) : bool :=
  existsb (fun kv => str_eqb (fst kv) key) d.

Fixpoint dict_get {V : Type} (key : pystr) (d : list (pystr * V)) : option V :=
  match d with
  | [] => None
  | (k, v) :: r => if str_eqb k key then Some v else dict_get key r
  end.

Fixpoint dict_set {V : Type} (key : pystr) (v : V) (d : list (pystr * V))
  : list (pystr * V) :=
  match d with
  | [] => [(key, v)]
  | (k, x) :: r =>
      if str_eqb k key then (k, v) :: r else (k, x) :: dict_set key v r
  end.

(** The inner loop of [compileInputs] over the outputs of one asset:
    outputs below 546 are skipped, the loop stops at the first other
    output met once the total has reached the amount required, and the
    input of an output taken is built before it is counted.  The result
    is the inputs appended and the total of the asset. *)
Fixpoint compileInputs_asset (required_amount : Z) (utxos : list unspent)
    (total : Z) : pyres (list CMutableTxIn * Z) :=
  match utxos with
  | [] => Ret ([], total)
  | utxo :: rest =>
      if value utxo <? 546 then compileInputs_asset required_amount rest total
      else if required_amount <=? total then Ret ([], total)
      else
        txin <- EvrmoreWallet.txin_of utxo ;;
        r <- compileInputs_asset required_amount rest (total + value utxo) ;;
        let '(txins, total) := r in
        Ret (txin :: txins, total)
  end.

(** The outer loop of [compileInputs] over the items of [utxos_by_asset],
    a dict: its keys are distinct. *)
Fixpoint compileInputs_loop (required_amounts : list (pystr * Z)) (fee_rate : Z)
    (utxos_by_asset : list (pystr * list unspent)) (txins : list CMutableTxIn)
  : pyres (list CMutableTxIn * list (pystr * Z)) :=
  match utxos_by_asset with
  | [] => Ret (txins, [])
  | (asset, utxos) :: rest =>
      let required_amount :=
        match dict_get asset required_amounts with
        | Some a => a
        | None => 0
        end in
      let required_amount :=
        if str_eqb asset (lit "EVR") then
          let estimated_size :=
            TxUtils.estimateTransactionSize (Z.of_nat (length txins))
              (Z.of_nat (length required_amounts) + 1) 1 in
          let fee := fee_rate * estimated_size in
          required_amount + fee
        else required_amount in
      r <- compileInputs_asset required_amount utxos 0 ;;
      let '(appended, total) := r in
      r <- compileInputs_loop required_amounts fee_rate rest
             (txins ++ appended) ;;
      let '(txins, total_input_by_asset) := r in
      Ret (txins, (asset, total) :: total_input_by_asset)
  end.

Definition compileInputs (utxos_by_asset : list (pystr * list unspent))
    (required_amounts : list (pystr * Z)) (fee_rate : Z)
  : pyres (list CMutableTxIn * list (pystr * Z)) :=
  compileInputs_loop required_amounts fee_rate utxos_by_asset [].

(** [recipient.get('asset', 'EVR').upper()], for ASCII names. *)
Definition asset_of (r : recipient) : pystr :=
  upper match recipient_asset r with
        | Some a => a
        | None => lit "EVR"
        end.

(** An output of [amount] of [asset] to a script: the currency itself
    for ['EVR'], an asset transfer of value 0 otherwise. *)
Definition asset_txout (asset : pystr) (script_pubkey : CScript) (amount : Z)
  : pyres CMutableTxOut :=
  if negb (str_eqb asset (lit "EVR")) then
    tag <- encodeAssetTag (lit "evr") asset amount ;;
    Ret {| nValue := 0;
           scriptPubKey := script_pubkey
                           ++ [Op OP_EVR_ASSET; Data tag; Op OP_DROP] |}
  else Ret {| nValue := amount; scriptPubKey := script_pubkey |}.

(** The first loop of [compileOutputs]. *)
Fixpoint compileOutputs_recipients (C : Collaborators) (recipients : list recipient)
  : pyres (list CMutableTxOut) :=
  match recipients with
  | [] => Ret []
  | recipient :: rest =>
      let asset := asset_of recipient in
      recipient_script_pubkey <-
        address_to_scriptPubKey C (recipient_address recipient) ;;
      if recipient_amount recipient <? 546 then
        Raise (ValueError
                 ("Output amount for "
                  ++ string_of_list_ascii (recipient_address recipient)
                  ++ " is below the dust threshold."))
      else
        txout <- asset_txout asset recipient_script_pubkey
                   (recipient_amount recipient) ;;
        txouts <- compileOutputs_recipients C rest ;;
        Ret (txout :: txouts)
  end.

(** The second loop of [compileOutputs], over the items of
    [change_value_by_asset]. *)
Fixpoint compileOutputs_change (C : Collaborators)
    (change_value_by_asset : list (pystr * Z)) (change_address : option pystr)
  : pyres (list CMutableTxOut) :=
  match change_value_by_asset with
  | [] => Ret []
  | (asset, change_value) :: rest =>
      here <-
        match change_address with
        | Some change_address =>
            if 546 <? change_value then
              change_script_pubkey <- address_to_scriptPubKey C change_address ;;
              change_txout <- asset_txout asset change_script_pubkey change_value ;;
              Ret [change_txout]
            else Ret []
        | None => Ret []
        end ;;
      txouts <- compileOutputs_change C rest change_address ;;
      Ret (here ++ txouts)
  end.

Definition compileOutputs (C : Collaborators) (recipients : list recipient)
    (change_value_by_asset : list (pystr * Z)) (change_address : option pystr)
  : pyres (list CMutableTxOut) :=
  txouts <- compileOutputs_recipients C recipients ;;
  change <- compileOutputs_change C change_value_by_asset change_address ;;
  Ret (txouts ++ change).

(** [utxos_by_asset] of [create_unsigned_transaction_multi]: one fetch for
    every asset of the recipients, in the order of first appearance, and
    one for ['EVR'] at the end when no recipient asked for it. *)
Definition fetch_by_asset (fetch_utxos : pystr -> list unspent)
    (recipients : list recipient) : list (pystr * list unspent) :=
  let utxos_by_asset :=
    fold_left
      (fun d r =>
         let asset := asset_of r in
         if negb (dict_has asset d) then d ++ [(asset, fetch_utxos asset)]
         else d)
      recipients [] in
  if negb (dict_has (lit "EVR") utxos_by_asset)
  then utxos_by_asset ++ [(lit "EVR", fetch_utxos (lit "EVR"))]
  else utxos_by_asset.

(** [{r.get('asset', 'EVR').upper(): r['amount'] for r in recipients}] *)
Definition required_amounts_of (recipients : list recipient) : list (pystr * Z) :=
  fold_left (fun d r => dict_set (asset_of r) (recipient_amount r) d)
    recipients [].

(** [sum(r['amount'] for r in recipients
         if r.get('asset', 'EVR').upper() == asset)] *)
Definition total_output_amount (recipients : list recipient) (asset : pystr) : Z :=
  fold_left Z.add
    (map recipient_amount
       (filter (fun r => str_eqb (asset_of r) asset) recipients)) 0.

(** The loop of [create_unsigned_transaction_multi] over the items of
    [total_input_by_asset]. *)
Fixpoint change_values (recipients : list recipient) (fee_rate : Z)
    (txins : list CMutableTxIn) (total_input_by_asset : list (pystr * Z))
  : pyres (list (pystr * Z)) :=
  match total_input_by_asset with
  | [] => Ret []
  | (asset, total_input_amount) :: rest =>
      let total_output_amount := total_output_amount recipients asset in
      let total_output_amount :=
        if str_eqb asset (lit "EVR") then
          let estimated_size :=
            TxUtils.estimateTransactionSize (Z.of_nat (length txins))
              (Z.of_nat (length recipients) + 1) 1 in
          let fee := fee_rate * estimated_size in
          total_output_amount + fee
        else total_output_amount in
      let change_value := total_input_amount - total_output_amount in
      if change_value <? 0 then
        Raise (ValueError
                 ("Not enough input to cover outputs + fee for asset "
                  ++ string_of_list_ascii asset ++ "."))
      else
        change_value_by_asset <- change_values recipients fee_rate txins rest ;;
        Ret ((asset, change_value) :: change_value_by_asset)
  end.

(** The body of the [try] of [create_unsigned_transaction_multi];
    [fetch_utxos asset] is what [self.fetch_utxos(asset)] returns. *)
Definition create_unsigned_transaction_multi_try (C : Collaborators)
    (fetch_utxos : pystr -> list unspent) (recipients : list recipient)
    (fee_rate : Z) (change_address : option pystr) : pyres CMutableTransaction :=
  match recipients with
  | [] => Raise (ValueError "No recipients provided.")
  | _ =>
      let utxos_by_asset := fetch_by_asset fetch_utxos recipients in
      let required_amounts := required_amounts_of recipients in
      r <- compileInputs utxos_by_asset required_amounts fee_rate ;;
      let '(txins, total_input_by_asset) := r in
      change_value_by_asset <-
        change_values recipients fee_rate txins total_input_by_asset ;;
      txouts <- compileOutputs C recipients change_value_by_asset change_address ;;
      Ret {| vin := txins; vout := txouts |}
  end.

(** [create_unsigned_transaction_multi]: every exception is logged and
    turned into [None]. *)
Definition create_unsigned_transaction_multi (C : Collaborators)
    (fetch_utxos : pystr -> list unspent) (recipients : list recipient)
    (fee_rate : Z) (change_address : option pystr) : option CMutableTransaction :=
  match create_unsigned_transaction_multi_try C fetch_utxos recipients fee_rate
          change_address with
  | Ret tx => Some tx
  | Raise _ => None
  end.

End EvrmoreP2SHWallet.

(* ===================================================================== *)
(** * Part II: vocabulary of the statements, inputs for evaluation        *)
(* ===================================================================== *)

Import P2SHRedeemScripts.
Import Selection.
Import EvrmoreWallet.
Import WalletOps.

(** ** Vocabulary *)

(** The two hexadecimal characters of a byte given as a number, and the
    hexadecimal text of a list of such numbers. *)
Definition hex2N (d : N) : pystr := [digit_char (d / 16); digit_char (d mod 16)].
Definition hexN (l : list N) : pystr := concat (map hex2N l).

(** The step of [intToLittleEndianHex] that makes the length even. *)
Definition evenpad (s : pystr) : pystr :=
  if Nat.eqb (Nat.modulo (length s) 2) 0 then s else lit "0" ++ s.

(** The eight little-endian bytes of an amount, as numbers. *)
Definition le8 (n : N) : list N :=
  rev (digits 256 n) ++ repeat 0%N (8 - length (digits 256 n)).

(** A character that UTF-8 encodes as itself. *)
Definition is_ascii (c : ascii) : Prop := (N_of_ascii c < 128)%N.


(** The element pushed immediately before the lock opcode of a channel
    script, and the lock opcode. *)
Definition timeout_element (s : CScript) : option script_elem := nth_error s 7.
Definition lock_element (s : CScript) : option script_elem := nth_error s 8.

(** Ascending and descending order of unspent outputs by value. *)
Definition value_le (a b : unspent) : Prop := value a <= value b.
Definition value_ge (a b : unspent) : Prop := value b <= value a.

(** The fee re-evaluated for [k] selected inputs. *)
Definition fee_for (feeRate inputCount outputCount : Z) (k : nat) : Z :=
  TxUtils.estimatedFee (inputCount + Z.of_nat k) outputCount feeRate.

(** The positive-value currency outputs of the wallet. *)
Definition positive_currency (w : Wallet) : list unspent :=
  filter (fun x => 0 <? value x) (unspentCurrency w).

(** Alice's signing of the commitment draft with the given outputs. *)
Definition commitmentSigned (C : Collaborators) (funding_txid : pystr)
    (vout_index : Z) (redeem_script : CScript) (txouts : list CMutableTxOut)
  : CMutableTransaction * pyres unit :=
  _createPartialOriginatorSimple C
    [ {| prevout := {| hash := funding_txid; n := vout_index |}; scriptSig := [] |} ]
    [ p2sh_scriptPubKey C redeem_script ] txouts.

(** The commitment as Alice leaves it: the one input spending the funding
    outpoint, unlocked by her signature over the channel's P2SH script,
    made with SIGHASH_ANYONECANPAY | SIGHASH_ALL, and her public key. *)
Definition commitmentDraft (funding_txid : pystr) (vout_index : Z)
    (txouts : list CMutableTxOut) : CMutableTransaction :=
  {| vin := [ {| prevout := {| hash := funding_txid; n := vout_index |};
                 scriptSig := [] |} ];
     vout := txouts |}.

Definition aliceUnlocking (C : Collaborators) (funding_txid : pystr)
    (vout_index : Z) (redeem_script : CScript) (txouts : list CMutableTxOut)
  : CScript :=
  [ Data (signature C (p2sh_scriptPubKey C redeem_script)
            (commitmentDraft funding_txid vout_index txouts) 0
            (Z.lor SIGHASH_ANYONECANPAY SIGHASH_ALL));
    Data (privateKey_pub C) ].

Definition commitment (C : Collaborators) (funding_txid : pystr)
    (vout_index : Z) (redeem_script : CScript) (txouts : list CMutableTxOut)
  : CMutableTransaction :=
  {| vin := [ {| prevout := {| hash := funding_txid; n := vout_index |};
                 scriptSig := aliceUnlocking C funding_txid vout_index
                                redeem_script txouts |} ];
     vout := txouts |}.

(** The local verification accepts Alice's unlocking script on every
    commitment of the channel. *)
Definition commitment_verifies (C : Collaborators) (funding_txid : pystr)
    (vout_index : Z) (redeem_script : CScript) : Prop :=
  forall txouts,
    VerifyScript C
      (aliceUnlocking C funding_txid vout_index redeem_script txouts)
      (p2sh_scriptPubKey C redeem_script)
      (commitment C funding_txid vout_index redeem_script txouts) 0
    = Ret tt.

(** The two kinds of output of a commitment. *)
Definition toReceiver (receiver_script : CScript) (sats : Z) : CMutableTxOut :=
  {| nValue := sats; scriptPubKey := receiver_script |}.

Definition toChannel (C : Collaborators) (redeem_script : CScript) (sats : Z)
  : CMutableTxOut :=
  {| nValue := sats; scriptPubKey := p2sh_scriptPubKey C redeem_script |}.

(** The order [list.sort()] puts byte strings in. *)
Definition bytes_le (a b : bytes) : Prop := bytes_leb a b = true.

(** An output decodes to [addr]: the third element of its script is a
    data push whose address, re-derived from the key hash, is [addr]. *)
Definition decodes_to (C : Collaborators) (out : CMutableTxOut) (addr : pystr) : Prop :=
  exists keyhash,
    nth_error (scriptPubKey out) 2 = Some (Data keyhash)
    /\ addr = hash160ToAddress C keyhash.

(** What a partial transaction that passed the completer's checks
    satisfies; the change output is the last one (the second to last of a
    bridge send), the claim output the second to last (the fourth to
    last). *)
Record accepted (C : Collaborators) (w : Wallet) (tx : CMutableTransaction)
    (feeSatsReserved reportedFeeSats : Z) (changeAddress completerAddress : pystr)
    (bridgeTransaction : bool) : Prop :=
  { fee_below_reserved : reportedFeeSats < feeSatsReserved;
    fee_below_ceiling : reportedFeeSats < 100000000;
    change_exact :
      exists change,
        nth_from_end (vout tx) (if bridgeTransaction then 2 else 1) = Ret change
        /\ nValue change = feeSatsReserved - reportedFeeSats
        /\ decodes_to C change changeAddress;
    claim_paid :
      exists x, In x (vout tx)
                /\ _checkSatoriValue w x (Some (mundoFee w)) = Ret true;
    bridge_paid :
      bridgeTransaction = true ->
      exists x, In x (vout tx)
                /\ _checkSatoriValue w x (fee_amount (bridgeFee w)) = Ret true;
    claim_address :
      exists claim,
        nth_from_end (vout tx) (if bridgeTransaction then 4 else 2) = Ret claim
        /\ decodes_to C claim completerAddress }.

(** No claim check of the transaction raises: every element that follows
    an asset marker is a byte string and the wallet's symbol is one of the
    two currencies. *)
Definition claim_checks_return (w : Wallet) (tx : CMutableTransaction) : Prop :=
  forall x amount, In x (vout tx) ->
    exists b, _checkSatoriValue w x amount = Ret b.

(** ** Inputs for evaluation *)

(** A transaction id: the two given hexadecimal digits 32 times over. *)
Definition txid (pair : string) : pystr := concat (repeat (lit pair) 32).

(** A currency output of the given value, and a wallet holding a list of
    outputs with the given reserve. *)
Definition utxo (v : Z) : unspent :=
  {| tx_hash := txid "00"; tx_pos := 0; value := v; utxo_scriptPubKey := None |}.

Definition wallet_of (us : list unspent) (res : Z) : Wallet :=
  {| unspentCurrency := us; unspentAssets := []; reserve := res;
     mundoFee := 10000; bridgeFee := 1000000;
     address := []; symbol := lit "evr" |}.

(** A pay-to-key-hash script whose key hash is the text of the address. *)
Definition toyAddressScript (a : pystr) : CScript :=
  [Op OP_DUP; Op OP_HASH160; Data (map byte_of_ascii a);
   Op OP_EQUALVERIFY; Op OP_CHECKSIG].

(** Stand-ins for the collaborators: the verifier accepts, an address is
    the text of its key hash, [deserialize] yields the given transaction,
    the broadcast returns what it was given. *)
Definition toyCollaborators (tx : CMutableTransaction) : Collaborators :=
  {| SignatureHash := fun _ _ _ _ => [x01; x02];
     privateKey_sign := fun h => x30 :: h;
     privateKey_pub := [x02; xaa];
     VerifyScript := fun _ _ _ _ => Ret tt;
     Hash160 := fun b => b;
     hash160ToAddress := map ascii_of_byte;
     script_to_bytes := fun _ => [x51];
     script_from_bytes := fun _ => [];
     address_to_scriptPubKey := fun a => Ret (toyAddressScript a);
     tx_deserialize := fun _ => Ret tx;
     tx_to_hex := fun _ => lit "00";
     txout_str := fun _ => "txout"%string;
     electrumx_broadcast := fun h => Ret h |}.

Definition emptyTx : CMutableTransaction := {| vin := []; vout := [] |}.

(** The commitment of the scenario 1,000,000 / 500,000 / 1,000 as Alice
    leaves it. *)
Definition aliceCommitment : CMutableTransaction :=
  commitment (toyCollaborators emptyTx) (txid "aa") 0 [Int 1]
    [ toReceiver (toyAddressScript (lit "receiver")) 500000;
      toChannel (toyCollaborators emptyTx) [Int 1] 497000 ].

(** The asset tag of [sats] of SATORI on evr. *)
Definition satoriTag (sats : Z) : bytes :=
  match encodeAssetTag (lit "evr") AssetTransaction.defaultAsset sats with
  | Ret t => t
  | Raise _ => []
  end.

(** The server's wallet: mundo fee 10000 sats, two currency outputs. *)
Definition serverWallet : Wallet :=
  {| unspentCurrency :=
       [ {| tx_hash := txid "c1"; tx_pos := 0; value := 2500000;
            utxo_scriptPubKey := None |};
         {| tx_hash := txid "c2"; tx_pos := 3; value := 1000000;
            utxo_scriptPubKey := None |} ];
     unspentAssets := []; reserve := 0;
     mundoFee := 10000; bridgeFee := 1000000;
     address := lit "server"; symbol := lit "evr" |}.


Definition changeOutput : CMutableTxOut :=
  {| nValue := 700000; scriptPubKey := toyAddressScript (lit "server") |}.

Definition originatorInput : CMutableTxIn :=
  {| prevout := {| hash := txid "bb"; n := 1 |};
     scriptSig := [Data [x30; x07]; Data [x03; xbb]] |}.


(** A partial transaction with the change output only. *)
Definition shortTx : CMutableTransaction :=
  {| vin := [originatorInput]; vout := [changeOutput] |}.

(** A partial transaction whose only output carrying the mundo fee pays
    a third party, followed by an output without asset tag to the
    server and the change output. *)
Definition thiefClaim : CMutableTxOut :=
  {| nValue := 0;
     scriptPubKey := toyAddressScript (lit "thief")
                     ++ [Op OP_EVR_ASSET; Data (satoriTag 10000); Op OP_DROP] |}.

Definition decoyOutput : CMutableTxOut :=
  {| nValue := 0; scriptPubKey := toyAddressScript (lit "server") |}.

Definition decoyTx : CMutableTransaction :=
  {| vin := [originatorInput]; vout := [thiefClaim; decoyOutput; changeOutput] |}.

(** ** Inputs for the further properties *)

(** Stand-ins for the address library: an address prints as itself, the
    outpoint hash as its text, the serialization is empty. *)
Definition toyAddressLib : AddressLib :=
  {| address_str := fun a => Ret a;
     identity_scriptPubKey := [];
     b2x_prevout_hash := fun h => h;
     tx_serialize := fun _ => [] |}.

(** Addresses of 34 characters. *)
Definition neuronAddress : pystr := "E"%char :: repeat "n"%char 33.
Definition recipientAddress : pystr := "E"%char :: repeat "r"%char 33.
Definition serverAddress : pystr := "E"%char :: repeat "s"%char 33.

(** A neuron's wallet: two currency outputs, and two SATORI outputs and
    one of another asset among its asset outputs. *)
Definition neuronWallet : Wallet :=
  {| unspentCurrency :=
       [ {| tx_hash := txid "d1"; tx_pos := 0; value := 2000000;
            utxo_scriptPubKey := None |};
         {| tx_hash := txid "d2"; tx_pos := 1; value := 1000000;
            utxo_scriptPubKey := None |} ];
     unspentAssets := []; reserve := 0;
     mundoFee := 10000; bridgeFee := 1000000;
     address := neuronAddress; symbol := lit "evr" |}.

Definition neuronAssets : list asset_unspent :=
  [ {| asset_name := Some (lit "SATORI"); asset_asset := None;
       asset_utxo := {| tx_hash := txid "a1"; tx_pos := 0; value := 150000000;
                        utxo_scriptPubKey := None |} |};
    {| asset_name := None; asset_asset := Some (lit "OTHER");
       asset_utxo := {| tx_hash := txid "a2"; tx_pos := 0; value := 50;
                        utxo_scriptPubKey := None |} |};
    {| asset_name := None; asset_asset := Some (lit "SATORI");
       asset_utxo := {| tx_hash := txid "a3"; tx_pos := 2; value := 100000000;
                        utxo_scriptPubKey := None |} |} ].

(** The completer's wallet. *)
Definition completerWallet : Wallet :=
  {| unspentCurrency :=
       [ {| tx_hash := txid "c2"; tx_pos := 3; value := 1000000;
            utxo_scriptPubKey := None |} ];
     unspentAssets := []; reserve := 0;
     mundoFee := 10000; bridgeFee := 1000000;
     address := serverAddress; symbol := lit "evr" |}.

(** Stand-ins for the codec: the text of a byte string is its bytes read
    as characters, the hash is constant. *)
Definition toyCodecs : Codecs :=
  {| sha256 := fun _ => [x01; x02; x03; x04; x05];
     b58encode := map ascii_of_byte;
     b58decode := fun s => Ret (map byte_of_ascii s) |}.

(** A codec under which every text decodes to the version byte 33, an
    empty payload and the matching checksum. *)
Definition fixedCodecs : Codecs :=
  {| sha256 := fun _ => [x00; x00; x00; x00];
     b58encode := fun _ => [];
     b58decode := fun _ => Ret [x21; x00; x00; x00; x00] |}.

(** ** The multi-signature wallet *)

(** The outputs that [compileInputs] considers, the amount it is asked
    for and the currency carried by a list of outputs. *)
Definition spendable (utxos : list unspent) : list unspent :=
  filter (fun u => negb (value u <? 546)) utxos.

Definition requested (required_amounts : list (pystr * Z)) (asset : pystr) : Z :=
  match EvrmoreP2SHWallet.dict_get asset required_amounts with
  | Some a => a
  | None => 0
  end.

Definition sum_nValue (outs : list CMutableTxOut) : Z :=
  fold_right Z.add 0 (map nValue outs).

(** The outpoint of an output can be built: its transaction id is 64
    hexadecimal digits and its index is in range. *)
Definition outpoint_ok (u : unspent) : Prop :=
  txin_of u = Ret (new_txin u).

(** What [compileInputs] took of one asset: a prefix of its spendable
    outputs that reaches the amount [required] unless it is all of them,
    and that holds nothing past the output that reaches it. *)
Definition gathered (required : Z) (utxos taken : list unspent) : Prop :=
  (exists k, taken = firstn k (spendable utxos))
  /\ (required <= sum_values taken \/ taken = spendable utxos)
  /\ (forall before last,
         taken = before ++ [last] -> sum_values before < required).

(** The fee counted against an asset: the whole fee for ['EVR'], nothing
    for any other asset. *)
Definition fee_share (fee : Z) (asset : pystr) : Z :=
  if str_eqb asset (lit "EVR") then fee else 0.

(** Whether [compileOutputs] makes an output for a change. *)
Definition change_kept (change_address : option pystr) (change_value : Z) : bool :=
  match change_address with
  | Some _ => 546 <? change_value
  | None => false
  end.

(** Asset names in ASCII, where [upper] is [str.upper]. *)
Definition ascii_asset (r : recipient) : Prop :=
  match recipient_asset r with
  | Some a => Forall is_ascii a
  | None => True
  end.

(** Two recipients of the same asset, and what the chain holds for the
    multi-signature address. *)
Definition firstRecipient : recipient :=
  {| recipient_address := recipientAddress;
     recipient_amount := 1000;
     recipient_asset := Some (lit "satori") |}.

Definition secondRecipient : recipient :=
  {| recipient_address := serverAddress;
     recipient_amount := 800;
     recipient_asset := Some (lit "SATORI") |}.

Definition currencyRecipient : recipient :=
  {| recipient_address := recipientAddress;
     recipient_amount := 1000;
     recipient_asset := None |}.

Definition fetched (asset : pystr) : list unspent :=
  if str_eqb asset (lit "EVR") then [utxo 300; utxo 2000; utxo 700]
  else [utxo 900; utxo 5000].

(* ===================================================================== *)
(** * Part III: properties                                                *)
(* ===================================================================== *)

(** ** Numerals *)

Lemma digits_fuel_enough (base : N) (f f' : nat) (n : N) :
  (2 <= base)%N ->
  (n < 2 ^ N.of_nat f)%N -> (n < 2 ^ N.of_nat f')%N ->
  digits_fuel base f n = digits_fuel base f' n.
Proof.
  intros Hb. revert f' n.
  induction f as [|f IH]; intros f' n Hf Hf'.
  - assert (n = 0%N) by (simpl in Hf; lia). subst n.
    destruct f'; simpl; [reflexivity|].
    destruct (N.ltb_spec 0 base); [reflexivity | lia].
  - simpl. destruct (N.ltb_spec n base) as [Hlt|Hge].
    + destruct f'; simpl; [reflexivity|].
      destruct (N.ltb_spec n base); [reflexivity | lia].
    + destruct f' as [|f'].
      * simpl in Hf'. lia.
      * simpl. destruct (N.ltb_spec n base); [lia|].
        f_equal. apply IH.
        -- rewrite Nat2N.inj_succ, N.pow_succ_r' in Hf.
           apply N.Div0.div_lt_upper_bound. nia.
        -- rewrite Nat2N.inj_succ, N.pow_succ_r' in Hf'.
           apply N.Div0.div_lt_upper_bound. nia.
Qed.

Lemma digits_small (base n : N) :
  (2 <= base)%N -> (n < base)%N -> digits base n = [n].
Proof.
  intros Hb Hn. unfold digits.
  destruct (N.to_nat (N.size n)); simpl; [reflexivity|].
  destruct (N.ltb_spec n base); [reflexivity | lia].
Qed.

Lemma digits_step (base n : N) :
  (2 <= base)%N -> (base <= n)%N ->
  digits base n = digits base (n / base) ++ [(n mod base)%N].
Proof.
  intros Hb Hn. unfold digits.
  pose proof (N.size_gt n) as Hs.
  destruct (N.to_nat (N.size n)) as [|f] eqn:Ef.
  - assert (N.size n = 0%N) by lia.
    rewrite H in Hs. simpl in Hs. lia.
  - simpl. destruct (N.ltb_spec n base); [lia|].
    f_equal. apply digits_fuel_enough; [assumption| |].
    + assert (N.size n = N.succ (N.of_nat f)) by lia.
      rewrite H0, N.pow_succ_r' in Hs.
      apply N.Div0.div_lt_upper_bound. nia.
    + rewrite N2Nat.id. apply N.size_gt.
Qed.

Lemma undigits_snoc (base : N) (ds : list N) (d : N) :
  undigits base (ds ++ [d]) = (undigits base ds * base + d)%N.
Proof. unfold undigits. rewrite fold_left_app. reflexivity. Qed.

Lemma digits_ind (base : N) (P : N -> Prop) :
  (2 <= base)%N ->
  (forall n, (n < base)%N -> P n) ->
  (forall n, (base <= n)%N -> P (n / base)%N -> P n) ->
  forall n, P n.
Proof.
  intros Hb Hsmall Hstep n.
  induction n as [n IH] using (well_founded_induction N.lt_wf_0).
  destruct (N.ltb_spec n base) as [Hlt|Hge].
  - apply Hsmall; assumption.
  - apply Hstep; [assumption|]. apply IH.
    apply N.div_lt; lia.
Qed.

Lemma undigits_digits (base n : N) :
  (2 <= base)%N -> undigits base (digits base n) = n.
Proof.
  intros Hb. pattern n. apply (digits_ind base); [assumption| |]; clear n.
  - intros n Hn. rewrite digits_small by assumption.
    unfold undigits. simpl. lia.
  - intros n Hn IH. rewrite digits_step by assumption.
    rewrite undigits_snoc, IH.
    pose proof (N.div_mod n base). lia.
Qed.

Lemma digits_bounded (base n : N) :
  (2 <= base)%N -> Forall (fun d => (d < base)%N) (digits base n).
Proof.
  intros Hb. pattern n. apply (digits_ind base); [assumption| |]; clear n.
  - intros n Hn. rewrite digits_small by assumption. constructor; auto.
  - intros n Hn IH. rewrite digits_step by assumption.
    apply Forall_app. split; [assumption|].
    constructor; [|constructor]. apply N.mod_lt. lia.
Qed.

Lemma digits_nonempty (base n : N) :
  (2 <= base)%N -> digits base n <> [].
Proof.
  intros Hb. destruct (N.ltb_spec n base).
  - rewrite digits_small by assumption. discriminate.
  - rewrite digits_step by assumption. intros E.
    apply app_eq_nil in E. destruct E; discriminate.
Qed.

(** Dropping the [k] last digits divides by [base ^ k]. *)
Lemma undigits_drop_last (base : N) (k : nat) (n : N) :
  (2 <= base)%N ->
  undigits base (rev (skipn k (rev (digits base n)))) = (n / base ^ N.of_nat k)%N.
Proof.
  intros Hb. revert n. induction k as [|k IH]; intros n.
  - simpl skipn. rewrite rev_involutive, undigits_digits by assumption.
    simpl. now rewrite N.div_1_r.
  - rewrite Nat2N.inj_succ, N.pow_succ_r'.
    destruct (N.ltb_spec n base) as [Hlt|Hge].
    + rewrite digits_small by assumption. simpl.
      rewrite skipn_nil. simpl. unfold undigits. simpl.
      symmetry. apply N.div_small.
      pose proof (N.pow_nonzero base (N.of_nat k)).
      nia.
    + rewrite digits_step by assumption.
      rewrite rev_app_distr. simpl. rewrite IH.
      now rewrite N.Div0.div_div.
Qed.

(** Trailing zero digits are divisibility by a power of the base. *)
Lemma trailing_zeros_divide (base : N) (k : nat) (n : N) :
  (2 <= base)%N ->
  firstn k (rev (digits base n)) = repeat 0%N k ->
  (n mod base ^ N.of_nat k = 0)%N.
Proof.
  intros Hb. revert n. induction k as [|k IH]; intros n H.
  - simpl. apply N.mod_1_r.
  - rewrite Nat2N.inj_succ, N.pow_succ_r'.
    destruct (N.ltb_spec n base) as [Hlt|Hge].
    + rewrite digits_small in H by assumption. simpl in H.
      injection H as H _. subst n. apply N.Div0.mod_0_l.
    + rewrite digits_step in H by assumption.
      rewrite rev_app_distr in H. simpl in H.
      injection H as H0 H. apply IH in H.
      rewrite N.Div0.mod_mul_r. rewrite H0, H. lia.
Qed.

Lemma divide_trailing_zeros (base : N) (k : nat) (n : N) :
  (2 <= base)%N -> (0 < n)%N ->
  (n mod base ^ N.of_nat k = 0)%N ->
  firstn k (rev (digits base n)) = repeat 0%N k
  /\ (k <= length (digits base n))%nat.
Proof.
  intros Hb. revert n. induction k as [|k IH]; intros n Hpos H.
  - simpl. split; [reflexivity | lia].
  - rewrite Nat2N.inj_succ, N.pow_succ_r' in H.
    rewrite N.Div0.mod_mul_r in H.
    assert (Hp : (base ^ N.of_nat k <> 0)%N) by (apply N.pow_nonzero; lia).
    apply N.eq_add_0 in H. destruct H as [H0 H1].
    apply N.eq_mul_0_r in H1; [|lia].
    assert (Hge : (base <= n)%N).
    { pose proof (N.div_mod n base).
      destruct (N.ltb_spec n base); [|assumption].
      rewrite N.mod_small in H0 by assumption. lia. }
    assert (Hq : (0 < n / base)%N).
    { apply N.div_str_pos. lia. }
    destruct (IH _ Hq H1) as [IH1 IH2].
    rewrite digits_step by assumption.
    rewrite rev_app_distr. simpl. rewrite H0, IH1.
    split; [reflexivity|]. rewrite length_app. simpl. lia.
Qed.

Lemma digits_length_bound (base : N) (k : nat) (n : N) :
  (2 <= base)%N -> (n < base ^ N.of_nat (S k))%N ->
  (length (digits base n) <= S k)%nat.
Proof.
  intros Hb. revert n. induction k as [|k IH]; intros n Hn.
  - rewrite digits_small; [simpl; lia | assumption |].
    change (N.of_nat 1) with 1%N in Hn. rewrite N.pow_1_r in Hn. assumption.
  - destruct (N.ltb_spec n base) as [Hlt|Hge].
    + rewrite digits_small by assumption. simpl. lia.
    + rewrite digits_step by assumption. rewrite length_app. simpl.
      assert (length (digits base (n / base)) <= S k)%nat; [|lia].
      apply IH. rewrite Nat2N.inj_succ, N.pow_succ_r' in Hn.
      apply N.Div0.div_lt_upper_bound. assumption.
Qed.

(** ** Characters of digits *)

Lemma dec_value_digit_char (d : N) :
  (d < 10)%N -> dec_value (digit_char d) = Some d.
Proof.
  intros H. unfold dec_value, digit_char.
  destruct (N.ltb_spec d 10); [|lia].
  rewrite N_ascii_embedding by lia.
  destruct (N.leb_spec 48 (48 + d)); [|lia].
  destruct (N.leb_spec (48 + d) 57); [|lia].
  cbn [andb]. f_equal. lia.
Qed.


Lemma digit_char_zero (d : N) :
  (d < 10)%N -> digit_char d = "0"%char -> d = 0%N.
Proof.
  intros H E. apply (f_equal dec_value) in E.
  rewrite dec_value_digit_char in E by assumption.
  change (dec_value "0") with (Some 0%N) in E. congruence.
Qed.


Lemma parse_dec_app (s1 s2 : pystr) (acc : N) :
  parse_dec (s1 ++ s2) acc =
  match parse_dec s1 acc with
  | Some a => parse_dec s2 a
  | None => None
  end.
Proof.
  revert acc. induction s1 as [|c r IH]; intros acc; simpl; [reflexivity|].
  destruct (dec_value c); [apply IH | reflexivity].
Qed.

Lemma parse_dec_digits (ds : list N) (acc : N) :
  Forall (fun d => (d < 10)%N) ds ->
  parse_dec (map digit_char ds) acc
  = Some (fold_left (fun a d => (a * 10 + d)%N) ds acc).
Proof.
  intros H. revert acc. induction H as [|d ds Hd _ IH]; intros acc; simpl.
  - reflexivity.
  - rewrite dec_value_digit_char by assumption. apply IH.
Qed.

Lemma parse_dec_zeros (k : nat) (acc : N) :
  parse_dec (repeat "0"%char k) acc = Some (acc * 10 ^ N.of_nat k)%N.
Proof.
  revert acc. induction k as [|k IH]; intros acc.
  - simpl. f_equal. lia.
  - cbn [repeat parse_dec]. change (dec_value "0") with (Some 0%N).
    cbv iota. rewrite IH. f_equal.
    rewrite Nat2N.inj_succ, N.pow_succ_r'. lia.
Qed.

Lemma int_of_str_digits (s : pystr) (v : N) :
  s <> [] -> parse_dec s 0%N = Some v -> int_of_str s = Ret (Z.of_N v).
Proof.
  intros Hne H. destruct s as [|c r]; [congruence|].
  unfold int_of_str.
  destruct (Ascii.eqb_spec c "-"%char) as [->|_].
  - simpl in H. discriminate.
  - rewrite H. reflexivity.
Qed.

Lemma list_eqb_eq {A : Type} (eqb : A -> A -> bool) (l1 l2 : list A) :
  (forall a b, eqb a b = true <-> a = b) ->
  list_eqb eqb l1 l2 = true <-> l1 = l2.
Proof.
  intros Heq. revert l2. induction l1 as [|a r IH]; intros [|b r2]; simpl;
    try (split; [discriminate | congruence]); try tauto.
  rewrite andb_true_iff, Heq, IH. split.
  - intros [-> ->]. reflexivity.
  - intros E. injection E as -> ->. auto.
Qed.

Lemma str_eqb_eq (s1 s2 : pystr) : str_eqb s1 s2 = true <-> s1 = s2.
Proof. apply list_eqb_eq. apply Ascii.eqb_eq. Qed.

Lemma bytes_eqb_eq (s1 s2 : bytes) : bytes_eqb s1 s2 = true <-> s1 = s2.
Proof.
  apply list_eqb_eq. intros a b. split.
  - apply Byte.byte_dec_bl.
  - apply Byte.byte_dec_lb.
Qed.

Lemma Forall_firstn_skipn {A : Type} (P : A -> Prop) (k : nat) (l : list A) :
  Forall P l -> Forall P (firstn k l) /\ Forall P (skipn k l).
Proof.
  intros H. rewrite <- (firstn_skipn k l) in H.
  apply Forall_app in H. assumption.
Qed.

(** ** [TxUtils.isSatsDivisibilityValid] and [TxUtils.roundSatsDownToDivisibility] *)

Lemma str_of_int_nonneg (i : Z) :
  0 <= i -> str_of_int i = map digit_char (digits 10 (Z.to_N i)).
Proof.
  intros H. unfold str_of_int. destruct (Z.ltb_spec i 0); [lia | reflexivity].
Qed.

Lemma map_digit_char_zeros (ds : list N) (k : nat) :
  Forall (fun d => (d < 10)%N) ds ->
  map digit_char ds = repeat "0"%char k <-> ds = repeat 0%N k.
Proof.
  intros H. split.
  - revert k. induction H as [|d ds Hd _ IH]; intros [|k] E; simpl in *;
      try discriminate; [reflexivity|].
    injection E as E1 E2. f_equal; [|auto].
    apply digit_char_zero; assumption.
  - intros ->. apply map_repeat.
Qed.

Lemma endswith_zeros (n : N) (k : nat) :
  endswith (map digit_char (digits 10 n)) (repeat "0"%char k) = true
  <-> (k <= length (digits 10 n))%nat
      /\ firstn k (rev (digits 10 n)) = repeat 0%N k.
Proof.
  unfold endswith.
  rewrite andb_true_iff, Nat.leb_le, str_eqb_eq, length_map, repeat_length.
  rewrite skipn_map, firstn_rev.
  assert (Hb : Forall (fun d => (d < 10)%N)
                 (skipn (length (digits 10 n) - k) (digits 10 n))).
  { apply Forall_firstn_skipn, digits_bounded. lia. }
  rewrite map_digit_char_zeros by assumption.
  split; intros [H1 H2]; split; try assumption.
  - rewrite H2. apply rev_repeat.
  - apply (f_equal (@rev N)) in H2.
    rewrite rev_involutive, rev_repeat in H2. assumption.
Qed.

Lemma pow10_of_nat (k : nat) : Z.of_N (10 ^ N.of_nat k) = 10 ^ Z.of_nat k.
Proof. rewrite N2Z.inj_pow. f_equal. lia. Qed.

(** Positive amounts: the string test is divisibility by [10^(8-d)]. *)
Lemma isSatsDivisibilityValid_pos (sats d : Z) :
  0 < sats -> d <= 8 ->
  TxUtils.isSatsDivisibilityValid sats d = true <-> sats mod 10 ^ (8 - d) = 0.
Proof.
  intros Hs Hd. unfold TxUtils.isSatsDivisibilityValid, str_times.
  rewrite str_of_int_nonneg by lia. rewrite endswith_zeros.
  set (k := Z.to_nat (8 - d)). set (n := Z.to_N sats).
  assert (E : sats mod 10 ^ (8 - d) = Z.of_N (n mod 10 ^ N.of_nat k)).
  { rewrite N2Z.inj_mod, pow10_of_nat. unfold n, k.
    rewrite Z2N.id, Z2Nat.id by lia. reflexivity. }
  rewrite E. split.
  - intros [_ H]. apply trailing_zeros_divide in H; [|lia]. rewrite H. reflexivity.
  - intros H. assert (H' : (n mod 10 ^ N.of_nat k = 0)%N) by lia.
    apply divide_trailing_zeros in H'; [tauto | lia | unfold n; lia].
Qed.

(** Whenever the string test succeeds the amount is a multiple. *)
Lemma isSatsDivisibilityValid_sound (sats d : Z) :
  0 <= sats -> d <= 8 ->
  TxUtils.isSatsDivisibilityValid sats d = true -> sats mod 10 ^ (8 - d) = 0.
Proof.
  intros Hs Hd. unfold TxUtils.isSatsDivisibilityValid, str_times.
  rewrite str_of_int_nonneg by lia. rewrite endswith_zeros.
  set (k := Z.to_nat (8 - d)). set (n := Z.to_N sats).
  intros [_ H]. apply trailing_zeros_divide in H; [|lia].
  replace sats with (Z.of_N n) by (unfold n; lia).
  replace (8 - d) with (Z.of_nat k) by (unfold k; lia).
  rewrite <- pow10_of_nat, <- N2Z.inj_mod, H. reflexivity.
Qed.

(** The string slicing of [roundSatsDownToDivisibility] is arithmetic
    truncation to a multiple of [10^(8-d)]. *)
Theorem roundSatsDownToDivisibility_truncates (sats d : Z) :
  0 <= sats -> 0 <= d <= 8 ->
  TxUtils.roundSatsDownToDivisibility sats d
  = Ret (sats / 10 ^ (8 - d) * 10 ^ (8 - d)).
Proof.
  intros Hs Hd. unfold TxUtils.roundSatsDownToDivisibility.
  destruct (TxUtils.isSatsDivisibilityValid sats d) eqn:V.
  - apply isSatsDivisibilityValid_sound in V; [|lia|lia].
    f_equal. assert (NZ : 10 ^ (8 - d) <> 0) by (apply Z.pow_nonzero; lia).
    pose proof (Z.div_mod sats (10 ^ (8 - d)) NZ) as DM.
    rewrite Z.mul_comm in DM. lia.
  - unfold str_times. rewrite repeat_length.
    set (k := Z.to_nat (8 - d)). set (n := Z.to_N sats).
    assert (Hk : k <> O).
    { intros E. unfold TxUtils.isSatsDivisibilityValid, str_times in V.
      fold k in V. rewrite E in V. unfold endswith in V. simpl in V.
      rewrite Nat.sub_0_r, skipn_all in V. discriminate. }
    rewrite str_of_int_nonneg by lia. fold n.
    unfold slice_0_neg. destruct k as [|k'] eqn:Ek; [congruence|].
    rewrite <- Ek in *. clear Hk.
    rewrite length_map, firstn_map.
    assert (P : parse_dec
                  (map digit_char (firstn (length (digits 10 n) - k) (digits 10 n))
                   ++ repeat "0"%char k) 0%N
                = Some (n / 10 ^ N.of_nat k * 10 ^ N.of_nat k)%N).
    { rewrite parse_dec_app, parse_dec_digits.
      - rewrite parse_dec_zeros. f_equal. f_equal.
        rewrite <- (undigits_drop_last 10 k n) by lia.
        rewrite skipn_rev, rev_involutive. reflexivity.
      - apply Forall_firstn_skipn, digits_bounded. lia. }
    apply int_of_str_digits in P.
    + rewrite P. f_equal.
      rewrite N2Z.inj_mul, N2Z.inj_div, pow10_of_nat.
      unfold n, k. rewrite Z2N.id, Z2Nat.id by lia. reflexivity.
    + rewrite Ek. intros E. apply app_eq_nil in E. destruct E as [_ E].
      discriminate.
Qed.

(** For positive amounts the result is unchanged exactly when the string
    test holds. *)
Lemma roundSatsDownToDivisibility_fixpoint_pos (sats d : Z) :
  0 < sats -> 0 <= d <= 8 ->
  TxUtils.roundSatsDownToDivisibility sats d = Ret sats
  <-> TxUtils.isSatsDivisibilityValid sats d = true.
Proof.
  intros Hs Hd. rewrite roundSatsDownToDivisibility_truncates by lia.
  rewrite isSatsDivisibilityValid_pos by lia.
  assert (10 ^ (8 - d) <> 0) by (apply Z.pow_nonzero; lia).
  pose proof (Z.div_mod sats (10 ^ (8 - d)) H) as DM.
  rewrite Z.mul_comm in DM.
  split.
  - intros E. assert (E' : sats / 10 ^ (8 - d) * 10 ^ (8 - d) = sats)
      by congruence. lia.
  - intros E. f_equal. lia.
Qed.

(** C10: at [sats = 0] and divisibility 6 the rounding returns the amount
    unchanged (0 is the arithmetic truncation, a multiple of 100), while
    [isSatsDivisibilityValid] answers [False] because ['0'] does not end in
    ['00']: unchanged and valid do not coincide at zero. *)
Theorem C10_zero_unchanged_but_invalid :
  TxUtils.roundSatsDownToDivisibility 0 6 = Ret 0
  /\ 0 / 10 ^ (8 - 6) * 10 ^ (8 - 6) = 0
  /\ TxUtils.isSatsDivisibilityValid 0 6 = false.
Proof. repeat split. Qed.

(** ** Hexadecimal strings and bytes *)


Lemma byte_of_N_to_N (b : byte) : byte_of_N (Byte.to_N b) = b.
Proof. unfold byte_of_N. rewrite Byte.of_to_N. reflexivity. Qed.

Lemma to_N_lt (b : byte) : (Byte.to_N b < 256)%N.
Proof. pose proof (Byte.to_N_bounded b). lia. Qed.

Lemma hexN_app (l1 l2 : list N) : hexN (l1 ++ l2) = hexN l1 ++ hexN l2.
Proof. unfold hexN. rewrite map_app, concat_app. reflexivity. Qed.


Lemma length_hexN (l : list N) : length (hexN l) = (2 * length l)%nat.
Proof.
  induction l as [|d l IH]; [reflexivity|].
  change (hexN (d :: l))
    with (digit_char (d / 16) :: digit_char (d mod 16) :: hexN l).
  cbn [length]. rewrite IH. lia.
Qed.

Lemma chunks2_hexN (l : list N) : chunks2 (hexN l) = map hex2N l.
Proof. induction l as [|d l IH]; simpl; [reflexivity|]. f_equal. exact IH. Qed.

Lemma evenpad_snoc2 (s : pystr) (a b : ascii) :
  evenpad (s ++ [a; b]) = evenpad s ++ [a; b].
Proof.
  unfold evenpad. rewrite length_app. simpl length.
  replace (length s + 2)%nat with (length s + 1 * 2)%nat by lia.
  rewrite Nat.Div0.mod_add.
  destruct (Nat.eqb (length s mod 2) 0); [reflexivity|].
  rewrite app_assoc. reflexivity.
Qed.

(** Hexadecimal digits, padded to an even count, are the base-256 digits
    written with two characters each. *)
Lemma evenpad_digits16 (n : N) :
  evenpad (map digit_char (digits 16 n)) = hexN (digits 256 n).
Proof.
  pattern n. apply (digits_ind 256); [lia| |]; clear n.
  - intros n Hn. rewrite (digits_small 256) by lia.
    destruct (N.ltb_spec n 16) as [Hlt|Hge].
    + rewrite digits_small by lia. unfold hexN, hex2N. simpl.
      rewrite N.div_small, N.mod_small by lia. reflexivity.
    + rewrite digits_step by lia.
      rewrite digits_small; [|lia|apply N.Div0.div_lt_upper_bound; lia].
      reflexivity.
  - intros n Hn IH. rewrite (digits_step 256) by lia.
    rewrite (digits_step 16 n) by lia.
    rewrite (digits_step 16 (n / 16)); [|lia|].
    2:{ apply N.div_le_lower_bound; lia. }
    rewrite N.Div0.div_div. change (16 * 16)%N with 256%N.
    rewrite <- app_assoc. simpl app. rewrite map_app. simpl map.
    rewrite evenpad_snoc2, IH, hexN_app. f_equal.
    unfold hexN, hex2N. simpl. f_equal; [f_equal|].
    + change 256%N with (16 * 16)%N. rewrite N.Div0.mod_mul_r.
      rewrite N.mul_comm, N.div_add by lia.
      rewrite (N.div_small (n mod 16)) by (apply N.mod_lt; lia). lia.
    + f_equal. f_equal.
      change 256%N with (16 * 16)%N. rewrite N.Div0.mod_mul_r.
      rewrite N.mul_comm, N.Div0.mod_add, N.Div0.mod_mod. reflexivity.
Qed.

Lemma intToLittleEndianHex_nonneg (number : Z) :
  0 <= number ->
  TxUtils.intToLittleEndianHex number = hexN (rev (digits 256 (Z.to_N number))).
Proof.
  intros H. unfold TxUtils.intToLittleEndianHex, hex_from_2.
  destruct (Z.ltb_spec number 0); [lia|].
  fold (evenpad (map digit_char (digits 16 (Z.to_N number)))).
  rewrite evenpad_digits16, chunks2_hexN, <- map_rev. reflexivity.
Qed.

Lemma hexN_zeros (k : nat) : hexN (repeat 0%N k) = repeat "0"%char (2 * k).
Proof.
  induction k as [|k IH]; [reflexivity|].
  replace (2 * S k)%nat with (S (S (2 * k))) by lia.
  cbn [repeat]. rewrite <- IH. reflexivity.
Qed.

Lemma padHexStringTo8Bytes_hexN (l : list N) :
  (length l <= 8)%nat ->
  TxUtils.padHexStringTo8Bytes (hexN l) = hexN (l ++ repeat 0%N (8 - length l)).
Proof.
  intros H. unfold TxUtils.padHexStringTo8Bytes, ljust.
  rewrite hexN_app, hexN_zeros, length_hexN. f_equal. f_equal. lia.
Qed.








(** ** The asset tag: [satoriHex], the padded little-endian amount, decoding *)


Lemma le8_length (n : N) : (n < 2 ^ 64)%N -> length (le8 n) = 8%nat.
Proof.
  intros H. unfold le8. rewrite length_app, length_rev, repeat_length.
  assert (length (digits 256 n) <= 8)%nat; [|lia].
  apply digits_length_bound; [lia|].
  change (256 ^ N.of_nat 8)%N with (2 ^ 64)%N. assumption.
Qed.


Lemma padded_amount_hex (amountSats : Z) :
  0 <= amountSats < 2 ^ 64 ->
  TxUtils.padHexStringTo8Bytes (TxUtils.intToLittleEndianHex amountSats)
  = hexN (le8 (Z.to_N amountSats)).
Proof.
  intros H. rewrite intToLittleEndianHex_nonneg by lia.
  rewrite padHexStringTo8Bytes_hexN; rewrite length_rev.
  - reflexivity.
  - apply digits_length_bound; [lia|].
    change (256 ^ N.of_nat 8)%N with (2 ^ 64)%N. lia.
Qed.


Lemma encode_utf8_ascii (s : pystr) :
  Forall is_ascii s -> encode_utf8 s = map byte_of_ascii s.
Proof.
  intros H. induction H as [|c s Hc _ IH]; [reflexivity|].
  unfold encode_utf8 in *. cbn [flat_map map]. rewrite IH.
  unfold utf8_char. unfold is_ascii in Hc.
  destruct (N.ltb_spec (N_of_ascii c) 128); [|lia].
  simpl. f_equal. unfold byte_of_N.
  rewrite <- byte_of_ascii_via_N. reflexivity.
Qed.



Lemma N_of_ascii_lt (c : ascii) : (N_of_ascii c < 256)%N.
Proof. apply N_ascii_bounded. Qed.








(** ** Channel redeem scripts: the timeout element *)

Lemma minutes_units_range (minutes : Z) :
  1 <= minutes <= 557047 ->
  let units := Z.max 1 (minutes * 60 / 512) in
  1 <= units <= 65535.
Proof.
  intros H units. unfold units.
  assert (minutes * 60 / 512 <= 65278).
  { apply Z.lt_succ_r. apply Z.div_lt_upper_bound; lia. }
  lia.
Qed.

Lemma land_16bit (u : Z) : 0 <= u <= 65535 -> Z.land u 65535 = u.
Proof.
  intros H. change 65535 with (Z.ones 16).
  rewrite Z.land_ones by lia. apply Z.mod_small.
  change (2 ^ 16) with 65536. lia.
Qed.

Lemma lor_time_flag (u : Z) :
  0 <= u <= 65535 ->
  Z.lor 4194304 u = 4194304 + u
  /\ Z.testbit (Z.lor 4194304 u) 22 = true
  /\ Z.land (Z.lor 4194304 u) 65535 = u.
Proof.
  intros H.
  assert (D : Z.land 4194304 u = 0).
  { apply Z.bits_inj'. intros k Hk. rewrite Z.land_spec, Z.bits_0.
    destruct (Z.eq_dec k 22) as [->|Hne].
    - replace (Z.testbit u 22) with false; [apply andb_false_r|].
      symmetry. apply Z.bits_above_log2; [lia|].
      destruct (Z.eq_dec u 0) as [->|]; [simpl; lia|].
      apply Z.log2_lt_pow2; [lia|]. change (2 ^ 22) with 4194304. lia.
    - change 4194304 with (2 ^ 22). rewrite Z.pow2_bits_eqb by lia.
      destruct (Z.eqb_spec 22 k); [lia | reflexivity]. }
  assert (E : Z.lor 4194304 u = 4194304 + u).
  { rewrite <- Z.lxor_lor by assumption.
    symmetry. apply Z.add_nocarry_lxor. assumption. }
  split; [assumption|]. split.
  - rewrite Z.lor_spec. reflexivity.
  - rewrite E. change 65535 with (Z.ones 16). rewrite Z.land_ones by lia.
    change 4194304 with (64 * 2 ^ 16). rewrite Z.add_comm, Z.mod_add by lia.
    apply Z.mod_small. change (2 ^ 16) with 65536. lia.
Qed.

(** C7: timeouts of the channel redeem scripts.  With both keys
    convertible to bytes:
    - renewable, blocks: accepted exactly when [1 <= blocks <= 65535], and
      the script then carries [blocks] itself before CHECKSEQUENCEVERIFY;
    - renewable, minutes (accepted for 1..557047): the script carries
      [0x00400000 | units] before CHECKSEQUENCEVERIFY, with
      [units = max 1 (minutes*60 // 512)], which fits 16 bits so the mask
      leaves it unchanged, and bit 22 is set;
    - non-renewable, blocks: accepted exactly when [blocks > 0], pushed
      as-is before CHECKLOCKTIMEVERIFY;
    - non-renewable, timestamp: every value below 500,000,000 raises
      ValueError, every other one is pushed as-is before
      CHECKLOCKTIMEVERIFY. *)
Theorem C7_channel_timeouts (sender receiver : pubkey_arg) (sb rb : bytes) :
  key_bytes sender = Ret sb ->
  key_bytes receiver = Ret rb ->
  (forall blocks,
      (1 <= blocks <= 65535 ->
       renewableLightChannel sender receiver (Some blocks) None
       = Ret (channelScript sb rb blocks OP_CHECKSEQUENCEVERIFY)
       /\ timeout_element (channelScript sb rb blocks OP_CHECKSEQUENCEVERIFY)
          = Some (Int blocks)
       /\ lock_element (channelScript sb rb blocks OP_CHECKSEQUENCEVERIFY)
          = Some (Op OP_CHECKSEQUENCEVERIFY))
      /\ (~ 1 <= blocks <= 65535 ->
          renewableLightChannel sender receiver (Some blocks) None
          = Raise (ValueError "blocks must be between 1 and 65535")))
  /\ (forall minutes,
      (1 <= minutes <= 557047 ->
       let units := Z.max 1 (minutes * 60 / 512) in
       let timeoutValue := Z.lor 4194304 units in
       renewableLightChannel sender receiver None (Some minutes)
       = Ret (channelScript sb rb timeoutValue OP_CHECKSEQUENCEVERIFY)
       /\ timeout_element (channelScript sb rb timeoutValue OP_CHECKSEQUENCEVERIFY)
          = Some (Int timeoutValue)
       /\ 1 <= units <= 65535
       /\ Z.land units 65535 = units
       /\ Z.testbit timeoutValue 22 = true
       /\ Z.land timeoutValue 65535 = units)
      /\ (~ 1 <= minutes <= 557047 ->
          renewableLightChannel sender receiver None (Some minutes)
          = Raise (ValueError "minutes must be between 1 and 557047 minutes")))
  /\ (forall blocks,
      (0 < blocks ->
       nonrenewableLightChannel sender receiver (Some blocks) None
       = Ret (channelScript sb rb blocks OP_CHECKLOCKTIMEVERIFY)
       /\ timeout_element (channelScript sb rb blocks OP_CHECKLOCKTIMEVERIFY)
          = Some (Int blocks)
       /\ lock_element (channelScript sb rb blocks OP_CHECKLOCKTIMEVERIFY)
          = Some (Op OP_CHECKLOCKTIMEVERIFY))
      /\ (blocks <= 0 ->
          nonrenewableLightChannel sender receiver (Some blocks) None
          = Raise (ValueError "blocks must be positive")))
  /\ (forall timestamp,
      (timestamp_int timestamp < 500000000 ->
       exists msg,
         nonrenewableLightChannel sender receiver None (Some timestamp)
         = Raise (ValueError msg))
      /\ (500000000 <= timestamp_int timestamp ->
          nonrenewableLightChannel sender receiver None (Some timestamp)
          = Ret (channelScript sb rb (timestamp_int timestamp)
                   OP_CHECKLOCKTIMEVERIFY))).
Proof.
  intros Hs Hr. repeat apply conj.
  - intros blocks. split.
    + intros H. unfold renewableLightChannel. rewrite Hs, Hr. cbn [bind].
      destruct (Z.leb_spec 1 blocks); [|lia].
      destruct (Z.leb_spec blocks 65535); [|lia].
      repeat split.
    + intros H. unfold renewableLightChannel. rewrite Hs, Hr. cbn [bind].
      destruct (Z.leb_spec 1 blocks); destruct (Z.leb_spec blocks 65535);
        try reflexivity. lia.
  - intros minutes. split.
    + intros H units timeoutValue.
      pose proof (minutes_units_range minutes H) as Hu. cbv zeta in Hu.
      fold units in Hu.
      destruct (lor_time_flag units ltac:(lia)) as [_ [Hbit Hland]].
      assert (Hm : Z.land units 65535 = units) by (apply land_16bit; lia).
      unfold renewableLightChannel. rewrite Hs, Hr. cbn [bind].
      destruct (Z.leb_spec 1 minutes); [|lia].
      destruct (Z.leb_spec (2 * minutes) (65535 * 17)); [|lia].
      cbn [andb negb].
      assert (Eu : (if minutes * 60 / 512 <? 1 then 1 else minutes * 60 / 512)
                   = units).
      { unfold units. destruct (Z.ltb_spec (minutes * 60 / 512) 1); lia. }
      rewrite Eu, Hm. repeat split; try assumption; lia.
    + intros H. unfold renewableLightChannel. rewrite Hs, Hr. cbn [bind].
      destruct (Z.leb_spec 1 minutes);
        destruct (Z.leb_spec (2 * minutes) (65535 * 17));
        try reflexivity. lia.
  - intros blocks. split.
    + intros H. unfold nonrenewableLightChannel. rewrite Hs, Hr. cbn [bind].
      destruct (Z.leb_spec blocks 0); [lia|]. repeat split.
    + intros H. unfold nonrenewableLightChannel. rewrite Hs, Hr. cbn [bind].
      destruct (Z.leb_spec blocks 0); [reflexivity | lia].
  - intros timestamp. split.
    + intros H. unfold nonrenewableLightChannel. rewrite Hs, Hr. cbn [bind].
      cbv zeta. destruct (Z.leb_spec (timestamp_int timestamp) 0).
      * eexists. reflexivity.
      * destruct (Z.ltb_spec (timestamp_int timestamp) 500000000); [|lia].
        eexists. reflexivity.
    + intros H. unfold nonrenewableLightChannel. rewrite Hs, Hr. cbn [bind].
      cbv zeta. destruct (Z.leb_spec (timestamp_int timestamp) 0); [lia|].
      destruct (Z.ltb_spec (timestamp_int timestamp) 500000000); [lia|].
      reflexivity.
Qed.

Lemma C7_channel_timeouts_witness :
  renewableLightChannel (KeyBytes [x02]) (KeyHex (lit "03ff")) None (Some 60)
  = Ret (channelScript [x02] [x03; xff] 4194311 OP_CHECKSEQUENCEVERIFY).
Proof.
  pose proof (C7_channel_timeouts (KeyBytes [x02]) (KeyHex (lit "03ff"))
                [x02] [x03; xff] eq_refl eq_refl) as [_ [H _]].
  destruct (H 60) as [H60 _].
  exact (proj1 (H60 ltac:(lia))).
Defined.

(** ** Coin selection *)

Lemma sum_values_app (l1 l2 : list unspent) :
  sum_values (l1 ++ l2) = sum_values l1 + sum_values l2.
Proof. induction l1 as [|x l1 IH]; simpl; lia. Qed.

Lemma sum_values_perm (l1 l2 : list unspent) :
  Permutation l1 l2 -> sum_values l1 = sum_values l2.
Proof. intros P. induction P; simpl; lia. Qed.

Lemma insert_by_value_perm (x : unspent) (l : list unspent) :
  Permutation (insert_by_value x l) (x :: l).
Proof.
  induction l as [|y r IH]; simpl; [reflexivity|].
  destruct (value x <=? value y); [reflexivity|].
  rewrite IH. apply perm_swap.
Qed.

Lemma sorted_by_value_perm (l : list unspent) :
  Permutation (sorted_by_value l) l.
Proof.
  induction l as [|x l IH]; simpl; [reflexivity|].
  rewrite insert_by_value_perm. constructor. exact IH.
Qed.

Lemma insert_by_value_sorted (x : unspent) (l : list unspent) :
  StronglySorted value_le l -> StronglySorted value_le (insert_by_value x l).
Proof.
  intros H. induction H as [|y r Hr IH Hy]; simpl.
  - repeat constructor.
  - destruct (Z.leb_spec (value x) (value y)) as [Hle|Hgt].
    + constructor; [constructor; assumption|].
      constructor; [exact Hle|].
      eapply Forall_impl; [|exact Hy]. unfold value_le. intros; lia.
    + constructor; [exact IH|].
      eapply Permutation_Forall.
      * symmetry. apply insert_by_value_perm.
      * constructor; [unfold value_le; lia | exact Hy].
Qed.

Lemma sorted_by_value_sorted (l : list unspent) :
  StronglySorted value_le (sorted_by_value l).
Proof.
  induction l as [|x l IH]; simpl; [constructor|].
  apply insert_by_value_sorted, IH.
Qed.

Lemma StronglySorted_snoc {A : Type} (R : A -> A -> Prop) (l : list A) (a : A) :
  StronglySorted R l -> Forall (fun x => R x a) l -> StronglySorted R (l ++ [a]).
Proof.
  intros H F. induction H as [|y r Hr IH Hy]; simpl.
  - repeat constructor.
  - inversion F; subst. constructor; [auto|].
    apply Forall_app. split; [assumption | repeat constructor; assumption].
Qed.

Lemma rev_sorted_descending (l : list unspent) :
  StronglySorted value_le l -> StronglySorted value_ge (rev l).
Proof.
  intros H. induction H as [|y r Hr IH Hy]; simpl; [constructor|].
  apply StronglySorted_snoc; [exact IH|].
  apply Forall_rev. exact Hy.
Qed.

(** In a descending list of non-negative values, shifting a prefix by one
    position cannot increase its total. *)
Lemma prefix_shift (d : unspent) (l : list unspent) (k : nat) :
  StronglySorted value_ge (d :: l) ->
  Forall (fun x => 0 <= value x) (d :: l) ->
  sum_values (firstn (S k) l) <= value d + sum_values (firstn k l).
Proof.
  revert d l. induction k as [|k IH]; intros d l H Hd.
  - destruct l as [|e l]; simpl.
    + inversion Hd; subst. lia.
    + inversion H as [|? ? _ F]; subst. inversion F; subst.
      unfold value_ge in *. lia.
  - destruct l as [|e l].
    + simpl. inversion Hd; subst. lia.
    + inversion H as [|? ? Hl F]; subst. inversion F as [|? ? Hed _]; subst.
      inversion Hd as [|? ? _ Hd']; subst.
      unfold value_ge in Hed.
      change (firstn (S (S k)) (e :: l)) with (e :: firstn (S k) l).
      change (firstn (S k) (e :: l)) with (e :: firstn k l).
      cbn [sum_values fold_right]. fold (sum_values (firstn (S k) l)).
      fold (sum_values (firstn k l)).
      specialize (IH e l Hl Hd'). lia.
Qed.

(** The first [length S] elements of a descending pool total at least as
    much as any sub-collection [S] of the pool. *)
Lemma largest_prefix_maximal (D : list unspent) :
  StronglySorted value_ge D ->
  Forall (fun x => 0 <= value x) D ->
  forall S rest, Permutation (S ++ rest) D ->
  sum_values S <= sum_values (firstn (length S) D).
Proof.
  intros HS. induction HS as [|d D' HD' IH Hd]; intros Hpos S rest P.
  - apply Permutation_sym, Permutation_nil in P.
    apply app_eq_nil in P. destruct P as [-> _]. simpl. lia.
  - destruct S as [|s S1]; [simpl; lia|].
    inversion Hpos as [|? ? Hd0 Hpos']; subst.
    assert (Hin : In d ((s :: S1) ++ rest)).
    { eapply Permutation_in; [symmetry; exact P|]. left. reflexivity. }
    apply in_app_or in Hin. destruct Hin as [Hin|Hin].
    + apply in_split in Hin. destruct Hin as [l1 [l2 E]].
      assert (P1 : Permutation (s :: S1) (d :: l1 ++ l2)).
      { rewrite E. symmetry. apply Permutation_middle. }
      assert (P2 : Permutation ((l1 ++ l2) ++ rest) D').
      { apply Permutation_cons_inv with (a := d).
        rewrite <- P. change (d :: (l1 ++ l2) ++ rest) with ((d :: l1 ++ l2) ++ rest).
        apply Permutation_app_tail. symmetry. exact P1. }
      specialize (IH Hpos' _ _ P2).
      rewrite (sum_values_perm _ _ P1).
      rewrite (Permutation_length P1).
      change (firstn (length (d :: l1 ++ l2)) (d :: D'))
        with (d :: firstn (length (l1 ++ l2)) D').
      cbn [sum_values fold_right]. fold (sum_values (l1 ++ l2)).
      fold (sum_values (firstn (length (l1 ++ l2)) D')). lia.
    + apply in_split in Hin. destruct Hin as [r1 [r2 E]].
      assert (P2 : Permutation ((s :: S1) ++ r1 ++ r2) D').
      { apply Permutation_cons_inv with (a := d).
        rewrite <- P, E. rewrite !app_assoc. apply Permutation_middle. }
      specialize (IH Hpos' _ _ P2).
      change (firstn (length (s :: S1)) (d :: D'))
        with (d :: firstn (length S1) D').
      cbn [sum_values fold_right] in *. fold (sum_values S1) in *.
      fold (sum_values (firstn (length S1) D')).
      change (length (s :: S1)) with (S (length S1)) in IH.
      pose proof (prefix_shift d D' (length S1)
                    (SSorted_cons d HD' Hd) Hpos) as Hshift.
      fold (sum_values (firstn (S (length S1)) D')) in IH. lia.
Qed.

Section GatherLoops.

Variables feeRate sats inputCount outputCount : Z.

Local Abbreviation below := (Selection.below feeRate sats inputCount outputCount).
Local Abbreviation gather_smallest :=
  (Selection.gather_smallest feeRate sats inputCount outputCount).
Local Abbreviation gather_largest :=
  (Selection.gather_largest feeRate sats inputCount outputCount).

(** The ascending loop returns a prefix of the pool; it stops either
    because the threshold is met, or, with the flag set, because the
    pool is exhausted with every prefix below its threshold. *)
Lemma gather_smallest_spec (pool : list unspent) :
  forall gs g,
  exists k dust,
    (k <= length pool)%nat
    /\ gather_smallest pool gs g
       = (g ++ firstn k pool, gs + sum_values (firstn k pool), dust)
    /\ (dust = false ->
        below (gs + sum_values (firstn k pool)) (g ++ firstn k pool) = false)
    /\ (dust = true -> k = length pool).
Proof.
  induction pool as [|x rest IH]; intros gs g.
  - cbn [Selection.gather_smallest].
    destruct (below gs g) eqn:B.
    + exists O, true. cbn [firstn sum_values fold_right].
      rewrite app_nil_r, Z.add_0_r. repeat split; auto; discriminate.
    + exists O, false. cbn [firstn sum_values fold_right].
      rewrite app_nil_r, Z.add_0_r. repeat split; auto; try discriminate;
        simpl; lia.
  - cbn [Selection.gather_smallest].
    destruct (below gs g) eqn:B.
    + 
      destruct (IH (gs + value x) (g ++ [x])) as [k [dust [Hk [E [H1 H2]]]]].
      exists (S k), dust.
      change (firstn (S k) (x :: rest)) with (x :: firstn k rest).
      cbn [sum_values fold_right]. fold (sum_values (firstn k rest)).
      rewrite <- app_assoc in E, H1. cbn [app] in E, H1.
      rewrite Z.add_assoc. repeat split.
      * simpl. lia.
      * exact E.
      * exact H1.
      * intros Hd. simpl. rewrite (H2 Hd). reflexivity.
    + exists O, false. cbn [firstn sum_values fold_right].
      rewrite app_nil_r, Z.add_0_r. repeat split; auto; try discriminate;
        simpl; lia.
Qed.

(** The ascending loop exhausts the pool exactly when every prefix is
    below its threshold. *)
Lemma gather_smallest_exhausts (pool : list unspent) :
  forall gs g,
  (forall k, (k <= length pool)%nat ->
             below (gs + sum_values (firstn k pool)) (g ++ firstn k pool) = true) ->
  gather_smallest pool gs g = (g ++ pool, gs + sum_values pool, true).
Proof.
  induction pool as [|x rest IH]; intros gs g H.
  - cbn [Selection.gather_smallest]. fold below.
    specialize (H O (Nat.le_refl _)). cbn [firstn sum_values fold_right] in H.
    rewrite app_nil_r, Z.add_0_r in *. rewrite H. reflexivity.
  - cbn [Selection.gather_smallest]. fold below.
    pose proof (H O ltac:(simpl; lia)) as H0.
    cbn [firstn sum_values fold_right] in H0.
    rewrite app_nil_r, Z.add_0_r in H0. rewrite H0.
     rewrite IH.
    + rewrite <- app_assoc. cbn [app sum_values fold_right].
      fold (sum_values rest). rewrite Z.add_assoc. reflexivity.
    + intros k Hk. specialize (H (S k) ltac:(simpl; lia)).
      change (firstn (S k) (x :: rest)) with (x :: firstn k rest) in H.
      cbn [sum_values fold_right] in H. fold (sum_values (firstn k rest)) in H.
      rewrite <- app_assoc. cbn [app]. rewrite <- Z.add_assoc. exact H.
Qed.

Lemma gather_smallest_dust (pool : list unspent) (gs : Z) (g sel : list unspent) (tot : Z) :
  gather_smallest pool gs g = (sel, tot, true) ->
  forall k, (k <= length pool)%nat ->
            below (gs + sum_values (firstn k pool)) (g ++ firstn k pool) = true.
Proof.
  revert gs g. induction pool as [|x rest IH]; intros gs g E k Hk.
  - cbn [Selection.gather_smallest] in E.
    assert (k = O) by (simpl in Hk; lia). subst k.
    cbn [firstn sum_values fold_right]. rewrite app_nil_r, Z.add_0_r.
    destruct (below gs g); [reflexivity | discriminate].
  - cbn [Selection.gather_smallest] in E.
    destruct (below gs g) eqn:B; [|discriminate].
    
    destruct k as [|k].
    + cbn [firstn sum_values fold_right]. rewrite app_nil_r, Z.add_0_r. exact B.
    + change (firstn (S k) (x :: rest)) with (x :: firstn k rest).
      cbn [sum_values fold_right]. fold (sum_values (firstn k rest)).
      specialize (IH _ _ E k ltac:(simpl in Hk; lia)).
      rewrite <- app_assoc in IH. cbn [app] in IH.
      rewrite Z.add_assoc. exact IH.
Qed.

(** The descending loop returns a prefix of the reversed pool; it stops
    either because the threshold is met or because the pool is exhausted
    with every prefix below its threshold. *)
Lemma gather_largest_spec (reversed : list unspent) :
  forall gs g,
  exists k,
    (k <= length reversed)%nat
    /\ gather_largest reversed gs g
       = (g ++ firstn k reversed, gs + sum_values (firstn k reversed))
    /\ (below (gs + sum_values (firstn k reversed)) (g ++ firstn k reversed) = false
        \/ (k = length reversed
            /\ forall j, (j <= length reversed)%nat ->
                 below (gs + sum_values (firstn j reversed))
                       (g ++ firstn j reversed) = true)).
Proof.
  induction reversed as [|x rest IH]; intros gs g.
  - cbn [Selection.gather_largest]. fold below.
    exists O. cbn [firstn sum_values fold_right].
    rewrite app_nil_r, Z.add_0_r.
    destruct (below gs g) eqn:B; (split; [simpl; lia|split; [reflexivity|]]).
    + right. split; [reflexivity|]. intros j Hj.
      assert (j = O) by (simpl in Hj; lia). subst j.
      cbn [firstn sum_values fold_right]. rewrite app_nil_r, Z.add_0_r. exact B.
    + left. reflexivity.
  - cbn [Selection.gather_largest]. fold below.
    destruct (below gs g) eqn:B.
    + 
      destruct (IH (gs + value x) (g ++ [x])) as [k [Hk [E H]]].
      exists (S k).
      change (firstn (S k) (x :: rest)) with (x :: firstn k rest).
      cbn [sum_values fold_right]. fold (sum_values (firstn k rest)).
      rewrite <- app_assoc in E, H. cbn [app] in E, H.
      rewrite Z.add_assoc. split; [simpl; lia|]. split; [exact E|].
      destruct H as [H|[Hl H]]; [left; exact H|].
      right. split; [simpl; lia|]. intros [|j] Hj.
      * cbn [firstn sum_values fold_right]. rewrite app_nil_r, Z.add_0_r. exact B.
      * change (firstn (S j) (x :: rest)) with (x :: firstn j rest).
        cbn [sum_values fold_right]. fold (sum_values (firstn j rest)).
        specialize (H j ltac:(simpl in Hj; lia)).
        rewrite <- app_assoc in H. cbn [app] in H.
        rewrite Z.add_assoc. exact H.
    + exists O. cbn [firstn sum_values fold_right].
      rewrite app_nil_r, Z.add_0_r.
      split; [simpl; lia|]. split; [reflexivity|]. left. exact B.
Qed.

End GatherLoops.

Lemma below_prefix (feeRate sats inputCount outputCount : Z)
    (l : list unspent) (k : nat) :
  (k <= length l)%nat ->
  Selection.below feeRate sats inputCount outputCount
    (0 + sum_values (firstn k l)) ([] ++ firstn k l)
  = (sum_values (firstn k l) <? sats + fee_for feeRate inputCount outputCount k).
Proof.
  intros H. unfold Selection.below, fee_for. cbn [app].
  rewrite firstn_length_le by assumption. rewrite Z.add_0_l. reflexivity.
Qed.

Lemma positive_currency_nonneg (w : Wallet) (l : list unspent) :
  Permutation l (positive_currency w) -> Forall (fun x => 0 <= value x) l.
Proof.
  intros P. eapply Permutation_Forall; [symmetry; exact P|].
  apply Forall_forall. intros x Hx. unfold positive_currency in Hx.
  apply filter_In in Hx. destruct Hx as [_ Hx].
  apply Z.ltb_lt in Hx. lia.
Qed.

Lemma gatherCurrencyUnspentsAt_spec (feeRate : Z) (w : Wallet)
    (sats inputCount outputCount : Z) (rand : nat -> nat -> nat) :
  let U := positive_currency w in
  let fee := fee_for feeRate inputCount outputCount in
  let result :=
    gatherCurrencyUnspentsAt feeRate w sats inputCount outputCount false rand in
  (sum_values U < sats + reserve w ->
   result = Raise (TransactionFailure
                     "tx: must retain a reserve of currency to cover fees"))
  /\ (sats + reserve w <= sum_values U ->
      exists sel total,
        result = Ret (sel, total)
        /\ total = sum_values sel
        /\ (exists rest, Permutation (sel ++ rest) U)
        /\ ((exists S rest, Permutation (S ++ rest) U
                            /\ sats + fee (length S) <= sum_values S) ->
            sats + fee (length sel) <= total)
        /\ ((forall k, (k <= length U)%nat ->
               sum_values (firstn k (sorted_by_value U)) < sats + fee k) ->
            sel = firstn (length sel) (rev (sorted_by_value U))
            /\ (sats + fee (length sel) <= total
                \/ sel = rev (sorted_by_value U))
            /\ (forall S rest, Permutation (S ++ rest) U ->
                  length S = length sel -> sum_values S <= total))).
Proof.
  intros U fee result. subst result.
  unfold gatherCurrencyUnspentsAt. fold (positive_currency w). fold U.
  set (Srt := sorted_by_value U).
  assert (PS : Permutation Srt U) by apply sorted_by_value_perm.
  assert (PR : Permutation (rev Srt) U)
    by (rewrite <- PS; symmetry; apply Permutation_rev).
  rewrite (sum_values_perm _ _ PS).
  split.
  - intros H. destruct (Z.ltb_spec (sum_values U) (sats + reserve w)); [reflexivity | lia].
  - intros H. destruct (Z.ltb_spec (sum_values U) (sats + reserve w)); [lia|].
    destruct (gather_smallest_spec feeRate sats inputCount outputCount Srt 0 [])
      as [k [dust [Hk [E [Hnd Hd]]]]].
    rewrite E. cbn [bind].
    destruct dust.
    + (* the pool was exhausted: largest first over everything gathered *)
      specialize (Hd eq_refl). subst k.
      rewrite firstn_all. cbn [app].
      destruct (gather_largest_spec feeRate sats inputCount outputCount (rev Srt) 0 [])
        as [k2 [Hk2 [E2 H2]]].
      rewrite E2. cbn [app]. rewrite Z.add_0_l.
      assert (Hlen : length (firstn k2 (rev Srt)) = k2)
        by (apply firstn_length_le; assumption).
      assert (Hsorted : StronglySorted value_ge (rev Srt))
        by (apply rev_sorted_descending, sorted_by_value_sorted).
      assert (Hpos : Forall (fun x => 0 <= value x) (rev Srt))
        by (apply (positive_currency_nonneg w); exact PR).
      rewrite below_prefix in H2 by assumption.
      assert (Hall : forall j, (j <= length (rev Srt))%nat ->
                Selection.below feeRate sats inputCount outputCount
                  (0 + sum_values (firstn j (rev Srt))) ([] ++ firstn j (rev Srt)) = true ->
                sum_values (firstn j (rev Srt)) < sats + fee j).
      { intros j Hj Hb. rewrite below_prefix in Hb by assumption.
        apply Z.ltb_lt in Hb. exact Hb. }
      exists (firstn k2 (rev Srt)), (sum_values (firstn k2 (rev Srt))).
      split; [reflexivity|]. split; [reflexivity|]. split.
      { exists (skipn k2 (rev Srt)). rewrite firstn_skipn. exact PR. }
      rewrite Hlen. split.
      * intros [S [rest [P Hsuf]]].
        destruct H2 as [H2 | [_ H2]].
        -- apply Z.ltb_ge in H2. exact H2.
        -- exfalso.
           assert (P' : Permutation (S ++ rest) (rev Srt)) by (rewrite PR; exact P).
           pose proof (largest_prefix_maximal _ Hsorted Hpos _ _ P') as Hmax.
           assert (Hl : (length S <= length (rev Srt))%nat).
           { rewrite <- (Permutation_length P'), length_app. lia. }
           pose proof (Hall _ Hl (H2 _ Hl)). unfold fee in *. lia.
      * intros _. split; [reflexivity|]. split.
        -- destruct H2 as [H2 | [-> _]].
           ++ left. apply Z.ltb_ge in H2. exact H2.
           ++ right. apply firstn_all.
        -- intros S rest P HS.
           assert (P' : Permutation (S ++ rest) (rev Srt)) by (rewrite PR; exact P).
           pose proof (largest_prefix_maximal _ Hsorted Hpos _ _ P') as Hmax.
           rewrite HS in Hmax. exact Hmax.
    + (* the threshold was met by the smallest outputs *)
      specialize (Hnd eq_refl).
      rewrite below_prefix in Hnd by assumption. apply Z.ltb_ge in Hnd.
      cbn [app] in *. rewrite Z.add_0_l in *.
      assert (Hlen : length (firstn k Srt) = k)
        by (apply firstn_length_le; assumption).
      exists (firstn k Srt), (sum_values (firstn k Srt)).
      split; [reflexivity|]. split; [reflexivity|]. split.
      { exists (skipn k Srt). rewrite firstn_skipn. exact PS. }
      rewrite Hlen. split; [intros _; exact Hnd|].
      intros Hall. exfalso.
      assert (Ex : Selection.gather_smallest feeRate sats inputCount outputCount Srt 0 []
                   = ([] ++ Srt, 0 + sum_values Srt, true)).
      { apply gather_smallest_exhausts. intros j Hj.
        rewrite below_prefix by assumption. apply Z.ltb_lt.
        apply Hall. rewrite <- (Permutation_length PS). exact Hj. }
      rewrite Ex in E. discriminate.
Qed.

(** C4 (counterexample): a pool that covers the target and the fee, and
    no selection.  The wallet holds one output of 10,000,000 and keeps a
    reserve of 25,000,000 (the default, 0.25 coin); for the target
    1,000,000 the fee of one input and one output is 300,000, the pool
    covers 1,300,000, and the call raises the failure of the reserve
    check, because the pool is below target plus reserve. *)
Lemma C4_counterexample :
  sum_values (positive_currency (wallet_of [utxo 10000000] 25000000)) = 10000000
  /\ 1000000 + fee_for TxUtils.defaultFeeRate 0 1 1 = 1300000
  /\ _gatherCurrencyUnspents (wallet_of [utxo 10000000] 25000000)
       1000000 0 1 false (fun _ _ => O)
     = Raise (TransactionFailure
                "tx: must retain a reserve of currency to cover fees").
Proof. repeat split. Qed.

(** C4 (amended): currency selection with [randomly] false.  [U] is the
    set of positive-value currency outputs, [fee k] the fee re-evaluated
    for [k] selected inputs.
    - The call is total: it raises the TransactionFailure of the reserve
      check exactly when [sum U < sats + reserve], and otherwise returns a
      selection.
    - The selection is a sub-collection of [U], returned with its total.
    - If [U], or any sub-collection of it, covers [sats] plus its own fee,
      the returned total covers [sats] plus the fee of the selected count.
    - If smallest-first accumulation exhausts the pool (every ascending
      prefix is below its threshold), the result is the largest-first
      prefix: it meets its threshold or is the whole pool, and no
      sub-collection of the same size has a larger total. *)
Theorem C4_currency_selection (w : Wallet)
    (sats inputCount outputCount : Z) (rand : nat -> nat -> nat) :
  let U := positive_currency w in
  let fee := fee_for TxUtils.defaultFeeRate inputCount outputCount in
  let result := _gatherCurrencyUnspents w sats inputCount outputCount false rand in
  (result = Raise (TransactionFailure
                     "tx: must retain a reserve of currency to cover fees")
   <-> sum_values U < sats + reserve w)
  /\ (sats + reserve w <= sum_values U ->
      exists sel total,
        result = Ret (sel, total)
        /\ total = sum_values sel
        /\ (exists rest, Permutation (sel ++ rest) U)
        /\ (sats + fee (length U) <= sum_values U ->
            sats + fee (length sel) <= total)
        /\ ((exists S rest, Permutation (S ++ rest) U
                            /\ sats + fee (length S) <= sum_values S) ->
            sats + fee (length sel) <= total)
        /\ ((forall k, (k <= length U)%nat ->
               sum_values (firstn k (sorted_by_value U)) < sats + fee k) ->
            sel = firstn (length sel) (rev (sorted_by_value U))
            /\ (sats + fee (length sel) <= total
                \/ sel = rev (sorted_by_value U))
            /\ (forall S rest, Permutation (S ++ rest) U ->
                  length S = length sel -> sum_values S <= total))).
Proof.
  intros U fee result.
  destruct (gatherCurrencyUnspentsAt_spec TxUtils.defaultFeeRate w
              sats inputCount outputCount rand) as [HA HB].
  fold U in HA, HB. fold fee in HB.
  change (gatherCurrencyUnspentsAt TxUtils.defaultFeeRate w sats inputCount
            outputCount false rand) with result in HA, HB.
  split; [split|].
  - intros E. destruct (Z.lt_ge_cases (sum_values U) (sats + reserve w)) as [|Hge];
      [assumption|].
    destruct (HB Hge) as [sel [total [E' _]]]. congruence.
  - exact HA.
  - intros Hge. destruct (HB Hge) as [sel [total [E [Ht [Hsub [Hthr Hfb]]]]]].
    exists sel, total. repeat (split; [assumption|]).
    split; [|split; assumption].
    intros HU. apply Hthr. exists U, []. rewrite app_nil_r. split; [reflexivity | exact HU].
Qed.

Lemma C4_currency_selection_witness :
  exists sel total,
    _gatherCurrencyUnspents
      (wallet_of [utxo 700000; utxo 0; utxo 400000; utxo 900000] 100000)
      500000 0 1 false (fun _ _ => O) = Ret (sel, total)
    /\ total = sum_values sel
    /\ 500000 + fee_for TxUtils.defaultFeeRate 0 1 (length sel) <= total.
Proof.
  destruct (C4_currency_selection
              (wallet_of [utxo 700000; utxo 0; utxo 400000; utxo 900000] 100000)
              500000 0 1 (fun _ _ => O)) as [_ H].
  destruct (H ltac:(vm_compute; discriminate)) as [sel [total [E [Ht [_ [Hthr _]]]]]].
  exists sel, total. split; [exact E|]. split; [exact Ht|].
  apply Hthr. vm_compute. discriminate.
Defined.

(** C5 (counterexample): [_gatherCurrencyUnspents] evaluates
    [TxUtils.estimatedFee] at its default rate of 150000 per item, the
    selection has no fee-rate parameter.  For the outputs 500, 1000, 2000
    and the target 1200 no prefix reaches [1200 + 150000 * (k + 1)]: the
    ascending pass exhausts the pool and the fallback returns all three
    outputs, largest first, with total 3500, not the outputs 500 and 1000
    with total 1500. *)
Lemma C5_counterexample :
  _gatherCurrencyUnspents (wallet_of [utxo 500; utxo 1000; utxo 2000] 0)
    1200 0 1 false (fun _ _ => O)
  = Ret ([utxo 2000; utxo 1000; utxo 500], 3500)
  /\ _gatherCurrencyUnspents (wallet_of [utxo 500; utxo 1000; utxo 2000] 0)
       1200 0 1 false (fun _ _ => O)
     <> Ret ([utxo 500; utxo 1000], 1500).
Proof. split; [reflexivity | discriminate]. Qed.

(** C5 (amended): the selection loop evaluated at 100 per item picks the
    outputs 500 and 1000, total 1500 = 1200 + estimatedFee(2, 1, 100);
    [_gatherCurrencyUnspents], at the rate 150000 it always uses, returns
    all three outputs for these inputs, and shows the described pattern on
    the scenario scaled by 1500: outputs 750000, 1500000, 3000000 and
    target 1800000 give 750000 then 1500000, total 2250000 =
    1800000 + estimatedFee(2, 1). *)
Theorem C5_coin_selection_scenario :
  gatherCurrencyUnspentsAt 100 (wallet_of [utxo 500; utxo 1000; utxo 2000] 0)
    1200 0 1 false (fun _ _ => O)
  = Ret ([utxo 500; utxo 1000], 1500)
  /\ 1200 + TxUtils.estimatedFee 2 1 100 = 1500
  /\ _gatherCurrencyUnspents (wallet_of [utxo 500; utxo 1000; utxo 2000] 0)
       1200 0 1 false (fun _ _ => O)
     = Ret ([utxo 2000; utxo 1000; utxo 500], 3500)
  /\ _gatherCurrencyUnspents
       (wallet_of [utxo 750000; utxo 1500000; utxo 3000000] 0)
       1800000 0 1 false (fun _ _ => O)
     = Ret ([utxo 750000; utxo 1500000], 2250000)
  /\ 1800000 + TxUtils.estimatedFee 2 1 TxUtils.defaultFeeRate = 2250000.
Proof. repeat split. Qed.

(** ** Memo outputs *)

(** C8 (counterexample): what [_compileMemoOutput] does with memos out
    of range.
    - A memo of four bytes is outside the accepted lengths; the function
      returns [None] for it and raises nothing, so an out-of-range memo
      is not an error condition of the builder.
    - The length is taken in characters, [len(memo)] of the text, while
      the output holds [memo.encode()]: a memo of 40 characters U+00E9 is
      80 bytes long and is emitted, with all its 80 bytes. *)
Lemma C8_counterexample :
  _compileMemoOutput (Some (lit "abcd")) = Ret None
  /\ length (encode_utf8 (repeat (ascii_of_N 233) 40)) = 80%nat
  /\ _compileMemoOutput (Some (repeat (ascii_of_N 233) 40))
     = Ret (Some {| nValue := 0;
                    scriptPubKey :=
                      [Op OP_RETURN;
                       Data (encode_utf8 (repeat (ascii_of_N 233) 40))] |}).
Proof. repeat split. Qed.

Lemma encode_utf8_ascii_length (m : pystr) :
  Forall is_ascii m -> length (encode_utf8 m) = length m.
Proof.
  intros H. rewrite (encode_utf8_ascii m H). apply length_map.
Qed.

(** C8 (amended): for a memo of ASCII text, [_compileMemoOutput] emits
    the null-data output [OP_RETURN <memo bytes>], with value 0, exactly
    when the length of the memo in bytes is above 4 and below 80; for
    such a memo of any other length, the empty one included, and for no
    memo it returns [None].  Whatever the memo, an output that is
    emitted holds all the bytes of the memo, and the function never
    raises. *)
Theorem C8_memo_output (memo : option pystr) :
  (forall m, memo = Some m -> Forall is_ascii m ->
     (4 < length (encode_utf8 m) < 80)%nat ->
     _compileMemoOutput memo
     = Ret (Some {| nValue := 0;
                    scriptPubKey := [Op OP_RETURN; Data (encode_utf8 m)] |}))
  /\ (forall m, memo = Some m -> Forall is_ascii m ->
        (length (encode_utf8 m) <= 4 \/ 80 <= length (encode_utf8 m))%nat ->
        _compileMemoOutput memo = Ret None)
  /\ (memo = None \/ memo = Some [] -> _compileMemoOutput memo = Ret None)
  /\ (forall out, _compileMemoOutput memo = Ret (Some out) ->
        exists m,
          memo = Some m
          /\ out = {| nValue := 0;
                      scriptPubKey := [Op OP_RETURN; Data (encode_utf8 m)] |}
          /\ (Forall is_ascii m -> (4 < length (encode_utf8 m) < 80)%nat))
  /\ (forall e, _compileMemoOutput memo <> Raise e).
Proof.
  repeat apply conj.
  - intros m -> Ha H. rewrite (encode_utf8_ascii_length m Ha) in H.
    unfold _compileMemoOutput.
    destruct m as [|c r]; [simpl in H; lia|]. cbn [str_eqb list_eqb negb andb].
    destruct (Nat.ltb_spec 4 (length (c :: r))); [|lia].
    destruct (Nat.ltb_spec (length (c :: r)) 80); [|lia]. reflexivity.
  - intros m -> Ha H. rewrite (encode_utf8_ascii_length m Ha) in H.
    unfold _compileMemoOutput.
    destruct (negb (str_eqb m [])); [|reflexivity]. cbn [andb].
    destruct (Nat.ltb_spec 4 (length m)); [|reflexivity].
    destruct (Nat.ltb_spec (length m) 80); [lia | reflexivity].
  - intros [-> | ->]; reflexivity.
  - intros out H. destruct memo as [m|]; [|discriminate]. exists m.
    split; [reflexivity|]. unfold _compileMemoOutput in H.
    destruct (negb (str_eqb m [])); [|discriminate]. cbn [andb] in H.
    destruct (Nat.ltb_spec 4 (length m)); [|discriminate].
    destruct (Nat.ltb_spec (length m) 80); [|discriminate].
    injection H as <-. split; [reflexivity|].
    intros Ha. rewrite (encode_utf8_ascii_length m Ha). lia.
  - intros e H. destruct memo as [m|]; [|discriminate].
    unfold _compileMemoOutput in H.
    destruct (negb (str_eqb m []) && (4 <? length m)%nat && (length m <? 80)%nat);
      discriminate.
Qed.

Lemma C8_memo_output_witness :
  _compileMemoOutput (Some (lit "ethereum:0xabc"))
  = Ret (Some {| nValue := 0;
                 scriptPubKey :=
                   [Op OP_RETURN; Data (encode_utf8 (lit "ethereum:0xabc"))] |}).
Proof.
  apply (proj1 (C8_memo_output (Some (lit "ethereum:0xabc"))) _ eq_refl).
  - repeat constructor.
  - simpl. lia.
Defined.

(** ** Signing leaves the outputs alone *)

Lemma set_scriptSig_vout (i : nat) (s : CScript) (tx : CMutableTransaction) :
  vout (set_scriptSig i s tx) = vout tx.
Proof. unfold set_scriptSig. destruct (nth_error (vin tx) i); reflexivity. Qed.

Lemma _signInput_vout (C : Collaborators) (i : nat) (script : CScript)
    (flag : Z) (redeem : option CScript) (sigs : option (list bytes))
    (tx : CMutableTransaction) :
  vout (fst (_signInput C i script flag redeem sigs tx)) = vout tx.
Proof.
  unfold _signInput.
  match goal with
  | |- context [VerifyScript C ?a ?b ?c ?d] => destruct (VerifyScript C a b c d) as [u|e]
  end.
  - apply set_scriptSig_vout.
  - destruct e; try apply set_scriptSig_vout.
    destruct (String.eqb msg _); apply set_scriptSig_vout.
Qed.

Lemma sign_inputs_vout (C : Collaborators) (flag : Z) (count : nat) :
  forall i scripts tx,
    vout (fst (sign_inputs C flag i count scripts tx)) = vout tx.
Proof.
  induction count as [|count IH]; intros i scripts tx; [reflexivity|].
  destruct scripts as [|s rest]; [reflexivity|].
  cbn [sign_inputs].
  pose proof (_signInput_vout C i s flag None None tx) as H.
  destruct (_signInput C i s flag None None tx) as [tx1 [u|e]]; cbn [fst] in *.
  - rewrite IH. exact H.
  - exact H.
Qed.

Lemma _createPartialOriginatorSimple_vout (C : Collaborators)
    (txins : list CMutableTxIn) (scripts : list CScript) (txouts : list CMutableTxOut) :
  vout (fst (_createPartialOriginatorSimple C txins scripts txouts)) = txouts.
Proof. unfold _createPartialOriginatorSimple. apply sign_inputs_vout. Qed.

(** ** Outpoints *)

(** An outpoint is built only as the record of its two arguments. *)
Lemma COutPoint_lx_ret (tx_hash : pystr) (i : Z) (o : COutPoint) :
  COutPoint_lx tx_hash i = Ret o -> o = {| hash := tx_hash; n := i |}.
Proof.
  unfold COutPoint_lx. destruct (lx tx_hash) as [h|e]; cbn [bind]; [|discriminate].
  destruct (negb (Nat.eqb (length h) 32)); [discriminate|].
  destruct (negb ((0 <=? i) && (i <=? 4294967295))); [discriminate|].
  intros [= <-]. reflexivity.
Qed.

(** An input is built only as [new_txin] says. *)
Lemma txin_of_ret (u : unspent) (t : CMutableTxIn) :
  txin_of u = Ret t -> t = new_txin u.
Proof.
  unfold txin_of, new_txin.
  destruct (COutPoint_lx (tx_hash u) (tx_pos u)) as [o|e] eqn:E;
    cbn [bind]; [|discriminate].
  apply COutPoint_lx_ret in E. subst o. intros [= <-]. reflexivity.
Qed.

Lemma hex_value_ascii (c : ascii) :
  hex_value c <> None -> is_ascii c.
Proof.
  unfold hex_value, is_ascii. intros H.
  destruct (N.leb_spec 48 (N_of_ascii c)); cbn [andb] in H.
  - destruct (N.leb_spec (N_of_ascii c) 57); [lia|].
    destruct (N.leb_spec 97 (N_of_ascii c)); cbn [andb] in H.
    + destruct (N.leb_spec (N_of_ascii c) 102); [lia|].
      destruct (N.leb_spec 65 (N_of_ascii c)); cbn [andb] in H; [|congruence].
      destruct (N.leb_spec (N_of_ascii c) 70); [lia | congruence].
    + destruct (N.leb_spec 65 (N_of_ascii c)); cbn [andb] in H; [|congruence].
      destruct (N.leb_spec (N_of_ascii c) 70); [lia | congruence].
  - destruct (N.leb_spec 97 (N_of_ascii c)); [lia|]. cbn [andb] in H.
    destruct (N.leb_spec 65 (N_of_ascii c)); [lia|]. cbn [andb] in H. congruence.
Qed.

Lemma unhexlify_digits_length (k : nat) :
  forall s,
    length s = (2 * k)%nat -> Forall (fun c => hex_value c <> None) s ->
    exists b, unhexlify_digits s = Ret b /\ length b = k.
Proof.
  induction k as [|k IH]; intros s Hl Hs.
  - destruct s; [|discriminate]. exists []. split; reflexivity.
  - destruct s as [|c [|d r]]; try (cbn in Hl; lia).
    inversion Hs as [|? ? Hc Hs']; subst. inversion Hs' as [|? ? Hd Hr]; subst.
    cbn [unhexlify_digits].
    destruct (hex_value c) as [h|]; [|congruence].
    destruct (hex_value d) as [l|]; [|congruence].
    destruct (IH r) as (b & -> & Hb); [cbn in Hl; lia | exact Hr |].
    cbn [bind]. eexists. split; [reflexivity|]. cbn [length]. lia.
Qed.

Lemma COutPoint_lx_hex (tx_hash : pystr) (i : Z) :
  length tx_hash = 64%nat ->
  Forall (fun c => hex_value c <> None) tx_hash ->
  0 <= i <= 4294967295 ->
  COutPoint_lx tx_hash i = Ret {| hash := tx_hash; n := i |}.
Proof.
  intros Hl Hs Hp. unfold COutPoint_lx, lx, unhexlify.
  assert (Ha : Forall is_ascii tx_hash).
  { eapply Forall_impl; [|exact Hs]. intros c. apply hex_value_ascii. }
  rewrite (encode_utf8_ascii _ Ha), map_map.
  rewrite (map_ext (fun x => ascii_of_byte (byte_of_ascii x)) (fun x => x))
    by (intros c; apply ascii_of_byte_of_ascii).
  rewrite map_id, Hl. cbn [Nat.odd Nat.even negb].
  destruct (unhexlify_digits_length 32 tx_hash Hl Hs) as (b & -> & Hb).
  cbn [bind]. rewrite length_rev, Hb. cbn [Nat.eqb negb].
  destruct (Z.leb_spec 0 i); [|lia].
  destruct (Z.leb_spec i 4294967295); [|lia]. reflexivity.
Qed.
Lemma unhexlify_digits_ret (b : bytes) :
  forall s,
    Nat.odd (length s) = false -> unhexlify_digits s = Ret b ->
    length s = (2 * length b)%nat /\ Forall (fun c => hex_value c <> None) s.
Proof.
  induction b as [|x b IH]; intros s Ho H.
  - destruct s as [|c [|d r]]; [split; [reflexivity | constructor] | discriminate |].
    cbn [unhexlify_digits] in H.
    destruct (hex_value c); [|discriminate].
    destruct (hex_value d); [|discriminate].
    destruct (unhexlify_digits r); discriminate.
  - destruct s as [|c [|d r]]; [discriminate | discriminate |].
    cbn [unhexlify_digits] in H.
    destruct (hex_value c) as [h|] eqn:Ec; [|discriminate].
    destruct (hex_value d) as [l|] eqn:Ed; [|discriminate].
    destruct (unhexlify_digits r) as [rest|e] eqn:Er; cbn [bind] in H;
      [|discriminate].
    injection H as _ ->.
    destruct (IH r) as [Hl Hr]; [exact Ho | exact Er |].
    split; [cbn [length]; lia|].
    constructor; [congruence|]. constructor; [congruence | exact Hr].
Qed.

Lemma N_of_ascii_of_byte (b : byte) : N_of_ascii (ascii_of_byte b) = Byte.to_N b.
Proof. destruct b; reflexivity. Qed.

Lemma utf8_hex_ascii (h : pystr) :
  Forall (fun c => hex_value c <> None) (map ascii_of_byte (encode_utf8 h)) ->
  Forall is_ascii h.
Proof.
  induction h as [|c h IH]; intros H; [constructor|].
  unfold encode_utf8 in H. cbn [flat_map] in H. fold (encode_utf8 h) in H.
  rewrite map_app in H. apply Forall_app in H. destruct H as [Hc Hh].
  constructor; [|apply IH; exact Hh].
  unfold is_ascii. unfold utf8_char in Hc.
  destruct (N.ltb_spec (N_of_ascii c) 128) as [|Hge]; [assumption|].
  exfalso. cbn [map] in Hc. apply Forall_inv in Hc. apply Hc.
  pose proof (N_of_ascii_lt c) as Hlt.
  assert (Hs : (N.shiftr (N_of_ascii c) 6 < 4)%N).
  { rewrite N.shiftr_div_pow2. apply N.Div0.div_lt_upper_bound. cbn. lia. }
  set (q := N.shiftr (N_of_ascii c) 6) in *. clearbody q.
  unfold hex_value. rewrite N_of_ascii_of_byte.
  destruct q as [|[[|[]|]|[|[]|]|]]; try lia; reflexivity.
Qed.

(** The outpoints that can be built: a transaction id of 64 hexadecimal
    digits and an index in [0, 0xffffffff]. *)
Lemma COutPoint_lx_iff (tx_hash : pystr) (i : Z) :
  COutPoint_lx tx_hash i = Ret {| hash := tx_hash; n := i |}
  <-> length tx_hash = 64%nat
      /\ Forall (fun c => hex_value c <> None) tx_hash
      /\ 0 <= i <= 4294967295.
Proof.
  split.
  - unfold COutPoint_lx, lx, unhexlify. cbv zeta.
    destruct (Nat.odd (length (map ascii_of_byte (encode_utf8 tx_hash))))
      eqn:Eo; [discriminate|].
    destruct (unhexlify_digits (map ascii_of_byte (encode_utf8 tx_hash)))
      as [b|e] eqn:Eb; cbn [bind]; [|discriminate].
    rewrite length_rev.
    destruct (Nat.eqb_spec (length b) 32) as [Hb|]; cbn [negb]; [|discriminate].
    destruct (Z.leb_spec 0 i); cbn [andb negb]; [|discriminate].
    destruct (Z.leb_spec i 4294967295); cbn [negb]; [|discriminate].
    intros _.
    destruct (unhexlify_digits_ret b _ Eo Eb) as [Hl Hs].
    pose proof (utf8_hex_ascii _ Hs) as Ha.
    rewrite (encode_utf8_ascii _ Ha), map_map in Hl, Hs.
    rewrite (map_ext (fun x => ascii_of_byte (byte_of_ascii x)) (fun x => x)) in Hl, Hs
      by (intros c; apply ascii_of_byte_of_ascii).
    rewrite map_id in Hl, Hs. rewrite Hb in Hl.
    split; [exact Hl|]. split; [exact Hs | lia].
  - intros (Hl & Hs & Hp). apply COutPoint_lx_hex; assumption.
Qed.

Lemma outpoint_ok_iff (u : unspent) :
  outpoint_ok u
  <-> length (tx_hash u) = 64%nat
      /\ Forall (fun c => hex_value c <> None) (tx_hash u)
      /\ 0 <= tx_pos u <= 4294967295.
Proof.
  rewrite <- COutPoint_lx_iff. unfold outpoint_ok, txin_of, new_txin. split.
  - destruct (COutPoint_lx (tx_hash u) (tx_pos u)) as [o|e] eqn:E;
      cbn [bind]; [|discriminate].
    intros [= ->]. reflexivity.
  - intros ->. reflexivity.
Qed.

(** ** Channel commitments *)

(** The signing of a draft with one input by its originator. *)
Lemma _createPartialOriginatorSimple_one (C : Collaborators) (txin : CMutableTxIn)
    (script : CScript) (txouts : list CMutableTxOut) :
  let flag := Z.lor SIGHASH_ANYONECANPAY SIGHASH_ALL in
  let draft := {| vin := [txin]; vout := txouts |} in
  let unlocking := [Data (signature C script draft 0 flag);
                    Data (privateKey_pub C)] in
  let signed := {| vin := [ {| prevout := prevout txin;
                               scriptSig := unlocking |} ];
                   vout := txouts |} in
  exists outcome,
    _createPartialOriginatorSimple C [txin] [script] txouts = (signed, outcome)
    /\ (VerifyScript C unlocking script signed 0 = Ret tt -> outcome = Ret tt)
    /\ (forall e, outcome = Raise e ->
          exists e', VerifyScript C unlocking script signed 0 = Raise e').
Proof.
  intros flag draft unlocking signed.
  unfold _createPartialOriginatorSimple. cbn [length sign_inputs].
  fold draft. unfold _signInput. cbn [truthy_script]. fold flag. fold unlocking.
  assert (Es : set_scriptSig 0 unlocking draft = signed) by reflexivity.
  rewrite Es.
  destruct (VerifyScript C unlocking script signed 0) as [[]|e] eqn:V.
  - exists (Ret tt). repeat split. intros e He. discriminate.
  - destruct e;
      try (eexists; split; [reflexivity|];
           split; [discriminate | intros e' _; eexists; reflexivity]).
    destruct (String.eqb msg _).
    + exists (Ret tt). split; [reflexivity|]. split; [reflexivity|].
      intros e' He'. discriminate.
    + eexists. split; [reflexivity|].
      split; [discriminate | intros e' _; eexists; reflexivity].
Qed.

Section Commitment.

Variable C : Collaborators.
Variables (funding_txid : pystr) (vout_index : Z) (redeem_script : CScript)
          (receiver_addr : pystr) (receiver_script : CScript).

Hypothesis receiver_ok : address_to_scriptPubKey C receiver_addr = Ret receiver_script.
Hypothesis funding_outpoint :
  COutPoint_lx funding_txid vout_index
  = Ret {| hash := funding_txid; n := vout_index |}.

Local Abbreviation commitmentSigned :=
(commitmentSigned C funding_txid vout_index redeem_script).
Local Abbreviation toReceiver := (toReceiver receiver_script).
Local Abbreviation toChannel := (toChannel C redeem_script).

Lemma commitmentTx_cases (funding pay fee mult : Z) (respect : bool) :
  0 < fee -> 0 < pay <= funding ->
  let remainder := funding - pay in
  let dust := fee * 3 * mult in
  let result := commitmentTx C funding_txid vout_index funding redeem_script
                  pay receiver_addr fee mult respect in
  (remainder = 0 \/ remainder < dust ->
     (0 < remainder /\ respect = true ->
        result = Raise (ValueError "In Dust Zone."))
     /\ (~ (0 < remainder /\ respect = true) ->
          (0 < funding - 2 * fee ->
             result = Ret (commitmentSigned [toReceiver (funding - 2 * fee)]))
          /\ (funding - 2 * fee <= 0 ->
                exists msg, result = Raise (ValueError msg))))
  /\ (~ (remainder = 0 \/ remainder < dust) ->
        (0 < remainder - 3 * fee ->
           result = Ret (commitmentSigned
                           [toReceiver pay; toChannel (remainder - 3 * fee)]))
        /\ (remainder - 3 * fee <= 0 ->
              exists msg, result = Raise (ValueError msg))).
Proof.
  intros Hfee Hpay remainder dust result. subst result.
  unfold commitmentTx. fold remainder. fold dust.
  destruct (Z.leb_spec fee 0); [lia|].
  destruct (Z.ltb_spec 0 pay); [|lia].
  destruct (Z.leb_spec pay funding); [|lia].
  cbn [andb negb]. rewrite funding_outpoint. cbn [bind]. rewrite receiver_ok.
  split.
  - intros Hd.
    assert (Ed : (remainder =? 0) || (remainder <? dust) = true).
    { apply orb_true_iff. destruct Hd; [left; lia | right; lia]. }
    rewrite Ed. split.
    + intros [Hr ->]. destruct (Z.ltb_spec 0 remainder); [|lia]. reflexivity.
    + intros Hn.
      assert (En : (0 <? remainder) && respect = false).
      { destruct (Z.ltb_spec 0 remainder); destruct respect; try reflexivity.
        exfalso. apply Hn. split; [assumption | reflexivity]. }
      rewrite En. split.
      * intros Hp. destruct (Z.leb_spec (funding - fee * 2) 0); [lia|].
        cbn [bind]. unfold commitmentSigned, toReceiver.
        replace (funding - fee * 2) with (funding - 2 * fee) by lia.
        reflexivity.
      * intros Hp. destruct (Z.leb_spec (funding - fee * 2) 0); [|lia].
        eexists. reflexivity.
  - intros Hd.
    assert (Ed : (remainder =? 0) || (remainder <? dust) = false).
    { apply orb_false_iff. split; [apply Z.eqb_neq | apply Z.ltb_ge]; lia. }
    rewrite Ed. cbn [bind]. split.
    + intros Hp. destruct (Z.leb_spec (remainder - fee * 3) 0); [lia|].
      cbn [bind].
      unfold commitmentSigned, toReceiver, toChannel.
      replace (remainder - fee * 3) with (remainder - 3 * fee) by lia.
      reflexivity.
    + intros Hp. destruct (Z.leb_spec (remainder - fee * 3) 0); [|lia].
      eexists. reflexivity.
Qed.

Hypothesis verifies : commitment_verifies C funding_txid vout_index redeem_script.

(** With the verification passing, the signed draft is the commitment
    and the call returns its serialization. *)
Lemma commitmentSigned_hex (txouts : list CMutableTxOut) :
  commitmentSigned txouts
  = (commitment C funding_txid vout_index redeem_script txouts, Ret tt)
  /\ signed_hex C (commitmentSigned txouts)
     = Ret (tx_to_hex C
              (commitment C funding_txid vout_index redeem_script txouts)).
Proof.
  unfold commitmentSigned.
  destruct (_createPartialOriginatorSimple_one C
              {| prevout := {| hash := funding_txid; n := vout_index |};
                 scriptSig := [] |}
              (p2sh_scriptPubKey C redeem_script) txouts)
    as (outcome & E & Hok & _).
  cbv zeta in E, Hok. cbn [prevout] in E, Hok.
  rewrite E.
  assert (Ho : outcome = Ret tt) by (apply Hok; apply verifies).
  rewrite Ho. split; reflexivity.
Qed.

End Commitment.

(** C6 (counterexample): with a remainder of exactly three fees and
    [dust_threshold_multiple = 1] the remainder is not below the dust
    threshold, so the two-output branch is taken; its guard
    [change_amount <= 0] then raises instead of producing the two outputs
    of the claim (1,000,000 to the receiver and 0 to the channel).  In the
    single-output branch the guard [actual_receiver_amount <= 0] raises
    likewise when two fees exceed the funding value. *)
Lemma C6_counterexample :
  generateCommitmentTx (toyCollaborators emptyTx) (txid "aa") 0 1003000 [Int 1]
    1000000 (lit "receiver") 1000 1 true
  = Raise (ValueError "Fee (3000 sats) exceeds remainder (3000 sats)")
  /\ ~ (1003000 - 1000000 = 0 \/ 1003000 - 1000000 < 1000 * 3 * 1)
  /\ generateCommitmentTx (toyCollaborators emptyTx) (txid "aa") 0 20000 [Int 1]
       20000 (lit "receiver") 12000 3 true
     = Raise (ValueError "Fee (24000 sats) exceeds available funds (20000 sats)").
Proof. split; [reflexivity|]. split; [lia | reflexivity]. Qed.

(** C6 (amended): for a call of [generateCommitmentTx] that passes the
    argument checks ([tx_fee_sats > 0],
    [0 < pay_to_receiver_sats <= funding_value]), whose funding outpoint
    can be built, whose receiver address converts to a script and on
    which the local verification accepts the signature, with
    [remainder = funding_value - pay_to_receiver_sats] and
    [dust = tx_fee_sats * 3 * dust_threshold_multiple]:
    - if [remainder = 0] or [remainder < dust]: when [remainder > 0] and
      [respect_dust_zone] the call raises "In Dust Zone."; otherwise, if
      [funding_value - 2 * tx_fee_sats > 0], it returns the serialization
      of the signed transaction whose single output pays the receiver
      that amount, and if it is not positive the call raises;
    - else, if [remainder - 3 * tx_fee_sats > 0], it returns the
      serialization of the signed transaction with exactly two outputs,
      [pay_to_receiver_sats] to the receiver and
      [remainder - 3 * tx_fee_sats] to the channel's P2SH script, and if
      it is not positive the call raises.
    In particular 1,000,000 / 500,000 / 1,000 / 1 gives 500,000 to the
    receiver and 497,000 to the channel. *)
Theorem C6_commitment_outputs (C : Collaborators)
    (funding_txid : pystr) (vout_index : Z) (redeem_script : CScript)
    (receiver_addr : pystr) (receiver_script : CScript)
    (funding pay fee mult : Z) (respect : bool) :
  address_to_scriptPubKey C receiver_addr = Ret receiver_script ->
  COutPoint_lx funding_txid vout_index
  = Ret {| hash := funding_txid; n := vout_index |} ->
  commitment_verifies C funding_txid vout_index redeem_script ->
  0 < fee -> 0 < pay <= funding ->
  let remainder := funding - pay in
  let dust := fee * 3 * mult in
  let result := generateCommitmentTx C funding_txid vout_index funding
                  redeem_script pay receiver_addr fee mult respect in
  let signed := commitment C funding_txid vout_index redeem_script in
  let receiver := toReceiver receiver_script in
  let channel := toChannel C redeem_script in
  (remainder = 0 \/ remainder < dust ->
     (0 < remainder /\ respect = true ->
        result = Raise (ValueError "In Dust Zone."))
     /\ (~ (0 < remainder /\ respect = true) ->
          (0 < funding - 2 * fee ->
             result = Ret (tx_to_hex C (signed [receiver (funding - 2 * fee)]))
             /\ vout (signed [receiver (funding - 2 * fee)])
                = [receiver (funding - 2 * fee)])
          /\ (funding - 2 * fee <= 0 ->
                exists msg, result = Raise (ValueError msg))))
  /\ (~ (remainder = 0 \/ remainder < dust) ->
        (0 < remainder - 3 * fee ->
           result
           = Ret (tx_to_hex C (signed [receiver pay; channel (remainder - 3 * fee)]))
           /\ vout (signed [receiver pay; channel (remainder - 3 * fee)])
              = [receiver pay; channel (remainder - 3 * fee)])
        /\ (remainder - 3 * fee <= 0 ->
              exists msg, result = Raise (ValueError msg)))
  /\ (funding = 1000000 -> pay = 500000 -> fee = 1000 -> mult = 1 ->
        result = Ret (tx_to_hex C (signed [receiver 500000; channel 497000]))).
Proof.
  intros Hrecv Hout Hver Hfee Hpay remainder dust result signed receiver channel.
  destruct (commitmentTx_cases C funding_txid vout_index redeem_script
              receiver_addr receiver_script Hrecv Hout funding pay fee mult
              respect Hfee Hpay) as [H1 H2].
  fold remainder in H1, H2. fold dust in H1, H2.
  assert (Hhex : forall txouts,
             commitmentTx C funding_txid vout_index funding redeem_script
               pay receiver_addr fee mult respect
             = Ret (commitmentSigned C funding_txid vout_index redeem_script
                      txouts) ->
             result = Ret (tx_to_hex C (signed txouts))).
  { intros txouts E. unfold result, generateCommitmentTx. rewrite E. cbn [bind].
    apply (commitmentSigned_hex C funding_txid vout_index redeem_script Hver). }
  assert (Hraise : forall e,
             commitmentTx C funding_txid vout_index funding redeem_script
               pay receiver_addr fee mult respect = Raise e ->
             result = Raise e).
  { intros e E. unfold result, generateCommitmentTx. rewrite E. reflexivity. }
  split; [|split].
  - intros Hd. destruct (H1 Hd) as [Ha Hb]. split.
    + intros Hr. apply Hraise. apply Ha. exact Hr.
    + intros Hn. destruct (Hb Hn) as [Hc Hdd]. split.
      * intros Hp. split; [apply Hhex; apply Hc; exact Hp | reflexivity].
      * intros Hp. destruct (Hdd Hp) as [msg E]. exists msg.
        apply Hraise. exact E.
  - intros Hd. destruct (H2 Hd) as [Ha Hb]. split.
    + intros Hp. split; [apply Hhex; apply Ha; exact Hp | reflexivity].
    + intros Hp. destruct (Hb Hp) as [msg E]. exists msg. apply Hraise. exact E.
  - intros -> -> -> ->.
    assert (Hd : ~ (remainder = 0 \/ remainder < dust))
      by (unfold remainder, dust; lia).
    destruct (H2 Hd) as [Ha _].
    apply Hhex. apply Ha. unfold remainder. lia.
Qed.

Lemma C6_commitment_outputs_witness :
  generateCommitmentTx (toyCollaborators emptyTx) (txid "aa") 0 1000000 [Int 1]
    500000 (lit "receiver") 1000 1 true
  = Ret (tx_to_hex (toyCollaborators emptyTx)
           (commitment (toyCollaborators emptyTx) (txid "aa") 0 [Int 1]
              [ toReceiver [Op OP_DUP; Op OP_HASH160;
                            Data (map byte_of_ascii (lit "receiver"));
                            Op OP_EQUALVERIFY; Op OP_CHECKSIG] 500000;
                toChannel (toyCollaborators emptyTx) [Int 1] 497000 ])).
Proof.
  refine (proj2 (proj2 (C6_commitment_outputs (toyCollaborators emptyTx)
            (txid "aa") 0 [Int 1] (lit "receiver") _
            1000000 500000 1000 1 true eq_refl eq_refl _ _ _))
            eq_refl eq_refl eq_refl eq_refl);
    [intros txouts; reflexivity | lia | lia].
Defined.

(** ** The order of byte strings and [sort_bytes] *)

Lemma to_N_inj (x y : byte) : Byte.to_N x = Byte.to_N y -> x = y.
Proof.
  intros H. apply (f_equal Byte.of_N) in H.
  rewrite !Byte.of_to_N in H. congruence.
Qed.

Lemma bytes_leb_total (a b : bytes) : bytes_leb a b = true \/ bytes_leb b a = true.
Proof.
  revert b. induction a as [|x a IH]; intros b; [left; reflexivity|].
  destruct b as [|y b]; [right; reflexivity|]. simpl.
  destruct (N.ltb_spec (Byte.to_N x) (Byte.to_N y));
    destruct (N.ltb_spec (Byte.to_N y) (Byte.to_N x)); auto; lia.
Qed.

Lemma bytes_leb_antisym (a b : bytes) :
  bytes_leb a b = true -> bytes_leb b a = true -> a = b.
Proof.
  revert b. induction a as [|x a IH]; intros [|y b]; simpl; try discriminate;
    [reflexivity|].
  destruct (N.ltb_spec (Byte.to_N x) (Byte.to_N y));
    destruct (N.ltb_spec (Byte.to_N y) (Byte.to_N x)); try discriminate; try lia.
  intros H1 H2. f_equal; [apply to_N_inj; lia | apply IH; assumption].
Qed.

Lemma bytes_leb_trans (a b c : bytes) :
  bytes_leb a b = true -> bytes_leb b c = true -> bytes_leb a c = true.
Proof.
  revert b c. induction a as [|x a IH]; intros [|y b] [|z c]; simpl;
    try discriminate; try reflexivity.
  destruct (N.ltb_spec (Byte.to_N x) (Byte.to_N y));
    destruct (N.ltb_spec (Byte.to_N y) (Byte.to_N x));
    destruct (N.ltb_spec (Byte.to_N y) (Byte.to_N z));
    destruct (N.ltb_spec (Byte.to_N z) (Byte.to_N y));
    destruct (N.ltb_spec (Byte.to_N x) (Byte.to_N z));
    destruct (N.ltb_spec (Byte.to_N z) (Byte.to_N x));
    try discriminate; try reflexivity; try lia.
  apply IH.
Qed.

Lemma insert_bytes_perm (x : bytes) (l : list bytes) :
  Permutation (insert_bytes x l) (x :: l).
Proof.
  induction l as [|y r IH]; simpl; [reflexivity|].
  destruct (bytes_leb x y); [reflexivity|].
  rewrite IH. apply perm_swap.
Qed.

Lemma sort_bytes_perm (l : list bytes) : Permutation (sort_bytes l) l.
Proof.
  induction l as [|x l IH]; simpl; [reflexivity|].
  rewrite insert_bytes_perm. constructor. exact IH.
Qed.

Lemma insert_bytes_sorted (x : bytes) (l : list bytes) :
  StronglySorted bytes_le l -> StronglySorted bytes_le (insert_bytes x l).
Proof.
  intros H. induction H as [|y r Hr IH Hy]; simpl.
  - repeat constructor.
  - destruct (bytes_leb x y) eqn:E.
    + constructor; [constructor; assumption|].
      constructor; [exact E|].
      eapply Forall_impl; [|exact Hy].
      intros z Hz. unfold bytes_le in *. eapply bytes_leb_trans; eassumption.
    + constructor; [exact IH|].
      eapply Permutation_Forall; [symmetry; apply insert_bytes_perm|].
      constructor; [|exact Hy].
      destruct (bytes_leb_total x y) as [H|H]; [congruence | exact H].
Qed.

Lemma sort_bytes_sorted (l : list bytes) : StronglySorted bytes_le (sort_bytes l).
Proof.
  induction l as [|x l IH]; simpl; [constructor|].
  apply insert_bytes_sorted, IH.
Qed.

(** A sorted list is determined by its elements. *)
Lemma sorted_bytes_unique (l1 l2 : list bytes) :
  StronglySorted bytes_le l1 -> StronglySorted bytes_le l2 ->
  Permutation l1 l2 -> l1 = l2.
Proof.
  intros H1. revert l2. induction H1 as [|a r1 Hr1 IH Ha]; intros l2 H2 P.
  - apply Permutation_nil in P. congruence.
  - destruct l2 as [|b r2].
    + apply Permutation_sym, Permutation_nil in P. discriminate.
    + inversion H2 as [|? ? Hr2 Hb]; subst.
      assert (Hab : a = b).
      { assert (Ia : In a (b :: r2))
          by (eapply Permutation_in; [exact P | left; reflexivity]).
        assert (Ib : In b (a :: r1))
          by (eapply Permutation_in; [symmetry; exact P | left; reflexivity]).
        destruct Ia as [->|Ia]; [reflexivity|].
        destruct Ib as [->|Ib]; [reflexivity|].
        rewrite Forall_forall in Ha, Hb.
        apply bytes_leb_antisym; [apply Ha | apply Hb]; assumption. }
      subst b. f_equal. apply IH; [assumption|].
      eapply Permutation_cons_inv. exact P.
Qed.

Lemma sort_bytes_canonical (l1 l2 : list bytes) :
  Permutation l1 l2 -> sort_bytes l1 = sort_bytes l2.
Proof.
  intros P. apply sorted_bytes_unique; try apply sort_bytes_sorted.
  rewrite !sort_bytes_perm. exact P.
Qed.

(** ** Signing a P2SH input with co-signer signatures *)

Lemma nth_error_update_nth {A : Type} (l : list A) (i : nat) (a x : A) :
  nth_error l i = Some a -> nth_error (update_nth i x l) i = Some x.
Proof.
  revert i. induction l as [|b l IH]; intros [|i] H; simpl in *;
    try discriminate; [reflexivity | apply IH; assumption].
Qed.

Lemma set_scriptSig_nth (i : nat) (s : CScript) (tx : CMutableTransaction)
    (txin : CMutableTxIn) :
  nth_error (vin tx) i = Some txin ->
  nth_error (vin (set_scriptSig i s tx)) i
  = Some {| prevout := prevout txin; scriptSig := s |}.
Proof.
  intros H. unfold set_scriptSig. rewrite H. cbn [vin].
  eapply nth_error_update_nth. exact H.
Qed.

Lemma _signInput_tx (C : Collaborators) (i : nat) (script : CScript)
    (flag : Z) (redeem : option CScript) (sigs : option (list bytes))
    (tx : CMutableTransaction) :
  exists s, fst (_signInput C i script flag redeem sigs tx) = set_scriptSig i s tx
  /\ s = match truthy_script redeem with
         | Some redeem_script =>
             match sigs with
             | Some (s0 :: ss) =>
                 map Data (sort_bytes ((s0 :: ss)
                             ++ [signature C redeem_script tx i flag]))
                 ++ [Data (script_to_bytes C redeem_script)]
             | _ => [Data (signature C redeem_script tx i flag);
                     Data (script_to_bytes C redeem_script)]
             end
         | None => [Data (signature C script tx i flag); Data (privateKey_pub C)]
         end.
Proof.
  eexists. split; [|reflexivity]. unfold _signInput.
  match goal with
  | |- context [VerifyScript C ?a ?b ?c ?d] => destruct (VerifyScript C a b c d) as [u|e]
  end; [reflexivity|].
  destruct e; try reflexivity.
  destruct (String.eqb msg _); reflexivity.
Qed.

(** Signing input [i] with a non-empty redeem script and a non-empty
    list of co-signer signatures leaves, as unlocking script of that
    input, the combined signatures (the given ones and the wallet's own)
    in ascending order of their bytes, followed by the redeem script;
    this holds whatever the verification then answers.  The order depends
    only on the byte strings combined, not on the order in which a party
    received them. *)
Lemma _signInput_cosigned_scriptSig (C : Collaborators) (i : nat)
    (script : CScript) (flag : Z) (redeem : CScript) (sigs : list bytes)
    (tx : CMutableTransaction) (txin : CMutableTxIn) :
  redeem <> [] -> sigs <> [] -> nth_error (vin tx) i = Some txin ->
  let own := signature C redeem tx i flag in
  let all_sigs := sort_bytes (sigs ++ [own]) in
  let tx' := fst (_signInput C i script flag (Some redeem) (Some sigs) tx) in
  nth_error (vin tx') i
  = Some {| prevout := prevout txin;
            scriptSig := map Data all_sigs ++ [Data (script_to_bytes C redeem)] |}
  /\ Permutation all_sigs (sigs ++ [own])
  /\ StronglySorted bytes_le all_sigs
  /\ (forall others, Permutation others (sigs ++ [own]) ->
        sort_bytes others = all_sigs).
Proof.
  intros Hr Hs Hn own all_sigs tx'.
  assert (Ht : truthy_script (Some redeem) = Some redeem)
    by (destruct redeem; [congruence | reflexivity]).
  repeat apply conj.
  - subst tx'.
    destruct (_signInput_tx C i script flag (Some redeem) (Some sigs) tx)
      as [s [E Es]].
    rewrite E, Es, Ht. destruct sigs as [|s0 ss]; [congruence|].
    apply set_scriptSig_nth. exact Hn.
  - apply sort_bytes_perm.
  - apply sort_bytes_sorted.
  - intros others P. apply sort_bytes_canonical. exact P.
Qed.

(** C9: the finalize path on a commitment as [generateCommitmentTx]
    leaves it.  Alice signs the commitment without a redeem script, so
    its unlocking script is her signature followed by her public key.
    [finaliseCommitmentTx] takes every byte string of that script as a
    co-signer signature: the final unlocking script is the sorted list of
    three byte strings, Alice's signature, Alice's public key and Bob's
    signature, followed by the redeem script.  A public key is sorted
    among the signatures, and the script holds one element more than the
    signatures and the redeem script. *)
Theorem C9_finalise_sorts_public_key (A B : Collaborators)
    (funding_txid : pystr) (vout_index : Z) (redeem_script : CScript)
    (txouts : list CMutableTxOut) (raw : bytes) :
  let partial := commitment A funding_txid vout_index redeem_script txouts in
  let aliceSig :=
    signature A (p2sh_scriptPubKey A redeem_script)
      (commitmentDraft funding_txid vout_index txouts) 0
      (Z.lor SIGHASH_ANYONECANPAY SIGHASH_ALL) in
  let bobSig := signature B redeem_script partial 0 SIGHASH_ALL in
  let combined := sort_bytes [aliceSig; privateKey_pub A; bobSig] in
  redeem_script <> [] ->
  privateKey_pub A <> [] ->
  fromhex (tx_to_hex A partial) = Ret raw ->
  tx_deserialize B raw = Ret partial ->
  map scriptSig (vin partial) = [[Data aliceSig; Data (privateKey_pub A)]]
  /\ exists final outcome,
       finalisedTx B (tx_to_hex A partial) redeem_script = Ret (final, outcome)
       /\ vin final
          = [ {| prevout := {| hash := funding_txid; n := vout_index |};
                 scriptSig := map Data combined
                              ++ [Data (script_to_bytes B redeem_script)] |} ]
       /\ In (privateKey_pub A) combined
       /\ length combined = 3%nat.
Proof.
  intros partial aliceSig bobSig combined Hr Hp Hh Hd.
  split; [reflexivity|].
  assert (Ht : truthy_script (Some redeem_script) = Some redeem_script)
    by (destruct redeem_script; [congruence | reflexivity]).
  assert (Hsig : exists x s, aliceSig = x :: s).
  { unfold aliceSig, signature.
    destruct (privateKey_sign A _) as [|x s]; cbn [app]; eauto. }
  destruct Hsig as (x & s & Ha).
  destruct (privateKey_pub A) as [|y k] eqn:Ek; [congruence|].
  assert (Hold : bytes_elements
                   (aliceUnlocking A funding_txid vout_index redeem_script txouts)
                 = [aliceSig; y :: k]).
  { unfold aliceUnlocking. fold aliceSig. rewrite Ek, Ha. reflexivity. }
  unfold finalisedTx. rewrite Hh. cbn [bind]. rewrite Hd. cbn [bind].
  change (vin partial) with
    [ {| prevout := {| hash := funding_txid; n := vout_index |};
         scriptSig := aliceUnlocking A funding_txid vout_index redeem_script
                        txouts |} ].
  cbn [bind scriptSig]. rewrite Hold.
  destruct (_signInput B 0 (p2sh_scriptPubKey B redeem_script) SIGHASH_ALL
              (Some redeem_script) (Some [aliceSig; y :: k]) partial)
    as [final outcome] eqn:E.
  exists final, outcome. split; [reflexivity|].
  destruct (_signInput_tx B 0 (p2sh_scriptPubKey B redeem_script) SIGHASH_ALL
              (Some redeem_script) (Some [aliceSig; y :: k]) partial)
    as [sc [E1 Es]].
  rewrite E in E1. cbn [fst] in E1. rewrite Ht in Es.
  cbn [app] in Es. fold bobSig in Es.
  split; [|split].
  - rewrite E1, Es. reflexivity.
  - apply (Permutation_in (l := [aliceSig; y :: k; bobSig])).
    + apply Permutation_sym. apply sort_bytes_perm.
    + right. left. reflexivity.
  - unfold combined.
    rewrite (Permutation_length (sort_bytes_perm _)). reflexivity.
Qed.

Lemma C9_finalise_sorts_public_key_witness :
  exists final outcome,
    finalisedTx (toyCollaborators aliceCommitment) (lit "00") [Int 1]
    = Ret (final, outcome)
    /\ vin final
       = [ {| prevout := {| hash := txid "aa"; n := 0 |};
              scriptSig := [Data [x02; xaa]; Data [x30; x01; x02; x01];
                            Data [x30; x01; x02; x81]; Data [x51]] |} ].
Proof.
  destruct (C9_finalise_sorts_public_key (toyCollaborators emptyTx)
              (toyCollaborators aliceCommitment) (txid "aa") 0 [Int 1]
              (vout aliceCommitment) [x00]
              ltac:(discriminate) ltac:(discriminate) eq_refl eq_refl)
    as (_ & final & outcome & E & Hv & _).
  exists final, outcome. split; [exact E | exact Hv].
Defined.

(** ** The fee-delegation completer *)

(** The check depends on its amount only through the sats looked for. *)
Lemma _checkSatoriValue_loop_ext (w : Wallet) (a a' : option Z) :
  amount_or_mundoFee w a = amount_or_mundoFee w a' ->
  forall script nextOne,
    _checkSatoriValue_loop w a nextOne script
    = _checkSatoriValue_loop w a' nextOne script.
Proof.
  intros E. induction script as [|x r IH]; intros nextOne; [reflexivity|].
  cbn [_checkSatoriValue_loop]. rewrite E.
  destruct nextOne; [reflexivity|].
  destruct (is_op OP_EVR_ASSET x); apply IH.
Qed.

Lemma _checkSatoriValue_mundoFee (w : Wallet) (x : CMutableTxOut) :
  _checkSatoriValue w x (fee_amount (mundoFee w))
  = _checkSatoriValue w x (Some (mundoFee w)).
Proof.
  apply _checkSatoriValue_loop_ext. unfold fee_amount, amount_or_mundoFee.
  destruct (mundoFee w =? 0); reflexivity.
Qed.

Lemma _verifyClaim_simple_true (w : Wallet) (vouts : list CMutableTxOut) :
  forall acc,
    _verifyClaim_simple w vouts acc = Ret true ->
    acc = true
    \/ exists x, In x vouts /\ _checkSatoriValue w x (Some (mundoFee w)) = Ret true.
Proof.
  induction vouts as [|x r IH]; intros acc H; simpl in H.
  - left. congruence.
  - rewrite _checkSatoriValue_mundoFee in H.
    destruct (_checkSatoriValue w x (Some (mundoFee w))) as [m|e] eqn:E;
      [|discriminate].
    cbn [bind] in H. apply IH in H. destruct m.
    + right. exists x. split; [left; reflexivity | exact E].
    + destruct H as [H | [y [Hy Ey]]]; [left; exact H|].
      right. exists y. split; [right; exact Hy | exact Ey].
Qed.

Lemma _verifyClaim_bridge_true (w : Wallet) (vouts : list CMutableTxOut) :
  forall accB accM,
    _verifyClaim_bridge w vouts accB accM = Ret true ->
    (accB = true
     \/ exists x, In x vouts
                  /\ _checkSatoriValue w x (fee_amount (bridgeFee w)) = Ret true)
    /\ (accM = true
        \/ exists x, In x vouts /\ _checkSatoriValue w x (Some (mundoFee w)) = Ret true).
Proof.
  induction vouts as [|x r IH]; intros accB accM H; simpl in H.
  - injection H as H. apply andb_true_iff in H. destruct H. auto.
  - rewrite _checkSatoriValue_mundoFee in H.
    destruct (_checkSatoriValue w x (fee_amount (bridgeFee w))) as [b|e] eqn:EB;
      [|discriminate].
    cbn [bind] in H.
    destruct (_checkSatoriValue w x (Some (mundoFee w))) as [m|e] eqn:EM;
      [|discriminate].
    cbn [bind] in H. apply IH in H. destruct H as [HB HM]. split.
    + destruct b.
      * right. exists x. split; [left; reflexivity | exact EB].
      * destruct HB as [HB | [y [Hy Ey]]]; [left; exact HB|].
        right. exists y. split; [right; exact Hy | exact Ey].
    + destruct m.
      * right. exists x. split; [left; reflexivity | exact EM].
      * destruct HM as [HM | [y [Hy Ey]]]; [left; exact HM|].
        right. exists y. split; [right; exact Hy | exact Ey].
Qed.

Lemma script_pays_decodes (C : Collaborators) (addr : pystr) (out : CMutableTxOut) :
  script_pays C addr (scriptPubKey out) = true <-> decodes_to C out addr.
Proof.
  unfold script_pays, decodes_to. split.
  - destruct (nth_error (scriptPubKey out) 2) as [[o|b|z]|]; try discriminate.
    intros H. exists b. split; [reflexivity|]. apply str_eqb_eq. exact H.
  - intros [k [-> ->]]. apply str_eqb_eq. reflexivity.
Qed.

Ltac bind_case H name :=
  match type of H with
  | bind ?m _ = _ => destruct m as [name|?] eqn:?; cbn [bind] in H; [|discriminate]
  end.

(** The completer passes its checks only for a transaction that satisfies
    all of them. *)
Lemma completerChecks_accepted (C : Collaborators) (w : Wallet)
    (serialTx : bytes) (feeSatsReserved reportedFeeSats : Z)
    (changeAddress completerAddress : option pystr) (bridgeTransaction : bool)
    (tx : CMutableTransaction) :
  completerChecks C w serialTx feeSatsReserved reportedFeeSats
    changeAddress completerAddress bridgeTransaction = Ret tx ->
  tx_deserialize C serialTx = Ret tx
  /\ accepted C w tx feeSatsReserved reportedFeeSats
       (or_address w changeAddress) (or_address w completerAddress)
       bridgeTransaction.
Proof.
  unfold completerChecks. intros H.
  bind_case H tx0. bind_case H feeOk.
  destruct feeOk; cbn [negb] in H; [|discriminate].
  bind_case H claimOk.
  destruct claimOk; cbn [negb] in H.
  2:{ destruct bridgeTransaction.
      - destruct (nth_from_end (vout tx0) 4); cbn [bind] in H; [|discriminate].
        destruct (nth_from_end (vout tx0) 3); cbn [bind] in H; discriminate.
      - destruct (nth_from_end (vout tx0) 2); cbn [bind] in H; discriminate. }
  bind_case H claimAddressOk.
  destruct claimAddressOk; cbn [negb] in H; [|discriminate].
  bind_case H changeAddressOk.
  destruct changeAddressOk; cbn [negb] in H; [|discriminate].
  injection H as ->. split; [reflexivity|].
  (* the fee check *)
  unfold _verifyFee in *.
  destruct (Z.ltb_spec reportedFeeSats 100000000) as [Hc|]; [|discriminate].
  destruct (Z.ltb_spec reportedFeeSats feeSatsReserved) as [Hr|]; [|discriminate].
  cbn [andb] in *.
  destruct (nth_from_end (vout tx) (if bridgeTransaction then 2 else 1))
    as [change|] eqn:Echange; [|discriminate].
  cbn [bind] in *.
  match goal with
  | Hf : Ret (nValue change =? _) = Ret true |- _ =>
      injection Hf as Hf; apply Z.eqb_eq in Hf
  end.
  (* the address checks *)
  unfold _verifyClaimAddress, _verifyChangeAddress in *. rewrite Echange in *.
  cbn [bind] in *.
  destruct (nth_from_end (vout tx) (if bridgeTransaction then 4 else 2))
    as [claim|] eqn:Eclaim; [|discriminate].
  cbn [bind] in *.
  repeat match goal with
         | Hs : Ret (script_pays _ _ _) = Ret true |- _ =>
             injection Hs as Hs; apply script_pays_decodes in Hs
         end.
  (* the claim check *)
  unfold _verifyClaim in *.
  constructor; try assumption.
  - exists change. auto.
  - destruct bridgeTransaction.
    + match goal with
      | Hv : _verifyClaim_bridge _ _ _ _ = Ret true |- _ =>
          apply _verifyClaim_bridge_true in Hv; destruct Hv as [_ [Hv|Hv]];
            [discriminate | exact Hv]
      end.
    + match goal with
      | Hv : _verifyClaim_simple _ _ _ = Ret true |- _ =>
          apply _verifyClaim_simple_true in Hv; destruct Hv as [Hv|Hv];
            [discriminate | exact Hv]
      end.
  - intros ->.
    match goal with
    | Hv : _verifyClaim_bridge _ _ _ _ = Ret true |- _ =>
        apply _verifyClaim_bridge_true in Hv; destruct Hv as [[Hv|Hv] _];
          [discriminate | exact Hv]
    end.
  - exists claim. auto.
Qed.

Lemma nth_from_end_ok {A : Type} (l : list A) (k : nat) :
  (1 <= k <= length l)%nat -> exists a, nth_from_end l k = Ret a.
Proof.
  intros H. unfold nth_from_end.
  destruct (nth_error (rev l) (k - 1)) as [a|] eqn:E.
  - exists a. reflexivity.
  - apply nth_error_None in E. rewrite length_rev in E. lia.
Qed.

Lemma _verifyClaim_returns (w : Wallet) (tx : CMutableTransaction) (bridge : bool) :
  claim_checks_return w tx -> exists b, _verifyClaim w tx bridge = Ret b.
Proof.
  unfold claim_checks_return, _verifyClaim. generalize (vout tx) as vouts.
  intros vouts H. destruct bridge.
  - generalize false at 1. generalize false.
    induction vouts as [|x r IH]; intros accM accB; simpl; [eexists; reflexivity|].
    destruct (H x (fee_amount (bridgeFee w)) (or_introl eq_refl)) as [b ->].
    destruct (H x (fee_amount (mundoFee w)) (or_introl eq_refl)) as [m ->].
    cbn [bind]. apply IH. intros y a Hy. apply H. right. exact Hy.
  - generalize false.
    induction vouts as [|x r IH]; intros accM; simpl; [eexists; reflexivity|].
    destruct (H x (fee_amount (mundoFee w)) (or_introl eq_refl)) as [m ->].
    cbn [bind]. apply IH. intros y a Hy. apply H. right. exact Hy.
Qed.

(** The completer is fail-closed.
    - It passes its checks only if the reported fee is below the reserved
      amount and below one coin, the change output has exactly the value
      [feeSatsReserved - reportedFeeSats] and decodes to the change
      address, an output carrying the mundo fee (and, for a bridge send,
      one carrying the bridge fee) exists, and the claim output decodes to
      the completer's address.
    - Whenever the checks raise, the call raises the same exception having
      gathered, signed and broadcast nothing.
    - The exception is a TransactionFailure provided the transaction was
      deserialized, has the outputs the checks and their messages index
      (two, four for a bridge send), and no claim check raises. *)
Theorem completer_fail_closed (C : Collaborators) (w : Wallet)
    (serialTx : bytes) (feeSatsReserved reportedFeeSats : Z)
    (changeAddress completerAddress : option pystr) (bridgeTransaction : bool) :
  let checks := completerChecks C w serialTx feeSatsReserved reportedFeeSats
                  changeAddress completerAddress bridgeTransaction in
  let run := satoriOnlyCompleterSimple C w serialTx feeSatsReserved
               reportedFeeSats changeAddress completerAddress bridgeTransaction in
  (forall tx, checks = Ret tx ->
     tx_deserialize C serialTx = Ret tx
     /\ accepted C w tx feeSatsReserved reportedFeeSats
          (or_address w changeAddress) (or_address w completerAddress)
          bridgeTransaction)
  /\ (forall e, checks = Raise e -> run = ([], Raise e))
  /\ (forall e tx, checks = Raise e ->
        tx_deserialize C serialTx = Ret tx ->
        ((if bridgeTransaction then 4 else 2) <= length (vout tx))%nat ->
        claim_checks_return w tx ->
        exists msg, e = TransactionFailure msg).
Proof.
  intros checks run. split; [|split].
  - intros tx H. apply completerChecks_accepted. exact H.
  - intros e H. unfold run, satoriOnlyCompleterSimple. fold checks.
    rewrite H. reflexivity.
  - intros e tx H Hd Hlen Hclaims. unfold checks, completerChecks in H.
    rewrite Hd in H. cbn [bind] in H.
    assert (L1 : exists a, nth_from_end (vout tx) (if bridgeTransaction then 2 else 1) = Ret a)
      by (apply nth_from_end_ok; destruct bridgeTransaction; lia).
    assert (L2 : exists a, nth_from_end (vout tx) (if bridgeTransaction then 4 else 2) = Ret a)
      by (apply nth_from_end_ok; destruct bridgeTransaction; lia).
    destruct L1 as [o1 L1]. destruct L2 as [o2 L2].
    unfold _verifyFee in H. rewrite L1 in H. cbn [bind] in H.
    destruct ((reportedFeeSats <? 100000000) && (reportedFeeSats <? feeSatsReserved));
      cbn [bind] in H.
    2:{ cbn [negb] in H. injection H as <-. eexists. reflexivity. }
    destruct (nValue o1 =? feeSatsReserved - reportedFeeSats); cbn [negb] in H.
    2:{ injection H as <-. eexists. reflexivity. }
    destruct (_verifyClaim_returns w tx bridgeTransaction Hclaims) as [cb Hc].
    rewrite Hc in H. cbn [bind] in H. destruct cb; cbn [negb] in H.
    2:{ destruct bridgeTransaction.
        - rewrite L2 in H. cbn [bind] in H.
          destruct (nth_from_end_ok (vout tx) 3 ltac:(lia)) as [o3 L3].
          rewrite L3 in H. cbn [bind] in H. injection H as <-. eexists. reflexivity.
        - rewrite L2 in H. cbn [bind] in H. injection H as <-. eexists. reflexivity. }
    unfold _verifyClaimAddress, _verifyChangeAddress in H.
    rewrite L2 in H. cbn [bind] in H.
    destruct (script_pays C (or_address w completerAddress) (scriptPubKey o2));
      cbn [negb] in H.
    2:{ injection H as <-. eexists. reflexivity. }
    rewrite L1 in H. cbn [bind] in H.
    destruct (script_pays C (or_address w changeAddress) (scriptPubKey o1));
      cbn [negb] in H; [discriminate|].
    injection H as <-. eexists. reflexivity.
Qed.

(** ** Two runs of the completer *)

(** C1: two runs of the completer.
    - [decoyTx] passes all four checks and is completed and broadcast,
      although its one output carrying the mundo fee decodes to another
      address than the completer's: [_verifyClaim] looks for the fee in
      any output, [_verifyClaimAddress] reads the address of the output
      at the claim position, and nothing ties the two together.
    - [shortTx], the change output alone, passes the fee check and fails
      the claim check; building the message
      [f'claim mismatch, {tx.vout[-2]}'] then indexes an output that does
      not exist and the call ends with IndexError, not TransactionFailure
      (nothing was gathered, signed or broadcast). *)
Theorem C1_completer_divergence :
  completerChecks (toyCollaborators decoyTx) serverWallet []
    1000000 300000 None None false = Ret decoyTx
  /\ (forall x, In x (vout decoyTx) ->
        _checkSatoriValue serverWallet x (Some (mundoFee serverWallet)) = Ret true ->
        x = thiefClaim)
  /\ ~ decodes_to (toyCollaborators decoyTx) thiefClaim (lit "server")
  /\ snd (satoriOnlyCompleterSimple (toyCollaborators decoyTx) serverWallet []
            1000000 300000 None None false) = Ret (lit "00")
  /\ _verifyFee shortTx 1000000 300000 false = Ret true
  /\ _verifyClaim serverWallet shortTx false = Ret false
  /\ satoriOnlyCompleterSimple (toyCollaborators shortTx) serverWallet []
       1000000 300000 None None false
     = ([], Raise IndexError).
Proof.
  split; [reflexivity|]. split.
  { intros x [<-|[<-|[<-|[]]]] H; [reflexivity | discriminate | discriminate]. }
  split.
  { intros [k [H1 H2]]. cbn in H1. injection H1 as <-. discriminate. }
  repeat split.
Qed.

(** ** The reserved currency input *)








(** ** What the claim check reads in an output built by the wallet *)


Lemma _checkSatoriValue_marked (w : Wallet) (base rest : CScript) (b : bytes)
    (v : Z) (amount : option Z) :
  Forall (fun e => is_op OP_EVR_ASSET e = false) base ->
  _checkSatoriValue w
    {| nValue := v; scriptPubKey := base ++ Op OP_EVR_ASSET :: Data b :: rest |}
    amount
  = (tag <- encodeAssetTag (symbol w) AssetTransaction.defaultAsset
              (amount_or_mundoFee w amount) ;;
     Ret (startswith b tag)).
Proof.
  intros H. unfold _checkSatoriValue. cbn [scriptPubKey].
  induction H as [|e base He _ IH].
  - cbn [app _checkSatoriValue_loop is_op opcode_eqb].
    destruct (encodeAssetTag _ _ _) as [tag|]; cbn [bind]; [|reflexivity].
    destruct (startswith b tag); reflexivity.
  - cbn [app _checkSatoriValue_loop]. rewrite He. exact IH.
Qed.



(** ** Values computed by the embedding *)

Example intToLittleEndianHex_coin :
  TxUtils.intToLittleEndianHex 100000000 = lit "00e1f505".
Proof. reflexivity. Qed.

Example padHexStringTo8Bytes_coin :
  TxUtils.padHexStringTo8Bytes (lit "00e1f505") = lit "00e1f50500000000".
Proof. reflexivity. Qed.

Example satoriHex_evr :
  AssetTransaction.satoriHex (lit "evr") AssetTransaction.defaultAsset
  = Ret (lit "65767274065341544f5249").
Proof. reflexivity. Qed.

Example roundSatsDown_example :
  TxUtils.roundSatsDownToDivisibility 123456789 4 = Ret 123450000.
Proof. reflexivity. Qed.

Example estimatedFee_default :
  TxUtils.estimatedFee 1 1 TxUtils.defaultFeeRate = 300000.
Proof. reflexivity. Qed.

Example non_ascii_name_length :
  length (encode_utf8 [ascii_of_N 233]) = 2%nat
  /\ format_02x (Z.of_nat (length [ascii_of_N 233])) = lit "01".
Proof. split; reflexivity. Qed.

(* ===================================================================== *)
(** * Part IV: further properties of the code                             *)
(* ===================================================================== *)

(** ** Sats and wei *)

(** X1: [weiToSats] inverts [satsToWei] on every integer, negative ones
    included; the other way round [satsToWei (weiToSats wei)] is the
    largest multiple of 10^10 not above [wei], so the conversion to sats
    loses less than 10^10 wei and is exact only on multiples of 10^10. *)
Theorem weiToSats_satsToWei :
  (forall sats, TxUtils.weiToSats (TxUtils.satsToWei sats) = sats)
  /\ (forall wei,
        let back := TxUtils.satsToWei (TxUtils.weiToSats wei) in
        back <= wei < back + 10 ^ 10
        /\ (back = wei <-> wei mod 10 ^ 10 = 0)).
Proof.
  unfold TxUtils.weiToSats, TxUtils.satsToWei. split.
  - intros sats. apply Z.div_mul. discriminate.
  - intros wei. cbv zeta.
    assert (P : 0 < 10 ^ 10) by reflexivity.
    pose proof (Z.div_mod wei (10 ^ 10) ltac:(lia)) as DM.
    pose proof (Z.mod_pos_bound wei (10 ^ 10) P) as B.
    split; [lia|]. split; lia.
Qed.

(** ** The width of the amount field *)

Lemma length_digits256_le8 (n : N) :
  (n < 2 ^ 64)%N -> (length (digits 256 n) <= 8)%nat.
Proof.
  intros H. apply (digits_length_bound 256 7 n); [lia|].
  change (256 ^ N.of_nat 8)%N with (2 ^ 64)%N. exact H.
Qed.

Lemma length_digits_lower (base : N) (k : nat) (n : N) :
  (2 <= base)%N -> (base ^ N.of_nat k <= n)%N ->
  (k < length (digits base n))%nat.
Proof.
  intros Hb. revert k. pattern n. apply (digits_ind base); [exact Hb| |].
  - intros m Hm k Hk. rewrite digits_small by assumption. cbn [length].
    destruct k; [lia|]. exfalso.
    rewrite Nat2N.inj_succ, N.pow_succ_r' in Hk.
    assert (1 <= base ^ N.of_nat k)%N.
    { pose proof (N.pow_nonzero base (N.of_nat k)). lia. }
    nia.
  - intros m Hm IH k Hk. rewrite digits_step by assumption.
    rewrite length_app. cbn [length].
    destruct k; [lia|].
    assert (k < length (digits base (m / base)))%nat; [|lia].
    apply IH. rewrite Nat2N.inj_succ, N.pow_succ_r' in Hk.
    apply N.div_le_lower_bound; lia.
Qed.

(** X2: for a non-negative amount the field
    [padHexStringTo8Bytes(intToLittleEndianHex(number))] has its 16
    characters (8 bytes) exactly when the amount is below 2^64; from 2^64
    on nothing is padded and nothing is cut, so the field is the whole
    little-endian text and is longer than 8 bytes. *)
Theorem amount_field_width (number : Z) :
  0 <= number ->
  let field :=
    TxUtils.padHexStringTo8Bytes (TxUtils.intToLittleEndianHex number) in
  (number < 2 ^ 64 -> length field = 16%nat)
  /\ (2 ^ 64 <= number ->
      field = TxUtils.intToLittleEndianHex number /\ (16 < length field)%nat).
Proof.
  intros H0 field. split.
  - intros H. unfold field. rewrite padded_amount_hex by lia.
    rewrite length_hexN, le8_length; [reflexivity|].
    change (2 ^ 64)%N with (Z.to_N (2 ^ 64)). lia.
  - intros H. unfold field.
    rewrite intToLittleEndianHex_nonneg by exact H0.
    assert (L : (8 < length (digits 256 (Z.to_N number)))%nat).
    { apply length_digits_lower; [lia|].
      change (256 ^ N.of_nat 8)%N with (Z.to_N (2 ^ 64)). lia. }
    unfold TxUtils.padHexStringTo8Bytes, ljust.
    rewrite length_hexN, length_rev.
    replace (16 - 2 * length (digits 256 (Z.to_N number)))%nat with 0%nat by lia.
    cbn [repeat]. rewrite app_nil_r. split; [reflexivity|].
    rewrite length_hexN, length_rev. lia.
Qed.

Lemma amount_field_width_witness :
  length (TxUtils.padHexStringTo8Bytes (TxUtils.intToLittleEndianHex 100000000))
  = 16%nat.
Proof.
  apply (amount_field_width 100000000); [lia | reflexivity].
Defined.

(** ** Multi-signature redeem scripts *)

Lemma byteKeys_Forall2 (pubkeys : list pubkey_arg) (keys : list bytes) :
  byteKeys pubkeys = Ret keys <->
  Forall2 (fun k b => key_bytes k = Ret b) pubkeys keys.
Proof.
  revert keys. induction pubkeys as [|k r IH]; intros keys; cbn [byteKeys].
  - split.
    + intros H. injection H as <-. constructor.
    + intros H. inversion H. reflexivity.
  - split.
    + intros H. destruct (key_bytes k) as [b|e] eqn:Ek; cbn [bind] in H; [|discriminate].
      destruct (byteKeys r) as [bs|e] eqn:Er; cbn [bind] in H; [|discriminate].
      injection H as <-. constructor; [exact Ek|]. apply IH. reflexivity.
    + intros H. inversion H as [|? b ? bs Hk Hr]; subst.
      rewrite Hk. cbn [bind]. apply IH in Hr. rewrite Hr. reflexivity.
Qed.

Lemma byteKeys_raise (pubkeys : list pubkey_arg) (e : exn) :
  byteKeys pubkeys = Raise e ->
  exists before k after,
    pubkeys = before ++ k :: after
    /\ key_bytes k = Raise e
    /\ Forall (fun k' => exists b, key_bytes k' = Ret b) before.
Proof.
  induction pubkeys as [|k r IH]; cbn [byteKeys]; [discriminate|].
  intros H. destruct (key_bytes k) as [b|e'] eqn:Ek; cbn [bind] in H.
  - destruct (byteKeys r) as [bs|e'] eqn:Er; cbn [bind] in H; [discriminate|].
    injection H as ->. destruct (IH eq_refl) as (before & k' & after & -> & Hk & Hb).
    exists (k :: before), k', after. repeat split; [exact Hk|].
    constructor; [exists b; exact Ek | exact Hb].
  - injection H as ->. exists [], k, r. repeat split; [exact Ek | constructor].
Qed.

(** X3: [basicMultisig] raises [ValueError] exactly when the number of
    required signatures is outside [1, len(pubkeys)], and it does so
    before looking at any key; inside the bounds it fails only with the
    error of the first hexadecimal key that does not parse, and otherwise
    returns the script [M <key_1> ... <key_N> N OP_CHECKMULTISIG]: the
    keys as bytes in the order given, [N] the number of the keys,
    [1 <= M <= N]. *)
Theorem basicMultisig_script (pubkeys : list pubkey_arg) (signatures : Z) :
  let N := Z.of_nat (length pubkeys) in
  (~ 1 <= signatures <= N ->
   basicMultisig pubkeys signatures
   = Raise (ValueError
              "Required signatures must be between 1 and number of public keys"))
  /\ (1 <= signatures <= N ->
      (forall keys,
          Forall2 (fun k b => key_bytes k = Ret b) pubkeys keys ->
          basicMultisig pubkeys signatures
          = Ret ([Int signatures] ++ map Data keys
                 ++ [Int N; Op OP_CHECKMULTISIG]))
      /\ (forall script,
             basicMultisig pubkeys signatures = Ret script ->
             length script = (length pubkeys + 3)%nat
             /\ exists keys,
                  Forall2 (fun k b => key_bytes k = Ret b) pubkeys keys
                  /\ script = [Int signatures] ++ map Data keys
                              ++ [Int N; Op OP_CHECKMULTISIG])
      /\ (forall e,
             basicMultisig pubkeys signatures = Raise e ->
             exists before k after,
               pubkeys = before ++ k :: after
               /\ key_bytes k = Raise e
               /\ Forall (fun k' => exists b, key_bytes k' = Ret b) before)).
Proof.
  intros N. unfold basicMultisig. fold N. split.
  - intros H.
    destruct (Z.leb_spec 1 signatures); destruct (Z.leb_spec signatures N);
      cbn [andb negb]; try reflexivity. lia.
  - intros H.
    destruct (Z.leb_spec 1 signatures); [|lia].
    destruct (Z.leb_spec signatures N); [|lia]. cbn [andb negb].
    repeat apply conj.
    + intros keys HF. pose proof (Forall2_length HF) as HL.
      apply byteKeys_Forall2 in HF. rewrite HF. cbn [bind].
      unfold N. rewrite HL. reflexivity.
    + intros script Hs.
      destruct (byteKeys pubkeys) as [keys|e] eqn:Ek; cbn [bind] in Hs; [|discriminate].
      injection Hs as <-. apply byteKeys_Forall2 in Ek.
      pose proof (Forall2_length Ek) as HL. split.
      * cbn [app length]. rewrite length_app, length_map. cbn [length]. lia.
      * exists keys. split; [exact Ek|]. unfold N. rewrite HL. reflexivity.
    + intros e He.
      destruct (byteKeys pubkeys) as [keys|e'] eqn:Ek; cbn [bind] in He; [discriminate|].
      injection He as ->. apply byteKeys_raise. exact Ek.
Qed.

(** ** Relative timeouts in minutes *)

(** X4: for every accepted number of minutes (1..557047) the script of
    [renewableLightChannel] carries [0x00400000 + units] with
    [1 <= units <= 65278]; the units are the minutes rounded down to
    whole periods of 512 seconds, so from 9 minutes on the encoded delay
    is never longer than the one asked for and shorter by less than 512
    seconds, while 1 to 8 minutes all give one unit, which is longer than
    asked for; and no script built from a block count equals one built
    from minutes. *)
Theorem renewableLightChannel_minutes_rounding
    (sender receiver : pubkey_arg) (sb rb : bytes) (minutes : Z) :
  key_bytes sender = Ret sb ->
  key_bytes receiver = Ret rb ->
  1 <= minutes <= 557047 ->
  exists units,
    renewableLightChannel sender receiver None (Some minutes)
    = Ret (channelScript sb rb (4194304 + units) OP_CHECKSEQUENCEVERIFY)
    /\ 1 <= units <= 65278
    /\ (9 <= minutes -> 512 * units <= 60 * minutes < 512 * (units + 1))
    /\ (minutes <= 8 -> units = 1 /\ 60 * minutes < 512 * units)
    /\ (forall blocks script,
           renewableLightChannel sender receiver (Some blocks) None = Ret script ->
           script <> channelScript sb rb (4194304 + units) OP_CHECKSEQUENCEVERIFY).
Proof.
  intros Hs Hr Hm.
  set (units := Z.max 1 (minutes * 60 / 512)).
  assert (Hq : 0 <= minutes * 60 / 512 <= 65278).
  { split; [apply Z.div_pos; lia|].
    assert (minutes * 60 / 512 < 65279); [|lia].
    apply Z.div_lt_upper_bound; lia. }
  assert (Hu : 1 <= units <= 65278) by (unfold units; lia).
  exists units.
  assert (Hrun : renewableLightChannel sender receiver None (Some minutes)
                 = Ret (channelScript sb rb (4194304 + units) OP_CHECKSEQUENCEVERIFY)).
  { unfold renewableLightChannel. rewrite Hs, Hr. cbn [bind].
    destruct (Z.leb_spec 1 minutes); [|lia].
    destruct (Z.leb_spec (2 * minutes) (65535 * 17)); [|lia].
    cbn [andb negb bind].
    assert (Hunits : (if minutes * 60 / 512 <? 1 then 1 else minutes * 60 / 512)
                     = units).
    { unfold units. destruct (Z.ltb_spec (minutes * 60 / 512) 1); lia. }
    rewrite Hunits, land_16bit by lia.
    destruct (lor_time_flag units ltac:(lia)) as [-> _]. reflexivity. }
  repeat apply conj.
  - exact Hrun.
  - lia.
  - lia.
  - intros H9.
    pose proof (Z.div_mod (minutes * 60) 512 ltac:(lia)) as DM.
    pose proof (Z.mod_pos_bound (minutes * 60) 512 ltac:(lia)) as B.
    assert (1 <= minutes * 60 / 512) by (apply Z.div_le_lower_bound; lia).
    unfold units. lia.
  - intros H8.
    assert (minutes * 60 / 512 = 0) by (apply Z.div_small; lia).
    unfold units. lia.
  - intros blocks script Hb Heq. subst script.
    unfold renewableLightChannel in Hb. rewrite Hs, Hr in Hb. cbn [bind] in Hb.
    destruct (Z.leb_spec 1 blocks); destruct (Z.leb_spec blocks 65535);
      cbn [andb negb bind] in Hb; try discriminate.
    assert (Ht : forall a b v o, nth_error (channelScript a b v o) 7 = Some (Int v))
      by reflexivity.
    apply (f_equal (fun r => match r with
                             | Ret s => nth_error s 7
                             | Raise _ => None
                             end)) in Hb.
    cbv beta iota in Hb. rewrite !Ht in Hb.
    assert (blocks = 4194304 + units) by congruence. lia.
Qed.

Lemma renewableLightChannel_minutes_rounding_witness :
  exists units,
    renewableLightChannel (KeyBytes [x02]) (KeyHex (lit "03ff")) None (Some 60)
    = Ret (channelScript [x02] [x03; xff] (4194304 + units) OP_CHECKSEQUENCEVERIFY)
    /\ 512 * units <= 60 * 60 < 512 * (units + 1).
Proof.
  destruct (renewableLightChannel_minutes_rounding
              (KeyBytes [x02]) (KeyHex (lit "03ff")) [x02] [x03; xff] 60
              eq_refl eq_refl ltac:(lia)) as (units & H1 & _ & H3 & _).
  exists units. split; [exact H1 | apply H3; lia].
Defined.

(** ** One currency output of at least a given value *)

Lemma existsb_str_eqb_In (s : pystr) (l : list pystr) :
  existsb (str_eqb s) l = true <-> In s l.
Proof.
  rewrite existsb_exists. split.
  - intros (x & Hx & E). apply str_eqb_eq in E. subst. exact Hx.
  - intros H. exists s. split; [exact H | apply str_eqb_eq; reflexivity].
Qed.

Lemma _gatherOneCurrencyUnspent_loop_spec (atleastSats : Z) (claimed : list pystr)
    (len : Z) (l : list unspent) :
  let fits u := atleastSats <= value u /\ ~ In (tx_hash u) claimed in
  match _gatherOneCurrencyUnspent_loop atleastSats claimed len l with
  | (Some u, v, n) =>
      exists before after,
        l = before ++ u :: after
        /\ Forall (fun x => ~ fits x) before
        /\ fits u /\ v = value u /\ n = len
  | (None, v, n) => v = 0 /\ n = 0 /\ Forall (fun x => ~ fits x) l
  end.
Proof.
  intros fits. induction l as [|x r IH]; cbn [_gatherOneCurrencyUnspent_loop].
  - split; [reflexivity|]. split; [reflexivity | constructor].
  - destruct (Z.leb_spec atleastSats (value x)) as [Hv|Hv]; cbn [andb].
    + destruct (existsb (str_eqb (tx_hash x)) claimed) eqn:Ec; cbn [negb].
      * apply existsb_str_eqb_In in Ec.
        destruct (_gatherOneCurrencyUnspent_loop atleastSats claimed len r)
          as [[[u|] v] n].
        -- destruct IH as (before & after & -> & Hb & Hu & Hv' & Hn).
           exists (x :: before), after.
           split; [reflexivity|]. split; [|auto].
           constructor; [|exact Hb]. unfold fits. tauto.
        -- destruct IH as (-> & -> & Hb).
           split; [reflexivity|]. split; [reflexivity|].
           constructor; [|exact Hb]. unfold fits. tauto.
      * exists [], r.
        split; [reflexivity|]. split; [constructor|].
        split; [|auto]. split; [exact Hv|].
        intros Hin. apply existsb_str_eqb_In in Hin. congruence.
    + destruct (_gatherOneCurrencyUnspent_loop atleastSats claimed len r)
        as [[[u|] v] n].
      * destruct IH as (before & after & -> & Hb & Hu & Hv' & Hn).
        exists (x :: before), after.
        split; [reflexivity|]. split; [|auto].
        constructor; [|exact Hb]. unfold fits. lia.
      * destruct IH as (-> & -> & Hb).
        split; [reflexivity|]. split; [reflexivity|].
        constructor; [|exact Hb]. unfold fits. lia.
Qed.

(** X5: [_gatherOneCurrencyUnspent] is a first fit: it returns the first
    entry of [unspentCurrency], in the order of the list, whose value is
    at least [atleastSats] and whose transaction hash is not a key of
    [claimed], together with its value and the length of the whole list;
    every entry before it fails one of the two tests (an output of a
    claimed transaction is passed over whatever its position and value);
    it returns [(None, 0, 0)] exactly when no entry passes both. *)
Theorem _gatherOneCurrencyUnspent_first_fit (w : Wallet) (atleastSats : Z)
    (claimed : option (list pystr)) :
  let keys := match claimed with
              | Some c => c
              | None => []
              end in
  let fits u := atleastSats <= value u /\ ~ In (tx_hash u) keys in
  let result := _gatherOneCurrencyUnspent w atleastSats claimed in
  (forall u v n,
      result = (Some u, v, n) ->
      exists before after,
        unspentCurrency w = before ++ u :: after
        /\ Forall (fun x => ~ fits x) before
        /\ fits u /\ v = value u
        /\ n = Z.of_nat (length (unspentCurrency w)))
  /\ (forall v n,
         result = (None, v, n) ->
         v = 0 /\ n = 0 /\ Forall (fun x => ~ fits x) (unspentCurrency w))
  /\ ((exists u, In u (unspentCurrency w) /\ fits u) <->
      exists u, result = (Some u, value u, Z.of_nat (length (unspentCurrency w)))).
Proof.
  intros keys fits result.
  pose proof (_gatherOneCurrencyUnspent_loop_spec atleastSats keys
                (Z.of_nat (length (unspentCurrency w))) (unspentCurrency w)) as S.
  cbv zeta in S. fold fits in S.
  change (_gatherOneCurrencyUnspent_loop atleastSats keys
            (Z.of_nat (length (unspentCurrency w))) (unspentCurrency w))
    with result in S.
  repeat apply conj.
  - intros u v n E. rewrite E in S. exact S.
  - intros v n E. rewrite E in S. exact S.
  - intros (u & Hin & Hfit).
    destruct result as [[[u'|] v] n].
    + destruct S as (before & after & _ & _ & _ & -> & ->). exists u'. reflexivity.
    + destruct S as (_ & _ & Hall). rewrite Forall_forall in Hall.
      exfalso. exact (Hall u Hin Hfit).
  - intros (u & E). rewrite E in S.
    destruct S as (before & after & Hl & _ & Hfit & _).
    exists u. split; [|exact Hfit]. rewrite Hl. apply in_elt.
Qed.

(** ** Gathering the asset *)

Lemma sum_asset_values_app (l1 l2 : list asset_unspent) :
  sum_asset_values (l1 ++ l2) = sum_asset_values l1 + sum_asset_values l2.
Proof.
  induction l1 as [|x r IH]; [reflexivity|].
  change (asset_value x + sum_asset_values (r ++ l2)
          = asset_value x + sum_asset_values r + sum_asset_values l2). lia.
Qed.

Lemma sum_asset_values_perm (l1 l2 : list asset_unspent) :
  Permutation l1 l2 -> sum_asset_values l1 = sum_asset_values l2.
Proof.
  induction 1 as [|x l l' P IH|x y l|l l' l'' P1 IH1 P2 IH2].
  - reflexivity.
  - change (asset_value x + sum_asset_values l
            = asset_value x + sum_asset_values l'). lia.
  - change (asset_value y + (asset_value x + sum_asset_values l)
            = asset_value x + (asset_value y + sum_asset_values l)). lia.
  - lia.
Qed.

Lemma sum_asset_values_cons (x : asset_unspent) (l : list asset_unspent) :
  sum_asset_values (x :: l) = asset_value x + sum_asset_values l.
Proof. reflexivity. Qed.

Ltac sum_assets :=
  cbn [app] in *;
  repeat (rewrite sum_asset_values_app in * || rewrite sum_asset_values_cons in * );
  change (sum_asset_values []) with 0 in *.

Lemma sum_asset_values_utxo (l : list asset_unspent) :
  sum_values (map asset_utxo l) = sum_asset_values l.
Proof.
  induction l as [|x r IH]; [reflexivity|].
  change (value (asset_utxo x) + sum_values (map asset_utxo r)
          = asset_value x + sum_asset_values r).
  rewrite IH. reflexivity.
Qed.

Lemma insert_asset_by_value_perm (x : asset_unspent) (l : list asset_unspent) :
  Permutation (insert_asset_by_value x l) (x :: l).
Proof.
  induction l as [|y r IH]; cbn [insert_asset_by_value]; [reflexivity|].
  destruct (asset_value x <=? asset_value y); [reflexivity|].
  rewrite IH. apply perm_swap.
Qed.

Lemma sorted_assets_by_value_perm (l : list asset_unspent) :
  Permutation (sorted_assets_by_value l) l.
Proof.
  induction l as [|x r IH]; cbn [sorted_assets_by_value fold_right]; [reflexivity|].
  fold (sorted_assets_by_value r). rewrite insert_asset_by_value_perm, IH. reflexivity.
Qed.

Lemma insert_asset_by_value_sorted (x : asset_unspent) (l : list asset_unspent) :
  StronglySorted (fun a b => asset_value a <= asset_value b) l ->
  StronglySorted (fun a b => asset_value a <= asset_value b)
    (insert_asset_by_value x l).
Proof.
  induction 1 as [|y r Hs IH Hy]; cbn [insert_asset_by_value].
  - constructor; constructor.
  - destruct (Z.leb_spec (asset_value x) (asset_value y)) as [Hxy|Hxy].
    + constructor; [constructor; assumption|].
      constructor; [exact Hxy|].
      eapply Forall_impl; [|exact Hy]. cbv beta. intros; lia.
    + constructor; [exact IH|].
      eapply Permutation_Forall; [symmetry; apply insert_asset_by_value_perm|].
      constructor; [lia | exact Hy].
Qed.

Lemma sorted_assets_by_value_sorted (l : list asset_unspent) :
  StronglySorted (fun a b => asset_value a <= asset_value b)
    (sorted_assets_by_value l).
Proof.
  induction l as [|x r IH]; cbn [sorted_assets_by_value fold_right]; [constructor|].
  apply insert_asset_by_value_sorted. exact IH.
Qed.

Lemma gatherSatori_smallest_done (sats : Z) (pool : list asset_unspent)
    (g : Z) (gs : list asset_unspent) :
  sats <= g -> gatherSatori_smallest sats pool g gs = Ret (gs, g).
Proof.
  intros H. destruct pool; cbn [gatherSatori_smallest];
    destruct (Z.ltb_spec g sats); (lia || reflexivity).
Qed.

Lemma gatherSatori_smallest_spec (sats : Z) (pool : list asset_unspent) :
  forall g gs,
    g < sats <= g + sum_asset_values pool ->
    exists sel last rest,
      pool = sel ++ last :: rest
      /\ gatherSatori_smallest sats pool g gs
         = Ret (gs ++ sel ++ [last], g + sum_asset_values (sel ++ [last]))
      /\ g + sum_asset_values sel < sats
      /\ sats <= g + sum_asset_values (sel ++ [last]).
Proof.
  induction pool as [|x r IH]; intros g gs H.
  - sum_assets. lia.
  - cbn [gatherSatori_smallest].
    destruct (Z.ltb_spec g sats) as [_|]; [|lia].
    destruct (Z.lt_ge_cases (g + asset_value x) sats) as [Hlt|Hge].
    + destruct (IH (g + asset_value x) (gs ++ [x])) as (sel & last & rest & -> & E & H1 & H2).
      { sum_assets. lia. }
      exists (x :: sel), last, rest. split; [reflexivity|].
      rewrite E. rewrite <- !app_assoc. sum_assets.
      split; [f_equal; f_equal; lia|]. lia.
    + exists [], x, r. split; [reflexivity|].
      rewrite gatherSatori_smallest_done by lia.
      sum_assets. split; [f_equal; f_equal; lia|]. lia.
Qed.

Lemma pop_asset_nth_spec (i : nat) (l : list asset_unspent) :
  (i < length l)%nat ->
  exists x rest,
    pop_asset_nth i l = Some (x, rest)
    /\ Permutation (x :: rest) l
    /\ length l = S (length rest).
Proof.
  revert i. induction l as [|y r IH]; intros i H; cbn [length] in H; [lia|].
  destruct i as [|j]; cbn [pop_asset_nth].
  - exists y, r. repeat split; reflexivity.
  - destruct (IH j ltac:(lia)) as (x & rest & -> & P & L).
    exists x, (y :: rest). split; [reflexivity|]. split.
    + rewrite perm_swap. constructor. exact P.
    + cbn [length]. lia.
Qed.

Lemma gatherSatori_random_done (rand : nat -> nat -> nat) (draw : nat) (sats : Z)
    (len : nat) (pool : list asset_unspent) (g : Z) (gs : list asset_unspent) :
  sats <= g -> gatherSatori_random rand draw sats len pool g gs = Ret (gs, g).
Proof.
  intros H. destruct len; cbn [gatherSatori_random];
    destruct (Z.ltb_spec g sats); (lia || reflexivity).
Qed.

Lemma gatherSatori_random_spec (rand : nat -> nat -> nat) (sats : Z) (len : nat) :
  forall pool draw g gs,
    length pool = len ->
    g < sats <= g + sum_asset_values pool ->
    exists sel last rest,
      Permutation (sel ++ last :: rest) pool
      /\ gatherSatori_random rand draw sats len pool g gs
         = Ret (gs ++ sel ++ [last], g + sum_asset_values (sel ++ [last]))
      /\ g + sum_asset_values sel < sats
      /\ sats <= g + sum_asset_values (sel ++ [last]).
Proof.
  induction len as [|len IH]; intros pool draw g gs HL H.
  - destruct pool; [|discriminate]. sum_assets. lia.
  - cbn [gatherSatori_random].
    destruct (Z.ltb_spec g sats) as [_|]; [|lia].
    destruct (pop_asset_nth_spec (Nat.modulo (rand draw (S len)) (S len)) pool)
      as (x & r & -> & P & L).
    { rewrite HL. apply Nat.mod_upper_bound. discriminate. }
    pose proof (sum_asset_values_perm _ _ P) as HS.
    rewrite sum_asset_values_cons in HS.
    destruct (Z.lt_ge_cases (g + asset_value x) sats) as [Hlt|Hge].
    + destruct (IH r (S draw) (g + asset_value x) (gs ++ [x]))
        as (sel & last & rest & P' & E & H1 & H2); [lia | lia |].
      exists (x :: sel), last, rest. split.
      { cbn [app]. rewrite <- P. constructor. exact P'. }
      rewrite E. rewrite <- !app_assoc. sum_assets.
      split; [f_equal; f_equal; lia|]. lia.
    + exists [], x, r. split; [exact P|].
      rewrite gatherSatori_random_done by lia.
      sum_assets. split; [f_equal; f_equal; lia|]. lia.
Qed.

(** The outcome of [_gatherSatoriUnspents] in both modes. *)
Lemma _gatherSatoriUnspents_spec (unspentAssets : list asset_unspent)
    (sats : Z) (randomly : bool) (rand : nat -> nat -> nat) :
  let pool :=
    sorted_assets_by_value
      (filter (fun x => is_satori x && (0 <? asset_value x)) unspentAssets) in
  let result := _gatherSatoriUnspents unspentAssets sats randomly rand in
  (~ 0 < sats <= sum_asset_values pool ->
   result = Raise (TransactionFailure "tx: not enough satori to send"))
  /\ (0 < sats <= sum_asset_values pool ->
      exists sel last rest,
        result = Ret (sel ++ [last], sum_asset_values (sel ++ [last]))
        /\ Permutation (sel ++ last :: rest) pool
        /\ sum_asset_values sel < sats <= sum_asset_values (sel ++ [last])
        /\ (randomly = false -> pool = sel ++ last :: rest)).
Proof.
  intros pool result.
  unfold result, _gatherSatoriUnspents. fold pool. split.
  - intros H.
    destruct (Z.leb_spec sats (sum_asset_values pool));
      destruct (Z.ltb_spec 0 sats); cbn [andb negb]; try reflexivity. lia.
  - intros H.
    destruct (Z.leb_spec sats (sum_asset_values pool)); [|lia].
    destruct (Z.ltb_spec 0 sats); [|lia]. cbn [andb negb].
    destruct randomly.
    + destruct (gatherSatori_random_spec rand sats (length pool) pool 0%nat 0 []
                  eq_refl ltac:(lia)) as (sel & last & rest & P & E & B1 & B2).
      exists sel, last, rest. rewrite E. cbn [app].
      split; [f_equal; f_equal; lia|].
      split; [exact P|]. split; [lia | discriminate].
    + destruct (gatherSatori_smallest_spec sats pool 0 [] ltac:(lia))
        as (sel & last & rest & Hp & E & B1 & B2).
      exists sel, last, rest. rewrite E. cbn [app].
      split; [f_equal; f_equal; lia|].
      split; [rewrite Hp; reflexivity|]. split; [lia | intros _; exact Hp].
Qed.

(** X6: [_gatherSatoriUnspents] raises [TransactionFailure] exactly when
    the request is not positive or exceeds the total of the wallet's
    positive SATORI outputs.  Otherwise it returns, in either mode and
    without any [IndexError] from its unguarded [pop], a selection whose
    reported total is the sum of its values and reaches the request,
    while the selection without its last element does not: no output is
    gathered beyond the one that completes the amount.  With [randomly]
    false the selection is the shortest sufficient prefix of the outputs
    in ascending order of value. *)
Theorem _gatherSatoriUnspents_minimal (unspentAssets : list asset_unspent)
    (sats : Z) (randomly : bool) (rand : nat -> nat -> nat) :
  let pool :=
    sorted_assets_by_value
      (filter (fun x => is_satori x && (0 <? asset_value x)) unspentAssets) in
  let result := _gatherSatoriUnspents unspentAssets sats randomly rand in
  StronglySorted (fun a b => asset_value a <= asset_value b) pool
  /\ (~ 0 < sats <= sum_asset_values pool ->
      result = Raise (TransactionFailure "tx: not enough satori to send"))
  /\ (0 < sats <= sum_asset_values pool ->
      exists sel last rest,
        result = Ret (sel ++ [last], sum_asset_values (sel ++ [last]))
        /\ Permutation (sel ++ last :: rest) pool
        /\ sum_asset_values sel < sats <= sum_asset_values (sel ++ [last])
        /\ (randomly = false -> pool = sel ++ last :: rest)).
Proof.
  intros pool result. split; [apply sorted_assets_by_value_sorted|].
  apply _gatherSatoriUnspents_spec.
Qed.

Lemma _gatherSatoriUnspents_minimal_witness :
  exists sel last,
    _gatherSatoriUnspents
      [ {| asset_name := Some (lit "SATORI"); asset_asset := None;
           asset_utxo := utxo 300 |};
        {| asset_name := None; asset_asset := Some (lit "OTHER");
           asset_utxo := utxo 50 |};
        {| asset_name := None; asset_asset := Some (lit "SATORI");
           asset_utxo := utxo 200 |} ]
      250 false (fun _ _ => O)
    = Ret (sel ++ [last], sum_asset_values (sel ++ [last]))
    /\ sum_asset_values sel < 250 <= sum_asset_values (sel ++ [last]).
Proof.
  pose proof (_gatherSatoriUnspents_minimal
                [ {| asset_name := Some (lit "SATORI"); asset_asset := None;
                     asset_utxo := utxo 300 |};
                  {| asset_name := None; asset_asset := Some (lit "OTHER");
                     asset_utxo := utxo 50 |};
                  {| asset_name := None; asset_asset := Some (lit "SATORI");
                     asset_utxo := utxo 200 |} ]
                250 false (fun _ _ => O)) as [_ [_ H]].
  destruct (H ltac:(vm_compute; split; reflexivity || discriminate))
    as (sel & last & rest & E & _ & B & _).
  exists sel, last. split; [exact E | exact B].
Defined.

(** ** Currency selection with [randomly] true *)

Lemma pop_nth_spec (i : nat) (l : list unspent) :
  (i < length l)%nat ->
  exists x rest,
    pop_nth i l = Some (x, rest)
    /\ Permutation (x :: rest) l
    /\ length l = S (length rest).
Proof.
  revert i. induction l as [|y r IH]; intros i H; cbn [length] in H; [lia|].
  destruct i as [|j]; cbn [pop_nth].
  - exists y, r. repeat split; reflexivity.
  - destruct (IH j ltac:(lia)) as (x & rest & -> & P & L).
    exists x, (y :: rest). split; [reflexivity|]. split.
    + rewrite perm_swap. constructor. exact P.
    + cbn [length]. lia.
Qed.

Lemma gather_random_done (rand : nat -> nat -> nat) (draw : nat)
    (feeRate sats inputCount outputCount : Z) (len : nat) (pool : list unspent)
    (g : Z) (gs : list unspent) :
  Selection.below feeRate sats inputCount outputCount g gs = false ->
  gather_random rand draw feeRate sats inputCount outputCount len pool g gs
  = Ret (gs, g, draw).
Proof.
  intros H. destruct len; cbn [gather_random]; rewrite H; reflexivity.
Qed.

Lemma gather_random_spec (rand : nat -> nat -> nat)
    (feeRate sats inputCount outputCount : Z) (len : nat) :
  forall pool draw g gs,
    length pool = len ->
    match gather_random rand draw feeRate sats inputCount outputCount
            len pool g gs with
    | Ret (sel, total, _) =>
        exists picked rest,
          Permutation (picked ++ rest) pool
          /\ sel = gs ++ picked
          /\ total = g + sum_values picked
          /\ Selection.below feeRate sats inputCount outputCount total sel = false
    | Raise e =>
        e = ValueError "empty range for randrange()"
        /\ exists picked,
             Permutation picked pool
             /\ Selection.below feeRate sats inputCount outputCount
                  (g + sum_values picked) (gs ++ picked) = true
    end.
Proof.
  induction len as [|len IH]; intros pool draw g gs HL.
  - destruct pool; [|discriminate]. cbn [gather_random].
    destruct (Selection.below feeRate sats inputCount outputCount g gs) eqn:B.
    + split; [reflexivity|]. exists []. split; [constructor|].
      cbn [sum_values fold_right]. rewrite app_nil_r, Z.add_0_r. exact B.
    + exists [], []. split; [constructor|]. rewrite app_nil_r.
      cbn [sum_values fold_right]. rewrite Z.add_0_r. repeat split. exact B.
  - cbn [gather_random].
    destruct (Selection.below feeRate sats inputCount outputCount g gs) eqn:B.
    + destruct (pop_nth_spec (Nat.modulo (rand draw (S len)) (S len)) pool)
        as (x & r & -> & P & L).
      { rewrite HL. apply Nat.mod_upper_bound. discriminate. }
      specialize (IH r (S draw) (g + value x) (gs ++ [x]) ltac:(lia)).
      destruct (gather_random rand (S draw) feeRate sats inputCount outputCount
                  len r (g + value x) (gs ++ [x])) as [[[sel total] d]|e].
      * destruct IH as (picked & rest & P' & -> & -> & B').
        exists (x :: picked), rest. split.
        { cbn [app]. rewrite <- P. constructor. exact P'. }
        rewrite <- app_assoc. cbn [app sum_values fold_right].
        fold (sum_values picked).
        split; [reflexivity|]. split; [lia|].
        rewrite <- app_assoc in B'. cbn [app] in B'. exact B'.
      * destruct IH as (-> & picked & P' & B').
        split; [reflexivity|]. exists (x :: picked). split.
        { rewrite <- P. constructor. exact P'. }
        rewrite <- app_assoc in B'. cbn [app] in B'.
        cbn [sum_values fold_right]. fold (sum_values picked).
        rewrite Z.add_assoc. exact B'.
    + exists [], pool. split; [reflexivity|]. rewrite app_nil_r.
      cbn [sum_values fold_right]. rewrite Z.add_0_r. repeat split. exact B.
Qed.

(** X7: [_gatherCurrencyUnspents] with [randomly] true.  [U] is the set
    of positive-value currency outputs, [fee k] the fee for [k] selected
    inputs.  After the reserve check the call either returns a
    sub-collection of [U] with its total, and then the total covers
    [sats] plus the fee of the selected count, or it raises the
    [ValueError] of [randrange(0)]; there is no largest-first fallback in
    this mode.  The error is raised only when all of [U] together is
    below [sats] plus the fee for all of it, so a pool that covers its
    own fee always yields a selection. *)
Theorem _gatherCurrencyUnspents_randomly (w : Wallet)
    (sats inputCount outputCount : Z) (rand : nat -> nat -> nat) :
  let U := positive_currency w in
  let fee := fee_for TxUtils.defaultFeeRate inputCount outputCount in
  let result := _gatherCurrencyUnspents w sats inputCount outputCount true rand in
  (sum_values U < sats + reserve w ->
   result = Raise (TransactionFailure
                     "tx: must retain a reserve of currency to cover fees"))
  /\ (sats + reserve w <= sum_values U ->
      (forall sel total,
          result = Ret (sel, total) ->
          total = sum_values sel
          /\ (exists rest, Permutation (sel ++ rest) U)
          /\ sats + fee (length sel) <= total)
      /\ (forall e,
             result = Raise e ->
             e = ValueError "empty range for randrange()"
             /\ sum_values U < sats + fee (length U))
      /\ (sats + fee (length U) <= sum_values U ->
          exists sel total, result = Ret (sel, total))).
Proof.
  intros U fee result.
  set (Srt := sorted_by_value U).
  assert (PS : Permutation Srt U) by apply sorted_by_value_perm.
  assert (SS : sum_values Srt = sum_values U) by (apply sum_values_perm; exact PS).
  assert (Hres : result =
            if sum_values Srt <? sats + reserve w then
              Raise (TransactionFailure
                       "tx: must retain a reserve of currency to cover fees")
            else
              match gather_random rand 0 TxUtils.defaultFeeRate sats inputCount
                      outputCount (length Srt) Srt 0 [] with
              | Ret (us, s, _) => Ret (us, s)
              | Raise e => Raise e
              end).
  { unfold result, _gatherCurrencyUnspents, gatherCurrencyUnspentsAt.
    fold (positive_currency w). fold U. fold Srt.
    destruct (sum_values Srt <? sats + reserve w); [reflexivity|].
    destruct (gather_random rand 0 TxUtils.defaultFeeRate sats inputCount
                outputCount (length Srt) Srt 0 []) as [[[us s] d]|e];
      reflexivity. }
  pose proof (gather_random_spec rand TxUtils.defaultFeeRate sats inputCount
                outputCount (length Srt) Srt 0%nat 0 [] eq_refl) as G.
  split.
  - intros H. rewrite Hres.
    destruct (Z.ltb_spec (sum_values Srt) (sats + reserve w)); [reflexivity | lia].
  - intros H. rewrite Hres.
    destruct (Z.ltb_spec (sum_values Srt) (sats + reserve w)); [lia|].
    destruct (gather_random rand 0 TxUtils.defaultFeeRate sats inputCount
                outputCount (length Srt) Srt 0 []) as [[[us s] d]|e].
    + destruct G as (picked & rest & P & -> & -> & B). cbn [app] in *.
      repeat apply conj.
      * intros sel total E. injection E as <- <-.
        split; [lia|]. split; [exists rest; rewrite P; exact PS|].
        unfold Selection.below in B. apply Z.ltb_ge in B.
        unfold fee, fee_for. lia.
      * intros e E. discriminate.
      * intros _. eexists. eexists. reflexivity.
    + destruct G as (-> & picked & P & B). cbn [app] in B.
      assert (HP : Permutation picked U) by (rewrite P; exact PS).
      assert (HB : sum_values U < sats + fee (length U)).
      { unfold Selection.below in B. apply Z.ltb_lt in B.
        rewrite (sum_values_perm _ _ HP), (Permutation_length HP) in B.
        unfold fee, fee_for. lia. }
      repeat apply conj.
      * intros sel total E. discriminate.
      * intros e E. injection E as <-. split; [reflexivity | exact HB].
      * intros HU. lia.
Qed.

Lemma _gatherCurrencyUnspents_randomly_witness :
  exists sel total,
    _gatherCurrencyUnspents
      (wallet_of [utxo 700000; utxo 0; utxo 400000; utxo 900000] 100000)
      500000 0 1 true (fun k _ => k) = Ret (sel, total)
    /\ total = sum_values sel
    /\ 500000 + fee_for TxUtils.defaultFeeRate 0 1 (length sel) <= total.
Proof.
  pose proof (_gatherCurrencyUnspents_randomly
                (wallet_of [utxo 700000; utxo 0; utxo 400000; utxo 900000] 100000)
                500000 0 1 (fun k _ => k)) as [_ H].
  destruct (H ltac:(vm_compute; discriminate)) as (Hret & _ & Hex).
  destruct (Hex ltac:(vm_compute; discriminate)) as (sel & total & E).
  exists sel, total. split; [exact E|].
  destruct (Hret sel total E) as (Ht & _ & Hc). split; [exact Ht | exact Hc].
Defined.

(** ** Building and signing a whole transaction *)

Lemma compile_loop_txins (f : unspent -> pyres CScript) (us : list unspent)
    (txins : list CMutableTxIn) (scripts : list CScript) :
  compile_loop f us = Ret (txins, scripts) ->
  txins = map new_txin us /\ length scripts = length us.
Proof.
  revert txins scripts. induction us as [|u r IH]; intros txins scripts H;
    cbn [compile_loop] in H.
  - injection H as <- <-. split; reflexivity.
  - destruct (txin_of u) as [t|e] eqn:Et; cbn [bind] in H; [|discriminate].
    apply txin_of_ret in Et. subst t.
    destruct (f u) as [s|e]; cbn [bind] in H; [|discriminate].
    destruct (compile_loop f r) as [[ins scs]|e]; cbn [bind] in H; [|discriminate].
    injection H as <- <-. destruct (IH ins scs eq_refl) as [-> HL].
    cbn [fst snd map length]. split; [reflexivity | lia].
Qed.

Lemma _compileInputs_txins (C : Collaborators) (w : Wallet)
    (cur sat : list unspent) (rs : list (pystr * CScript))
    (txins : list CMutableTxIn) (scripts : list CScript) :
  _compileInputs C w cur sat rs = Ret (txins, scripts) ->
  txins = map new_txin (cur ++ sat)
  /\ length scripts = length txins.
Proof.
  unfold _compileInputs. intros H.
  destruct (compile_loop (currency_input_script C rs) cur) as [[i1 s1]|e] eqn:E1;
    cbn [bind] in H; [|discriminate].
  destruct (compile_loop (satori_input_script C w rs) sat) as [[i2 s2]|e] eqn:E2;
    cbn [bind] in H; [|discriminate].
  cbn [fst snd] in H. injection H as <- <-.
  destruct (compile_loop_txins _ _ _ _ E1) as [-> L1].
  destruct (compile_loop_txins _ _ _ _ E2) as [-> L2].
  rewrite map_app, !length_app, !length_map. split; [reflexivity | lia].
Qed.

Lemma update_nth_prevouts (i : nat) (x : CMutableTxIn) (l : list CMutableTxIn)
    (a : CMutableTxIn) :
  nth_error l i = Some a -> prevout x = prevout a ->
  map prevout (update_nth i x l) = map prevout l.
Proof.
  revert i. induction l as [|y r IH]; intros i H E; destruct i; cbn in *;
    try discriminate.
  - injection H as ->. rewrite E. reflexivity.
  - f_equal. apply IH; assumption.
Qed.

Lemma set_scriptSig_prevouts (i : nat) (s : CScript) (tx : CMutableTransaction) :
  map prevout (vin (set_scriptSig i s tx)) = map prevout (vin tx).
Proof.
  unfold set_scriptSig. destruct (nth_error (vin tx) i) as [a|] eqn:E; [|reflexivity].
  cbn [vin]. apply (update_nth_prevouts i _ _ a E). reflexivity.
Qed.

Lemma _signInput_prevouts (C : Collaborators) (i : nat) (script : CScript)
    (flag : Z) (redeem : option CScript) (sigs : option (list bytes))
    (tx : CMutableTransaction) :
  map prevout (vin (fst (_signInput C i script flag redeem sigs tx)))
  = map prevout (vin tx).
Proof.
  destruct (_signInput_tx C i script flag redeem sigs tx) as [s [-> _]].
  apply set_scriptSig_prevouts.
Qed.

Lemma _createTransaction_loop_frame (C : Collaborators) (L : AddressLib)
    (rs : option (list (pystr * CScript)))
    (sigs : option (list (pystr * list bytes))) (txins : list CMutableTxIn) :
  forall i scripts tx,
    let tx' := fst (_createTransaction_loop C L rs sigs i txins scripts tx) in
    vout tx' = vout tx /\ map prevout (vin tx') = map prevout (vin tx).
Proof.
  induction txins as [|txin r IH]; intros i scripts tx; cbn [_createTransaction_loop].
  - split; reflexivity.
  - destruct scripts as [|s ss]; [split; reflexivity|].
    match goal with
    | |- context [_signInput C i s SIGHASH_ALL ?a ?b tx] =>
        pose proof (_signInput_vout C i s SIGHASH_ALL a b tx) as Hv;
        pose proof (_signInput_prevouts C i s SIGHASH_ALL a b tx) as Hp;
        destruct (_signInput C i s SIGHASH_ALL a b tx) as [tx1 [u|e]]
    end; cbn [fst] in *.
    + destruct (IH (S i) ss tx1) as [H1 H2]. cbv zeta in H1, H2.
      split; congruence.
    + split; assumption.
Qed.

Lemma _createTransaction_frame (C : Collaborators) (L : AddressLib)
    (txins : list CMutableTxIn) (scripts : list CScript)
    (txouts : list CMutableTxOut)
    (rs : option (list (pystr * CScript)))
    (sigs : option (list (pystr * list bytes))) :
  let tx := fst (_createTransaction C L txins scripts txouts rs sigs) in
  vout tx = txouts /\ map prevout (vin tx) = map prevout txins.
Proof.
  unfold _createTransaction.
  apply (_createTransaction_loop_frame C L rs sigs txins 0 scripts
           {| vin := txins; vout := txouts |}).
Qed.

Lemma _compileCurrencyChangeOutput_cases (C : Collaborators) (L : AddressLib)
    (w : Wallet) (currencySats gathered inputCount outputCount : Z)
    (override : option CScript) :
  let change :=
    gathered - currencySats
    - TxUtils.estimatedFee inputCount outputCount TxUtils.defaultFeeRate in
  let result := _compileCurrencyChangeOutput C L w currencySats gathered
                  inputCount outputCount override in
  (change < 0 ->
   result = Raise (TransactionFailure "tx: not enough currency to send"))
  /\ (change = 0 -> result = Ret None)
  /\ (forall r, result = Ret r ->
        0 <= change
        /\ (r = None <-> change = 0)
        /\ (forall out c, r = Some (out, c) ->
              c = change /\ nValue out = change
              /\ address_str L (address w) = Ret (address w)
              /\ match truthy_script override with
                 | Some s => scriptPubKey out = s
                 | None =>
                     address_to_scriptPubKey C (address w)
                     = Ret (scriptPubKey out)
                 end)).
Proof.
  intros change result. unfold result, _compileCurrencyChangeOutput. fold change.
  repeat apply conj.
  - intros H. destruct (Z.ltb_spec 0 change); [lia|].
    destruct (Z.ltb_spec change 0); [reflexivity | lia].
  - intros H. destruct (Z.ltb_spec 0 change); [lia|].
    destruct (Z.ltb_spec change 0); [lia | reflexivity].
  - intros r H. destruct (Z.ltb_spec 0 change) as [Hpos|Hle].
    + destruct (address_str L (address w)) as [shown|e] eqn:Es; cbn [bind] in H;
        [|discriminate].
      destruct (str_eqb shown (address w)) eqn:Eq; cbn [negb] in H; [|discriminate].
      apply str_eqb_eq in Eq. subst shown.
      destruct (address_to_scriptPubKey C (address w)) as [own|e] eqn:Eo;
        cbn [bind] in H; [|discriminate].
      destruct (script_neb C own (identity_scriptPubKey L)); [discriminate|].
      destruct (truthy_script override) as [s|] eqn:Et; cbn [bind] in H.
      * injection H as <-. split; [lia|]. split; [split; [discriminate | lia]|].
        intros out c E. injection E as <- <-. cbn. repeat split; reflexivity.
      * cbn [bind] in H. injection H as <-.
        split; [lia|]. split; [split; [discriminate | lia]|].
        intros out c E. injection E as <- <-. cbn. repeat split; reflexivity.
    + destruct (Z.ltb_spec change 0); [discriminate|]. injection H as <-.
      split; [lia|]. split; [split; [lia | reflexivity]|].
      intros out c E. discriminate.
Qed.

Lemma _compileSatoriChangeOutput_cases (C : Collaborators) (w : Wallet)
    (satoriSats gathered : Z) (r : option CMutableTxOut) :
  _compileSatoriChangeOutput C w satoriSats gathered = Ret r ->
  0 <= gathered - satoriSats
  /\ match r with
     | Some out =>
         0 < gathered - satoriSats
         /\ _compileSatoriOutput C w (address w) (gathered - satoriSats) = Ret out
     | None => gathered - satoriSats = 0
     end.
Proof.
  unfold _compileSatoriChangeOutput. intros H.
  destruct (Z.ltb_spec 0 (gathered - satoriSats)) as [Hpos|Hle].
  - destruct (_compileSatoriOutput C w (address w) (gathered - satoriSats))
      as [out|e]; cbn [bind] in H; [|discriminate].
    injection H as <-. split; [lia|]. split; [lia | reflexivity].
  - destruct (Z.ltb_spec (gathered - satoriSats) 0); [discriminate|].
    injection H as <-. split; lia.
Qed.

Lemma _gatherSatoriUnspents_total (unspentAssets : list asset_unspent)
    (sats : Z) (randomly : bool) (rand : nat -> nat -> nat)
    (gathered : list asset_unspent) (total : Z) :
  _gatherSatoriUnspents unspentAssets sats randomly rand = Ret (gathered, total) ->
  total = sum_asset_values gathered /\ 0 < sats <= total.
Proof.
  intros H.
  destruct (_gatherSatoriUnspents_spec unspentAssets sats randomly rand) as [HA HB].
  cbv zeta in HA, HB.
  set (pool := sorted_assets_by_value
                 (filter (fun x => is_satori x && (0 <? asset_value x))
                    unspentAssets)) in *.
  destruct (Z.lt_ge_cases 0 sats) as [Hp|Hn];
    [destruct (Z.le_gt_cases sats (sum_asset_values pool)) as [Hs|Hs]|].
  - destruct (HB (conj Hp Hs)) as (sel & last & rest & E & _ & B & _).
    rewrite E in H. injection H as <- <-. split; [reflexivity | lia].
  - rewrite HA in H by lia. discriminate.
  - rewrite HA in H by lia. discriminate.
Qed.

Lemma _gatherCurrencyUnspents_total (w : Wallet) (sats inputCount outputCount : Z)
    (rand : nat -> nat -> nat) (gathered : list unspent) (total : Z) :
  _gatherCurrencyUnspents w sats inputCount outputCount false rand
  = Ret (gathered, total) ->
  total = sum_values gathered.
Proof.
  intros H.
  destruct (gatherCurrencyUnspentsAt_spec TxUtils.defaultFeeRate w
              sats inputCount outputCount rand) as [HA HB].
  cbv zeta in HA, HB. unfold _gatherCurrencyUnspents in H.
  destruct (Z.lt_ge_cases (sum_values (positive_currency w)) (sats + reserve w))
    as [Hlt|Hge].
  - rewrite (HA Hlt) in H. discriminate.
  - destruct (HB Hge) as (sel & tot & E & Ht & _).
    rewrite E in H. injection H as <- <-. exact Ht.
Qed.

(** X8: whenever [satoriTransaction] gets as far as a signed transaction,
    the amount sent is positive, the inputs are the gathered currency
    outputs followed by the gathered SATORI outputs, and the outputs are:
    the asset output carrying the rounded amount to the recipient; then
    an asset output back to the wallet for the gathered SATORI beyond
    that amount, present exactly when there is any; then a currency
    output to the wallet for the gathered currency beyond the fee,
    present exactly when there is any.  The fee is
    [estimatedFee] for the transaction's inputs and three outputs,
    whatever the number of outputs turns out to be, and neither change
    is negative: signing alters neither outputs nor outpoints. *)
Theorem satoriTransaction_accounts (C : Collaborators) (L : AddressLib)
    (w : Wallet) (unspentAssets : list asset_unspent) (divisibility : Z)
    (amount_le_0 : bool) (amountSats : Z) (recipient : pystr)
    (tx : CMutableTransaction) (outcome : pyres unit) :
  satoriTransactionTx C L w unspentAssets divisibility amount_le_0 amountSats
    recipient = Ret (tx, outcome) ->
  exists satoriSats gatheredSatori gatheredCurrency toRecipient,
    amount_le_0 = false
    /\ Validate.address recipient (symbol w) = true
    /\ TxUtils.roundSatsDownToDivisibility amountSats divisibility = Ret satoriSats
    /\ _gatherSatoriUnspents unspentAssets satoriSats false (fun _ _ => O)
       = Ret (gatheredSatori, sum_asset_values gatheredSatori)
    /\ _gatherCurrencyUnspents w 0 (Z.of_nat (length gatheredSatori)) 3 false
         (fun _ _ => O)
       = Ret (gatheredCurrency, sum_values gatheredCurrency)
    /\ map prevout (vin tx)
       = map (fun u => prevout (new_txin u))
           (gatheredCurrency ++ map asset_utxo gatheredSatori)
    /\ _compileSatoriOutput C w recipient satoriSats = Ret toRecipient
    /\ let satoriChange := sum_asset_values gatheredSatori - satoriSats in
       let fee := TxUtils.estimatedFee (Z.of_nat (length (vin tx))) 3
                    TxUtils.defaultFeeRate in
       let currencyChange := sum_values gatheredCurrency - fee in
       0 < satoriSats /\ 0 <= satoriChange /\ 0 <= currencyChange
       /\ exists satoriChangeOut currencyChangeOut,
            vout tx
            = toRecipient
              :: (if 0 <? satoriChange then [satoriChangeOut] else [])
              ++ (if 0 <? currencyChange then [currencyChangeOut] else [])
            /\ (0 < satoriChange ->
                _compileSatoriOutput C w (address w) satoriChange
                = Ret satoriChangeOut)
            /\ (0 < currencyChange ->
                nValue currencyChangeOut = currencyChange
                /\ address_to_scriptPubKey C (address w)
                   = Ret (scriptPubKey currencyChangeOut)).
Proof.
  unfold satoriTransactionTx. intros H.
  destruct amount_le_0; cbn [orb] in H; [discriminate|].
  destruct (Validate.address recipient (symbol w)) eqn:Ev; cbn [negb] in H;
    [|discriminate].
  destruct (TxUtils.roundSatsDownToDivisibility amountSats divisibility)
    as [satoriSats|e] eqn:Er; cbn [bind] in H; [|discriminate].
  destruct (_gatherSatoriUnspents unspentAssets satoriSats false (fun _ _ => O))
    as [[gs gsats]|e] eqn:Egs; cbn [bind] in H; [|discriminate].
  destruct (_gatherSatoriUnspents_total _ _ _ _ _ _ Egs) as [-> Hsats].
  destruct (_gatherCurrencyUnspents w 0 (Z.of_nat (length gs)) 3 false (fun _ _ => O))
    as [[gc gcsats]|e] eqn:Egc; cbn [bind] in H; [|discriminate].
  pose proof (_gatherCurrencyUnspents_total _ _ _ _ _ _ _ Egc) as ->.
  destruct (_compileInputs C w gc (map asset_utxo gs) []) as [[txins scripts]|e] eqn:Ei;
    cbn [bind] in H; [|discriminate].
  destruct (_compileInputs_txins _ _ _ _ _ _ _ Ei) as [Hins Hlen].
  cbn [_compileSatoriOutputs] in H.
  destruct (_compileSatoriOutput C w recipient satoriSats) as [o1|e] eqn:Eo1;
    cbn [bind] in H; [|discriminate].
  destruct (_compileSatoriChangeOutput C w satoriSats (sum_asset_values gs))
    as [sc|e] eqn:Esc; cbn [bind] in H; [|discriminate].
  destruct (_compileSatoriChangeOutput_cases _ _ _ _ _ Esc) as [Hsc0 Hsc].
  destruct (_compileCurrencyChangeOutput C L w 0 (sum_values gc)
              (Z.of_nat (length txins)) 3 None) as [cc|e] eqn:Ecc;
    cbn [bind] in H; [|discriminate].
  destruct (_compileCurrencyChangeOutput_cases C L w 0 (sum_values gc)
              (Z.of_nat (length txins)) 3 None) as (_ & _ & Hcc).
  cbv zeta in Hcc. destruct (Hcc cc Ecc) as (Hcc0 & Hnone & Hsome).
  injection H as Htx.
  assert (Hfr : vout tx = [o1] ++ not_None [sc; option_map fst cc]
                /\ map prevout (vin tx) = map prevout txins).
  { assert (Etx : tx = fst (_createTransaction C L txins scripts
                              ([o1] ++ not_None [sc; option_map fst cc])
                              None None))
      by exact (eq_sym (f_equal fst Htx)).
    rewrite Etx. apply _createTransaction_frame. }
  destruct Hfr as [Hv Hp].
  assert (Hn : length (vin tx) = length txins).
  { rewrite <- (length_map prevout (vin tx)), Hp, length_map. reflexivity. }
  exists satoriSats, gs, gc, o1.
  do 5 (split; [first [reflexivity | assumption]|]).
  split.
  { rewrite Hp, Hins, map_map. reflexivity. }
  split; [first [reflexivity | assumption]|].
  cbv zeta. rewrite Hn.
  replace (sum_values gc - 0
           - TxUtils.estimatedFee (Z.of_nat (length txins)) 3 TxUtils.defaultFeeRate)
    with (sum_values gc
          - TxUtils.estimatedFee (Z.of_nat (length txins)) 3 TxUtils.defaultFeeRate)
    in * by lia.
  set (change := sum_values gc
                 - TxUtils.estimatedFee (Z.of_nat (length txins)) 3
                     TxUtils.defaultFeeRate) in *.
  split; [lia|]. split; [lia|]. split; [lia|].
  rewrite Hv. cbn [app].
  destruct sc as [sco|]; destruct cc as [[cco c]|]; cbn [not_None option_map fst].
  - destruct Hsc as [Hpos Hsco]. destruct (Hsome cco c eq_refl) as (-> & Hnv & _ & Hs).
    cbn [truthy_script] in Hs.
    assert (0 < change).
    { destruct (Z.eq_dec change 0) as [E0|]; [|lia].
      apply Hnone in E0. discriminate. }
    exists sco, cco.
    destruct (Z.ltb_spec 0 (sum_asset_values gs - satoriSats)); [|lia].
    destruct (Z.ltb_spec 0 change); [|lia].
    split; [reflexivity|]. split; [intros _; exact Hsco|].
    intros _. split; assumption.
  - destruct Hsc as [Hpos Hsco].
    assert (change = 0) by (apply Hnone; reflexivity).
    exists sco, o1.
    destruct (Z.ltb_spec 0 (sum_asset_values gs - satoriSats)); [|lia].
    destruct (Z.ltb_spec 0 change); [lia|].
    split; [reflexivity|]. split; [intros _; exact Hsco | lia].
  - destruct (Hsome cco c eq_refl) as (-> & Hnv & _ & Hs).
    cbn [truthy_script] in Hs.
    assert (0 < change).
    { destruct (Z.eq_dec change 0) as [E0|]; [|lia].
      apply Hnone in E0. discriminate. }
    exists o1, cco.
    destruct (Z.ltb_spec 0 (sum_asset_values gs - satoriSats)); [lia|].
    destruct (Z.ltb_spec 0 change); [|lia].
    split; [reflexivity|]. split; [lia|].
    intros _. split; assumption.
  - assert (change = 0) by (apply Hnone; reflexivity).
    exists o1, o1.
    destruct (Z.ltb_spec 0 (sum_asset_values gs - satoriSats)); [lia|].
    destruct (Z.ltb_spec 0 change); [lia|].
    split; [reflexivity|]. split; lia.
Qed.

(** ** The originator of a partial transaction *)

Lemma sign_inputs_prevouts (C : Collaborators) (flag : Z) (count : nat) :
  forall i scripts tx,
    map prevout (vin (fst (sign_inputs C flag i count scripts tx)))
    = map prevout (vin tx).
Proof.
  induction count as [|count IH]; intros i scripts tx; cbn [sign_inputs].
  - reflexivity.
  - destruct scripts as [|s ss]; [reflexivity|].
    pose proof (_signInput_prevouts C i s flag None None tx) as Hp.
    destruct (_signInput C i s flag None None tx) as [tx1 [u|e]]; cbn [fst] in *.
    + rewrite IH. exact Hp.
    + exact Hp.
Qed.

Lemma _createPartialOriginatorSimple_prevouts (C : Collaborators)
    (txins : list CMutableTxIn) (scripts : list CScript)
    (txouts : list CMutableTxOut) :
  map prevout (vin (fst (_createPartialOriginatorSimple C txins scripts txouts)))
  = map prevout txins.
Proof.
  unfold _createPartialOriginatorSimple. rewrite sign_inputs_prevouts. reflexivity.
Qed.

(** The parts of a partial transaction that [satoriOnlyPartialSimple]
    returns. *)
Lemma satoriOnlyPartialSimpleTx_shape (C : Collaborators) (L : AddressLib)
    (w : Wallet) (unspentAssets : list asset_unspent) (divisibility : Z)
    (amount_le_0 : bool) (amountSats : Z) (recipient : pystr)
    (feeSatsReserved : Z) (completerAddress changeAddress : option pystr)
    (tx : CMutableTransaction) (outcome : pyres unit) (reportedFeeSats : Z) :
  satoriOnlyPartialSimpleTx C L w unspentAssets divisibility amount_le_0
    amountSats recipient feeSatsReserved completerAddress changeAddress
  = Ret (tx, outcome, reportedFeeSats) ->
  exists completer changeTo satoriSats gathered toRecipient satoriChangeOut
         mundoFeeOut currencyChangeOut changeScript,
    completerAddress = Some completer /\ changeAddress = Some changeTo
    /\ Validate.address recipient (symbol w) = true
    /\ TxUtils.roundSatsDownToDivisibility amountSats divisibility = Ret satoriSats
    /\ _gatherSatoriUnspents unspentAssets (satoriSats + mundoFee w) false
         (fun _ _ => O)
       = Ret (gathered, sum_asset_values gathered)
    /\ map prevout (vin tx)
       = map (fun u => prevout (new_txin u)) (map asset_utxo gathered)
    /\ _compileSatoriOutput C w recipient satoriSats = Ret toRecipient
    /\ _compileSatoriChangeOutput C w satoriSats
         (sum_asset_values gathered - mundoFee w) = Ret satoriChangeOut
    /\ _compileSatoriOutput C w completer (mundoFee w) = Ret mundoFeeOut
    /\ address_to_scriptPubKey C changeTo = Ret changeScript
    /\ vout tx = toRecipient :: not_None [satoriChangeOut]
                 ++ [mundoFeeOut; currencyChangeOut]
    /\ reportedFeeSats
       = TxUtils.estimatedFee (Z.of_nat (length (vin tx)))
           (Z.of_nat (length (vout tx))) TxUtils.defaultFeeRate
    /\ nValue currencyChangeOut = feeSatsReserved - reportedFeeSats
    /\ 0 < feeSatsReserved - reportedFeeSats
    /\ match truthy_script (Some changeScript) with
       | Some s => scriptPubKey currencyChangeOut = s
       | None =>
           address_to_scriptPubKey C (address w)
           = Ret (scriptPubKey currencyChangeOut)
       end.
Proof.
  unfold satoriOnlyPartialSimpleTx. intros H.
  destruct completerAddress as [completer|]; [|discriminate].
  destruct changeAddress as [changeTo|]; [|discriminate].
  destruct (feeSatsReserved =? 0); [discriminate|].
  destruct amount_le_0; cbn [orb] in H; [discriminate|].
  destruct (Validate.address recipient (symbol w)) eqn:Ev; cbn [negb] in H;
    [|discriminate].
  destruct (TxUtils.roundSatsDownToDivisibility amountSats divisibility)
    as [satoriSats|e] eqn:Er; cbn [bind] in H; [|discriminate].
  destruct (_gatherSatoriUnspents unspentAssets (satoriSats + mundoFee w) false
              (fun _ _ => O)) as [[gs gsats]|e] eqn:Egs; cbn [bind] in H;
    [|discriminate].
  destruct (_gatherSatoriUnspents_total _ _ _ _ _ _ Egs) as [-> Hsats].
  destruct (_compileInputs C w [] (map asset_utxo gs) []) as [[txins scripts]|e] eqn:Ei;
    cbn [bind] in H; [|discriminate].
  destruct (_compileInputs_txins _ _ _ _ _ _ _ Ei) as [Hins Hlen].
  cbn [app] in Hins.
  cbn [_compileSatoriOutputs] in H.
  destruct (_compileSatoriOutput C w recipient satoriSats) as [o1|e] eqn:Eo1;
    cbn [bind] in H; [|discriminate].
  destruct (_compileSatoriChangeOutput C w satoriSats
              (sum_asset_values gs - mundoFee w)) as [sc|e] eqn:Esc;
    cbn [bind] in H; [|discriminate].
  destruct (_compileSatoriOutput C w completer (mundoFee w)) as [o2|e] eqn:Eo2;
    cbn [bind] in H; [|discriminate].
  destruct (address_to_scriptPubKey C changeTo) as [changeScript|e] eqn:Ech;
    cbn [bind] in H; [|discriminate].
  cbn [length] in H.
  match type of H with
  | context [_compileCurrencyChangeOutput C L w 0 feeSatsReserved ?ic ?oc ?sp] =>
      pose proof (_compileCurrencyChangeOutput_cases C L w 0 feeSatsReserved ic oc sp)
        as (_ & _ & Hcc);
      destruct (_compileCurrencyChangeOutput C L w 0 feeSatsReserved ic oc sp)
        as [cc|e] eqn:Ecc; cbn [bind] in H; [|discriminate];
      set (outputCount := oc) in *
  end.
  cbv zeta in Hcc. destruct (Hcc cc eq_refl) as (Hcc0 & Hnone & Hsome).
  destruct cc as [[cco c]|]; [|discriminate].
  destruct (Hsome cco c eq_refl) as (-> & Hnv & _ & Hs).
  injection H as Htx Hrep.
  assert (Hpos : 0 < feeSatsReserved - 0
                     - TxUtils.estimatedFee (Z.of_nat (length gs)) outputCount
                         TxUtils.defaultFeeRate).
  { match goal with |- 0 < ?c => destruct (Z.eq_dec c 0) as [E0|]; [|lia] end.
    apply Hnone in E0. discriminate. }
  assert (Hfr : vout tx = o1 :: not_None [sc] ++ [o2; cco]
                /\ map prevout (vin tx) = map prevout txins).
  { assert (Etx : tx = fst (_createPartialOriginatorSimple C txins scripts
                              ([o1] ++ not_None [sc] ++ [o2; cco])))
      by exact (eq_sym (f_equal fst Htx)).
    rewrite Etx. split.
    - apply _createPartialOriginatorSimple_vout.
    - apply _createPartialOriginatorSimple_prevouts. }
  destruct Hfr as [Hv Hp].
  assert (Hn : length (vin tx) = length gs).
  { rewrite <- (length_map prevout (vin tx)), Hp, Hins, !length_map. reflexivity. }
  assert (Ho : Z.of_nat (length (vout tx)) = outputCount).
  { rewrite Hv. unfold outputCount. destruct sc; cbn [not_None app length]; lia. }
  exists completer, changeTo, satoriSats, gs, o1, sc, o2, cco, changeScript.
  do 5 (split; [first [reflexivity | assumption]|]).
  split; [rewrite Hp, Hins, map_map; reflexivity|].
  do 4 (split; [first [reflexivity | assumption]|]).
  split; [exact Hv|].
  rewrite Hn, Ho.
  split; [lia|]. split; [lia|]. split; [lia|]. exact Hs.
Qed.

Lemma nth_from_end_app_two {A : Type} (l : list A) (a b : A) :
  nth_from_end (l ++ [a; b]) 1 = Ret b /\ nth_from_end (l ++ [a; b]) 2 = Ret a.
Proof.
  unfold nth_from_end. rewrite rev_app_distr. split; reflexivity.
Qed.

(** X9: what [satoriOnlyPartialSimple] reports.  Whenever it returns,
    the reported fee is [estimatedFee] over the inputs and outputs of the
    partial transaction itself (the input the completer adds is not
    counted), it is positive and strictly below [feeSatsReserved]; the
    last output carries exactly [feeSatsReserved - reportedFeeSats] of
    currency, the output before it is the asset output paying the mundo
    fee to [completerAddress], and the gathered SATORI equal the amount
    sent plus the mundo fee plus a change that is not negative. *)
Theorem satoriOnlyPartialSimple_report (C : Collaborators) (L : AddressLib)
    (w : Wallet) (unspentAssets : list asset_unspent) (divisibility : Z)
    (amount_le_0 : bool) (amountSats : Z) (recipient : pystr)
    (feeSatsReserved : Z) (completerAddress changeAddress : option pystr)
    (tx : CMutableTransaction) (outcome : pyres unit) (reportedFeeSats : Z) :
  satoriOnlyPartialSimpleTx C L w unspentAssets divisibility amount_le_0
    amountSats recipient feeSatsReserved completerAddress changeAddress
  = Ret (tx, outcome, reportedFeeSats) ->
  reportedFeeSats
  = TxUtils.estimatedFee (Z.of_nat (length (vin tx)))
      (Z.of_nat (length (vout tx))) TxUtils.defaultFeeRate
  /\ 0 < reportedFeeSats < feeSatsReserved
  /\ (exists currencyChangeOut,
         nth_from_end (vout tx) 1 = Ret currencyChangeOut
         /\ nValue currencyChangeOut = feeSatsReserved - reportedFeeSats)
  /\ (exists completer mundoFeeOut,
         completerAddress = Some completer
         /\ nth_from_end (vout tx) 2 = Ret mundoFeeOut
         /\ _compileSatoriOutput C w completer (mundoFee w) = Ret mundoFeeOut)
  /\ (exists satoriSats gathered satoriChange,
         TxUtils.roundSatsDownToDivisibility amountSats divisibility
         = Ret satoriSats
         /\ map prevout (vin tx)
            = map (fun u => prevout (new_txin u)) (map asset_utxo gathered)
         /\ sum_asset_values gathered = satoriSats + mundoFee w + satoriChange
         /\ 0 <= satoriChange
         /\ length (vout tx) = (if 0 <? satoriChange then 4%nat else 3%nat)).
Proof.
  intros H.
  destruct (satoriOnlyPartialSimpleTx_shape _ _ _ _ _ _ _ _ _ _ _ _ _ _ H)
    as (completer & changeTo & satoriSats & gs & o1 & sc & o2 & cco & changeScript
        & -> & -> & Ev & Er & Egs & Hp & Eo1 & Esc & Eo2 & Ech & Hv & Hrep
        & Hnv & Hpos & Hs).
  destruct (_compileSatoriChangeOutput_cases _ _ _ _ _ Esc) as [Hsc0 Hsc].
  assert (Hv' : vout tx = (o1 :: not_None [sc]) ++ [o2; cco]) by (rewrite Hv; reflexivity).
  destruct (nth_from_end_app_two (o1 :: not_None [sc]) o2 cco) as [N1 N2].
  rewrite <- Hv' in N1, N2.
  split; [exact Hrep|]. split.
  { split; [|lia]. rewrite Hrep. unfold TxUtils.estimatedFee, TxUtils.defaultFeeRate.
    rewrite Hv. cbn [length]. lia. }
  split; [exists cco; split; assumption|].
  split; [exists completer, o2; repeat split; assumption|].
  exists satoriSats, gs, (sum_asset_values gs - mundoFee w - satoriSats).
  split; [exact Er|]. split; [exact Hp|]. split; [lia|]. split; [lia|].
  rewrite Hv. destruct sc as [sco|]; cbn [not_None app length].
  - destruct Hsc as [Hgt _].
    destruct (Z.ltb_spec 0 (sum_asset_values gs - mundoFee w - satoriSats)); [reflexivity | lia].
  - destruct (Z.ltb_spec 0 (sum_asset_values gs - mundoFee w - satoriSats)); [lia | reflexivity].
Qed.

(** ** From the originator to the completer *)

Lemma _checkSatoriValue_plain (w : Wallet) (out : CMutableTxOut) (amount : option Z) :
  Forall (fun e => is_op OP_EVR_ASSET e = false) (scriptPubKey out) ->
  _checkSatoriValue w out amount = Ret false.
Proof.
  unfold _checkSatoriValue. induction 1 as [|e r He _ IH];
    cbn [_checkSatoriValue_loop]; [reflexivity|].
  rewrite He. exact IH.
Qed.

Lemma _verifyClaim_simple_found (w : Wallet) (vouts : list CMutableTxOut) :
  forall acc,
    (forall x, In x vouts ->
       exists b, _checkSatoriValue w x (Some (mundoFee w)) = Ret b) ->
    exists r,
      _verifyClaim_simple w vouts acc = Ret r
      /\ (acc = true -> r = true)
      /\ ((exists x, In x vouts
                     /\ _checkSatoriValue w x (Some (mundoFee w)) = Ret true) ->
          r = true).
Proof.
  induction vouts as [|x r IH]; intros acc Hall; cbn [_verifyClaim_simple].
  - exists acc. split; [reflexivity|]. split; [auto|]. intros (x & [] & _).
  - destruct (Hall x (or_introl eq_refl)) as [b Hb].
    rewrite _checkSatoriValue_mundoFee, Hb. cbn [bind].
    destruct (IH (if b then true else acc)) as (res & E & Hacc & Hex).
    { intros y Hy. apply Hall. right. exact Hy. }
    exists res. split; [exact E|]. split.
    + intros ->. apply Hacc. destruct b; reflexivity.
    + intros (y & [<-|Hy] & Hc).
      * apply Hacc. rewrite Hb in Hc. injection Hc as ->. reflexivity.
      * apply Hex. exists y. split; assumption.
Qed.

Lemma _compileSatoriOutput_script (C : Collaborators) (w : Wallet)
    (addr : pystr) (sats : Z) (out : CMutableTxOut) :
  _compileSatoriOutput C w addr sats = Ret out ->
  exists base tag,
    address_to_scriptPubKey C addr = Ret base
    /\ encodeAssetTag (symbol w) AssetTransaction.defaultAsset sats = Ret tag
    /\ out = {| nValue := 0;
                scriptPubKey := base ++ [Op OP_EVR_ASSET; Data tag; Op OP_DROP] |}.
Proof.
  unfold _compileSatoriOutput. intros H.
  destruct (address_to_scriptPubKey C addr) as [base|e]; cbn [bind] in H; [|discriminate].
  destruct (encodeAssetTag (symbol w) AssetTransaction.defaultAsset sats)
    as [tag|e]; cbn [bind] in H; [|discriminate].
  injection H as <-. exists base, tag. repeat split.
Qed.

Lemma amount_or_mundoFee_fee (w : Wallet) :
  amount_or_mundoFee w (Some (mundoFee w)) = mundoFee w.
Proof. reflexivity. Qed.

Lemma startswith_refl (b : bytes) : startswith b b = true.
Proof.
  unfold startswith. rewrite firstn_all, Nat.leb_refl, andb_true_r.
  apply bytes_eqb_eq. reflexivity.
Qed.

Lemma script_pays_app (C : Collaborators) (addr : pystr) (base rest : CScript) :
  script_pays C addr base = true -> script_pays C addr (base ++ rest) = true.
Proof.
  unfold script_pays. destruct (nth_error base 2) as [e|] eqn:E; [|discriminate].
  rewrite nth_error_app1 by (apply nth_error_Some; congruence).
  rewrite E. auto.
Qed.

(** X10: a partial transaction that [satoriOnlyPartialSimple] returns
    passes every check of [satoriOnlyCompleterSimple] run by the party
    named in it, with the fee it reports.  The conditions are those of
    the protocol: both wallets agree on the currency and the mundo fee,
    the serialized transaction deserializes to itself, the reported fee is
    below one coin, address scripts carry no asset marker, and the scripts
    of [completerAddress] and [changeAddress] hold at their third element
    the key hash that [hash160ToAddress] maps back to the address. *)
Theorem originator_passes_completerChecks (C S : Collaborators) (L : AddressLib)
    (w server : Wallet) (unspentAssets : list asset_unspent) (divisibility : Z)
    (amount_le_0 : bool) (amountSats : Z) (recipient : pystr)
    (feeSatsReserved : Z) (completer changeTo : pystr)
    (tx : CMutableTransaction) (outcome : pyres unit) (reportedFeeSats : Z) :
  satoriOnlyPartialSimpleTx C L w unspentAssets divisibility amount_le_0
    amountSats recipient feeSatsReserved (Some completer) (Some changeTo)
  = Ret (tx, outcome, reportedFeeSats) ->
  symbol server = symbol w ->
  mundoFee server = mundoFee w ->
  tx_deserialize S (tx_serialize L tx) = Ret tx ->
  reportedFeeSats < 100000000 ->
  (forall a s, address_to_scriptPubKey C a = Ret s ->
               Forall (fun e => is_op OP_EVR_ASSET e = false) s) ->
  (forall s, address_to_scriptPubKey C completer = Ret s ->
             script_pays S (or_address server (Some completer)) s = true) ->
  (forall s, address_to_scriptPubKey C changeTo = Ret s ->
             script_pays S (or_address server (Some changeTo)) s = true) ->
  completerChecks S server (tx_serialize L tx) feeSatsReserved reportedFeeSats
    (Some changeTo) (Some completer) false
  = Ret tx.
Proof.
  intros H Hsym Hfee Hdes Hcap Hclean Hpay1 Hpay2.
  destruct (satoriOnlyPartialSimpleTx_shape _ _ _ _ _ _ _ _ _ _ _ _ _ _ H)
    as (completer' & changeTo' & satoriSats & gs & o1 & sc & o2 & cco & changeScript
        & Ec & Ect & Ev & Er & Egs & Hp & Eo1 & Esc & Eo2 & Ech & Hv & Hrep
        & Hnv & Hpos & Hs).
  injection Ec as <-. injection Ect as <-.
  assert (Hv' : vout tx = (o1 :: not_None [sc]) ++ [o2; cco]) by (rewrite Hv; reflexivity).
  destruct (nth_from_end_app_two (o1 :: not_None [sc]) o2 cco) as [N1 N2].
  rewrite <- Hv' in N1, N2.
  (* the change output pays the change script *)
  specialize (Hpay2 changeScript Ech).
  assert (Hcs : scriptPubKey cco = changeScript).
  { destruct changeScript as [|e r]; [discriminate Hpay2|]. exact Hs. }
  (* the fee output *)
  destruct (_compileSatoriOutput_script _ _ _ _ _ Eo2)
    as (base2 & tagF & Eb2 & EtF & ->).
  specialize (Hpay1 base2 Eb2).
  assert (EtS : encodeAssetTag (symbol server) AssetTransaction.defaultAsset
                  (amount_or_mundoFee server (Some (mundoFee server))) = Ret tagF).
  { rewrite amount_or_mundoFee_fee, Hsym, Hfee. exact EtF. }
  assert (Hcompiled : forall addr sats out,
             _compileSatoriOutput C w addr sats = Ret out ->
             exists b, _checkSatoriValue server out (Some (mundoFee server)) = Ret b).
  { intros addr sats out Eo.
    destruct (_compileSatoriOutput_script _ _ _ _ _ Eo) as (base & tag & Eb & _ & ->).
    rewrite _checkSatoriValue_marked by (eapply Hclean; exact Eb).
    rewrite EtS. cbn [bind]. eexists. reflexivity. }
  assert (Hfeeout : _checkSatoriValue server
                      {| nValue := 0;
                         scriptPubKey := base2 ++ [Op OP_EVR_ASSET; Data tagF; Op OP_DROP] |}
                      (Some (mundoFee server)) = Ret true).
  { rewrite _checkSatoriValue_marked by (eapply Hclean; exact Eb2).
    rewrite EtS. cbn [bind]. rewrite startswith_refl. reflexivity. }
  assert (Hplain : _checkSatoriValue server cco (Some (mundoFee server)) = Ret false).
  { apply _checkSatoriValue_plain. rewrite Hcs. eapply Hclean. exact Ech. }
  destruct (_verifyClaim_simple_found server (vout tx) false) as (r & Eclaim & _ & Hfound).
  { intros x Hx. rewrite Hv in Hx. destruct Hx as [<-|Hx].
    - eapply Hcompiled. exact Eo1.
    - apply in_app_or in Hx. destruct Hx as [Hx|[<-|[<-|[]]]].
      + destruct sc as [sco|]; cbn [not_None] in Hx; [|destruct Hx].
        destruct Hx as [<-|[]].
        destruct (_compileSatoriChangeOutput_cases _ _ _ _ _ Esc) as [_ [_ Eco]].
        eapply Hcompiled. exact Eco.
      + eexists. exact Hfeeout.
      + eexists. exact Hplain. }
  assert (r = true) as ->.
  { apply Hfound. eexists. split; [|exact Hfeeout].
    rewrite Hv'. apply in_or_app. right. left. reflexivity. }
  unfold completerChecks. rewrite Hdes. cbn [bind].
  unfold _verifyFee.
  destruct (Z.ltb_spec reportedFeeSats 100000000); [|lia].
  destruct (Z.ltb_spec reportedFeeSats feeSatsReserved); [|lia].
  cbn [andb]. rewrite N1. cbn [bind]. rewrite Hnv, Z.eqb_refl. cbn [negb].
  unfold _verifyClaim. rewrite Eclaim. cbn [bind negb].
  unfold _verifyClaimAddress. rewrite N2. cbn [bind scriptPubKey].
  rewrite (script_pays_app _ _ _ _ Hpay1). cbn [negb].
  unfold _verifyChangeAddress. rewrite N1. cbn [bind]. rewrite Hcs, Hpay2.
  reflexivity.
Qed.

Lemma satoriTransaction_accounts_witness :
  exists satoriSats gatheredSatori gatheredCurrency,
    TxUtils.roundSatsDownToDivisibility 200000000 0 = Ret satoriSats
    /\ _gatherSatoriUnspents neuronAssets satoriSats false (fun _ _ => O)
       = Ret (gatheredSatori, sum_asset_values gatheredSatori)
    /\ _gatherCurrencyUnspents neuronWallet 0
         (Z.of_nat (length gatheredSatori)) 3 false (fun _ _ => O)
       = Ret (gatheredCurrency, sum_values gatheredCurrency)
    /\ 0 <= sum_asset_values gatheredSatori - satoriSats.
Proof.
  destruct (satoriTransactionTx (toyCollaborators emptyTx) toyAddressLib
              neuronWallet neuronAssets 0 false 200000000 recipientAddress)
    as [[tx outcome]|e] eqn:E; [|vm_compute in E; discriminate].
  destruct (satoriTransaction_accounts _ _ _ _ _ _ _ _ _ _ E)
    as (satoriSats & gs & gc & o1 & _ & _ & Er & Egs & Egc & _ & _ & _ & H & _).
  exists satoriSats, gs, gc. repeat split; assumption.
Defined.

Lemma satoriOnlyPartialSimple_report_witness :
  exists tx outcome reportedFeeSats,
    satoriOnlyPartialSimpleTx (toyCollaborators emptyTx) toyAddressLib
      neuronWallet neuronAssets 0 false 200000000 recipientAddress
      1000000 (Some serverAddress) (Some serverAddress)
    = Ret (tx, outcome, reportedFeeSats)
    /\ 0 < reportedFeeSats < 1000000.
Proof.
  destruct (satoriOnlyPartialSimpleTx (toyCollaborators emptyTx) toyAddressLib
              neuronWallet neuronAssets 0 false 200000000 recipientAddress
              1000000 (Some serverAddress) (Some serverAddress))
    as [[[tx outcome] reported]|e] eqn:E; [|vm_compute in E; discriminate].
  exists tx, outcome, reported. split; [reflexivity|].
  destruct (satoriOnlyPartialSimple_report _ _ _ _ _ _ _ _ _ _ _ _ _ _ E)
    as (_ & H & _). exact H.
Defined.

Lemma toyAddressScript_clean (a : pystr) :
  Forall (fun e => is_op OP_EVR_ASSET e = false) (toyAddressScript a).
Proof. repeat constructor. Qed.

Lemma toyAddressScript_pays (tx : CMutableTransaction) (a : pystr) :
  script_pays (toyCollaborators tx) a (toyAddressScript a) = true.
Proof.
  unfold script_pays, toyAddressScript. cbn [nth_error hash160ToAddress toyCollaborators].
  apply str_eqb_eq. rewrite map_map. symmetry.
  erewrite map_ext; [apply map_id|]. intros c. apply ascii_of_byte_of_ascii.
Qed.

Lemma originator_passes_completerChecks_witness :
  exists tx outcome reportedFeeSats,
    satoriOnlyPartialSimpleTx (toyCollaborators emptyTx) toyAddressLib
      neuronWallet neuronAssets 0 false 200000000 recipientAddress
      1000000 (Some serverAddress) (Some serverAddress)
    = Ret (tx, outcome, reportedFeeSats)
    /\ completerChecks (toyCollaborators tx) completerWallet
         (tx_serialize toyAddressLib tx) 1000000 reportedFeeSats
         (Some serverAddress) (Some serverAddress) false
       = Ret tx.
Proof.
  destruct (satoriOnlyPartialSimpleTx (toyCollaborators emptyTx) toyAddressLib
              neuronWallet neuronAssets 0 false 200000000 recipientAddress
              1000000 (Some serverAddress) (Some serverAddress))
    as [[[tx outcome] reported]|e] eqn:E; [|vm_compute in E; discriminate].
  exists tx, outcome, reported. split; [reflexivity|].
  apply (originator_passes_completerChecks (toyCollaborators emptyTx)
           (toyCollaborators tx) toyAddressLib neuronWallet completerWallet
           neuronAssets 0 false 200000000 recipientAddress 1000000
           serverAddress serverAddress tx outcome reported E).
  - reflexivity.
  - reflexivity.
  - reflexivity.
  - destruct (satoriOnlyPartialSimpleTx_shape _ _ _ _ _ _ _ _ _ _ _ _ _ _ E)
      as (? & ? & ? & ? & ? & ? & ? & ? & ? & _ & _ & _ & _ & _ & _ & _ & _ & _
          & _ & _ & _ & _ & Hpos & _).
    lia.
  - intros a s Ha. injection Ha as <-. apply toyAddressScript_clean.
  - intros s Ha. injection Ha as <-. apply toyAddressScript_pays.
  - intros s Ha. injection Ha as <-. apply toyAddressScript_pays.
Defined.

(** ** The reservation given to the originator *)

Lemma sign_inputs_frame_length (C : Collaborators) (flag : Z) (count : nat) :
  forall i scripts tx,
    length (vout (fst (sign_inputs C flag i count scripts tx))) = length (vout tx).
Proof. intros. rewrite sign_inputs_vout. reflexivity. Qed.

(** X11: how [satoriOnlyPartialSimple] depends on [feeSatsReserved].  If
    the call returns for one reservation, reporting the fee [f], then with
    all other arguments kept: every reservation above [f] returns as well,
    with the same inputs, the same number of outputs and the same reported
    fee [f]; a reservation of exactly [f] leaves no change, and the call
    ends in the [TypeError] of unpacking [None], not in a
    [TransactionFailure]; a reservation below [f] other than 0 raises
    [TransactionFailure] for lack of currency; a reservation of 0 is
    refused at once. *)
Theorem satoriOnlyPartialSimple_reservation (C : Collaborators) (L : AddressLib)
    (w : Wallet) (unspentAssets : list asset_unspent) (divisibility : Z)
    (amount_le_0 : bool) (amountSats : Z) (recipient : pystr)
    (feeSatsReserved : Z) (completerAddress changeAddress : option pystr)
    (tx : CMutableTransaction) (outcome : pyres unit) (reportedFeeSats : Z) :
  let run reserved :=
    satoriOnlyPartialSimpleTx C L w unspentAssets divisibility amount_le_0
      amountSats recipient reserved completerAddress changeAddress in
  run feeSatsReserved = Ret (tx, outcome, reportedFeeSats) ->
  forall reserved,
    (reserved = 0 ->
     run reserved = Raise (TransactionFailure "need completer details"))
    /\ (reserved <> 0 -> reserved < reportedFeeSats ->
        run reserved
        = Raise (TransactionFailure "tx: not enough currency to send"))
    /\ (reserved = reportedFeeSats ->
        run reserved
        = Raise (PyException
                   "TypeError: cannot unpack non-iterable NoneType object"))
    /\ (reportedFeeSats < reserved ->
        exists tx' outcome',
          run reserved = Ret (tx', outcome', reportedFeeSats)
          /\ map prevout (vin tx') = map prevout (vin tx)
          /\ length (vout tx') = length (vout tx)).
Proof.
  intros run H reserved.
  assert (Hf0 : 0 < reportedFeeSats).
  { destruct (satoriOnlyPartialSimpleTx_shape _ _ _ _ _ _ _ _ _ _ _ _ _ _ H)
      as (? & ? & ? & ? & ? & ? & ? & ? & ? & _ & _ & _ & _ & _ & _ & _ & _ & _
          & _ & Hv & Hrep & _).
    rewrite Hrep, Hv. unfold TxUtils.estimatedFee, TxUtils.defaultFeeRate.
    cbn [length]. lia. }
  revert H. unfold run, satoriOnlyPartialSimpleTx.
  destruct completerAddress as [completer|]; [|intros; discriminate].
  destruct changeAddress as [changeTo|]; [|intros; discriminate].
  destruct (Z.eqb_spec feeSatsReserved 0) as [|HR0]; [intros; discriminate|].
  destruct amount_le_0; cbn [orb]; [intros; discriminate|].
  destruct (Validate.address recipient (symbol w)); cbn [negb];
    [|intros; discriminate].
  destruct (TxUtils.roundSatsDownToDivisibility amountSats divisibility)
    as [satoriSats|e]; cbn [bind]; [|intros; discriminate].
  destruct (_gatherSatoriUnspents unspentAssets (satoriSats + mundoFee w) false
              (fun _ _ => O)) as [[gs gsats]|e]; cbn [bind];
    [|intros; discriminate].
  destruct (_compileInputs C w [] (map asset_utxo gs) []) as [[txins scripts]|e];
    cbn [bind]; [|intros; discriminate].
  cbn [_compileSatoriOutputs].
  destruct (_compileSatoriOutput C w recipient satoriSats) as [o1|e];
    cbn [bind]; [|intros; discriminate].
  destruct (_compileSatoriChangeOutput C w satoriSats (gsats - mundoFee w))
    as [sc|e]; cbn [bind]; [|intros; discriminate].
  destruct (_compileSatoriOutput C w completer (mundoFee w)) as [o2|e];
    cbn [bind]; [|intros; discriminate].
  destruct (address_to_scriptPubKey C changeTo) as [changeScript|e];
    cbn [bind]; [|intros; discriminate].
  cbn [length].
  set (outputCount := Z.of_nat 1 + 2 + match sc with
                                      | Some _ => 1
                                      | None => 0
                                      end).
  set (fee := TxUtils.estimatedFee (Z.of_nat (length gs)) outputCount
                TxUtils.defaultFeeRate).
  unfold _compileCurrencyChangeOutput. fold fee.
  destruct (Z.ltb_spec 0 (feeSatsReserved - 0 - fee)) as [Hpos|Hnpos].
  2:{ destruct (feeSatsReserved - 0 - fee <? 0); intros; discriminate. }
  destruct (address_str L (address w)) as [shown|e]; cbn [bind];
    [|intros; discriminate].
  destruct (str_eqb shown (address w)); cbn [negb]; [|intros; discriminate].
  destruct (address_to_scriptPubKey C (address w)) as [own|e]; cbn [bind];
    [|intros; discriminate].
  destruct (script_neb C own (identity_scriptPubKey L)); [intros; discriminate|].
  assert (Hscript : exists script,
             match truthy_script (Some changeScript) with
             | Some s => Ret s
             | None => Ret own
             end = Ret script).
  { destruct (truthy_script (Some changeScript)); eexists; reflexivity. }
  destruct Hscript as [script ->]. cbn [bind].
  intros H. injection H as Htx Hrep.
  assert (Hfee : reportedFeeSats = fee) by lia. clear Hrep.
  repeat apply conj.
  - intros ->. reflexivity.
  - intros Hne Hlt. destruct (Z.eqb_spec reserved 0); [contradiction|].
    destruct (Z.ltb_spec 0 (reserved - 0 - fee)); [lia|].
    destruct (Z.ltb_spec (reserved - 0 - fee) 0); [reflexivity | lia].
  - intros ->. destruct (Z.eqb_spec reportedFeeSats 0); [lia|].
    destruct (Z.ltb_spec 0 (reportedFeeSats - 0 - fee)); [lia|].
    destruct (Z.ltb_spec (reportedFeeSats - 0 - fee) 0); [lia | reflexivity].
  - intros Hgt. destruct (Z.eqb_spec reserved 0); [lia|].
    destruct (Z.ltb_spec 0 (reserved - 0 - fee)); [|lia].
    cbn [bind]. eexists. eexists. split.
    + rewrite (surjective_pairing (_createPartialOriginatorSimple _ _ _ _)).
      f_equal. f_equal. lia.
    + apply (f_equal fst) in Htx. cbn [fst] in Htx. rewrite <- Htx.
      rewrite !_createPartialOriginatorSimple_prevouts,
        !_createPartialOriginatorSimple_vout.
      split; [reflexivity|]. destruct sc; reflexivity.
Qed.

Lemma satoriOnlyPartialSimple_reservation_witness :
  satoriOnlyPartialSimpleTx (toyCollaborators emptyTx) toyAddressLib
    neuronWallet neuronAssets 0 false 200000000 recipientAddress
    900000 (Some serverAddress) (Some serverAddress)
  = Raise (PyException "TypeError: cannot unpack non-iterable NoneType object").
Proof.
  destruct (satoriOnlyPartialSimpleTx (toyCollaborators emptyTx) toyAddressLib
              neuronWallet neuronAssets 0 false 200000000 recipientAddress
              1000000 (Some serverAddress) (Some serverAddress))
    as [[[tx outcome] reported]|e] eqn:E; [|vm_compute in E; discriminate].
  assert (Hr : reported = 900000).
  { vm_compute in E. injection E as _ _ <-. reflexivity. }
  destruct (satoriOnlyPartialSimple_reservation _ _ _ _ _ _ _ _ _ _ _ _ _ _ E 900000)
    as (_ & _ & H & _).
  apply H. symmetry. exact Hr.
Defined.

(** ** Memos of a decoded transaction *)

Import TransactionStruct.

Lemma getMemo_loop_first (before after : list vout_json) (v : vout_json) :
  Forall (fun x => is_memo x = false) before ->
  is_memo v = true ->
  getMemo_loop (before ++ v :: after) = Some (skipn 10 (op_return_of v)).
Proof.
  intros Hb Hv. induction Hb as [|x r Hx _ IH]; cbn [app getMemo_loop].
  - rewrite Hv. reflexivity.
  - rewrite Hx. exact IH.
Qed.

Lemma getMemo_loop_none (vouts : list vout_json) :
  Forall (fun x => is_memo x = false) vouts -> getMemo_loop vouts = None.
Proof.
  induction 1 as [|x r Hx _ IH]; cbn [getMemo_loop]; [reflexivity|].
  rewrite Hx. exact IH.
Qed.

(** X12: [getMemo] returns the memo of the last output of [raw['vout']]
    that is an [OP_RETURN] with value 0 (or no value), and [None] when
    there is none; it leaves the list of [raw] reversed.  A second call on
    the same object therefore returns the memo of the first such output
    and restores the order: two calls agree only when the first and the
    last memo output carry the same text. *)
Theorem getMemo_reverses_in_place (vouts : list vout_json) :
  let raw := {| raw_vout := Some vouts |} in
  let first_call := getMemo raw in
  let second_call := getMemo (fst first_call) in
  fst first_call = {| raw_vout := Some (rev vouts) |}
  /\ fst second_call = raw
  /\ (forall before v after,
         vouts = before ++ v :: after ->
         is_memo v = true ->
         Forall (fun x => is_memo x = false) after ->
         snd first_call = Some (skipn 10 (op_return_of v)))
  /\ (forall before v after,
         vouts = before ++ v :: after ->
         is_memo v = true ->
         Forall (fun x => is_memo x = false) before ->
         snd second_call = Some (skipn 10 (op_return_of v)))
  /\ (Forall (fun x => is_memo x = false) vouts ->
      snd first_call = None /\ snd second_call = None).
Proof.
  cbv zeta. unfold getMemo. cbn [raw_vout fst snd]. rewrite rev_involutive.
  repeat apply conj; try reflexivity.
  - intros before v after -> Hv Ha.
    rewrite rev_app_distr. cbn [rev]. rewrite <- app_assoc. cbn [app].
    apply getMemo_loop_first; [|exact Hv].
    apply Forall_rev. exact Ha.
  - intros before v after -> Hv Hb. apply getMemo_loop_first; assumption.
  - intros H. split; apply getMemo_loop_none; [apply Forall_rev|]; exact H.
Qed.

(** ** The chain and the address of a memo *)

Lemma split_no_sep (sep : ascii) (s : pystr) :
  ~ In sep s -> split sep s = [s].
Proof.
  induction s as [|c r IH]; intros H; cbn [split]; [reflexivity|].
  destruct (Ascii.eqb_spec c sep) as [->|Hne].
  - exfalso. apply H. left. reflexivity.
  - rewrite IH; [reflexivity|]. intros Hin. apply H. right. exact Hin.
Qed.

Lemma split_nonempty (sep : ascii) (s : pystr) : split sep s <> [].
Proof.
  induction s as [|c r IH]; cbn [split]; [discriminate|].
  destruct (Ascii.eqb c sep); [discriminate|].
  destruct (split sep r); [contradiction | discriminate].
Qed.

Lemma split_app_sep (sep : ascii) (a b : pystr) :
  ~ In sep a -> split sep (a ++ sep :: b) = a :: split sep b.
Proof.
  induction a as [|c r IH]; intros H; cbn [app split].
  - rewrite Ascii.eqb_refl. reflexivity.
  - destruct (Ascii.eqb_spec c sep) as [->|Hne].
    + exfalso. apply H. left. reflexivity.
    + rewrite IH; [reflexivity|]. intros Hin. apply H. right. exact Hin.
Qed.

Lemma contains_In (sep : ascii) (s : pystr) :
  contains sep s = true <-> In sep s.
Proof.
  unfold contains. rewrite existsb_exists. split.
  - intros (x & Hx & E). apply Ascii.eqb_eq in E. subst. exact Hx.
  - intros H. exists sep. split; [exact H | apply Ascii.eqb_refl].
Qed.

Lemma contains_false (sep : ascii) (s : pystr) :
  ~ In sep s -> contains sep s = false.
Proof.
  intros H. destruct (contains sep s) eqn:E; [|reflexivity].
  apply contains_In in E. contradiction.
Qed.

(** X13: [chainAddressFromMemo] never raises.  On a memo without a colon
    it returns [None].  On a memo [chain:address], optionally followed by
    a colon and more text, where neither [chain] nor [address] holds a
    colon, it returns [{chain: address}] when [address] has at least two
    characters and [None] otherwise; the text after a second colon is
    dropped.  In particular the memo [f'{chain}:{ethAddress}'] of a bridge
    transaction, for an address that [Validate.ethAddress] accepts, is
    read back as that chain and that address. *)
Theorem chainAddressFromMemo_fields (chain addr : pystr) :
  ~ In ":"%char chain -> ~ In ":"%char addr ->
  let expected := if (1 <? length addr)%nat then Some (chain, addr) else None in
  chainAddressFromMemo None = Ret None
  /\ chainAddressFromMemo (Some chain) = Ret None
  /\ chainAddressFromMemo (Some (chain ++ lit ":" ++ addr)) = Ret expected
  /\ (forall more,
         chainAddressFromMemo (Some (chain ++ lit ":" ++ addr ++ lit ":" ++ more))
         = Ret expected)
  /\ (Validate.ethAddress addr = true ->
      chainAddressFromMemo (Some (chain ++ lit ":" ++ addr))
      = Ret (Some (chain, addr))).
Proof.
  intros Hc Ha expected.
  assert (E1 : chainAddressFromMemo (Some (chain ++ lit ":" ++ addr)) = Ret expected).
  { unfold chainAddressFromMemo. cbn [lit list_ascii_of_string app].
    assert (Hin : contains ":" (chain ++ ":"%char :: addr) = true).
    { apply contains_In. apply in_elt. }
    rewrite Hin, split_app_sep, split_no_sep by assumption. cbn [bind].
    unfold expected. destruct (1 <? length addr)%nat; reflexivity. }
  repeat apply conj.
  - reflexivity.
  - unfold chainAddressFromMemo. rewrite contains_false by assumption. reflexivity.
  - exact E1.
  - intros more. unfold chainAddressFromMemo. cbn [lit list_ascii_of_string app].
    assert (Hin : contains ":" (chain ++ ":"%char :: addr ++ ":"%char :: more) = true).
    { apply contains_In. apply in_elt. }
    rewrite Hin, split_app_sep, split_app_sep by assumption. cbn [bind].
    unfold expected. destruct (1 <? length addr)%nat; reflexivity.
  - intros Hv. rewrite E1. unfold expected.
    unfold Validate.ethAddress in Hv. apply andb_prop in Hv. destruct Hv as [_ Hl].
    apply Nat.eqb_eq in Hl. rewrite Hl. reflexivity.
Qed.

Lemma chainAddressFromMemo_fields_witness :
  chainAddressFromMemo (Some (lit "base" ++ lit ":" ++ lit "0xab"))
  = Ret (Some (lit "base", lit "0xab")).
Proof.
  destruct (chainAddressFromMemo_fields (lit "base") (lit "0xab")) as (_ & _ & H & _).
  - cbn. intuition discriminate.
  - cbn. intuition discriminate.
  - exact H.
Defined.

(** ** Patterns and address validation *)

Lemma match_class_end_spec (C : ascii -> bool) (k : nat) (s : pystr) :
  match_class_end C k s = true <->
  exists body,
    (s = body \/ s = body ++ [newline])
    /\ length body = k /\ forallb C body = true.
Proof.
  revert s. induction k as [|k IH]; intros s; cbn [match_class_end].
  - destruct s as [|c [|d r]].
    + split; [|reflexivity]. intros _. exists []. repeat split. left. reflexivity.
    + split.
      * intros H. apply Ascii.eqb_eq in H. subst c. exists [].
        repeat split. right. reflexivity.
      * intros (body & Hs & Hl & _). destruct body; [|discriminate].
        destruct Hs as [Hs|Hs]; [discriminate|]. injection Hs as ->.
        apply Ascii.eqb_refl.
    + split; [discriminate|].
      intros (body & Hs & Hl & _). destruct body; [|discriminate].
      destruct Hs as [Hs|Hs]; discriminate.
  - destruct s as [|c r].
    + split; [discriminate|].
      intros (body & Hs & Hl & _). destruct body; [discriminate|].
      destruct Hs as [Hs|Hs]; discriminate.
    + rewrite andb_true_iff, IH. split.
      * intros (Hc & body & Hs & Hl & Hf). exists (c :: body).
        split; [destruct Hs as [->| ->]; [left | right]; reflexivity|].
        split; [cbn [length]; lia|]. cbn [forallb]. rewrite Hc, Hf. reflexivity.
      * intros (body & Hs & Hl & Hf). destruct body as [|b body]; [discriminate|].
        cbn [forallb] in Hf. apply andb_prop in Hf. destruct Hf as [Hb Hf].
        assert (c = b /\ (r = body \/ r = body ++ [newline])) as [-> Hr].
        { destruct Hs as [Hs|Hs]; injection Hs as -> ->; split; auto. }
        split; [exact Hb|]. exists body. repeat split; [exact Hr | | exact Hf].
        cbn [length] in Hl. lia.
Qed.

Lemma upper_char_x : upper_char "x" = "X"%char.
Proof. reflexivity. Qed.

(** X14: [isValidEthereumAddress] accepts only text of the form [0x]
    followed by 40 hexadecimal digits, possibly followed by one newline
    (the [$] of the pattern matches before a final newline).  On such text
    the test [address == address.upper()] never holds, because [upper]
    turns the [x] of the prefix into [X]: the result is [True] when the
    address equals its lower-case form and otherwise whatever
    [is_checksum_address] answers, also for an address whose digits are
    all upper case. *)
Theorem isValidEthereumAddress_cases (is_checksum_address : pystr -> bool)
    (address : pystr) :
  let valid := Valid.isValidEthereumAddress is_checksum_address address in
  (valid = true ->
   exists digits,
     (address = lit "0x" ++ digits \/ address = lit "0x" ++ digits ++ [newline])
     /\ length digits = 40%nat /\ forallb is_hex_char digits = true)
  /\ (forall digits,
         length digits = 40%nat -> forallb is_hex_char digits = true ->
         address = lit "0x" ++ digits \/ address = lit "0x" ++ digits ++ [newline] ->
         str_eqb address (upper address) = false
         /\ valid = (str_eqb address (lower address)
                     || is_checksum_address address)).
Proof.
  cbv zeta. unfold Valid.isValidEthereumAddress. split.
  - intros H. destruct address as [|a [|b r]]; try discriminate.
    destruct (Ascii.eqb_spec a "0") as [->|]; [|discriminate].
    destruct (Ascii.eqb_spec b "x") as [->|]; [|discriminate].
    cbn [andb] in H.
    destruct (match_class_end is_hex_char 40 r) eqn:E; [|discriminate].
    apply match_class_end_spec in E. destruct E as (body & Hs & Hl & Hf).
    exists body. split; [|split; assumption].
    destruct Hs as [->| ->]; [left | right]; reflexivity.
  - intros digits Hl Hf Ha.
    assert (Hm : match_class_end is_hex_char 40 (skipn 2 address) = true).
    { apply match_class_end_spec. exists digits.
      split; [|split; assumption]. destruct Ha as [->| ->]; [left | right]; reflexivity. }
    assert (Hup : str_eqb address (upper address) = false).
    { destruct Ha as [->| ->]; cbn [lit list_ascii_of_string app upper map str_eqb list_eqb];
        rewrite upper_char_x; reflexivity. }
    split; [exact Hup|].
    destruct Ha as [->| ->]; cbn [lit list_ascii_of_string app skipn] in *;
      rewrite Hm; cbn [Ascii.eqb andb]; rewrite ?Ascii.eqb_refl; cbn [andb];
      cbn [lit list_ascii_of_string app] in Hup; rewrite Hup, orb_false_r;
      destruct (str_eqb _ _); reflexivity.
Qed.

Lemma isValidEthereumAddress_cases_witness :
  Valid.isValidEthereumAddress (fun _ => false) (lit "0x" ++ repeat "A"%char 40)
  = (str_eqb (lit "0x" ++ repeat "A"%char 40)
       (lower (lit "0x" ++ repeat "A"%char 40)) || false).
Proof.
  destruct (isValidEthereumAddress_cases (fun _ => false)
              (lit "0x" ++ repeat "A"%char 40)) as [_ H].
  destruct (H (repeat "A"%char 40) eq_refl eq_refl (or_introl eq_refl)) as [_ E].
  exact E.
Defined.

Lemma str_startswith_cons (c : ascii) (r : pystr) (d : ascii) :
  str_startswith (c :: r) [d] = Ascii.eqb c d.
Proof.
  unfold str_startswith. cbn [length firstn str_eqb list_eqb].
  rewrite andb_true_r. reflexivity.
Qed.

(** X15: the validators of Evrmore addresses agree in one direction.
    Whatever the library constructor, the hash and the base-58 codec do,
    an address that [isValidEvrmoreAddress] accepts has 34 characters,
    starts with [E], continues with 33 letters or digits, decodes to a
    payload whose last four bytes are the first four of its double hash
    and whose first byte is 33 or 90, and is accepted by the heuristic
    [Validate.address] for the currency ['evr'] in any case.  The pattern
    of [isValidEvrmoreAddressBasic] alone also matches such text followed
    by a newline, which [isValidEvrmoreAddress] refuses for its length. *)
Theorem isValidEvrmoreAddress_sound (K : Codecs)
    (CEvrmoreAddress : pystr -> pyres unit) (address currency : pystr) :
  Valid.isValidEvrmoreAddress K CEvrmoreAddress (Some address) = true ->
  lower currency = lit "evr" ->
  length address = 34%nat
  /\ (exists rest, address = "E"%char :: rest /\ forallb is_alnum rest = true)
  /\ CEvrmoreAddress address = Ret tt
  /\ (exists decoded version,
         b58decode K address = Ret decoded
         /\ nth_error decoded 0 = Some version
         /\ (version = x21 \/ version = x5a)
         /\ slice_neg4_end decoded
            = firstn 4 (sha256 K (sha256 K (slice_to_neg4 decoded))))
  /\ Validate.address address currency = true
  /\ Valid.isValidEvrmoreAddressBasic (address ++ [newline]) = true
  /\ Valid.isValidEvrmoreAddress K CEvrmoreAddress (Some (address ++ [newline]))
     = false.
Proof.
  unfold Valid.isValidEvrmoreAddress. intros H Hcur.
  destruct (Nat.eqb_spec (length address) 34) as [Hl|]; [|discriminate].
  cbn [negb orb] in H.
  destruct (str_startswith address (lit "E")) eqn:Hst; [|discriminate].
  cbn [negb] in H.
  destruct (CEvrmoreAddress address) as [[]|e] eqn:Ector; cbn [bind] in H;
    [|discriminate].
  destruct (Valid.isValidEvrmoreAddressBasic address) eqn:Hbasic; cbn [negb] in H;
    [|discriminate].
  unfold Valid.base58_check_decode in H.
  destruct (b58decode K address) as [decoded|e] eqn:Edec; cbn [bind] in H;
    [|discriminate].
  destruct decoded as [|v decoded']; cbn [bind] in H; [discriminate|].
  set (decoded := v :: decoded') in *.
  destruct (bytes_eqb (slice_neg4_end decoded)
              (firstn 4 (sha256 K (sha256 K (slice_to_neg4 decoded))))) eqn:Esum;
    cbn [negb] in H; [|discriminate].
  apply bytes_eqb_eq in Esum.
  assert (Hver : v = x21 \/ v = x5a).
  { destruct v; try discriminate H; auto. }
  unfold Valid.isValidEvrmoreAddressBasic in Hbasic.
  destruct address as [|c rest]; [discriminate|].
  apply andb_prop in Hbasic. destruct Hbasic as [Hc Hm].
  apply Ascii.eqb_eq in Hc. subst c.
  apply match_class_end_spec in Hm. destruct Hm as (body & Hs & Hbl & Hf).
  assert (rest = body) as ->.
  { destruct Hs as [->| ->]; [reflexivity|]. cbn [length] in Hl.
    rewrite length_app in Hl. cbn [length] in Hl. lia. }
  split; [exact Hl|]. split; [exists body; split; [reflexivity | exact Hf]|].
  split; [reflexivity|].
  split.
  { exists decoded, v. repeat split; assumption. }
  split.
  { unfold Validate.address. rewrite Hcur, Hl.
    change (lit "E") with ["E"%char]. change (lit "e") with ["e"%char].
    rewrite !str_startswith_cons. reflexivity. }
  split.
  { unfold Valid.isValidEvrmoreAddressBasic. cbn [app]. rewrite Ascii.eqb_refl.
    cbn [andb]. apply match_class_end_spec. exists body. repeat split; auto. }
  cbn [app length]. rewrite length_app. cbn [length].
  destruct (Nat.eqb_spec (S (length body + 1)) 34); [|reflexivity].
  cbn [length] in Hl. lia.
Qed.

Lemma isValidEvrmoreAddress_sound_witness :
  length neuronAddress = 34%nat
  /\ Validate.address neuronAddress (lit "EVR") = true.
Proof.
  destruct (isValidEvrmoreAddress_sound fixedCodecs (fun _ => Ret tt)
              neuronAddress (lit "EVR") eq_refl eq_refl)
    as (H1 & _ & _ & _ & H2 & _).
  split; [exact H1 | exact H2].
Defined.

(** ** Addresses from key hashes *)

Lemma firstn_length_app {A : Type} (l1 l2 : list A) :
  firstn (length l1) (l1 ++ l2) = l1.
Proof. induction l1 as [|x r IH]; cbn; [destruct l2 | rewrite IH]; reflexivity. Qed.

Lemma skipn_length_app {A : Type} (l1 l2 : list A) :
  skipn (length l1) (l1 ++ l2) = l2.
Proof. induction l1 as [|x r IH]; cbn; [reflexivity | exact IH]. Qed.

Lemma slices_of_checked (nb : byte) (h checksum : bytes) :
  length checksum = 4%nat ->
  slice_1_neg4 ([nb] ++ h ++ checksum) = h
  /\ slice_to_neg4 ([nb] ++ h ++ checksum) = [nb] ++ h
  /\ slice_neg4_end ([nb] ++ h ++ checksum) = checksum.
Proof.
  intros Hc. unfold slice_1_neg4, slice_to_neg4, slice_neg4_end.
  assert (Hl : (length ([nb] ++ h ++ checksum) - 4 = length ([nb] ++ h))%nat).
  { rewrite !length_app. cbn [length]. lia. }
  rewrite Hl. rewrite (app_assoc [nb] h checksum).
  rewrite firstn_length_app, skipn_length_app. repeat split.
Qed.

(** X16: with a base-58 codec whose decoder inverts its encoder and a hash
    of at least four bytes, an address that [hash160ToAddress] builds from
    a key hash and a one-byte network prefix gives the key hash back
    through [addressToH160Bytes] (the slice [1:-4] removes exactly the
    prefix and the checksum), and passes [base58_check_decode] with the
    prefix as its version; the key hash may be given as bytes or as
    hexadecimal text. *)
Theorem hash160ToAddress_roundtrip (K : Codecs) (pubKeyHash : bytes + pystr)
    (h : bytes) (networkByte : byte) :
  (forall b, b58decode K (b58encode K b) = Ret b) ->
  (forall b, (4 <= length (sha256 K b))%nat) ->
  match pubKeyHash with
  | inl b => b = h
  | inr s => fromhex s = Ret h
  end ->
  exists address,
    TxUtils.hash160ToAddress K pubKeyHash [networkByte] = Ret address
    /\ TxUtils.addressToH160Bytes K address = Ret h
    /\ Valid.base58_check_decode K address
       = (true, Some (Z.of_N (Byte.to_N networkByte))).
Proof.
  intros Hcodec Hhash Hh.
  set (checksum := firstn 4 (sha256 K (sha256 K ([networkByte] ++ h)))).
  assert (Hc : length checksum = 4%nat).
  { unfold checksum. rewrite length_firstn. pose proof (Hhash (sha256 K ([networkByte] ++ h))). lia. }
  destruct (slices_of_checked networkByte h checksum Hc) as (S1 & S2 & S3).
  exists (b58encode K (([networkByte] ++ h) ++ checksum)).
  assert (Hrun : TxUtils.hash160ToAddress K pubKeyHash [networkByte]
                 = Ret (b58encode K (([networkByte] ++ h) ++ checksum))).
  { unfold TxUtils.hash160ToAddress. destruct pubKeyHash as [b|s].
    - subst b. reflexivity.
    - rewrite Hh. reflexivity. }
  split; [exact Hrun|].
  rewrite <- app_assoc. split.
  - unfold TxUtils.addressToH160Bytes. rewrite Hcodec. cbn [bind]. rewrite S1. reflexivity.
  - unfold Valid.base58_check_decode. rewrite Hcodec.
    cbn [app bind]. cbn [app] in S2, S3. rewrite S2, S3.
    fold checksum.
    assert (E : bytes_eqb checksum checksum = true) by (apply bytes_eqb_eq; reflexivity).
    unfold checksum in E at 2. cbn [app] in E. rewrite E. reflexivity.
Qed.

Lemma toyCodecs_inverse (b : bytes) : b58decode toyCodecs (b58encode toyCodecs b) = Ret b.
Proof.
  cbn [b58decode b58encode toyCodecs]. rewrite map_map. f_equal.
  erewrite map_ext; [apply map_id|]. intros c. apply byte_of_ascii_of_byte.
Qed.

Lemma hash160ToAddress_roundtrip_witness :
  exists address,
    TxUtils.hash160ToAddress toyCodecs (inr (lit "0a0b")) [x21] = Ret address
    /\ TxUtils.addressToH160Bytes toyCodecs address = Ret [x0a; x0b]
    /\ Valid.base58_check_decode toyCodecs address = (true, Some 33).
Proof.
  apply (hash160ToAddress_roundtrip toyCodecs (inr (lit "0a0b")) [x0a; x0b] x21).
  - exact toyCodecs_inverse.
  - intros b. cbn. lia.
  - reflexivity.
Defined.

(** ** The claim check on outputs the wallet builds *)



(** ** Sending currency *)

(** X21: [currencyTransaction] gathers its inputs for the fee of one
    output and charges the fee of two.  Whenever it gets as far as a
    signed transaction, the inputs are the gathered outputs, the first
    output pays the rounded amount to the recipient, and the gathered
    currency is that amount plus [estimatedFee] for the inputs and two
    outputs plus a change that is not negative and has its output, to
    the wallet, exactly when it is positive.  When the gathering has
    succeeded with a total below the amount plus that fee, which the
    gathering allows by one fee unit, the call raises
    [TransactionFailure] for lack of currency, whatever else the wallet
    holds. *)
Theorem currencyTransaction_fee (C : Collaborators) (L : AddressLib) (w : Wallet)
    (amount_le_0 : bool) (amountSats : Z) (recipient : pystr) :
  let run := currencyTransactionTx C L w amount_le_0 amountSats recipient in
  let fee n := TxUtils.estimatedFee (Z.of_nat n) 2 TxUtils.defaultFeeRate in
  (forall tx outcome,
      run = Ret (tx, outcome) ->
      exists currencySats gathered toRecipient,
        amount_le_0 = false
        /\ Validate.address recipient (symbol w) = true
        /\ TxUtils.roundSatsDownToDivisibility amountSats 8 = Ret currencySats
        /\ _gatherCurrencyUnspents w currencySats 0 1 false (fun _ _ => O)
           = Ret (gathered, sum_values gathered)
        /\ map prevout (vin tx) = map (fun u => prevout (new_txin u)) gathered
        /\ nValue toRecipient = currencySats
        /\ address_to_scriptPubKey C recipient = Ret (scriptPubKey toRecipient)
        /\ let change :=
             sum_values gathered - currencySats - fee (length (vin tx)) in
           0 <= change
           /\ exists changeOut,
                vout tx
                = toRecipient :: (if 0 <? change then [changeOut] else [])
                /\ (0 < change ->
                    nValue changeOut = change
                    /\ address_to_scriptPubKey C (address w)
                       = Ret (scriptPubKey changeOut)))
  /\ (forall currencySats gathered total txins scripts script,
         amount_le_0 = false ->
         Validate.address recipient (symbol w) = true ->
         TxUtils.roundSatsDownToDivisibility amountSats 8 = Ret currencySats ->
         _gatherCurrencyUnspents w currencySats 0 1 false (fun _ _ => O)
         = Ret (gathered, total) ->
         _compileInputs C w gathered [] [] = Ret (txins, scripts) ->
         address_to_scriptPubKey C recipient = Ret script ->
         total < currencySats + fee (length gathered) ->
         run = Raise (TransactionFailure "tx: not enough currency to send")).
Proof.
  cbv zeta. split.
  - intros tx outcome H. unfold currencyTransactionTx in H.
    destruct amount_le_0; cbn [orb] in H; [discriminate|].
    destruct (Validate.address recipient (symbol w)) eqn:Ev; cbn [negb] in H;
      [|discriminate].
    destruct (TxUtils.roundSatsDownToDivisibility amountSats 8)
      as [currencySats|e] eqn:Er; cbn [bind] in H; [|discriminate].
    destruct (_gatherCurrencyUnspents w currencySats 0 1 false (fun _ _ => O))
      as [[gc gcsats]|e] eqn:Egc; cbn [bind] in H; [|discriminate].
    pose proof (_gatherCurrencyUnspents_total _ _ _ _ _ _ _ Egc) as ->.
    destruct (_compileInputs C w gc [] []) as [[txins scripts]|e] eqn:Ei;
      cbn [bind] in H; [|discriminate].
    destruct (_compileInputs_txins _ _ _ _ _ _ _ Ei) as [Hins Hlen].
    rewrite app_nil_r in Hins.
    unfold _compileCurrencyOutputs in H.
    destruct (address_to_scriptPubKey C recipient) as [script|e] eqn:Es;
      cbn [bind] in H; [|discriminate].
    destruct (_compileCurrencyChangeOutput C L w currencySats (sum_values gc)
                (Z.of_nat (length txins)) 2 None) as [cc|e] eqn:Ecc;
      cbn [bind] in H; [|discriminate].
    destruct (_compileCurrencyChangeOutput_cases C L w currencySats
                (sum_values gc) (Z.of_nat (length txins)) 2 None)
      as (_ & _ & Hcc).
    cbv zeta in Hcc. destruct (Hcc cc Ecc) as (Hcc0 & Hnone & Hsome).
    injection H as Htx.
    set (o1 := {| nValue := currencySats; scriptPubKey := script |}) in *.
    assert (Hfr : vout tx = [o1] ++ not_None [option_map fst cc]
                  /\ map prevout (vin tx) = map prevout txins).
    { assert (Etx : tx = fst (_createTransaction C L txins scripts
                                ([o1] ++ not_None [option_map fst cc])
                                None None))
        by exact (eq_sym (f_equal fst Htx)).
      rewrite Etx. apply _createTransaction_frame. }
    destruct Hfr as [Hv Hp].
    assert (Hn : length (vin tx) = length txins).
    { rewrite <- (length_map prevout (vin tx)), Hp, length_map. reflexivity. }
    exists currencySats, gc, o1.
    do 4 (split; [first [reflexivity | assumption]|]).
    split; [rewrite Hp, Hins, map_map; reflexivity|].
    split; [reflexivity|]. split; [reflexivity|].
    rewrite Hn.
    set (change := sum_values gc - currencySats
                   - TxUtils.estimatedFee (Z.of_nat (length txins)) 2
                       TxUtils.defaultFeeRate) in *.
    split; [exact Hcc0|].
    rewrite Hv. cbn [app].
    destruct cc as [[cco c]|]; cbn [not_None option_map fst].
    + destruct (Hsome cco c eq_refl) as (-> & Hnv & _ & Hs).
      cbn [truthy_script] in Hs.
      assert (0 < change).
      { destruct (Z.eq_dec change 0) as [E0|]; [|lia].
        apply Hnone in E0. discriminate. }
      exists cco. destruct (Z.ltb_spec 0 change); [|lia].
      split; [reflexivity|]. intros _. split; assumption.
    + assert (change = 0) by (apply Hnone; reflexivity).
      exists o1. destruct (Z.ltb_spec 0 change); [lia|].
      split; [reflexivity | lia].
  - intros currencySats gathered total txins scripts script
      -> Ev Er Egc Ei Es Hlt.
    unfold currencyTransactionTx. rewrite Ev. cbn [orb negb].
    rewrite Er. cbn [bind]. rewrite Egc. cbn [bind]. rewrite Ei. cbn [bind].
    unfold _compileCurrencyOutputs. rewrite Es. cbn [bind].
    destruct (_compileInputs_txins _ _ _ _ _ _ _ Ei) as [Hins _].
    rewrite app_nil_r in Hins.
    assert (Hn : length txins = length gathered)
      by (rewrite Hins, length_map; reflexivity).
    destruct (_compileCurrencyChangeOutput_cases C L w currencySats total
                (Z.of_nat (length txins)) 2 None) as (Hneg & _).
    cbv zeta in Hneg. rewrite Hneg; [reflexivity|]. rewrite Hn. lia.
Qed.

Lemma currencyTransaction_fee_witness :
  sum_values (unspentCurrency neuronWallet) = 3000000
  /\ currencyTransactionTx (toyCollaborators emptyTx) toyAddressLib neuronWallet
       false 700000 recipientAddress
     = Raise (TransactionFailure "tx: not enough currency to send").
Proof.
  split; [reflexivity|].
  destruct (currencyTransaction_fee (toyCollaborators emptyTx) toyAddressLib
              neuronWallet false 700000 recipientAddress) as [_ H].
  eapply H.
  - reflexivity.
  - vm_compute. reflexivity.
  - vm_compute. reflexivity.
  - vm_compute. reflexivity.
  - vm_compute. reflexivity.
  - vm_compute. reflexivity.
  - vm_compute. reflexivity.
Defined.

(** ** Inputs and outputs of the multi-signature wallet *)

Import EvrmoreP2SHWallet.

Lemma compileInputs_asset_spec (required : Z) (utxos : list unspent) :
  forall total0 txins total,
    compileInputs_asset required utxos total0 = Ret (txins, total) ->
    exists taken,
      txins = map new_txin taken
      /\ total = total0 + sum_values taken
      /\ (exists k, taken = firstn k (spendable utxos))
      /\ (required <= total0 + sum_values taken \/ taken = spendable utxos)
      /\ (forall before last,
             taken = before ++ [last] -> total0 + sum_values before < required).
Proof.
  unfold spendable.
  induction utxos as [|u r IH]; intros total0 txins total H;
    cbn [compileInputs_asset filter] in H |- *.
  - injection H as <- <-. exists []. split; [reflexivity|].
    split; [cbn; lia|].
    split; [exists 0%nat; reflexivity|].
    split; [right; reflexivity|]. intros [|? ?] ? E; discriminate.
  - destruct (Z.ltb_spec (value u) 546) as [Hd|Hd]; cbn [negb].
    + apply IH. exact H.
    + destruct (Z.leb_spec required total0) as [Hr|Hr].
      * injection H as <- <-. exists []. split; [reflexivity|].
        split; [cbn; lia|].
        split; [exists 0%nat; reflexivity|].
        split; [left; cbn; lia|]. intros [|? ?] ? E; discriminate.
      * destruct (txin_of u) as [t|e] eqn:Et; cbn [bind] in H; [|discriminate].
        apply txin_of_ret in Et. subst t.
        destruct (compileInputs_asset required r (total0 + value u))
          as [[ins tot]|e] eqn:E; cbn [bind] in H; [|discriminate].
        injection H as <- <-.
        destruct (IH _ _ _ E) as (taken & -> & -> & (k & Hk) & Hc & Hm).
        exists (u :: taken).
        assert (Es : sum_values (u :: taken) = value u + sum_values taken)
          by reflexivity.
        split; [reflexivity|].
        split; [lia|].
        split; [exists (S k); cbn [firstn]; rewrite Hk; reflexivity|].
        split; [destruct Hc as [Hc|Hc];
                [left; lia | right; rewrite Hc; reflexivity]|].
        intros before last Eb. destruct before as [|b before].
        -- cbn. lia.
        -- cbn [app] in Eb. injection Eb as <- Eb.
           specialize (Hm before last Eb).
           assert (Es' : sum_values (u :: before) = value u + sum_values before)
             by reflexivity.
           lia.
Qed.

Lemma compileInputs_asset_returns (required : Z) (utxos : list unspent) :
  Forall outpoint_ok utxos ->
  forall total0, exists r, compileInputs_asset required utxos total0 = Ret r.
Proof.
  induction 1 as [|u r Hu _ IH]; intros total0; cbn [compileInputs_asset].
  - eexists. reflexivity.
  - destruct (value u <? 546); [apply IH|].
    destruct (required <=? total0); [eexists; reflexivity|].
    unfold outpoint_ok in Hu. rewrite Hu. cbn [bind].
    destruct (IH (total0 + value u)) as ([ins tot] & ->). cbn [bind].
    eexists. reflexivity.
Qed.

Lemma estimateTransactionSize_nonneg (i o : nat) :
  0 <= TxUtils.estimateTransactionSize (Z.of_nat i) (Z.of_nat o + 1) 1.
Proof. unfold TxUtils.estimateTransactionSize. lia. Qed.

(** The amount one asset is gathered for: the amount requested, and for
    ['EVR'] the fee on top, estimated with the inputs of the assets before
    it in the dict. *)
Lemma compileInputs_loop_spec (required_amounts : list (pystr * Z)) (fee_rate : Z)
    (utxos_by_asset : list (pystr * list unspent)) :
  forall txins0 txins totals,
    compileInputs_loop required_amounts fee_rate utxos_by_asset txins0
    = Ret (txins, totals) ->
    exists takens,
      txins = txins0 ++ map new_txin (concat takens)
      /\ totals = combine (map fst utxos_by_asset) (map sum_values takens)
      /\ Forall2
           (fun entry taken =>
              exists required,
                (fst entry <> lit "EVR" ->
                 required = requested required_amounts (fst entry))
                /\ (0 <= fee_rate ->
                    requested required_amounts (fst entry) <= required)
                /\ gathered required (snd entry) taken)
           utxos_by_asset takens.
Proof.
  induction utxos_by_asset as [|[asset utxos] rest IH]; intros txins0 txins totals H.
  - cbn in H. injection H as <- <-. exists []. cbn. rewrite app_nil_r.
    split; [reflexivity|]. split; [reflexivity | constructor].
  - cbn [compileInputs_loop] in H.
    set (required :=
           if str_eqb asset (lit "EVR")
           then _ else match dict_get asset required_amounts with
                       | Some a => a
                       | None => 0
                       end) in H.
    destruct (compileInputs_asset required utxos 0) as [[appended total]|e] eqn:E;
      cbn [bind] in H; [|discriminate].
    destruct (compileInputs_asset_spec required utxos 0 _ _ E)
      as (taken & -> & -> & Hk & Hc & Hm).
    destruct (compileInputs_loop required_amounts fee_rate rest
                (txins0 ++ map new_txin taken)) as [[ins tots]|e] eqn:E';
      cbn [bind] in H; [|discriminate].
    injection H as <- <-.
    destruct (IH _ _ _ E') as (takens & -> & -> & HF).
    exists (taken :: takens). split; [|split].
    + cbn [concat]. rewrite map_app, <- app_assoc. reflexivity.
    + cbn [map combine fst]. reflexivity.
    + constructor; [|exact HF]. exists required. cbn [fst snd].
      split; [|split].
      * intros Hne. unfold required, requested.
        destruct (str_eqb asset (lit "EVR")) eqn:Ee; [|reflexivity].
        apply str_eqb_eq in Ee. contradiction.
      * intros Hfee. unfold required, requested.
        destruct (str_eqb asset (lit "EVR")); [|lia].
        pose proof (estimateTransactionSize_nonneg (length txins0)
                      (length required_amounts)). nia.
      * split; [exact Hk|]. split.
        -- rewrite Z.add_0_l in Hc. exact Hc.
        -- intros before last Eb. specialize (Hm before last Eb). lia.
Qed.

Lemma compileInputs_loop_returns (required_amounts : list (pystr * Z))
    (fee_rate : Z) (utxos_by_asset : list (pystr * list unspent)) :
  Forall (fun entry => Forall outpoint_ok (snd entry)) utxos_by_asset ->
  forall txins0,
  exists r,
    compileInputs_loop required_amounts fee_rate utxos_by_asset txins0 = Ret r.
Proof.
  induction 1 as [|[asset utxos] rest Hu _ IH]; intros txins0;
    cbn [compileInputs_loop].
  - eexists. reflexivity.
  - cbn [snd] in Hu.
    match goal with
    | |- context [compileInputs_asset ?req utxos 0] =>
        destruct (compileInputs_asset_returns req utxos Hu 0)
          as ([appended total] & ->)
    end.
    cbn [bind].
    destruct (IH (txins0 ++ appended)) as ([ins tots] & ->). cbn [bind].
    eexists. reflexivity.
Qed.

Lemma In_firstn {A : Type} (k : nat) (l : list A) (x : A) :
  In x (firstn k l) -> In x l.
Proof.
  intros H. rewrite <- (firstn_skipn k l). apply in_or_app. left. exact H.
Qed.

(** X18: [compileInputs] spends no output below 546.  For a fee rate
    that is not negative, whenever it returns, it has taken of every
    asset of [utxos_by_asset], in the order of the dict, the leading
    outputs of 546 or more until their total reaches the amount requested
    for the asset (for ['EVR'] the estimated fee is added to the
    request): the total recorded for the asset is the sum of what was
    taken, and it reaches the amount requested unless every such output
    of the asset was taken; for an asset other than ['EVR'] nothing is
    taken past the output that reaches the request.  The inputs are the
    outputs taken, asset after asset.  It returns when the outpoint of
    every output can be built (a transaction id of 64 hexadecimal digits
    and an index in range); the [ValueError] of an outpoint that cannot
    ends the call. *)
Theorem compileInputs_gathers (utxos_by_asset : list (pystr * list unspent))
    (required_amounts : list (pystr * Z)) (fee_rate : Z) :
  0 <= fee_rate ->
  (Forall (fun entry => Forall outpoint_ok (snd entry)) utxos_by_asset ->
   exists txins totals,
     compileInputs utxos_by_asset required_amounts fee_rate
     = Ret (txins, totals))
  /\ (forall txins totals,
        compileInputs utxos_by_asset required_amounts fee_rate
        = Ret (txins, totals) ->
        exists takens,
          txins = map new_txin (concat takens)
          /\ totals = combine (map fst utxos_by_asset) (map sum_values takens)
          /\ Forall2
               (fun entry taken =>
                  let asked := requested required_amounts (fst entry) in
                  (exists k, taken = firstn k (spendable (snd entry)))
                  /\ Forall (fun u => 546 <= value u) taken
                  /\ (asked <= sum_values taken \/ taken = spendable (snd entry))
                  /\ (fst entry <> lit "EVR" ->
                      forall before last,
                        taken = before ++ [last] -> sum_values before < asked))
               utxos_by_asset takens)
  /\ (forall asset u rest e,
        546 <= value u ->
        0 < requested required_amounts asset ->
        txin_of u = Raise e ->
        compileInputs ((asset, u :: rest) :: utxos_by_asset) required_amounts
          fee_rate
        = Raise e).
Proof.
  intros Hfee. unfold compileInputs. split; [|split].
  - intros Hok.
    destruct (compileInputs_loop_returns required_amounts fee_rate
                utxos_by_asset Hok []) as ([txins totals] & E).
    exists txins, totals. exact E.
  - intros txins totals E.
    destruct (compileInputs_loop_spec required_amounts fee_rate utxos_by_asset
                [] _ _ E) as (takens & -> & -> & HF).
    exists takens. split; [reflexivity|]. split; [reflexivity|].
    eapply Forall2_impl; [|exact HF].
    intros entry taken (required & Hne & Hle & (k & Hk) & Hc & Hm). cbv zeta.
    split; [exists k; exact Hk|]. split; [|split].
    + rewrite Hk. apply Forall_forall. intros u Hu.
      apply In_firstn in Hu. apply filter_In in Hu. destruct Hu as [_ Hu].
      destruct (Z.ltb_spec (value u) 546); [discriminate | lia].
    + destruct Hc as [Hc|Hc]; [left; specialize (Hle Hfee); lia | right; exact Hc].
    + intros Hevr before last Eb. rewrite <- (Hne Hevr). exact (Hm before last Eb).
  - intros asset u rest e Hv Hreq He. cbn [compileInputs_loop compileInputs_asset].
    destruct (Z.ltb_spec (value u) 546); [lia|].
    match goal with
    | |- context [?req <=? 0] =>
        assert (Hpos : 0 < req);
          [|destruct (Z.leb_spec req 0); [lia|]]
    end.
    { unfold requested in Hreq.
      destruct (str_eqb asset (lit "EVR")); [|exact Hreq].
      pose proof (estimateTransactionSize_nonneg 0 (length required_amounts)).
      cbn [length] in *. nia. }
    rewrite He. reflexivity.
Qed.

Lemma dict_has_In {V : Type} (key : pystr) (d : list (pystr * V)) :
  dict_has key d = true <-> In key (map fst d).
Proof.
  unfold dict_has. rewrite existsb_exists. split.
  - intros ([k v] & Hin & E). apply str_eqb_eq in E. cbn in E. subst k.
    apply in_map_iff. exists (key, v). split; [reflexivity | exact Hin].
  - intros Hin. apply in_map_iff in Hin. destruct Hin as ([k v] & E & Hin).
    cbn in E. subst k. exists (key, v). split; [exact Hin|].
    apply str_eqb_eq. reflexivity.
Qed.

Lemma str_eqb_refl (s : pystr) : str_eqb s s = true.
Proof. apply str_eqb_eq. reflexivity. Qed.

Lemma str_eqb_neq (a b : pystr) : a <> b -> str_eqb a b = false.
Proof.
  intros H. destruct (str_eqb a b) eqn:E; [|reflexivity].
  apply str_eqb_eq in E. contradiction.
Qed.

Lemma dict_get_set {V : Type} (key k : pystr) (v : V) (d : list (pystr * V)) :
  dict_get key (dict_set k v d)
  = if str_eqb k key then Some v else dict_get key d.
Proof.
  induction d as [|[k0 x] r IH]; cbn [dict_set dict_get].
  - destruct (str_eqb k key); reflexivity.
  - destruct (str_eqb k0 k) eqn:E0; cbn [dict_get].
    + apply str_eqb_eq in E0. subst k0.
      destruct (str_eqb k key); reflexivity.
    + destruct (str_eqb k0 key) eqn:E1; [|exact IH].
      apply str_eqb_eq in E1. subst k0.
      destruct (str_eqb k key) eqn:E2; [|reflexivity].
      apply str_eqb_eq in E2. subst k. rewrite str_eqb_refl in E0. discriminate.
Qed.

(** The amount requested for an asset is the amount of the last recipient
    of that asset. *)
Lemma requested_last (before after : list recipient) (r : recipient) :
  Forall (fun x => asset_of x <> asset_of r) after ->
  requested (required_amounts_of (before ++ r :: after)) (asset_of r)
  = recipient_amount r.
Proof.
  intros Hafter. unfold requested, required_amounts_of.
  rewrite fold_left_app. cbn [fold_left].
  set (d := dict_set (asset_of r) (recipient_amount r) _).
  assert (Hd : dict_get (asset_of r) d = Some (recipient_amount r)).
  { unfold d. rewrite dict_get_set, str_eqb_refl. reflexivity. }
  clearbody d. revert d Hd.
  induction Hafter as [|x after Hx _ IH]; intros d Hd; cbn [fold_left].
  - rewrite Hd. reflexivity.
  - apply IH. rewrite dict_get_set, (str_eqb_neq _ _ Hx). exact Hd.
Qed.

Lemma fetch_loop_keys (fetch_utxos : pystr -> list unspent)
    (recipients : list recipient) :
  forall d,
    NoDup (map fst d) ->
    Forall (fun e => snd e = fetch_utxos (fst e)) d ->
    let d' :=
      fold_left
        (fun d r =>
           let asset := asset_of r in
           if negb (dict_has asset d) then d ++ [(asset, fetch_utxos asset)]
           else d)
        recipients d in
    NoDup (map fst d')
    /\ Forall (fun e => snd e = fetch_utxos (fst e)) d'
    /\ (forall a, In a (map fst d') <->
                  In a (map fst d) \/ In a (map asset_of recipients)).
Proof.
  induction recipients as [|r rs IH]; intros d Hnd Hf; cbn [fold_left map].
  - split; [exact Hnd|]. split; [exact Hf|]. intros a. cbn. tauto.
  - cbv zeta.
    destruct (dict_has (asset_of r) d) eqn:Eh; cbn [negb].
    + destruct (IH d Hnd Hf) as (H1 & H2 & H3).
      split; [exact H1|]. split; [exact H2|]. intros a. rewrite H3.
      apply dict_has_In in Eh. cbn [In]. split; [tauto|].
      intros [H|[H|H]]; [tauto | subst a; tauto | tauto].
    + assert (Hn : ~ In (asset_of r) (map fst d)).
      { intros H. apply dict_has_In in H. congruence. }
      destruct (IH (d ++ [(asset_of r, fetch_utxos (asset_of r))]))
        as (H1 & H2 & H3).
      * rewrite map_app. cbn [map fst].
        apply NoDup_app; [exact Hnd | repeat constructor; intros [] |].
        intros a Ha [Hb|[]]. subst a. contradiction.
      * apply Forall_app. split; [exact Hf|]. repeat constructor.
      * split; [exact H1|]. split; [exact H2|]. intros a. rewrite H3.
        rewrite map_app, in_app_iff. cbn [map fst In]. tauto.
Qed.

Lemma fetch_by_asset_keys (fetch_utxos : pystr -> list unspent)
    (recipients : list recipient) :
  let d := fetch_by_asset fetch_utxos recipients in
  NoDup (map fst d)
  /\ Forall (fun e => snd e = fetch_utxos (fst e)) d
  /\ (forall a, In a (map fst d) <->
                a = lit "EVR" \/ In a (map asset_of recipients)).
Proof.
  cbv zeta. unfold fetch_by_asset.
  destruct (fetch_loop_keys fetch_utxos recipients [] (NoDup_nil _)
              (Forall_nil _)) as (H1 & H2 & H3).
  cbv zeta in H1, H2, H3.
  set (d := fold_left _ recipients []) in *.
  destruct (dict_has (lit "EVR") d) eqn:Eh; cbn [negb].
  - split; [exact H1|]. split; [exact H2|]. intros a. rewrite H3.
    cbn [map In]. split; [tauto|]. intros [H|H]; [|tauto].
    subst a. apply dict_has_In in Eh. apply H3 in Eh. exact Eh.
  - assert (Hn : ~ In (lit "EVR") (map fst d)).
    { intros H. apply dict_has_In in H. congruence. }
    split; [|split].
    + rewrite map_app. cbn [map fst].
      apply NoDup_app; [exact H1 | repeat constructor; intros [] |].
      intros a Ha [Hb|[]]. subst a. contradiction.
    + apply Forall_app. split; [exact H2|]. repeat constructor.
    + intros a. rewrite map_app, in_app_iff, H3. cbn [map fst In].
      split.
      * intros [[[]|H]|[H|[]]]; [right; exact H | left; symmetry; exact H].
      * intros [H|H]; [right; left; symmetry; exact H | left; right; exact H].
Qed.

Lemma fold_left_add (l : list Z) (a : Z) :
  fold_left Z.add l a = a + fold_right Z.add 0 l.
Proof.
  revert a. induction l as [|x l IH]; intros a; cbn [fold_left fold_right].
  - lia.
  - rewrite IH. lia.
Qed.

Lemma total_output_amount_cons (r : recipient) (rs : list recipient)
    (asset : pystr) :
  total_output_amount (r :: rs) asset
  = (if str_eqb (asset_of r) asset then recipient_amount r else 0)
    + total_output_amount rs asset.
Proof.
  unfold total_output_amount. cbn [filter].
  destruct (str_eqb (asset_of r) asset); cbn [map];
    rewrite !fold_left_add; cbn [fold_right]; lia.
Qed.

Lemma change_values_spec (recipients : list recipient) (fee_rate : Z)
    (txins : list CMutableTxIn) (totals cv : list (pystr * Z)) :
  change_values recipients fee_rate txins totals = Ret cv ->
  let fee :=
    fee_rate * TxUtils.estimateTransactionSize (Z.of_nat (length txins))
                 (Z.of_nat (length recipients) + 1) 1 in
  cv = map (fun e => (fst e,
                      snd e - (total_output_amount recipients (fst e)
                               + fee_share fee (fst e)))) totals
  /\ Forall (fun e => 0 <= snd e) cv.
Proof.
  cbv zeta. revert cv. induction totals as [|[asset total] rest IH]; intros cv H.
  - cbn in H. injection H as <-. split; [reflexivity | constructor].
  - cbn [change_values] in H. cbv zeta in H.
    match type of H with
    | (if ?c <? 0 then _ else _) = _ =>
        set (change := c) in H; destruct (Z.ltb_spec change 0) as [Hc|Hc]
    end; [discriminate|].
    destruct (change_values recipients fee_rate txins rest) as [cv'|e] eqn:E;
      [|discriminate].
    cbn [bind] in H. injection H as <-.
    destruct (IH cv' eq_refl) as (E1 & E2).
    assert (Hchange :
              change
              = total
                - (total_output_amount recipients asset
                   + fee_share
                       (fee_rate
                        * TxUtils.estimateTransactionSize
                            (Z.of_nat (length txins))
                            (Z.of_nat (length recipients) + 1) 1) asset)).
    { unfold change, fee_share. destruct (str_eqb asset (lit "EVR")); lia. }
    split.
    + cbn [map fst snd]. rewrite <- Hchange, <- E1. reflexivity.
    + constructor; [exact Hc | exact E2].
Qed.

Lemma asset_txout_nValue (asset : pystr) (script : CScript) (amount : Z)
    (out : CMutableTxOut) :
  asset_txout asset script amount = Ret out ->
  nValue out = if str_eqb asset (lit "EVR") then amount else 0.
Proof.
  unfold asset_txout. destruct (str_eqb asset (lit "EVR")); cbn [negb].
  - intros [= <-]. reflexivity.
  - destruct (encodeAssetTag (lit "evr") asset amount); cbn [bind];
      [intros [= <-]; reflexivity | discriminate].
Qed.

Lemma compileOutputs_recipients_spec (C : Collaborators)
    (recipients : list recipient) (outs : list CMutableTxOut) :
  compileOutputs_recipients C recipients = Ret outs ->
  Forall (fun r => 546 <= recipient_amount r) recipients
  /\ length outs = length recipients
  /\ sum_nValue outs = total_output_amount recipients (lit "EVR").
Proof.
  revert outs. induction recipients as [|r rs IH]; intros outs H.
  - cbn in H. injection H as <-. split; [constructor|]. split; reflexivity.
  - cbn [compileOutputs_recipients] in H. cbv zeta in H.
    destruct (address_to_scriptPubKey C (recipient_address r)) as [script|e];
      [|discriminate].
    cbn [bind] in H.
    destruct (Z.ltb_spec (recipient_amount r) 546) as [Hd|Hd]; [discriminate|].
    destruct (asset_txout (asset_of r) script (recipient_amount r))
      as [out|e] eqn:Eo; [|discriminate].
    cbn [bind] in H.
    destruct (compileOutputs_recipients C rs) as [outs'|e]; [|discriminate].
    cbn [bind] in H. injection H as <-.
    destruct (IH outs' eq_refl) as (H1 & H2 & H3).
    split; [constructor; [exact Hd | exact H1]|].
    split; [cbn [length]; rewrite H2; reflexivity|].
    rewrite total_output_amount_cons.
    unfold sum_nValue in *. cbn [map fold_right]. rewrite H3.
    rewrite (asset_txout_nValue _ _ _ _ Eo). reflexivity.
Qed.

Lemma compileOutputs_change_spec (C : Collaborators)
    (change_address : option pystr) (cv : list (pystr * Z))
    (changes : list CMutableTxOut) :
  compileOutputs_change C cv change_address = Ret changes ->
  length changes
  = length (filter (fun e => change_kept change_address (snd e)) cv)
  /\ sum_nValue changes
     = fold_right Z.add 0
         (map (fun e => if change_kept change_address (snd e)
                        then fee_share (snd e) (fst e) else 0) cv).
Proof.
  revert changes. induction cv as [|[asset change] rest IH]; intros changes H.
  - cbn in H. injection H as <-. split; reflexivity.
  - cbn [compileOutputs_change] in H.
    assert (Hhere :
              forall here,
                match change_address with
                | Some change_address =>
                    if 546 <? change then
                      change_script_pubkey <-
                        address_to_scriptPubKey C change_address ;;
                      change_txout <-
                        asset_txout asset change_script_pubkey change ;;
                      Ret [change_txout]
                    else Ret []
                | None => Ret []
                end = Ret here ->
                length here
                = (if change_kept change_address change then 1%nat else 0%nat)
                /\ sum_nValue here
                   = if change_kept change_address change
                     then fee_share change asset else 0).
    { intros here Hh. unfold change_kept.
      destruct change_address as [a|]; [|injection Hh as <-; split; reflexivity].
      destruct (546 <? change); [|injection Hh as <-; split; reflexivity].
      destruct (address_to_scriptPubKey C a) as [s|e]; [|discriminate].
      cbn [bind] in Hh.
      destruct (asset_txout asset s change) as [o|e] eqn:Eo; [|discriminate].
      cbn [bind] in Hh. injection Hh as <-. split; [reflexivity|].
      unfold sum_nValue, fee_share. cbn [map fold_right].
      rewrite (asset_txout_nValue _ _ _ _ Eo). lia. }
    match type of H with
    | bind ?m _ = _ => destruct m as [here|e] eqn:Eh; [|discriminate]
    end.
    cbn [bind] in H.
    destruct (compileOutputs_change C rest change_address) as [outs'|e];
      [|discriminate].
    cbn [bind] in H. injection H as <-.
    destruct (IH outs' eq_refl) as (H1 & H2).
    destruct (Hhere here eq_refl) as (L1 & L2).
    cbn [filter map fold_right fst snd].
    split.
    + rewrite length_app, L1, H1.
      destruct (change_kept change_address change); reflexivity.
    + unfold sum_nValue in *. rewrite map_app, fold_right_app.
      rewrite <- H2.
      assert (Hfold : forall (l : list Z) (a : Z),
                 fold_right Z.add a l = fold_right Z.add 0 l + a).
      { intros l a. induction l as [|x l IHl]; cbn [fold_right]; lia. }
      rewrite Hfold, L2. lia.
Qed.

(** The currency of the change outputs when the keys are distinct: the
    change of ['EVR'] if it is kept. *)
Lemma evr_change_unique (change_address : option pystr) (cv : list (pystr * Z))
    (change : Z) :
  NoDup (map fst cv) ->
  In (lit "EVR", change) cv ->
  fold_right Z.add 0
    (map (fun e => if change_kept change_address (snd e)
                   then fee_share (snd e) (fst e) else 0) cv)
  = if change_kept change_address change then change else 0.
Proof.
  induction cv as [|[a c] rest IH]; intros Hnd Hin; [destruct Hin|].
  cbn [map fold_right fst snd]. inversion Hnd as [|? ? Hnot Hnd']; subst.
  assert (Hrest : forall l : list (pystr * Z),
             ~ In (lit "EVR") (map fst l) ->
             fold_right Z.add 0
               (map (fun e => if change_kept change_address (snd e)
                              then fee_share (snd e) (fst e) else 0) l) = 0).
  { intros l. induction l as [|[a' c'] l IHl]; intros Hn; [reflexivity|].
    cbn [map fold_right fst snd]. rewrite IHl by (intros H; apply Hn; right; exact H).
    unfold fee_share. rewrite str_eqb_neq by (intros H; apply Hn; left; exact H).
    destruct (change_kept change_address c'); reflexivity. }
  destruct Hin as [Hin|Hin].
  - injection Hin as -> ->. rewrite (Hrest rest Hnot).
    unfold fee_share. rewrite str_eqb_refl.
    destruct (change_kept change_address change); lia.
  - rewrite (IH Hnd' Hin).
    assert (Hne : a <> lit "EVR").
    { intros ->. apply Hnot. apply in_map_iff.
      exists (lit "EVR", change). split; [reflexivity | exact Hin]. }
    unfold fee_share at 1. rewrite (str_eqb_neq _ _ Hne).
    destruct (change_kept change_address c); reflexivity.
Qed.

Lemma create_unsigned_transaction_multi_try_spec (C : Collaborators)
    (fetch_utxos : pystr -> list unspent) (recipients : list recipient)
    (fee_rate : Z) (change_address : option pystr) (tx : CMutableTransaction) :
  create_unsigned_transaction_multi_try C fetch_utxos recipients fee_rate
    change_address = Ret tx ->
  let assets := map fst (fetch_by_asset fetch_utxos recipients) in
  let fee :=
    fee_rate * TxUtils.estimateTransactionSize (Z.of_nat (length (vin tx)))
                 (Z.of_nat (length recipients) + 1) 1 in
  exists takens cv outs changes,
    vin tx = map new_txin (concat takens)
    /\ Forall2
         (fun asset taken =>
            (exists required,
                (asset <> lit "EVR" ->
                 required = requested (required_amounts_of recipients) asset)
                /\ gathered required (fetch_utxos asset) taken)
            /\ total_output_amount recipients asset + fee_share fee asset
               <= sum_values taken)
         assets takens
    /\ cv = map (fun e => (fst e,
                           snd e - (total_output_amount recipients (fst e)
                                    + fee_share fee (fst e))))
              (combine assets (map sum_values takens))
    /\ compileOutputs_recipients C recipients = Ret outs
    /\ compileOutputs_change C cv change_address = Ret changes
    /\ vout tx = outs ++ changes.
Proof.
  cbv zeta. unfold create_unsigned_transaction_multi_try.
  destruct recipients as [|r0 rs]; [discriminate|].
  set (recipients := r0 :: rs). unfold compileInputs.
  destruct (compileInputs_loop (required_amounts_of recipients) fee_rate
              (fetch_by_asset fetch_utxos recipients) [])
    as [[txins totals]|e] eqn:E; [|discriminate].
  destruct (compileInputs_loop_spec _ _ _ _ _ _ E) as (takens & -> & -> & HF).
  cbn [bind app].
  destruct (change_values recipients fee_rate (map new_txin (concat takens)) _)
    as [cv|e] eqn:Ecv; [|discriminate].
  cbn [bind]. unfold compileOutputs.
  destruct (compileOutputs_recipients C recipients) as [outs|e] eqn:Eo;
    [|discriminate].
  cbn [bind].
  destruct (compileOutputs_change C cv change_address) as [changes|e] eqn:Ec;
    [|discriminate].
  cbn [bind]. intros [= <-]. cbn [vin vout].
  exists takens, cv, outs, changes.
  destruct (change_values_spec _ _ _ _ _ Ecv) as (Ecv' & Hpos).
  cbv zeta in Ecv'.
  destruct (fetch_by_asset_keys fetch_utxos recipients) as (_ & Hfetch & _).
  cbv zeta in Hfetch.
  set (fee := fee_rate * TxUtils.estimateTransactionSize _ _ _) in *.
  split; [reflexivity|]. split; [|split; [exact Ecv'|]].
  - rewrite Ecv' in Hpos. clear Ecv' Ecv Ec E. clearbody fee.
    revert HF Hfetch Hpos.
    generalize (fetch_by_asset fetch_utxos recipients) as uba.
    intros uba HF.
    induction HF as [|[a us] taken l l' (required & Hne & _ & Hg) _ IH];
      intros Hfetch Hpos; [constructor|].
    inversion Hfetch as [|? ? Hf1 Hf2]; subst.
    cbn [map fst snd combine] in Hpos |- *.
    inversion Hpos as [|? ? Hp1 Hp2]; subst.
    constructor; [|exact (IH Hf2 Hp2)].
    cbn [fst snd] in *. rewrite <- Hf1.
    split; [exists required; split; [exact Hne | exact Hg] | lia].
  - split; [reflexivity|]. split; [exact Ec | reflexivity].
Qed.

Lemma combine_map_fst {A B : Type} (l : list A) (l' : list B) :
  length l = length l' -> map fst (combine l l') = l.
Proof.
  revert l'. induction l as [|a l IH]; intros [|b l'] H; try discriminate.
  - reflexivity.
  - cbn. f_equal. apply IH. cbn in H. lia.
Qed.

Lemma Forall2_combine_In {A B : Type} (R : A -> B -> Prop) (l : list A)
    (l' : list B) (a : A) (b : B) :
  Forall2 R l l' -> In (a, b) (combine l l') -> R a b.
Proof.
  intros HF. induction HF as [|x y l l' Hxy _ IH]; intros Hin; [destruct Hin|].
  destruct Hin as [Hin|Hin]; [injection Hin as <- <-; exact Hxy | exact (IH Hin)].
Qed.

Lemma Forall2_In_l {A B : Type} (R : A -> B -> Prop) (l : list A)
    (l' : list B) (a : A) :
  Forall2 R l l' -> In a l -> exists b, In (a, b) (combine l l').
Proof.
  intros HF. induction HF as [|x y l l' _ _ IH]; intros Hin; [destruct Hin|].
  destruct Hin as [<-|Hin].
  - exists y. left. reflexivity.
  - destruct (IH Hin) as (b & Hb). exists b. right. exact Hb.
Qed.

Lemma In_combine_map {A B B' : Type} (f : B -> B') (l : list A) (l' : list B)
    (a : A) (b : B) :
  In (a, b) (combine l l') -> In (a, f b) (combine l (map f l')).
Proof.
  revert l'. induction l as [|x l IH]; intros [|y l'] Hin; try destruct Hin.
  - left. injection H as -> ->. reflexivity.
  - right. exact (IH l' H).
Qed.

(** X19: whenever [create_unsigned_transaction_multi] returns a
    transaction, every recipient is sent at least 546 and the inputs are,
    asset after asset, leading outputs of 546 or more among those fetched
    for the assets of the recipients and for ['EVR'].  For every asset the
    inputs cover what is sent in it, and for ['EVR'] the fee as well,
    estimated for the inputs of the transaction and one output more than
    there are recipients.  The currency of the inputs is the currency of
    the outputs plus that fee plus a remainder that gets no output: it is
    never negative, it is at most 546 when a change address is given, and
    it is the whole change when none is given. *)
Theorem create_unsigned_transaction_multi_balance (C : Collaborators)
    (fetch_utxos : pystr -> list unspent) (recipients : list recipient)
    (fee_rate : Z) (change_address : option pystr) (tx : CMutableTransaction) :
  Forall ascii_asset recipients ->
  create_unsigned_transaction_multi C fetch_utxos recipients fee_rate
    change_address = Some tx ->
  let fee :=
    fee_rate * TxUtils.estimateTransactionSize (Z.of_nat (length (vin tx)))
                 (Z.of_nat (length recipients) + 1) 1 in
  let sent := total_output_amount recipients in
  let assets := map fst (fetch_by_asset fetch_utxos recipients) in
  Forall (fun r => 546 <= recipient_amount r) recipients
  /\ exists takens evr,
       vin tx = map new_txin (concat takens)
       /\ Forall2
            (fun asset taken =>
               (exists k, taken = firstn k (spendable (fetch_utxos asset)))
               /\ sent asset + fee_share fee asset <= sum_values taken)
            assets takens
       /\ In (lit "EVR", evr) (combine assets takens)
       /\ exists remainder,
            sum_values evr = sum_nValue (vout tx) + fee + remainder
            /\ 0 <= remainder
            /\ (change_address <> None -> remainder <= 546)
            /\ (change_address = None ->
                remainder = sum_values evr - sent (lit "EVR") - fee).
Proof.
  intros _ H. unfold create_unsigned_transaction_multi in H.
  destruct (create_unsigned_transaction_multi_try C fetch_utxos recipients
              fee_rate change_address) as [tx'|e] eqn:E; [|discriminate].
  injection H as ->.
  destruct (create_unsigned_transaction_multi_try_spec _ _ _ _ _ _ E)
    as (takens & cv & outs & changes & Hin & HF & Ecv & Ho & Hc & Hout).
  cbv zeta in HF, Ecv |- *.
  destruct (fetch_by_asset_keys fetch_utxos recipients) as (Hnd & _ & Hkeys).
  cbv zeta in Hnd, Hkeys.
  set (assets := map fst (fetch_by_asset fetch_utxos recipients)) in *.
  set (fee := fee_rate * _) in *.
  destruct (compileOutputs_recipients_spec _ _ _ Ho) as (Hdust & _ & Hsum).
  destruct (compileOutputs_change_spec _ _ _ _ Hc) as (_ & Hsumc).
  assert (Hlen : length assets = length (map sum_values takens)).
  { rewrite length_map. exact (Forall2_length HF). }
  assert (HF' : Forall2
                  (fun asset taken =>
                     (exists k, taken = firstn k (spendable (fetch_utxos asset)))
                     /\ total_output_amount recipients asset
                        + fee_share fee asset <= sum_values taken)
                  assets takens).
  { eapply Forall2_impl; [|exact HF].
    intros a t ((required & _ & (Hk & _)) & Hle). split; [exact Hk | exact Hle]. }
  split; [exact Hdust|].
  assert (Hevr : In (lit "EVR") assets) by (apply Hkeys; left; reflexivity).
  destruct (Forall2_In_l _ _ _ _ HF' Hevr) as (evr & Hevr').
  destruct (Forall2_combine_In _ _ _ _ _ HF' Hevr') as (_ & Hcover).
  exists takens, evr.
  split; [exact Hin|]. split; [exact HF'|]. split; [exact Hevr'|].
  set (change := sum_values evr - (total_output_amount recipients (lit "EVR")
                                   + fee_share fee (lit "EVR"))).
  assert (Hcvin : In (lit "EVR", change) cv).
  { rewrite Ecv. apply in_map_iff. exists (lit "EVR", sum_values evr).
    split; [reflexivity|].
    apply In_combine_map. exact Hevr'. }
  assert (Hndcv : NoDup (map fst cv)).
  { rewrite Ecv, map_map. cbn [fst].
    rewrite (map_ext _ fst) by reflexivity.
    rewrite (combine_map_fst _ _ Hlen). exact Hnd. }
  rewrite (evr_change_unique change_address cv change Hndcv Hcvin) in Hsumc.
  assert (Hfs : fee_share fee (lit "EVR") = fee)
    by (unfold fee_share; rewrite str_eqb_refl; reflexivity).
  rewrite Hfs in *.
  exists (if change_kept change_address change then 0 else change).
  rewrite Hout. unfold sum_nValue in *. rewrite map_app, fold_right_app.
  assert (Hfold : forall (l : list Z) (a : Z),
             fold_right Z.add a l = fold_right Z.add 0 l + a).
  { intros l a. induction l as [|x l IHl]; cbn [fold_right]; lia. }
  rewrite Hfold, Hsum, Hsumc.
  unfold change_kept in *. destruct change_address as [ca|].
  - destruct (Z.ltb_spec 546 change).
    + split; [unfold change; lia|]. split; [lia|].
      split; [intros _; lia | discriminate].
    + split; [unfold change; lia|]. split; [unfold change; lia|].
      split; [intros _; lia | discriminate].
  - split; [unfold change; lia|]. split; [unfold change; lia|].
    split; [intros Hn; contradiction | intros _; unfold change; lia].
Qed.

Lemma sum_values_nonneg (l : list unspent) :
  Forall (fun u => 546 <= value u) l -> 0 <= sum_values l.
Proof.
  induction 1 as [|u l Hu _ IH]; [cbn; lia|].
  change (sum_values (u :: l)) with (value u + sum_values l). lia.
Qed.

Lemma spendable_Forall (utxos : list unspent) :
  Forall (fun u => 546 <= value u) (spendable utxos).
Proof.
  apply Forall_forall. intros u Hu. apply filter_In in Hu. destruct Hu as [_ Hu].
  destruct (Z.ltb_spec (value u) 546); [discriminate | lia].
Qed.

(** X20: the inputs of an asset are gathered for the amount of its last
    recipient alone.  When recipients share an asset other than ['EVR']
    and the first output of 546 or more fetched for it covers the amount
    of the last of them but not the sum of their amounts,
    [create_unsigned_transaction_multi] returns [None], whatever else was
    fetched for the asset. *)
Theorem create_unsigned_transaction_multi_last_amount (C : Collaborators)
    (fetch_utxos : pystr -> list unspent) (before after : list recipient)
    (r : recipient) (fee_rate : Z) (change_address : option pystr)
    (u : unspent) (rest : list unspent) :
  Forall ascii_asset (before ++ r :: after) ->
  asset_of r <> lit "EVR" ->
  Forall (fun x => asset_of x <> asset_of r) after ->
  spendable (fetch_utxos (asset_of r)) = u :: rest ->
  recipient_amount r <= value u
  < total_output_amount (before ++ r :: after) (asset_of r) ->
  create_unsigned_transaction_multi C fetch_utxos (before ++ r :: after)
    fee_rate change_address = None.
Proof.
  intros _ Hne Hafter Hsp [Hlast Hsum].
  unfold create_unsigned_transaction_multi.
  destruct (create_unsigned_transaction_multi_try C fetch_utxos
              (before ++ r :: after) fee_rate change_address)
    as [tx|e] eqn:E; [exfalso | reflexivity].
  destruct (create_unsigned_transaction_multi_try_spec _ _ _ _ _ _ E)
    as (takens & cv & outs & changes & _ & HF & _).
  cbv zeta in HF.
  destruct (fetch_by_asset_keys fetch_utxos (before ++ r :: after))
    as (_ & _ & Hkeys).
  cbv zeta in Hkeys.
  assert (Hin : In (asset_of r)
                  (map fst (fetch_by_asset fetch_utxos (before ++ r :: after)))).
  { apply Hkeys. right. rewrite map_app. apply in_or_app. right. left.
    reflexivity. }
  destruct (Forall2_In_l _ _ _ _ HF Hin) as (taken & Htaken).
  destruct (Forall2_combine_In _ _ _ _ _ HF Htaken)
    as ((required & Hreq & (k & Hk) & _ & Hm) & Hcover).
  rewrite (Hreq Hne), (requested_last _ _ _ Hafter) in Hm.
  unfold fee_share in Hcover. rewrite (str_eqb_neq _ _ Hne) in Hcover.
  pose proof (spendable_Forall (fetch_utxos (asset_of r))) as Hall.
  rewrite Hsp in Hk, Hall. inversion Hall as [|? ? Hu Hrest]; subst.
  destruct k as [|k]; cbn [firstn] in Hcover, Hm.
  - cbn in Hcover. lia.
  - destruct (firstn k rest) as [|x l] eqn:Ef.
    + cbn in Hcover. lia.
    + destruct (exists_last (l := x :: l)) as (l0 & last & El); [discriminate|].
      specialize (Hm (u :: l0) last). rewrite El in Hm. specialize (Hm eq_refl).
      assert (Hl0 : Forall (fun u => 546 <= value u) l0).
      { apply Forall_forall. intros y Hy.
        assert (Hy' : In y (firstn k rest)).
        { rewrite Ef, El. apply in_or_app. left. exact Hy. }
        apply In_firstn in Hy'.
        rewrite Forall_forall in Hrest. exact (Hrest y Hy'). }
      apply sum_values_nonneg in Hl0.
      change (sum_values (u :: l0)) with (value u + sum_values l0) in Hm. lia.
Qed.

Lemma compileInputs_gathers_witness :
  exists txins,
    compileInputs [(lit "SATORI", fetched (lit "SATORI"));
                   (lit "EVR", fetched (lit "EVR"))]
      [(lit "SATORI", 800)] 1
    = Ret (txins, [(lit "SATORI", 900); (lit "EVR", 2000)]).
Proof.
  destruct (compileInputs_gathers
              [(lit "SATORI", fetched (lit "SATORI"));
               (lit "EVR", fetched (lit "EVR"))]
              [(lit "SATORI", 800)] 1 ltac:(lia)) as (Hret & _ & _).
  destruct Hret as (txins & totals & E).
  { repeat constructor. }
  exists txins. rewrite E. f_equal. f_equal.
  vm_compute in E. injection E as _ E. symmetry. exact E.
Defined.

Lemma create_unsigned_transaction_multi_balance_witness :
  exists tx,
    create_unsigned_transaction_multi (toyCollaborators emptyTx) fetched
      [currencyRecipient] 1 (Some serverAddress) = Some tx
    /\ sum_nValue (vout tx) <= 2700.
Proof.
  assert (Hrun : exists tx,
             create_unsigned_transaction_multi (toyCollaborators emptyTx)
               fetched [currencyRecipient] 1 (Some serverAddress) = Some tx).
  { vm_compute. eexists. reflexivity. }
  destruct Hrun as (tx & Hrun). exists tx. split; [exact Hrun|].
  assert (Hascii : Forall ascii_asset [currencyRecipient])
    by (repeat constructor).
  destruct (create_unsigned_transaction_multi_balance _ _ _ _ _ _ Hascii Hrun)
    as (_ & takens & evr & Hin & HF & Hevr & remainder & Hsum & Hpos & _).
  assert (Hle : sum_values evr <= 2700).
  { revert Hevr HF. vm_compute fetch_by_asset. cbn [map fst combine].
    intros Hevr HF. inversion HF as [|? ? ? ? ((k & Hk) & _) HF']; subst.
    inversion HF'; subst. destruct Hevr as [Hevr|[]].
    apply (f_equal snd) in Hevr. cbn [snd] in Hevr. subst evr.
    destruct k as [|[|[|k]]]; vm_compute; discriminate. }
  assert (Hfee : 0 <= 1 * TxUtils.estimateTransactionSize
                          (Z.of_nat (length (vin tx)))
                          (Z.of_nat (length [currencyRecipient]) + 1) 1)
    by (unfold TxUtils.estimateTransactionSize; cbn [length]; lia).
  cbv zeta in Hsum. lia.
Defined.

Lemma create_unsigned_transaction_multi_last_amount_witness :
  create_unsigned_transaction_multi (toyCollaborators emptyTx) fetched
    [firstRecipient; secondRecipient] 1 (Some serverAddress) = None.
Proof.
  apply (create_unsigned_transaction_multi_last_amount (toyCollaborators emptyTx)
           fetched [firstRecipient] [] secondRecipient 1 (Some serverAddress)
           (utxo 900) [utxo 5000]).
  - repeat constructor; vm_compute; reflexivity.
  - vm_compute. discriminate.
  - constructor.
  - reflexivity.
  - vm_compute. split; [discriminate | reflexivity].
Defined.
